(** * Job orchestration core of the processing service

    A shallow embedding of the orchestration components of
    [services/processing-service] (job manager, resource allocator, retry
    handler, dead letter queue, worker scaler, batch processor) together
    with the properties stated about them.

    Conventions of the embedding:
    - Python [float] values are rationals ([Q]); [int] values are [Z].
    - A method that can raise returns [pyresult], the error monad below; a
      method whose body is wrapped in [try ... except Exception] is given
      the value its handler returns.
    - [dict] objects whose iteration order is observable are association
      lists in insertion order ([odict]); the others are [gmap]s.
    - An [async] method that never gives up control before its last
      statement is one step on the explicit state of its object (the
      datastore client and the unbounded queue never suspend their
      caller). [JobManager.process_job_async] does give up control, at
      [process_file] and at the completion callback: it is given both as
      one step and in parts, between which other calls are served.
    - Collaborators outside the orchestration core (datastore, pipeline
      registry, processing executor, clock, random source) appear as
      explicit arguments. *)

From Stdlib Require Import ZArith QArith Qabs Qpower Qminmax Lqa Lia Bool Ascii.
From stdpp Require Import base option list strings pretty gmap.

Local Open Scope Z_scope.

(** ** Python primitives *)

Module Py.

(** Exceptions that the modelled code can meet. *)
Inductive exn : Type :=
| ZeroDivisionError
| TypeError
| KeyError
| ValueError (msg : string)
| ValidationError (msg : string)
| OverflowError (msg : string)
| AttributeError (msg : string).

(** [str(e)] *)
Definition exn_str (e : exn) : string :=
  match e with
  | ZeroDivisionError => "division by zero"
  | TypeError => "unsupported operand types"
  | KeyError => "key not found"
  | ValueError msg => msg
  | ValidationError msg => msg
  | OverflowError msg => msg
  | AttributeError msg => msg
  end.

Inductive pyresult (A : Type) : Type :=
| Ok (a : A)
| Raise (e : exn).
Arguments Ok {A} a.
Arguments Raise {A} e.

Definition bind {A B} (r : pyresult A) (k : A -> pyresult B) : pyresult B :=
  match r with
  | Ok a => k a
  | Raise e => Raise e
  end.

Definition is_ok {A} (r : pyresult A) : bool :=
  match r with
  | Ok _ => true
  | Raise _ => false
  end.

(** [a < b] on floats, as a boolean. *)
Definition Qlt_bool (a b : Q) : bool := negb (Qle_bool b a).

(** The largest float, [sys.float_info.max]. *)
Definition float_max : Q := inject_Z ((2 ^ 53 - 1) * 2 ^ 971).

(** A result of this magnitude rounds to no finite float. *)
Definition float_overflow : Q := inject_Z (2 ^ 1024 - 2 ^ 970).

(** The conversion of an int to a float, with which the arithmetic of a
    float and an int begins. *)
Definition float_of_int (n : Z) : pyresult Q :=
  if Qle_bool float_overflow (Qabs (inject_Z n))
  then Raise (OverflowError "int too large to convert to float")
  else Ok (inject_Z n).

(** [int(x)]: truncation towards zero. *)
Definition int_of_float (x : Q) : Z := Z.quot (Qnum x) (Zpos (Qden x)).

(** [str.lower()] on ASCII text. *)
Definition ascii_lower (c : Ascii.ascii) : Ascii.ascii :=
  let n := Ascii.nat_of_ascii c in
  if (65 <=? n)%nat && (n <=? 90)%nat then Ascii.ascii_of_nat (n + 32) else c.

Fixpoint lower (s : string) : string :=
  match s with
  | EmptyString => EmptyString
  | String c s' => String (ascii_lower c) (lower s')
  end.

(** [pat in s] on strings. *)
Fixpoint contains (pat s : string) : bool :=
  String.prefix pat s ||
  match s with
  | EmptyString => false
  | String _ s' => contains pat s'
  end.

(** A [dict] in insertion order. Assigning to a key that is present
    keeps its position; a new key goes to the end. *)
Definition odict (V : Type) : Type := list (string * V).

Fixpoint oget {V} (k : string) (d : odict V) : option V :=
  match d with
  | [] => None
  | (k', v) :: d' => if decide (k = k') then Some v else oget k d'
  end.

Fixpoint oset {V} (k : string) (v : V) (d : odict V) : odict V :=
  match d with
  | [] => [(k, v)]
  | (k', v') :: d' =>
      if decide (k = k') then (k, v) :: d' else (k', v') :: oset k v d'
  end.

Definition ovalues {V} (d : odict V) : list V := map snd d.
Definition okeys {V} (d : odict V) : list string := map fst d.

(** A dict display [{k1: v1, k2: v2, ...}], evaluated left to right. *)
Definition odict_display {V} (items : list (string * V)) : odict V :=
  fold_left (fun d kv => oset (fst kv) (snd kv) d) items [].

End Py.

Notation "'let*' x := r 'in' k" := (Py.bind r (fun x => k))
  (at level 10, x name, r at level 100, k at level 200).

(** ** models.py *)

Module Models.
Import Py.

Inductive JobStatus : Type := PENDING | RUNNING | COMPLETED | FAILED | CANCELLED.

Inductive JobPriority : Type := LOW | MEDIUM | HIGH | URGENT.

(** The string behind a member of [JobPriority]. *)
Definition priority_str (p : JobPriority) : string :=
  match p with
  | LOW => "low"
  | MEDIUM => "medium"
  | HIGH => "high"
  | URGENT => "urgent"
  end.

#[global] Instance JobStatus_eq_dec : EqDecision JobStatus.
Proof. solve_decision. Defined.

#[global] Instance JobPriority_eq_dec : EqDecision JobPriority.
Proof. solve_decision. Defined.

(** [status in [COMPLETED, FAILED, CANCELLED]] *)
Definition is_terminal (s : JobStatus) : bool :=
  match s with
  | COMPLETED | FAILED | CANCELLED => true
  | PENDING | RUNNING => false
  end.

(** A value of a [Dict[str, Any]] bag, as far as the core reads it: a
    number, a string or [None]. *)
Inductive pyval : Type :=
| VNum (q : Q)
| VStr (s : string)
| VNone.

Record PipelineStep : Type := {
  step_name : string;
  processing_type : string
}.

Record ProcessingPipeline : Type := {
  pl_pipeline_id : string;
  pl_name : string;
  steps : list PipelineStep
}.

Record JobResult : Type := {
  success : bool;
  output_files : list string;
  jr_error_message : option string;
  processing_time_seconds : Q
}.

(** Times are microseconds since the epoch ([datetime] resolution).
    [Job] is configured with [use_enum_values]: a priority that is given
    to the constructor is validated and then held as the plain string of
    its value ([priority_is_str]); the default, which is not validated,
    stays the member [JobPriority.MEDIUM]. The two compare and hash
    alike, so that a lookup in a dict keyed by the members finds either. *)
Record Job : Type := {
  job_id : string;
  file_id : string;
  pipeline_id : option string;
  custom_pipeline : option ProcessingPipeline;
  status : JobStatus;
  priority : JobPriority;
  priority_is_str : bool;
  result : option JobResult;
  error_message : option string;
  created_at : Z;
  started_at : option Z;
  completed_at : option Z;
  callback_url : option string;
  metadata : odict pyval
}.

(** Truthiness of an [Optional[str]]: [None] and [""] are false. *)
Definition str_truthy (s : option string) : bool :=
  match s with
  | Some s => negb (String.eqb s "")
  | None => false
  end.

Record JobRequest : Type := {
  req_file_id : string;
  req_pipeline_id : option string;
  req_custom_pipeline : option ProcessingPipeline;
  req_priority : JobPriority;
  req_callback_url : option string;
  req_metadata : odict pyval
}.

(** A field value handed to a validator through [values]. *)
Inductive field_value : Type :=
| FStr (s : string)
| FOptStr (s : option string)
| FOptPipeline (p : option ProcessingPipeline).

Definition field_truthy (v : field_value) : bool :=
  match v with
  | FStr s => str_truthy (Some s)
  | FOptStr s => str_truthy s
  | FOptPipeline p => bool_decide (is_Some p)
  end.

(** [JobRequest.validate_pipeline(cls, v, values)], the validator of
    [pipeline_id] (run always). [values] holds the fields that were
    validated before the one under validation. *)
Definition validate_pipeline (v : option string) (values : gmap string field_value)
    : pyresult (option string) :=
  if match values !! "custom_pipeline"%string with
     | None => true
     | Some custom => negb (field_truthy custom)
     end
  then
    if negb (str_truthy v)
    then Raise (ValidationError "Either pipeline_id or custom_pipeline must be provided")
    else Ok v
  else Ok v.

(** [JobRequest(file_id=..., pipeline_id=..., custom_pipeline=..., ...)].
    Fields are validated in the order of their declaration: [file_id],
    [pipeline_id], [custom_pipeline], [priority], [callback_url],
    [metadata]; so the validator of [pipeline_id] sees only [file_id]. *)
Definition new_JobRequest (file_id : string) (pipeline_id : option string)
    (custom_pipeline : option ProcessingPipeline) (priority : JobPriority)
    (callback_url : option string) (metadata : odict pyval) : pyresult JobRequest :=
  let values : gmap string field_value := {[ "file_id"%string := FStr file_id ]} in
  let* pipeline_id := validate_pipeline pipeline_id values in
  Ok {| req_file_id := file_id;
        req_pipeline_id := pipeline_id;
        req_custom_pipeline := custom_pipeline;
        req_priority := priority;
        req_callback_url := callback_url;
        req_metadata := metadata |}.

(** [(a - b).total_seconds()] *)
Definition total_seconds (a b : Z) : Q := (inject_Z (a - b) / inject_Z 1000000)%Q.

(** An exception object, as far as the classifiers look at it:
    [str(error)], [type(error).__name__] and the [isinstance] tests. *)
Record Exception : Type := {
  exc_message : string;
  exc_type_name : string;
  isa_connection_or_os_error : bool;
  isa_value_or_type_error : bool;
  isa_timeout_error : bool
}.

End Models.

(** ** services/worker_scaler.py *)

Module WorkerScaler.
Import Py.

Record WorkerMetrics : Type := {
  worker_id : string;
  status : string;
  current_jobs : Z;
  max_concurrent_jobs : Z
}.

Record t : Type := {
  current_workers : Z;
  min_workers : Z;
  max_workers : Z;
  scale_up_threshold : Q;
  scale_down_threshold : Q;
  worker_metrics : odict WorkerMetrics
}.

(** The scale-up test
    [load_score > up or queue_size > 10 or (current_load / total_capacity) > 0.8];
    [or] evaluates its right operand only when the left one is false, so
    the division is reached last. *)
Definition scale_up_condition (self : t) (load_score : Q)
    (queue_size current_load total_capacity : Z) : pyresult bool :=
  if Qlt_bool (scale_up_threshold self) load_score then Ok true
  else if 10 <? queue_size then Ok true
  else if total_capacity =? 0 then Raise ZeroDivisionError
  else Ok (Qlt_bool (8 # 10)%Q (inject_Z current_load / inject_Z total_capacity)%Q).

Definition idle_workers (self : t) : Z :=
  Z.of_nat (length (filter (fun w => status w = "idle"%string)
                           (ovalues (worker_metrics self)))).

Definition no_action (self : t) : string * Z * string :=
  ("no_action"%string, current_workers self, "Load within acceptable range"%string).

Definition _determine_scaling_action (self : t) (load_score : Q)
    (queue_size current_load total_capacity : Z)
    : pyresult (string * Z * string) :=
  let* up := scale_up_condition self load_score queue_size current_load total_capacity in
  if up then
    if current_workers self <? max_workers self then
      if 50 <? queue_size then
        Ok ("scale_up"%string,
            Z.min (current_workers self + 5) (max_workers self),
            "High queue load - adding 5 workers"%string)
      else if 20 <? queue_size then
        Ok ("scale_up"%string,
            Z.min (current_workers self + 3) (max_workers self),
            "Medium queue load - adding 3 workers"%string)
      else
        Ok ("scale_up"%string,
            Z.min (current_workers self + 1) (max_workers self),
            "Moderate load - adding 1 worker"%string)
    else Ok (no_action self)
  else if Qlt_bool load_score (scale_down_threshold self)
          && (queue_size =? 0)
          && (min_workers self <? current_workers self) then
    if 2 <? idle_workers self then
      Ok ("scale_down"%string,
          Z.max (current_workers self - 1) (min_workers self),
          "Low load - removing 1 idle worker"%string)
    else Ok (no_action self)
  else Ok (no_action self).


(** [ScaleDecision] of models.py; the numbers of [metrics] are floats
    or ints. *)
Record ScaleDecision : Type := {
  action : string;
  target_workers : Z;
  reason : string;
  decision_current_workers : Z;
  metrics : odict Q
}.

(** [sum(f(w) for w in self.worker_metrics.values())] *)
Definition sum_over (f : WorkerMetrics -> Z) (self : t) : Z :=
  fold_left (fun total w => total + f w) (ovalues (worker_metrics self)) 0.

(** [max(a, b, c)]: the first of the largest arguments. *)
Definition max3 (a b c : Q) : Q :=
  let m := if Qlt_bool a b then b else a in
  if Qlt_bool m c then c else m.

(** [_get_queue_size()] *)
Definition _get_queue_size (self : t) : Z := 0.

(** [get_scaling_decision()]; [cpu_usage] and [memory_usage] are the
    entries of [system_metrics] after [_update_system_metrics]. An
    exception of the decision ends in the handler, which answers
    [no_action]. *)
Definition get_scaling_decision (self : t) (cpu_usage memory_usage : Q)
    : ScaleDecision :=
  let total_capacity := sum_over max_concurrent_jobs self in
  let current_load := sum_over current_jobs self in
  let load_percentage :=
    if 0 <? total_capacity
    then (inject_Z current_load / inject_Z total_capacity)%Q else 0%Q in
  let queue_size := _get_queue_size self in
  let cpu_factor := (cpu_usage / 100)%Q in
  let memory_factor := (memory_usage / 100)%Q in
  let load_factor := load_percentage in
  let load_score := max3 cpu_factor memory_factor load_factor in
  match _determine_scaling_action self load_score queue_size current_load
          total_capacity with
  | Ok (action, target_count, reason) =>
      {| action := action; target_workers := target_count; reason := reason;
         decision_current_workers := current_workers self;
         metrics :=
           [ ("load_score", load_score); ("queue_size", inject_Z queue_size);
             ("cpu_usage", cpu_usage); ("memory_usage", memory_usage);
             ("current_load", inject_Z current_load);
             ("total_capacity", inject_Z total_capacity) ]%string |}
  | Raise e =>
      {| action := "no_action"; target_workers := current_workers self;
         reason := "Error in scaling decision: " +:+ exn_str e;
         decision_current_workers := current_workers self;
         metrics := [] |}
  end.

End WorkerScaler.

(** ** services/resource_allocator.py *)

Module ResourceAllocator.
Import Py Models.

Record ResourceRequirement : Type := {
  cpu_cores : Q;
  memory_mb : Q;
  disk_mb : Q;
  network_mbps : Q;
  estimated_duration_seconds : Z
}.

Record WorkerResource : Type := {
  worker_id : string;
  available_cpu : Q;
  available_memory : Q;
  available_disk : Q;
  available_network : Q;
  max_cpu : Q;
  max_memory : Q;
  max_disk : Q;
  max_network : Q
}.

(** [ResourceAllocation] of models.py. *)
Record ResourceAllocation : Type := {
  alloc_job_id : string;
  alloc_worker_id : string;
  allocated_cpu : Q;
  allocated_memory : Q;
  allocated_disk : Q;
  estimated_duration : Z;
  priority_score : Z
}.

(** The dict that [queue_job] pushes next to the negated score. *)
Record QueueEntry : Type := {
  entry_priority_score : Z;
  entry_job_id : string;
  entry_job : Job;
  processing_types : list string;
  queued_at : Z
}.

#[global] Instance Q_eq_dec : EqDecision Q.
Proof. solve_decision. Defined.

#[global] Instance pyval_eq_dec : EqDecision pyval.
Proof. solve_decision. Defined.

#[global] Instance PipelineStep_eq_dec : EqDecision PipelineStep.
Proof. solve_decision. Defined.

#[global] Instance ProcessingPipeline_eq_dec : EqDecision ProcessingPipeline.
Proof. solve_decision. Defined.

#[global] Instance JobResult_eq_dec : EqDecision JobResult.
Proof. solve_decision. Defined.

#[global] Instance Job_eq_dec : EqDecision Job.
Proof. solve_decision. Defined.

#[global] Instance QueueEntry_eq_dec : EqDecision QueueEntry.
Proof. solve_decision. Defined.

Definition item : Type := Z * QueueEntry.

Record t : Type := {
  job_queue : list item;
  worker_resources : odict WorkerResource;
  job_allocations : gmap string ResourceAllocation
}.

Definition priority_weights (p : JobPriority) : Z :=
  match p with
  | URGENT => 1000
  | HIGH => 100
  | MEDIUM => 10
  | LOW => 1
  end.

Definition requirement (cpu memory disk network : Q) (duration : Z)
    : ResourceRequirement :=
  {| cpu_cores := cpu; memory_mb := memory; disk_mb := disk;
     network_mbps := network; estimated_duration_seconds := duration |}.

Definition processing_requirements : odict ResourceRequirement :=
  [ ("image_resize", requirement 1 512 100 10 30);
    ("image_format_convert", requirement (3 # 2) 1024 200 10 45);
    ("document_text_extract", requirement (1 # 2) 256 50 5 60);
    ("document_pdf_generate", requirement 1 512 100 5 90);
    ("video_thumbnail", requirement 2 2048 500 50 120);
    ("video_compress", requirement 4 4096 1000 100 600);
    ("content_analysis", requirement 1 1024 100 10 180);
    ("custom", requirement 2 2048 500 20 300) ]%string.

(** [ResourceAllocator(settings)] *)
Definition init : t :=
  {| job_queue := []; worker_resources := []; job_allocations := ∅ |}.

(** [register_worker(worker_id, resources)]: a missing key of
    [resources] takes its default. *)
Definition register_worker (self : t) (worker_id : string)
    (resources : gmap string Q) : t :=
  let cpu := default 2%Q (resources !! "cpu"%string) in
  let memory := default 4096%Q (resources !! "memory"%string) in
  let disk := default 10000%Q (resources !! "disk"%string) in
  let network := default 100%Q (resources !! "network"%string) in
  let worker_resource :=
    {| worker_id := worker_id;
       available_cpu := cpu; available_memory := memory;
       available_disk := disk; available_network := network;
       max_cpu := cpu; max_memory := memory;
       max_disk := disk; max_network := network |} in
  {| job_queue := job_queue self;
     worker_resources := oset worker_id worker_resource (worker_resources self);
     job_allocations := job_allocations self |}.

(** *** The heap

    [heapq] on a list of tuples [(-priority_score, queue_entry)], as
    CPython runs it (the C accelerator, which swaps items in place, on
    lists of at most 2500 items). *)

(** [x < y] on the tuples. Tuples compare by the first position at which
    their items are not equal; the items at that position are then
    ordered, and two different dicts have no order: a [TypeError]. *)
Definition item_lt (x y : item) : pyresult bool :=
  if decide (fst x = fst y) then
    if decide (snd x = snd y) then Ok false else Raise TypeError
  else Ok (fst x <? fst y).

(** The heap as it stands, and whether a comparison raised. *)
Definition heap_state : Type := list item * bool.

(** [siftdown(heap, startpos, pos)] *)
Fixpoint siftdown (fuel : nat) (heap : list item) (startpos pos : nat)
    : heap_state :=
  match fuel with
  | O => (heap, true)
  | S fuel' =>
      if (pos <=? startpos)%nat then (heap, true)
      else
        let parentpos := ((pos - 1) / 2)%nat in
        match heap !! pos, heap !! parentpos with
        | Some newitem, Some parent =>
            match item_lt newitem parent with
            | Raise _ => (heap, false)
            | Ok false => (heap, true)
            | Ok true =>
                siftdown fuel' (<[pos := parent]> (<[parentpos := newitem]> heap))
                  startpos parentpos
            end
        | _, _ => (heap, true)
        end
  end.

(** [heapq.heappush(heap, item)] *)
Definition heappush (heap : list item) (x : item) : heap_state :=
  let heap := heap ++ [x] in
  siftdown (length heap) heap 0 (length heap - 1).

(** The first loop of [siftup(heap, pos)]: the smaller child moves up
    until [pos] is a leaf. The answer carries the leaf position. *)
Fixpoint bubble_up (fuel : nat) (heap : list item) (pos : nat)
    : list item * option nat :=
  match fuel with
  | O => (heap, Some pos)
  | S fuel' =>
      let endpos := length heap in
      if (pos <? endpos / 2)%nat then
        let childpos := (2 * pos + 1)%nat in
        let chosen :=
          if (childpos + 1 <? endpos)%nat then
            match heap !! childpos, heap !! (childpos + 1)%nat with
            | Some left_child, Some right_child =>
                match item_lt left_child right_child with
                | Raise _ => None
                | Ok true => Some childpos
                | Ok false => Some (childpos + 1)%nat
                end
            | _, _ => Some childpos
            end
          else Some childpos in
        match chosen with
        | None => (heap, None)
        | Some childpos =>
            match heap !! childpos, heap !! pos with
            | Some child, Some parent =>
                bubble_up fuel'
                  (<[pos := child]> (<[childpos := parent]> heap)) childpos
            | _, _ => (heap, Some pos)
            end
        end
      else (heap, Some pos)
  end.

(** [siftup(heap, pos)] *)
Definition siftup (heap : list item) (pos : nat) : heap_state :=
  match bubble_up (length heap) heap pos with
  | (heap, None) => (heap, false)
  | (heap, Some leaf) => siftdown (length heap) heap pos leaf
  end.

(** [heapq.heapify(heap)]: [siftup] at [n/2 - 1], ..., [0]. *)
Fixpoint heapify_from (count : nat) (heap : list item) : heap_state :=
  match count with
  | O => (heap, true)
  | S i =>
      match siftup heap i with
      | (heap, false) => (heap, false)
      | (heap, true) => heapify_from i heap
      end
  end.

Definition heapify (heap : list item) : heap_state :=
  heapify_from (length heap / 2) heap.

(** *** Queueing *)

Definition complexity_of (processing_types : list string) : Q :=
  fold_left
    (fun complexity_factor processing_type =>
       match oget processing_type processing_requirements with
       | Some req => (complexity_factor + (cpu_cores req + memory_mb req / 1024))%Q
       | None => complexity_factor
       end)
    processing_types 0%Q.

(** The body of [_calculate_priority_score] inside its [try]. *)
Definition calculate_priority_score_try (job : Job) (processing_types : list string)
    (now : Z) : pyresult Z :=
  let base_score := inject_Z (priority_weights (priority job)) in
  let age_seconds := total_seconds now (created_at job) in
  let age_factor := Qmin (age_seconds / 3600) 10 in
  let complexity_factor := Qmin (complexity_of processing_types) 20 in
  let* user_boost :=
    match metadata job with
    | [] => Ok 0%Q
    | _ :: _ =>
        match oget "user_priority" (metadata job) with
        | None => Ok 0%Q
        | Some (VNum user_priority) => Ok (Qmin user_priority 50)
        | Some (VStr _) => Raise TypeError
        | Some VNone => Raise TypeError
        end
    end in
  Ok (int_of_float (base_score + age_factor + complexity_factor + user_boost)%Q).

Definition _calculate_priority_score (job : Job) (processing_types : list string)
    (now : Z) : Z :=
  match calculate_priority_score_try job processing_types now with
  | Ok total_score => total_score
  | Raise _ => 10
  end.

Definition with_queue (self : t) (queue : list item) : t :=
  {| job_queue := queue; worker_resources := worker_resources self;
     job_allocations := job_allocations self |}.

(** [queue_job(job, processing_types)] at clock reading [now]. An
    exception of the push is logged and raised again; the entry that
    [heappush] appended before it compared stays in the list. *)
Definition queue_job (self : t) (job : Job) (processing_types : list string)
    (now : Z) : pyresult unit * t :=
  let priority_score := _calculate_priority_score job processing_types now in
  let queue_entry :=
    {| entry_priority_score := priority_score;
       entry_job_id := job_id job;
       entry_job := job;
       processing_types := processing_types;
       queued_at := now |} in
  match heappush (job_queue self) (- priority_score, queue_entry) with
  | (queue, true) => (Ok tt, with_queue self queue)
  | (queue, false) => (Raise TypeError, with_queue self queue)
  end.

Definition get_next_job (self : t) : option string :=
  match job_queue self with
  | [] => None
  | (_, queue_entry) :: _ => Some (entry_job_id queue_entry)
  end.

(** *** Allocation *)

Definition _calculate_total_requirements (processing_types : list string)
    : ResourceRequirement :=
  fold_left
    (fun total processing_type =>
       match oget processing_type processing_requirements with
       | Some req =>
           {| cpu_cores := (cpu_cores total + cpu_cores req)%Q;
              memory_mb := (memory_mb total + memory_mb req)%Q;
              disk_mb := (disk_mb total + disk_mb req)%Q;
              network_mbps := (network_mbps total + network_mbps req)%Q;
              estimated_duration_seconds :=
                Z.max (estimated_duration_seconds total)
                      (estimated_duration_seconds req) |}
       | None => total
       end)
    processing_types (requirement 0 0 0 0 0).

Definition sufficient (worker : WorkerResource) (requirements : ResourceRequirement)
    : bool :=
  Qle_bool (cpu_cores requirements) (available_cpu worker)
  && Qle_bool (memory_mb requirements) (available_memory worker)
  && Qle_bool (disk_mb requirements) (available_disk worker)
  && Qle_bool (network_mbps requirements) (available_network worker).

(** The fit score of a worker with enough headroom; the two divisions
    raise on a worker whose [max_cpu] or [max_memory] is zero. *)
Definition fit_score (worker : WorkerResource) (requirements : ResourceRequirement)
    : pyresult Q :=
  if Qeq_bool (max_cpu worker) 0 then Raise ZeroDivisionError
  else
    let cpu_utilization :=
      ((available_cpu worker - cpu_cores requirements) / max_cpu worker)%Q in
    if Qeq_bool (max_memory worker) 0 then Raise ZeroDivisionError
    else
      let memory_utilization :=
        ((available_memory worker - memory_mb requirements) / max_memory worker)%Q in
      Ok (cpu_utilization + memory_utilization)%Q.

(** The loop that collects [suitable_workers]. *)
Fixpoint suitable_workers (workers : list WorkerResource)
    (requirements : ResourceRequirement) : pyresult (list (Q * WorkerResource)) :=
  match workers with
  | [] => Ok []
  | worker :: rest =>
      if sufficient worker requirements then
        let* score := fit_score worker requirements in
        let* others := suitable_workers rest requirements in
        Ok ((score, worker) :: others)
      else suitable_workers rest requirements
  end.

(** [list.sort(key=lambda x: x[0])]: ascending and stable. *)
Fixpoint insert_by_score (x : Q * WorkerResource) (sorted : list (Q * WorkerResource))
    : list (Q * WorkerResource) :=
  match sorted with
  | [] => [x]
  | y :: rest =>
      if Qlt_bool (fst x) (fst y) then x :: y :: rest
      else y :: insert_by_score x rest
  end.

Definition sort_by_score (l : list (Q * WorkerResource)) : list (Q * WorkerResource) :=
  fold_left (fun sorted x => insert_by_score x sorted) l [].

(** [_find_best_worker]: any exception inside is logged and gives [None]. *)
Definition _find_best_worker (self : t) (requirements : ResourceRequirement)
    : option WorkerResource :=
  match suitable_workers (ovalues (worker_resources self)) requirements with
  | Raise _ => None
  | Ok suitable =>
      match sort_by_score suitable with
      | [] => None
      | (_, worker) :: _ => Some worker
      end
  end.

Definition find_queue_entry (self : t) (job_id : string) : option QueueEntry :=
  snd <$> List.find (fun x => bool_decide (entry_job_id (snd x) = job_id))
                    (job_queue self).

Definition take_resources (worker : WorkerResource) (requirements : ResourceRequirement)
    : WorkerResource :=
  {| worker_id := worker_id worker;
     available_cpu := (available_cpu worker - cpu_cores requirements)%Q;
     available_memory := (available_memory worker - memory_mb requirements)%Q;
     available_disk := (available_disk worker - disk_mb requirements)%Q;
     available_network := (available_network worker - network_mbps requirements)%Q;
     max_cpu := max_cpu worker; max_memory := max_memory worker;
     max_disk := max_disk worker; max_network := max_network worker |}.

(** [allocate_resources(job_id)]. The worker that is charged is the one
    found again under [best_worker.worker_id]. When the final [heapify]
    raises, the handler answers [None] although the worker is charged and
    the allocation recorded. *)
Definition allocate_resources (self : t) (job_id : string)
    : option ResourceAllocation * t :=
  match find_queue_entry self job_id with
  | None => (None, self)
  | Some queue_entry =>
      let total_requirements :=
        _calculate_total_requirements (processing_types queue_entry) in
      match _find_best_worker self total_requirements with
      | None => (None, self)
      | Some best_worker =>
          let allocation :=
            {| alloc_job_id := job_id;
               alloc_worker_id := worker_id best_worker;
               allocated_cpu := cpu_cores total_requirements;
               allocated_memory := memory_mb total_requirements;
               allocated_disk := disk_mb total_requirements;
               estimated_duration := estimated_duration_seconds total_requirements;
               priority_score := Z.abs (entry_priority_score queue_entry) |} in
          match oget (worker_id best_worker) (worker_resources self) with
          | None => (None, self)
          | Some worker =>
              let workers :=
                oset (worker_id best_worker) (take_resources worker total_requirements)
                     (worker_resources self) in
              let allocations := <[job_id := allocation]> (job_allocations self) in
              let remaining :=
                List.filter (fun x => negb (bool_decide (entry_job_id (snd x) = job_id)))
                            (job_queue self) in
              match heapify remaining with
              | (queue, true) =>
                  (Some allocation,
                   {| job_queue := queue; worker_resources := workers;
                      job_allocations := allocations |})
              | (queue, false) =>
                  (None,
                   {| job_queue := queue; worker_resources := workers;
                      job_allocations := allocations |})
              end
          end
      end
  end.

Definition give_back (worker : WorkerResource) (allocation : ResourceAllocation)
    : WorkerResource :=
  {| worker_id := worker_id worker;
     available_cpu :=
       Qmin (available_cpu worker + allocated_cpu allocation) (max_cpu worker);
     available_memory :=
       Qmin (available_memory worker + allocated_memory allocation) (max_memory worker);
     available_disk :=
       Qmin (available_disk worker + allocated_disk allocation) (max_disk worker);
     available_network :=
       Qmin (available_network worker + allocated_disk allocation) (max_network worker);
     max_cpu := max_cpu worker; max_memory := max_memory worker;
     max_disk := max_disk worker; max_network := max_network worker |}.

(** [release_resources(job_id)] *)
Definition release_resources (self : t) (job_id : string) : t :=
  match job_allocations self !! job_id with
  | None => self
  | Some allocation =>
      let workers :=
        match oget (alloc_worker_id allocation) (worker_resources self) with
        | Some worker =>
            oset (alloc_worker_id allocation) (give_back worker allocation)
                 (worker_resources self)
        | None => worker_resources self
        end in
      {| job_queue := job_queue self; worker_resources := workers;
         job_allocations := delete job_id (job_allocations self) |}
  end.

(** *** Sequences of calls *)

Inductive op : Type :=
| RegisterWorker (worker_id : string) (resources : gmap string Q)
| QueueJob (job : Job) (processing_types : list string) (now : Z)
| AllocateResources (job_id : string)
| ReleaseResources (job_id : string).

Definition step (self : t) (o : op) : t :=
  match o with
  | RegisterWorker worker_id resources => register_worker self worker_id resources
  | QueueJob job processing_types now => snd (queue_job self job processing_types now)
  | AllocateResources job_id => snd (allocate_resources self job_id)
  | ReleaseResources job_id => release_resources self job_id
  end.

Definition run (ops : list op) (self : t) : t := fold_left step ops self.

End ResourceAllocator.

(** ** services/job_manager.py *)

Module JobManager.
Import Py Models.

(** [active_jobs] holds the job objects; [datastore] is the durable
    store behind [DatastoreClient], which keeps a copy per save. *)
Record t : Type := {
  active_jobs : gmap string Job;
  datastore : gmap string Job;
  job_queue : list (Z * string);
  worker_tasks : gset string;
  current_jobs_count : Z
}.

Definition with_active (self : t) (jobs : gmap string Job) : t :=
  {| active_jobs := jobs; datastore := datastore self;
     job_queue := job_queue self; worker_tasks := worker_tasks self;
     current_jobs_count := current_jobs_count self |}.

(** [_save_job]: a failing datastore ([db_up = false]) is logged only. *)
Definition _save_job (self : t) (job : Job) (db_up : bool) : t :=
  if db_up then
    {| active_jobs := active_jobs self;
       datastore := <[job_id job := job]> (datastore self);
       job_queue := job_queue self; worker_tasks := worker_tasks self;
       current_jobs_count := current_jobs_count self |}
  else self.

Definition _load_job (self : t) (job_id : string) (db_up : bool) : option Job :=
  if db_up then datastore self !! job_id else None.

Definition _get_priority_value (priority : JobPriority) : Z :=
  match priority with
  | URGENT => 1
  | HIGH => 2
  | MEDIUM => 3
  | LOW => 4
  end.

(** [create_job]; [fresh_id] is the [uuid4] drawn for the new job. *)
Definition create_job (self : t) (job_request : JobRequest)
    (fresh_id : string) (now : Z) (db_up : bool) : Job * t :=
  let job :=
    {| job_id := fresh_id;
       file_id := req_file_id job_request;
       pipeline_id := req_pipeline_id job_request;
       custom_pipeline := req_custom_pipeline job_request;
       status := PENDING;
       priority := req_priority job_request;
       priority_is_str := true;
       result := None;
       error_message := None;
       created_at := now;
       started_at := None;
       completed_at := None;
       callback_url := req_callback_url job_request;
       metadata := req_metadata job_request |} in
  let self := with_active self (<[job_id job := job]> (active_jobs self)) in
  let self := _save_job self job db_up in
  let priority_value := _get_priority_value (priority job) in
  (job,
   {| active_jobs := active_jobs self; datastore := datastore self;
      job_queue := job_queue self ++ [(priority_value, job_id job)];
      worker_tasks := worker_tasks self;
      current_jobs_count := current_jobs_count self |}).

(** [get_job]: memory first, then the datastore, whose hit is cached. *)
Definition get_job (self : t) (job_id : string) (db_up : bool) : option Job * t :=
  match active_jobs self !! job_id with
  | Some job => (Some job, self)
  | None =>
      match _load_job self job_id db_up with
      | Some job => (Some job, with_active self (<[job_id := job]> (active_jobs self)))
      | None => (None, self)
      end
  end.

(** The job object that [get_job] answers for [job_id] is the one held by
    [active_jobs] under that key: an assignment to one of its attributes
    is an update of the entry. *)
Definition mutate (self : t) (job_id : string) (job : Job) : t :=
  with_active self (<[job_id := job]> (active_jobs self)).

Definition drop_worker_task (self : t) (job_id : string) : t :=
  if bool_decide (job_id ∈ worker_tasks self) then
    {| active_jobs := active_jobs self; datastore := datastore self;
       job_queue := job_queue self;
       worker_tasks := worker_tasks self ∖ {[ job_id ]};
       current_jobs_count := current_jobs_count self - 1 |}
  else self.

Definition cancel_job (self : t) (job_id : string) (now : Z) (db_up : bool)
    : bool * t :=
  match get_job self job_id db_up with
  | (None, self) => (false, self)
  | (Some job, self) =>
      if is_terminal (status job) then (false, self)
      else
        let job :=
          {| Models.job_id := Models.job_id job; file_id := file_id job;
             pipeline_id := pipeline_id job; custom_pipeline := custom_pipeline job;
             status := CANCELLED; priority := priority job;
             priority_is_str := priority_is_str job; result := result job;
             error_message := error_message job; created_at := created_at job;
             started_at := started_at job; completed_at := Some now;
             callback_url := callback_url job; metadata := metadata job |} in
        let self := mutate self job_id job in
        let self := _save_job self job db_up in
        (true, drop_worker_task self job_id)
  end.

Definition _fail_job (self : t) (job_id : string) (error_message : string)
    (now : Z) (db_up : bool) : t :=
  match get_job self job_id db_up with
  | (None, self) => self
  | (Some job, self) =>
      let job :=
        {| Models.job_id := Models.job_id job; file_id := file_id job;
           pipeline_id := pipeline_id job; custom_pipeline := custom_pipeline job;
           status := FAILED; priority := priority job;
           priority_is_str := priority_is_str job;
           result :=
             match result job with
             | None =>
                 Some {| success := false; output_files := [];
                         jr_error_message := Some error_message;
                         processing_time_seconds := 0%Q |}
             | Some r => Some r
             end;
           Models.error_message := Some error_message;
           created_at := created_at job; started_at := started_at job;
           completed_at := Some now; callback_url := callback_url job;
           metadata := metadata job |} in
      let self := mutate self job_id job in
      _save_job self job db_up
  end.

(** What [processing_service.process_file] does for the job. *)
Inductive ExecOutcome : Type :=
| ExecSuccess (processed_files : list string)
| ExecFailure (error : option string)
| ExecRaises (message : string).

(** The collaborators of one run of [process_job_async]: the pipeline
    registry, the executor, the datastore and three clock readings. *)
Record ProcessEnv : Type := {
  registry : gmap string ProcessingPipeline;
  exec : ExecOutcome;
  env_db_up : bool;
  t_start : Z;
  t_exec : Z;
  t_end : Z
}.

Definition _get_file_path (file_id : string) : option string :=
  Some ("/tmp/files/" +:+ file_id).

(** First part of [process_job_async]: the job leaves [PENDING]. The
    answer is the running job, or nothing when the method returns early. *)
Definition start_processing (self : t) (job_id : string) (env : ProcessEnv)
    : option Job * t :=
  match get_job self job_id (env_db_up env) with
  | (None, self) => (None, self)
  | (Some job, self) =>
      if negb (bool_decide (status job = PENDING)) then (None, self)
      else
        let job :=
          {| Models.job_id := Models.job_id job; file_id := file_id job;
             pipeline_id := pipeline_id job; custom_pipeline := custom_pipeline job;
             status := RUNNING; priority := priority job;
             priority_is_str := priority_is_str job; result := result job;
             error_message := error_message job; created_at := created_at job;
             started_at := Some (t_start env); completed_at := completed_at job;
             callback_url := callback_url job; metadata := metadata job |} in
        let self := mutate self job_id job in
        (Some job, _save_job self job (env_db_up env))
  end.

Definition resolve_pipeline (job : Job) (env : ProcessEnv)
    : option ProcessingPipeline :=
  if str_truthy (pipeline_id job) then
    match pipeline_id job with
    | Some pid => registry env !! pid
    | None => None
    end
  else custom_pipeline job.

(** Second part of [process_job_async], for the running [job]. *)
Definition finish_processing (self : t) (job_id : string) (job : Job)
    (env : ProcessEnv) : t :=
  match _get_file_path (file_id job) with
  | None => _fail_job self job_id "File not found" (t_end env) (env_db_up env)
  | Some file_path =>
      match resolve_pipeline job env with
      | None => _fail_job self job_id "Pipeline not found" (t_end env) (env_db_up env)
      | Some pipeline =>
          match exec env with
          | ExecRaises message =>
              _fail_job self job_id message (t_end env) (env_db_up env)
          | ExecSuccess processed_files =>
              let job :=
                {| Models.job_id := Models.job_id job; file_id := file_id job;
                   pipeline_id := pipeline_id job;
                   custom_pipeline := custom_pipeline job;
                   status := COMPLETED; priority := priority job;
                   priority_is_str := priority_is_str job;
                   result :=
                     Some {| success := true; output_files := processed_files;
                             jr_error_message := None;
                             processing_time_seconds :=
                               total_seconds (t_end env) (t_exec env) |};
                   error_message := error_message job;
                   created_at := created_at job; started_at := started_at job;
                   completed_at := Some (t_end env);
                   callback_url := callback_url job; metadata := metadata job |} in
              _save_job (mutate self job_id job) job (env_db_up env)
          | ExecFailure error =>
              let message := default "Unknown error"%string error in
              let job :=
                {| Models.job_id := Models.job_id job; file_id := file_id job;
                   pipeline_id := pipeline_id job;
                   custom_pipeline := custom_pipeline job;
                   status := FAILED; priority := priority job;
                   priority_is_str := priority_is_str job;
                   result :=
                     Some {| success := false; output_files := [];
                             jr_error_message := Some message;
                             processing_time_seconds :=
                               total_seconds (t_end env) (t_exec env) |};
                   error_message := Some message;
                   created_at := created_at job; started_at := started_at job;
                   completed_at := Some (t_end env);
                   callback_url := callback_url job; metadata := metadata job |} in
              _save_job (mutate self job_id job) job (env_db_up env)
          end
      end
  end.

(** The states that [process_job_async] goes through, one per assignment
    to the status; the [finally] clause runs on every path. *)
Definition process_job_async_trace (self : t) (job_id : string) (env : ProcessEnv)
    : list t :=
  match start_processing self job_id env with
  | (None, self) => [drop_worker_task self job_id]
  | (Some job, self) =>
      [self; drop_worker_task (finish_processing self job_id job env) job_id]
  end.

Definition process_job_async (self : t) (job_id : string) (env : ProcessEnv) : t :=
  List.last (process_job_async_trace self job_id env) self.

(** *** Sequences of operations *)

Inductive op : Type :=
| CreateJob (job_request : JobRequest) (fresh_id : string) (now : Z) (db_up : bool)
| CancelJob (job_id : string) (now : Z) (db_up : bool)
| ProcessJobAsync (job_id : string) (env : ProcessEnv)
| FailJob (job_id : string) (error_message : string) (now : Z) (db_up : bool).

Definition op_trace (o : op) (self : t) : list t :=
  match o with
  | CreateJob job_request fresh_id now db_up =>
      [snd (create_job self job_request fresh_id now db_up)]
  | CancelJob job_id now db_up => [snd (cancel_job self job_id now db_up)]
  | ProcessJobAsync job_id env => process_job_async_trace self job_id env
  | FailJob job_id error_message now db_up =>
      [_fail_job self job_id error_message now db_up]
  end.

Definition step (o : op) (self : t) : t := List.last (op_trace o self) self.

(** The states after each status assignment of a run of [ops]. *)
Fixpoint run_trace (ops : list op) (self : t) : list t :=
  match ops with
  | [] => []
  | o :: ops' => op_trace o self ++ run_trace ops' (step o self)
  end.

(** The job as [get_job] finds it with the datastore up. *)
Definition lookup_job (self : t) (job_id : string) : option Job :=
  match active_jobs self !! job_id with
  | Some job => Some job
  | None => datastore self !! job_id
  end.

Definition status_of (job_id : string) (self : t) : option JobStatus :=
  status <$> lookup_job self job_id.

(** [JobManager(datastore_client, redis_url)] over an empty datastore. *)
Definition init : t :=
  {| active_jobs := ∅; datastore := ∅; job_queue := [];
     worker_tasks := ∅; current_jobs_count := 0 |}.

(** *** Start-up and workers *)

(** [_load_active_jobs], for the list [jobs] that [_query_jobs] answers
    (empty when the query fails). *)
Definition _load_active_jobs (self : t) (jobs : list Job) : t :=
  fold_left
    (fun self job =>
       match status job with
       | PENDING =>
           let self := with_active self (<[job_id job := job]> (active_jobs self)) in
           let priority_value := _get_priority_value (priority job) in
           {| active_jobs := active_jobs self; datastore := datastore self;
              job_queue := job_queue self ++ [(priority_value, job_id job)];
              worker_tasks := worker_tasks self;
              current_jobs_count := current_jobs_count self |}
       | RUNNING => with_active self (<[job_id job := job]> (active_jobs self))
       | _ => self
       end)
    jobs self.

(** [x < y] on the tuples [(priority_value, job_id)] of the queue. *)
Definition entry_lt (x y : Z * string) : bool :=
  (fst x <? fst y) || ((fst x =? fst y) && String.ltb (snd x) (snd y)).

Fixpoint least (x : Z * string) (queue : list (Z * string)) : Z * string :=
  match queue with
  | [] => x
  | y :: queue' => least (if entry_lt y x then y else x) queue'
  end.

Fixpoint remove_first (x : Z * string) (queue : list (Z * string))
    : list (Z * string) :=
  match queue with
  | [] => []
  | y :: queue' => if decide (x = y) then queue' else y :: remove_first x queue'
  end.

(** [PriorityQueue.get()] on a queue that is not empty: the least tuple
    leaves. The list keeps the tuples in the order of their [put]s; the
    layout of the heap inside the queue is not observable. *)
Definition queue_get (queue : list (Z * string))
    : option ((Z * string) * list (Z * string)) :=
  match queue with
  | [] => None
  | x :: queue' => let first := least x queue' in Some (first, remove_first first queue)
  end.

Definition max_concurrent_jobs : Z := 10.

(** One turn of the loop of [_worker], up to the creation of the task
    that runs [process_job_async]: the answer is the job handed to that
    task, if any. On an empty queue the worker waits. *)
Definition _worker_iteration (self : t) (db_up : bool) : option string * t :=
  match queue_get (job_queue self) with
  | None => (None, self)
  | Some ((priority, job_id), rest) =>
      if max_concurrent_jobs <=? current_jobs_count self then
        (None,
         {| active_jobs := active_jobs self; datastore := datastore self;
            job_queue := rest ++ [(priority, job_id)];
            worker_tasks := worker_tasks self;
            current_jobs_count := current_jobs_count self |})
      else
        let self :=
          {| active_jobs := active_jobs self; datastore := datastore self;
             job_queue := rest; worker_tasks := worker_tasks self;
             current_jobs_count := current_jobs_count self |} in
        match get_job self job_id db_up with
        | (None, self) => (None, self)
        | (Some job, self) =>
            if negb (bool_decide (status job = PENDING)) then (None, self)
            else
              (Some job_id,
               {| active_jobs := active_jobs self; datastore := datastore self;
                  job_queue := job_queue self;
                  worker_tasks := worker_tasks self ∪ {[ job_id ]};
                  current_jobs_count := current_jobs_count self + 1 |})
        end
  end.

(** [f"worker-{i}"] *)
Definition worker_name (i : nat) : string := "worker-" +:+ pretty i.

(** [_start_workers]: the worker tasks are filed in [worker_tasks], next
    to the tasks of the jobs, under their names. *)
Definition _start_workers (self : t) : t :=
  fold_left
    (fun self i =>
       {| active_jobs := active_jobs self; datastore := datastore self;
          job_queue := job_queue self;
          worker_tasks := worker_tasks self ∪ {[ worker_name i ]};
          current_jobs_count := current_jobs_count self |})
    (seq 0 (Z.to_nat max_concurrent_jobs)) self.

(** [initialize(processing_service)], for the answer [jobs] of the query
    of [_load_active_jobs]. *)
Definition initialize (self : t) (jobs : list Job) : t :=
  _start_workers (_load_active_jobs self jobs).

(** [_update_job_progress(job_id, progress)], the callback that
    [process_file] calls before each step; the progress itself is not
    part of the embedded job. *)
Definition _update_job_progress (self : t) (job_id : string) (db_up : bool) : t :=
  match get_job self job_id db_up with
  | (Some job, self) => _save_job self job db_up
  | (None, self) => self
  end.

(** *** Overlapping runs

    The coroutines of the manager share one event loop and give up
    control only where they await something that waits. In
    [process_job_async] that is [process_file] (l.180) and the request
    of [_send_job_callback] (l.216, and l.262 inside [_fail_job]), which
    is made for a job with a [callback_url]; the datastore client,
    [get_pipeline] and [put] on the unbounded queue answer at once. A
    run of [process_job_async] is therefore made of up to three parts:
    up to the call of [process_file], from its answer to the callback,
    and the [finally] clause. Between the parts other calls can run;
    [cancel_job] and [create_job] have no such gap before their last
    statement.

    A run is either called directly (by the route that creates a job,
    by the batch processor) or it is the task that a worker has made
    with [create_task] and filed in [worker_tasks] under the id of the
    job (l.307-308). Tasks are named by the order of their creation. *)

(** Where a run of [process_job_async] waits: for [process_file], with
    the [start_time] read at l.178, for the callback, or - after
    [cancel()] has been called on its task - for the [CancelledError]
    that is raised in it where it waited. *)
Inductive Phase : Type :=
| AtProcessFile (start_time : Z)
| AtCallback
| AtCancelledError.

(** A run that waits, and the task that it runs as, if any. *)
Record Run : Type := {
  phase : Phase;
  task : option nat
}.

(** The manager together with
    - the runs of [process_job_async] that wait, by job id. The job
      object of a run is the one on file in [active_jobs], from which
      nothing is ever removed; a second run of the same job does not
      get as far as waiting while the first one does, as it finds the
      job no longer pending;
    - the values of [worker_tasks] under the ids of jobs: [filed] names
      the task stored under a key, for the keys that [worker_tasks] of
      the manager holds;
    - the tasks that the workers have created and that have not begun;
    - the number of tasks created so far. *)
Record system : Type := {
  manager : t;
  suspended : gmap string Run;
  filed : gmap string nat;
  unstarted : gmap nat string;
  tasks_created : nat
}.

Definition boot (self : t) : system :=
  {| manager := self; suspended := ∅; filed := ∅; unstarted := ∅;
     tasks_created := 0 |}.

Definition with_manager (s : system) (self : t) : system :=
  {| manager := self; suspended := suspended s; filed := filed s;
     unstarted := unstarted s; tasks_created := tasks_created s |}.

Definition with_suspended (s : system) (runs : gmap string Run) : system :=
  {| manager := manager s; suspended := runs; filed := filed s;
     unstarted := unstarted s; tasks_created := tasks_created s |}.

(** The part of [process_job_async] after [process_file] has answered
    with [exec env], for the job object [job] of the run: l.187-212, or
    the handler at l.222 when [process_file] raised. *)
Definition complete_processing (self : t) (job_id : string) (job : Job)
    (start_time : Z) (env : ProcessEnv) : t :=
  match exec env with
  | ExecRaises message => _fail_job self job_id message (t_end env) (env_db_up env)
  | ExecSuccess processed_files =>
      let job :=
        {| Models.job_id := Models.job_id job; file_id := file_id job;
           pipeline_id := pipeline_id job; custom_pipeline := custom_pipeline job;
           status := COMPLETED; priority := priority job;
           priority_is_str := priority_is_str job;
           result :=
             Some {| success := true; output_files := processed_files;
                     jr_error_message := None;
                     processing_time_seconds :=
                       total_seconds (t_end env) start_time |};
           error_message := error_message job;
           created_at := created_at job; started_at := started_at job;
           completed_at := Some (t_end env);
           callback_url := callback_url job; metadata := metadata job |} in
      _save_job (mutate self job_id job) job (env_db_up env)
  | ExecFailure error =>
      let message := default "Unknown error"%string error in
      let job :=
        {| Models.job_id := Models.job_id job; file_id := file_id job;
           pipeline_id := pipeline_id job; custom_pipeline := custom_pipeline job;
           status := FAILED; priority := priority job;
           priority_is_str := priority_is_str job;
           result :=
             Some {| success := false; output_files := [];
                     jr_error_message := Some message;
                     processing_time_seconds :=
                       total_seconds (t_end env) start_time |};
           error_message := Some message;
           created_at := created_at job; started_at := started_at job;
           completed_at := Some (t_end env);
           callback_url := callback_url job; metadata := metadata job |} in
      _save_job (mutate self job_id job) job (env_db_up env)
  end.

(** The [finally] clause of the run that waited under [job_id]. *)
Definition leave (s : system) (job_id : string) : system :=
  {| manager := drop_worker_task (manager s) job_id;
     suspended := delete job_id (suspended s);
     filed := filed s; unstarted := unstarted s;
     tasks_created := tasks_created s |}.

(** The end of a run (as task [run_task], if any) after its last
    assignment, in the system [s] with the manager as the run has left
    it: a job with a [callback_url] has its callback sent, for which
    the run waits; otherwise the [finally] clause follows at once. *)
Definition end_of_run (s : system) (job_id : string) (run_task : option nat)
    : system :=
  match active_jobs (manager s) !! job_id with
  | Some job =>
      if str_truthy (callback_url job)
      then with_suspended s
             (<[job_id := {| phase := AtCallback; task := run_task |}]> (suspended s))
      else leave s job_id
  | None => leave s job_id
  end.

(** A run of [process_job_async] (as task [run_task], if any) from its
    start to the first point where it waits or to its end: the states
    after each assignment to the status. *)
Definition begin_trace (s : system) (job_id : string) (env : ProcessEnv)
    (run_task : option nat) : list system :=
  match start_processing (manager s) job_id env with
  | (None, self) => [with_manager s (drop_worker_task self job_id)]
  | (Some job, self) =>
      match _get_file_path (file_id job) with
      | None =>
          [ with_manager s self;
            end_of_run
              (with_manager s
                 (_fail_job self job_id "File not found" (t_end env) (env_db_up env)))
              job_id run_task ]
      | Some file_path =>
          match resolve_pipeline job env with
          | None =>
              [ with_manager s self;
                end_of_run
                  (with_manager s
                     (_fail_job self job_id "Pipeline not found" (t_end env)
                        (env_db_up env)))
                  job_id run_task ]
          | Some pipeline =>
              [ with_suspended (with_manager s self)
                  (<[job_id := {| phase := AtProcessFile (t_exec env);
                                  task := run_task |}]> (suspended s)) ]
          end
      end
  end.

(** The task [n] that a worker has created begins, if it has not begun
    yet and has not been cancelled. *)
Definition begin_task_trace (s : system) (n : nat) (env : ProcessEnv)
    : list system :=
  match unstarted s !! n with
  | None => [s]
  | Some job_id =>
      begin_trace
        {| manager := manager s; suspended := suspended s; filed := filed s;
           unstarted := delete n (unstarted s);
           tasks_created := tasks_created s |}
        job_id env (Some n)
  end.

(** The run that waits under [job_id] goes on: [process_file] answers
    with [exec env], or the callback request is over, or the
    [CancelledError] is raised in it - which is no [Exception] since
    Python 3.8, passes the handler at l.220, and only the [finally]
    clause runs. *)
Definition resume (s : system) (job_id : string) (env : ProcessEnv) : system :=
  match suspended s !! job_id with
  | None => s
  | Some {| phase := AtProcessFile start_time; task := run_task |} =>
      match active_jobs (manager s) !! job_id with
      | Some job =>
          end_of_run
            {| manager := complete_processing (manager s) job_id job start_time env;
               suspended := delete job_id (suspended s);
               filed := filed s; unstarted := unstarted s;
               tasks_created := tasks_created s |}
            job_id run_task
      | None => leave s job_id
      end
  | Some {| phase := AtCallback |} => leave s job_id
  | Some {| phase := AtCancelledError |} => leave s job_id
  end.

(** The run that waits under [job_id] is cancelled from outside the
    manager (the server shuts down, [close] cancels the tasks): only its
    [finally] clause runs. *)
Definition stop (s : system) (job_id : string) : system :=
  match suspended s !! job_id with
  | None => s
  | Some _ => leave s job_id
  end.

(** [task.cancel()] at l.127, on the task that is stored in
    [worker_tasks] under [job_id]: a task that has not begun never
    does; the run of a task that waits is left with the [CancelledError]
    to come; a run that is not this task is not concerned. *)
Definition cancel_task (s : system) (job_id : string) : system :=
  match filed s !! job_id with
  | None => s
  | Some n =>
      {| manager := manager s;
         suspended :=
           match suspended s !! job_id with
           | Some run =>
               if bool_decide (task run = Some n)
               then <[job_id := {| phase := AtCancelledError; task := Some n |}]>
                      (suspended s)
               else suspended s
           | None => suspended s
           end;
         filed := filed s;
         unstarted := delete n (unstarted s);
         tasks_created := tasks_created s |}
  end.

(** [cancel_job(job_id)]: l.125-127 are reached when the job is found
    and not in a terminal state, which is when the answer is [True]. *)
Definition cancel (s : system) (job_id : string) (now : Z) (db_up : bool) : system :=
  let (answer, self) := cancel_job (manager s) job_id now db_up in
  let s := if answer && bool_decide (job_id ∈ worker_tasks (manager s))
           then cancel_task s job_id else s in
  with_manager s self.

(** One turn of a worker: the task that it creates for the job is filed
    under the id of the job (l.307-308) and has not begun yet. *)
Definition worker_turn (s : system) (db_up : bool) : system :=
  match _worker_iteration (manager s) db_up with
  | (None, self) => with_manager s self
  | (Some job_id, self) =>
      {| manager := self; suspended := suspended s;
         filed := <[job_id := tasks_created s]> (filed s);
         unstarted := <[tasks_created s := job_id]> (unstarted s);
         tasks_created := S (tasks_created s) |}
  end.

(** What happens while the manager runs: the calls made through the API
    and by the tasks, the parts of the runs of [process_job_async] -
    called directly ([Begin]) or as the task of a worker ([BeginTask]) -
    and the turns of the workers. *)
Inductive event : Type :=
| Create (job_request : JobRequest) (fresh_id : string) (now : Z) (db_up : bool)
| GetJob (job_id : string) (db_up : bool)
| Cancel (job_id : string) (now : Z) (db_up : bool)
| Begin (job_id : string) (env : ProcessEnv)
| BeginTask (n : nat) (env : ProcessEnv)
| Resume (job_id : string) (env : ProcessEnv)
| Stop (job_id : string)
| UpdateJobProgress (job_id : string) (db_up : bool)
| WorkerTurn (db_up : bool).

(** The states after each assignment to a status that the event makes,
    the last one being the state after the event. *)
Definition event_trace (s : system) (e : event) : list system :=
  match e with
  | Create job_request fresh_id now db_up =>
      [with_manager s (snd (create_job (manager s) job_request fresh_id now db_up))]
  | GetJob job_id db_up => [with_manager s (snd (get_job (manager s) job_id db_up))]
  | Cancel job_id now db_up => [cancel s job_id now db_up]
  | Begin job_id env => begin_trace s job_id env None
  | BeginTask n env => begin_task_trace s n env
  | Resume job_id env => [resume s job_id env]
  | Stop job_id => [stop s job_id]
  | UpdateJobProgress job_id db_up =>
      [with_manager s (_update_job_progress (manager s) job_id db_up)]
  | WorkerTurn db_up => [worker_turn s db_up]
  end.

Definition react (s : system) (e : event) : system := List.last (event_trace s e) s.

Definition serve (events : list event) (s : system) : system :=
  fold_left react events s.

Fixpoint serve_trace (events : list event) (s : system) : list system :=
  match events with
  | [] => []
  | e :: events' => event_trace s e ++ serve_trace events' (react s e)
  end.

(** A run waits for [process_file] under [job_id]. *)
Definition awaits_process_file (s : system) (job_id : string) : bool :=
  match suspended s !! job_id with
  | Some {| phase := AtProcessFile _ |} => true
  | _ => false
  end.

(** The run that waits under [job_id] is the task that [worker_tasks]
    holds under [job_id]: the one that [cancel_job] cancels. *)
Definition on_file (s : system) (job_id : string) : bool :=
  match suspended s !! job_id with
  | Some {| task := Some n |} =>
      bool_decide (job_id ∈ worker_tasks (manager s))
      && bool_decide (filed s !! job_id = Some n)
  | _ => false
  end.

End JobManager.

(** ** services/batch_processor.py *)

Module BatchProcessor.
Import Py Models.

(** [BatchJobProgress], [BatchJobResult] and [BatchJob] of models.py. *)
Record BatchJobProgress : Type := {
  total_files : Z;
  completed_files : Z;
  failed_files : Z;
  running_files : Z;
  pending_files : Z;
  progress_percentage : Q
}.

Record BatchJobResult : Type := {
  res_success : bool;
  res_total_files : Z;
  res_completed_files : Z;
  res_failed_files : Z;
  successful_jobs : list string;
  failed_jobs : list string;
  res_processing_time_seconds : Q;
  error_summary : odict Z
}.

Record BatchJob : Type := {
  batch_id : string;
  name : string;
  file_ids : list string;
  pipeline_id : option string;
  custom_pipeline : option ProcessingPipeline;
  status : JobStatus;
  priority : JobPriority;
  progress : option BatchJobProgress;
  result : option BatchJobResult;
  error_message : option string;
  started_at : option Z;
  completed_at : option Z;
  callback_url : option string;
  chunk_size : Z
}.

(** [batch_job_results] holds, per batch, the job objects that the job
    manager gave back, with the status they had at that moment. *)
Record t : Type := {
  active_batch_jobs : gmap string BatchJob;
  batch_job_results : gmap string (list Job)
}.

(** The batch object found under [batch_id] is shared with
    [active_batch_jobs]: assigning to its attributes updates the entry. *)
Definition put_batch (self : t) (batch_id : string) (batch_job : BatchJob) : t :=
  {| active_batch_jobs := <[batch_id := batch_job]> (active_batch_jobs self);
     batch_job_results := batch_job_results self |}.

Record BatchJobRequest : Type := {
  req_name : string;
  req_file_ids : list string;
  req_pipeline_id : option string;
  req_custom_pipeline : option ProcessingPipeline;
  req_priority : JobPriority;
  req_callback_url : option string;
  req_chunk_size : option Z
}.

(** [create_batch_job]; [fresh_id] is the [uuid4] drawn for the batch.
    [chunk_size or 50] replaces a missing or zero chunk size. *)
Definition create_batch_job (self : t) (batch_request : BatchJobRequest)
    (fresh_id : string) : pyresult BatchJob * t :=
  match req_file_ids batch_request with
  | [] => (Raise (ValueError "Batch job must have at least one file"), self)
  | _ :: _ =>
      let batch_job :=
        {| batch_id := fresh_id; name := req_name batch_request;
           file_ids := req_file_ids batch_request;
           pipeline_id := req_pipeline_id batch_request;
           custom_pipeline := req_custom_pipeline batch_request;
           status := PENDING; priority := req_priority batch_request;
           progress := None; result := None; error_message := None;
           started_at := None; completed_at := None;
           callback_url := req_callback_url batch_request;
           chunk_size :=
             match req_chunk_size batch_request with
             | Some c => if c =? 0 then 50 else c
             | None => 50
             end |} in
      (Ok batch_job,
       {| active_batch_jobs := <[fresh_id := batch_job]> (active_batch_jobs self);
          batch_job_results := <[fresh_id := []]> (batch_job_results self) |})
  end.

Definition set_progress (batch_job : BatchJob) (p : BatchJobProgress) : BatchJob :=
  {| batch_id := batch_id batch_job; name := name batch_job;
     file_ids := file_ids batch_job; pipeline_id := pipeline_id batch_job;
     custom_pipeline := custom_pipeline batch_job; status := status batch_job;
     priority := priority batch_job; progress := Some p;
     result := result batch_job; error_message := error_message batch_job;
     started_at := started_at batch_job; completed_at := completed_at batch_job;
     callback_url := callback_url batch_job; chunk_size := chunk_size batch_job |}.

Definition count_status (st : JobStatus) (jobs : list Job) : Z :=
  Z.of_nat (length (filter (fun j => Models.status j = st) jobs)).

(** The progress that [_update_batch_progress] computes from the jobs
    gathered so far. *)
Definition current_progress (batch_job : BatchJob) (jobs : list Job)
    : BatchJobProgress :=
  let n := Z.of_nat (length (file_ids batch_job)) in
  let completed := count_status COMPLETED jobs in
  let failed := count_status FAILED jobs in
  let running := count_status RUNNING jobs in
  let pending := n - completed - failed - running in
  {| total_files := n;
     completed_files := completed;
     failed_files := failed;
     running_files := running;
     pending_files := pending;
     progress_percentage :=
       match file_ids batch_job with
       | [] => 0%Q
       | _ :: _ => (inject_Z completed / inject_Z n * 100)%Q
       end |}.

Definition _update_batch_progress (self : t) (batch_id : string) : t :=
  match active_batch_jobs self !! batch_id with
  | None => self
  | Some batch_job =>
      let jobs := default [] (batch_job_results self !! batch_id) in
      put_batch self batch_id (set_progress batch_job (current_progress batch_job jobs))
  end.

(** [s.split(':')[0]] *)
Fixpoint before_colon (s : string) : string :=
  match s with
  | EmptyString => EmptyString
  | String c s' => if Ascii.eqb c ":"%char then EmptyString else String c (before_colon s')
  end.

Definition _generate_error_summary (self : t) (batch_id : string) : odict Z :=
  fold_left
    (fun error_counts job =>
       match Models.status job, Models.error_message job with
       | FAILED, Some msg =>
           if negb (String.eqb msg "") then
             let error_type :=
               if contains ":" msg then before_colon msg else "unknown"%string in
             oset error_type (default 0 (oget error_type error_counts) + 1) error_counts
           else error_counts
       | _, _ => error_counts
       end)
    (default [] (batch_job_results self !! batch_id)) [].

Definition _complete_batch_job (self : t) (batch_id : string)
    (successful_jobs failed_jobs : list string) (now : Z) : t :=
  match active_batch_jobs self !! batch_id with
  | None => self
  | Some batch_job =>
      let n := Z.of_nat (length (file_ids batch_job)) in
      put_batch self batch_id
        {| batch_id := BatchProcessor.batch_id batch_job; name := name batch_job;
           file_ids := file_ids batch_job; pipeline_id := pipeline_id batch_job;
           custom_pipeline := custom_pipeline batch_job;
           status := COMPLETED; priority := priority batch_job;
           progress :=
             Some {| total_files := n;
                     completed_files := Z.of_nat (length successful_jobs);
                     failed_files := Z.of_nat (length failed_jobs);
                     running_files := 0;
                     pending_files := 0;
                     progress_percentage := 100%Q |};
           result :=
             Some {| res_success := (length failed_jobs =? 0)%nat;
                     res_total_files := n;
                     res_completed_files := Z.of_nat (length successful_jobs);
                     res_failed_files := Z.of_nat (length failed_jobs);
                     successful_jobs := successful_jobs;
                     failed_jobs := failed_jobs;
                     res_processing_time_seconds :=
                       match started_at batch_job with
                       | Some started => total_seconds now started
                       | None => 0%Q
                       end;
                     error_summary := _generate_error_summary self batch_id |};
           error_message := error_message batch_job;
           started_at := started_at batch_job; completed_at := Some now;
           callback_url := callback_url batch_job;
           chunk_size := chunk_size batch_job |}
  end.

Definition _fail_batch_job (self : t) (batch_id : string) (error_message : string)
    (now : Z) : t :=
  match active_batch_jobs self !! batch_id with
  | None => self
  | Some batch_job =>
      put_batch self batch_id
        {| batch_id := BatchProcessor.batch_id batch_job; name := name batch_job;
           file_ids := file_ids batch_job; pipeline_id := pipeline_id batch_job;
           custom_pipeline := custom_pipeline batch_job;
           status := FAILED; priority := priority batch_job;
           progress := progress batch_job; result := result batch_job;
           error_message := Some error_message;
           started_at := started_at batch_job; completed_at := Some now;
           callback_url := callback_url batch_job;
           chunk_size := chunk_size batch_job |}
  end.

(** What [asyncio.gather(..., return_exceptions=True)] holds for one
    file: the exception that [_process_single_file_in_batch] raised, the
    job that it returned, or anything else. *)
Inductive FileResult : Type :=
| RException (message : string)
| RJob (job : Job)
| ROther.

(** The collaborators of one run: the pipeline registry, the result of
    processing the file at a position of [file_ids], two clock readings. *)
Record BatchEnv : Type := {
  registry : gmap string ProcessingPipeline;
  run_file : nat -> string -> FileResult;
  t_start : Z;
  t_end : Z
}.

(** [[l[i:i + size] for i in range(0, len(l), size)]] for [size > 0]. *)
Fixpoint chunks {A} (fuel size : nat) (l : list A) : list (list A) :=
  match fuel with
  | O => []
  | S fuel' =>
      match l with
      | [] => []
      | _ :: _ => take size l :: chunks fuel' size (drop size l)
      end
  end.

(** [range] refuses a zero step and is empty for a negative one. *)
Definition file_chunks (chunk_size : Z) (l : list string)
    : pyresult (list (list string)) :=
  if chunk_size =? 0 then Raise (ValueError "range() arg 3 must not be zero")
  else if chunk_size <? 0 then Ok []
  else Ok (chunks (length l) (Z.to_nat chunk_size) l).

(** The loop state: the processor, the two local lists, and the values
    that [batch_job.progress] has taken, latest last. *)
Record Loop : Type := {
  loop_self : t;
  loop_successful : list string;
  loop_failed : list string;
  observed : list BatchJobProgress
}.

Definition observe (self : t) (batch_id : string) (seen : list BatchJobProgress)
    : list BatchJobProgress :=
  match active_batch_jobs self !! batch_id with
  | Some batch_job =>
      match progress batch_job with
      | Some p => seen ++ [p]
      | None => seen
      end
  | None => seen
  end.

(** One turn of the loop over [chunk_results]. The list under [batch_id]
    in [batch_job_results] is there since [create_batch_job]. *)
Definition handle_result (batch_id : string) (st : Loop)
    (item : string * FileResult) : Loop :=
  let (file_id, result) := item in
  let st :=
    match result with
    | RException _ =>
        {| loop_self := loop_self st;
           loop_successful := loop_successful st;
           loop_failed := loop_failed st ++ [file_id];
           observed := observed st |}
    | RJob job =>
        let self := loop_self st in
        let self :=
          {| active_batch_jobs := active_batch_jobs self;
             batch_job_results :=
               <[batch_id := default [] (batch_job_results self !! batch_id) ++ [job]]>
                 (batch_job_results self) |} in
        if decide (Models.status job = COMPLETED) then
          {| loop_self := self;
             loop_successful := loop_successful st ++ [file_id];
             loop_failed := loop_failed st;
             observed := observed st |}
        else
          {| loop_self := self;
             loop_successful := loop_successful st;
             loop_failed := loop_failed st ++ [file_id];
             observed := observed st |}
    | ROther => st
    end in
  let self := _update_batch_progress (loop_self st) batch_id in
  {| loop_self := self;
     loop_successful := loop_successful st;
     loop_failed := loop_failed st;
     observed := observe self batch_id (observed st) |}.

(** One chunk: its files are processed together, then the results are
    taken in the order of the files. [offset] is the position of the
    chunk's first file in [file_ids]. *)
Definition process_chunk (batch_id : string) (env : BatchEnv) (offset : nat)
    (st : Loop) (file_chunk : list string) : Loop :=
  let chunk_results := imap (fun i file_id => run_file env (offset + i) file_id)
                            file_chunk in
  fold_left (handle_result batch_id) (zip file_chunk chunk_results) st.

Fixpoint process_chunks (batch_id : string) (env : BatchEnv) (offset : nat)
    (st : Loop) (file_chunks : list (list string)) : Loop :=
  match file_chunks with
  | [] => st
  | file_chunk :: rest =>
      process_chunks batch_id env (offset + length file_chunk)
        (process_chunk batch_id env offset st file_chunk) rest
  end.

Definition resolve_pipeline (batch_job : BatchJob) (env : BatchEnv)
    : option ProcessingPipeline :=
  if str_truthy (pipeline_id batch_job) then
    match pipeline_id batch_job with
    | Some pid => registry env !! pid
    | None => None
    end
  else custom_pipeline batch_job.

(** [process_batch_job_async]: the final processor and the values that
    the progress of the batch has taken on the way. *)
Definition process_batch_job_async (self : t) (batch_id : string) (env : BatchEnv)
    : t * list BatchJobProgress :=
  match active_batch_jobs self !! batch_id with
  | None => (self, [])
  | Some batch_job =>
      let total_files := Z.of_nat (length (file_ids batch_job)) in
      let initial :=
        {| total_files := total_files; completed_files := 0; failed_files := 0;
           running_files := 0; pending_files := total_files;
           progress_percentage := 0%Q |} in
      let batch_job :=
        {| batch_id := BatchProcessor.batch_id batch_job; name := name batch_job;
           file_ids := file_ids batch_job; pipeline_id := pipeline_id batch_job;
           custom_pipeline := custom_pipeline batch_job;
           status := RUNNING; priority := priority batch_job;
           progress := Some initial;
           result := result batch_job; error_message := error_message batch_job;
           started_at := Some (t_start env); completed_at := completed_at batch_job;
           callback_url := callback_url batch_job;
           chunk_size := chunk_size batch_job |} in
      let self := put_batch self batch_id batch_job in
      match resolve_pipeline batch_job env with
      | None => (_fail_batch_job self batch_id "Pipeline not found" (t_end env), [initial])
      | Some pipeline =>
          match file_chunks (chunk_size batch_job) (file_ids batch_job) with
          | Raise e =>
              (_fail_batch_job self batch_id (exn_str e) (t_end env), [initial])
          | Ok file_chunks =>
              let st :=
                process_chunks batch_id env 0
                  {| loop_self := self; loop_successful := [];
                     loop_failed := []; observed := [initial] |}
                  file_chunks in
              let self :=
                _complete_batch_job (loop_self st) batch_id
                  (loop_successful st) (loop_failed st) (t_end env) in
              (self, observe self batch_id (observed st))
          end
      end
  end.

(** *** Cancellation *)

(** [cancel_batch_job(batch_id)] at clock reading [now]. The jobs of
    the batch are the objects the job manager holds; [cancel_job] is what
    [job_manager.cancel_job] makes of a running one (the job as it is,
    when the manager refuses). *)
Definition cancel_batch_job (self : t) (batch_id : string)
    (cancel_job : Job -> Job) (now : Z) : bool * t :=
  match active_batch_jobs self !! batch_id with
  | None => (false, self)
  | Some batch_job =>
      if is_terminal (status batch_job) then (false, self)
      else
        let results :=
          match batch_job_results self !! batch_id with
          | Some jobs =>
              <[batch_id :=
                  map (fun job =>
                         if decide (Models.status job = RUNNING)
                         then cancel_job job else job) jobs]>
                (batch_job_results self)
          | None => batch_job_results self
          end in
        let self :=
          {| active_batch_jobs := active_batch_jobs self;
             batch_job_results := results |} in
        (true,
         put_batch self batch_id
           {| batch_id := BatchProcessor.batch_id batch_job; name := name batch_job;
              file_ids := file_ids batch_job; pipeline_id := pipeline_id batch_job;
              custom_pipeline := custom_pipeline batch_job;
              status := CANCELLED; priority := priority batch_job;
              progress := progress batch_job; result := result batch_job;
              error_message := error_message batch_job;
              started_at := started_at batch_job; completed_at := Some now;
              callback_url := callback_url batch_job;
              chunk_size := chunk_size batch_job |})
  end.

End BatchProcessor.

(** ** services/retry_handler.py *)

Module RetryHandler.
Import Py Models.

Inductive RetryStrategy : Type :=
| EXPONENTIAL_BACKOFF | LINEAR_BACKOFF | FIXED_INTERVAL | IMMEDIATE.

Inductive FailureType : Type :=
| TRANSIENT | PERMANENT | RATE_LIMIT | TIMEOUT | UNKNOWN.

#[global] Instance FailureType_eq_dec : EqDecision FailureType.
Proof. solve_decision. Defined.

Record RetryConfig : Type := {
  max_attempts : Z;
  strategy : RetryStrategy;
  base_delay_seconds : Q;
  max_delay_seconds : Q;
  backoff_multiplier : Q;
  jitter : bool;
  retry_on_exceptions : list string
}.

(** [RetryConfig()] with the list that [__post_init__] fills in. *)
Definition default_config : RetryConfig :=
  {| max_attempts := 3;
     strategy := EXPONENTIAL_BACKOFF;
     base_delay_seconds := 1%Q;
     max_delay_seconds := 300%Q;
     backoff_multiplier := 2%Q;
     jitter := true;
     retry_on_exceptions :=
       ["ConnectionError"; "TimeoutError"; "TemporaryFailure";
        "ResourceExhausted"; "RateLimitError"]%string |}.

Record RetryAttempt : Type := {
  attempt_number : Z;
  timestamp : Z;
  delay_seconds : Q;
  ra_error_message : string;
  ra_error_type : string;
  will_retry : bool
}.

(** The table built by [_load_failure_patterns]. The dict display names
    the key ["timeout"] twice: the key keeps the position of its first
    occurrence and the value of its last. *)
Definition failure_patterns : odict FailureType :=
  Eval cbv in odict_display
    [("connection", TRANSIENT); ("timeout", TRANSIENT); ("network", TRANSIENT);
     ("temporary", TRANSIENT); ("resource", TRANSIENT);
     ("invalid", PERMANENT); ("not found", PERMANENT); ("permission", PERMANENT);
     ("authentication", PERMANENT); ("format", PERMANENT); ("corrupt", PERMANENT);
     ("rate limit", RATE_LIMIT); ("too many", RATE_LIMIT); ("quota", RATE_LIMIT);
     ("timeout", TIMEOUT); ("deadline", TIMEOUT)]%string.

Record t : Type := {
  retry_history : gmap string (list RetryAttempt);
  patterns : odict FailureType;
  handler_default_config : RetryConfig
}.

(** [RetryHandler(settings)] *)
Definition init : t :=
  {| retry_history := ∅;
     patterns := failure_patterns;
     handler_default_config := default_config |}.

Definition pattern_matches (error_message error_type : string)
    (entry : string * FailureType) : bool :=
  contains (fst entry) error_message || contains (fst entry) error_type.

(** The first pattern of the table, in its iteration order, that occurs in
    the lowered message or in the lowered type name decides; the
    [isinstance] tests are reached only when no pattern occurs. *)
Definition _classify_failure (self : t) (error : Exception) : FailureType :=
  let error_message := lower (exc_message error) in
  let error_type := lower (exc_type_name error) in
  match List.find (pattern_matches error_message error_type) (patterns self) with
  | Some (_, failure_type) => failure_type
  | None =>
      if isa_connection_or_os_error error then TRANSIENT
      else if isa_value_or_type_error error then PERMANENT
      else if isa_timeout_error error then TIMEOUT
      else UNKNOWN
  end.

(** [b ** e] for a float [b] and an int [e]: the exponent is converted
    to a float, zero is not raised to a negative power, and a result
    beyond the float range is an [OverflowError]. *)
Definition float_pow (b : Q) (e : Z) : pyresult Q :=
  let* exponent := float_of_int e in
  if Qeq_bool b 0%Q && (e <? 0) then Raise ZeroDivisionError
  else if Qle_bool float_overflow (Qabs (Qpower b e))
  then Raise (OverflowError "(34, 'Numerical result out of range')")
  else Ok (Qpower b e).

(** [random.uniform(a, b)] is [a + (b - a) * random()], where the draw
    [u = random()] lies in [[0, 1)]. *)
Definition uniform (a b u : Q) : Q := (a + (b - a) * u)%Q.

Definition base_delay (attempt_count : Z) (config : RetryConfig) : pyresult Q :=
  match strategy config with
  | IMMEDIATE => Ok 0%Q
  | FIXED_INTERVAL => Ok (base_delay_seconds config)
  | LINEAR_BACKOFF =>
      let* attempts := float_of_int attempt_count in
      Ok (base_delay_seconds config * attempts)%Q
  | EXPONENTIAL_BACKOFF =>
      let* p := float_pow (backoff_multiplier config) (attempt_count - 1) in
      Ok (base_delay_seconds config * p)%Q
  end.

Definition adjust_for_failure_type (failure_type : FailureType) (delay : Q) : Q :=
  match failure_type with
  | RATE_LIMIT => (delay * 2)%Q
  | TIMEOUT => (delay * (3 # 2))%Q
  | _ => delay
  end.

Definition add_jitter (config : RetryConfig) (u : Q) (delay : Q) : Q :=
  if jitter config then
    let jitter_amount := (delay * (1 # 10))%Q in
    (delay + uniform (- jitter_amount) jitter_amount u)%Q
  else delay.

(** The body of [_calculate_delay] inside its [try]. The embedding has
    the finite floats only: where a product leaves their range Python
    goes on with an infinity. A positive one is cut by the clamp like
    any large value; a negative one passes the clamp, and with the
    jitter the result is [nan]. Statements about the delay therefore ask
    that the delay before the clamp is not below the range. *)
Definition calculate_delay_try (attempt_count : Z) (config : RetryConfig)
    (failure_type : FailureType) (u : Q) : pyresult Q :=
  match strategy config with
  | IMMEDIATE => Ok 0%Q
  | _ =>
      let* delay := base_delay attempt_count config in
      let delay := adjust_for_failure_type failure_type delay in
      let delay := Qmin delay (max_delay_seconds config) in
      let delay := add_jitter config u delay in
      Ok (Qmax delay (1 # 10)%Q)
  end.

Definition _calculate_delay (attempt_count : Z) (config : RetryConfig)
    (failure_type : FailureType) (u : Q) : Q :=
  match calculate_delay_try attempt_count config failure_type u with
  | Ok delay => delay
  | Raise _ => base_delay_seconds config
  end.

Definition _get_attempt_count (self : t) (job_id : string) : Z :=
  Z.of_nat (length (default [] (retry_history self !! job_id))).

(** [l[-10:]] *)
Definition last_10 {A} (l : list A) : list A := drop (length l - 10) l.

Definition _record_retry_attempt (self : t) (job_id : string)
    (attempt_number : Z) (delay_seconds : Q) (error : Exception) (now : Z) : t :=
  let attempt :=
    {| attempt_number := attempt_number;
       timestamp := now;
       delay_seconds := delay_seconds;
       ra_error_message := exc_message error;
       ra_error_type := exc_type_name error;
       will_retry := attempt_number <? max_attempts (handler_default_config self) |} in
  let history := default [] (retry_history self !! job_id) ++ [attempt] in
  let history := if (10 <? length history)%nat then last_10 history else history in
  {| retry_history := <[job_id := history]> (retry_history self);
     patterns := patterns self;
     handler_default_config := handler_default_config self |}.

(** [should_retry(job, error, config)]; [now] is the clock reading and [u]
    the random draw used for the jitter. *)
Definition should_retry (self : t) (job : Job) (error : Exception)
    (config : option RetryConfig) (now : Z) (u : Q) : (bool * Q) * t :=
  let retry_config := default (handler_default_config self) config in
  let current_attempts := _get_attempt_count self (job_id job) in
  if max_attempts retry_config <=? current_attempts then ((false, 0%Q), self)
  else
    let failure_type := _classify_failure self error in
    if decide (failure_type = PERMANENT) then ((false, 0%Q), self)
    else if negb (bool_decide (exc_type_name error ∈ retry_on_exceptions retry_config))
    then ((false, 0%Q), self)
    else
      let delay := _calculate_delay current_attempts retry_config failure_type u in
      ((true, delay),
       _record_retry_attempt self (job_id job) (current_attempts + 1) delay error now).

(** *** Clearing the history *)

(** [clear_retry_history(job_id)] *)
Definition clear_retry_history (self : t) (job_id : string) : t :=
  {| retry_history := delete job_id (retry_history self);
     patterns := patterns self;
     handler_default_config := handler_default_config self |}.

(** [timedelta(hours=h)] in microseconds. *)
Definition hours (h : Z) : Z := h * 3600 * 1000000.

(** [clear_old_retry_history(older_than_hours)] at clock reading [now]:
    a job goes when all its attempts are older than the cutoff. *)
Definition clear_old_retry_history (self : t) (older_than_hours : Z) (now : Z) : t :=
  let cutoff_time := now - hours older_than_hours in
  {| retry_history :=
       filter (fun kv => forallb (fun attempt => timestamp attempt <? cutoff_time)
                                 (snd kv) = false)
              (retry_history self);
     patterns := patterns self;
     handler_default_config := handler_default_config self |}.

(** *** Running an operation with retries *)

(** What one call of the operation does. *)
Inductive Attempt (A : Type) : Type :=
| Returns (a : A)
| Throws (e : Exception).
Arguments Returns {A} a.
Arguments Throws {A} e.

(** The operation, as the outcome of its calls in their order from 0,
    with the clock reading and the random draw at each failure. *)
Record Environment (A : Type) : Type := {
  operation : nat -> Attempt A;
  clock : nat -> Z;
  draws : nat -> Q
}.
Arguments operation {A} _ _.
Arguments clock {A} _ _.
Arguments draws {A} _ _.

(** How [execute_with_retry] ends; [RaisesNone] is the [TypeError] of
    [raise None]. *)
Inductive Outcome (A : Type) : Type :=
| Returned (a : A)
| Raised (e : Exception)
| RaisesNone.
Arguments Returned {A} a.
Arguments Raised {A} e.
Arguments RaisesNone {A}.

Record Execution (A : Type) : Type := {
  outcome : Outcome A;
  calls : nat;
  slept : list Q;
  handler : t
}.
Arguments outcome {A} _.
Arguments calls {A} _.
Arguments slept {A} _.
Arguments handler {A} _.

(** [Job(job_id=job_id, file_id="")] *)
Definition minimal_job (job_id : string) (now : Z) : Job :=
  {| Models.job_id := job_id; file_id := ""; pipeline_id := None;
     custom_pipeline := None; status := PENDING; priority := MEDIUM;
     priority_is_str := false;
     result := None; error_message := None; created_at := now;
     started_at := None; completed_at := None; callback_url := None;
     metadata := [] |}.

(** The loop [for attempt in range(retry_config.max_attempts)], with
    [remaining] turns to go, and the [raise last_exception] after it. *)
Fixpoint execute_loop {A} (self : t) (job_id : string) (retry_config : RetryConfig)
    (env : Environment A) (remaining attempt : nat) (slept : list Q)
    (last_exception : option Exception) : Execution A :=
  match remaining with
  | O =>
      {| outcome := match last_exception with
                    | Some e => Raised e
                    | None => RaisesNone
                    end;
         calls := attempt; slept := slept; handler := self |}
  | S remaining' =>
      match operation env attempt with
      | Returns result =>
          {| outcome := Returned result; calls := S attempt; slept := slept;
             handler := clear_retry_history self job_id |}
      | Throws e =>
          let '((retry, delay), self) :=
            should_retry self (minimal_job job_id (clock env attempt)) e
              (Some retry_config) (clock env attempt) (draws env attempt) in
          if negb retry || (Z.of_nat attempt =? max_attempts retry_config - 1) then
            {| outcome := Raised e; calls := S attempt; slept := slept;
               handler := self |}
          else
            execute_loop self job_id retry_config env remaining' (S attempt)
              (if Qlt_bool 0 delay then slept ++ [delay] else slept) (Some e)
      end
  end.

(** [execute_with_retry(job_id, operation, config)] *)
Definition execute_with_retry {A} (self : t) (job_id : string)
    (config : option RetryConfig) (env : Environment A) : Execution A :=
  let retry_config := default (handler_default_config self) config in
  execute_loop self job_id retry_config env (Z.to_nat (max_attempts retry_config))
    0 [] None.

(** *** Sequences of calls *)

Inductive op : Type :=
| ShouldRetry (job : Job) (error : Exception) (config : option RetryConfig)
    (now : Z) (u : Q)
| ClearRetryHistory (job_id : string)
| ClearOldRetryHistory (older_than_hours : Z) (now : Z).

Definition step (self : t) (o : op) : t :=
  match o with
  | ShouldRetry job error config now u => snd (should_retry self job error config now u)
  | ClearRetryHistory job_id => clear_retry_history self job_id
  | ClearOldRetryHistory older_than_hours now =>
      clear_old_retry_history self older_than_hours now
  end.

Definition run (ops : list op) (self : t) : t := fold_left step ops self.

End RetryHandler.

(** ** services/dead_letter_queue.py *)

Module DeadLetterQueue.
Import Py Models.

Inductive DeadLetterReason : Type :=
| MAX_RETRIES_EXCEEDED | PERMANENT_FAILURE | TIMEOUT | INVALID_INPUT
| RESOURCE_EXHAUSTED | CONFIGURATION_ERROR | UNKNOWN.

Inductive DeadLetterAction : Type :=
| RETRY_LATER | MANUAL_REVIEW | ARCHIVE | DELETE | NOTIFY.

#[global] Instance DeadLetterReason_eq_dec : EqDecision DeadLetterReason.
Proof. solve_decision. Defined.

#[global] Instance DeadLetterAction_eq_dec : EqDecision DeadLetterAction.
Proof. solve_decision. Defined.

Definition reason_value (r : DeadLetterReason) : string :=
  match r with
  | MAX_RETRIES_EXCEEDED => "max_retries_exceeded"
  | PERMANENT_FAILURE => "permanent_failure"
  | TIMEOUT => "timeout"
  | INVALID_INPUT => "invalid_input"
  | RESOURCE_EXHAUSTED => "resource_exhausted"
  | CONFIGURATION_ERROR => "configuration_error"
  | UNKNOWN => "unknown"
  end.

Definition action_value (a : DeadLetterAction) : string :=
  match a with
  | RETRY_LATER => "retry_later"
  | MANUAL_REVIEW => "manual_review"
  | ARCHIVE => "archive"
  | DELETE => "delete"
  | NOTIFY => "notify"
  end.

Record DeadLetterEntry : Type := {
  job_id : string;
  file_id : string;
  original_job_data : Job;
  failure_reason : DeadLetterReason;
  error_message : string;
  error_type : string;
  retry_count : Z;
  first_failed_at : Z;
  last_failed_at : Z;
  processing_attempts : list string;
  recommended_action : DeadLetterAction;
  priority : Z
}.

Record Stats : Type := {
  total_entries : Z;
  entries_by_reason : gmap string Z;
  entries_by_action : gmap string Z;
  processed_entries : Z;
  failed_processing : Z
}.

Record t : Type := {
  entries : gmap string DeadLetterEntry;
  max_queue_size : Z;
  retention_days : Z;
  stats : Stats
}.

Definition _classify_failure_reason (error : Exception) (retry_count : Z)
    : DeadLetterReason :=
  let error_message := lower (exc_message error) in
  if 3 <=? retry_count then MAX_RETRIES_EXCEEDED
  else if contains "invalid" error_message || contains "not found" error_message
  then INVALID_INPUT
  else if contains "timeout" error_message || contains "deadline" error_message
  then TIMEOUT
  else if contains "resource" error_message || contains "memory" error_message
          || contains "disk" error_message
  then RESOURCE_EXHAUSTED
  else if contains "config" error_message || contains "setting" error_message
  then CONFIGURATION_ERROR
  else if contains "permanent" error_message || contains "fatal" error_message
  then PERMANENT_FAILURE
  else UNKNOWN.

Definition _recommend_action (failure_reason : DeadLetterReason)
    (error : Exception) (retry_count : Z) : DeadLetterAction :=
  match failure_reason with
  | MAX_RETRIES_EXCEEDED => MANUAL_REVIEW
  | TIMEOUT => RETRY_LATER
  | RESOURCE_EXHAUSTED => RETRY_LATER
  | INVALID_INPUT => MANUAL_REVIEW
  | CONFIGURATION_ERROR => MANUAL_REVIEW
  | PERMANENT_FAILURE => ARCHIVE
  | UNKNOWN => MANUAL_REVIEW
  end.

(** [job.priority.value]: the member of the enum has its string there, a
    plain string has no such attribute. *)
Definition priority_value (job : Job) : pyresult string :=
  if priority_is_str job
  then Raise (AttributeError "'str' object has no attribute 'value'")
  else Ok (priority_str (Models.priority job)).

(** [_calculate_priority(job, failure_reason, retry_count)]; the test
    [hasattr(job, 'priority')] holds for every job. *)
Definition _calculate_priority (job : Job) (failure_reason : DeadLetterReason)
    (retry_count : Z) (now : Z) : pyresult Z :=
  let hours_since_failure := (total_seconds now (created_at job) / 3600)%Q in
  let priority := 0 in
  let priority :=
    if Qlt_bool hours_since_failure 1%Q then priority + 10
    else if Qlt_bool hours_since_failure 24%Q then priority + 5
    else priority in
  let priority :=
    match failure_reason with
    | RESOURCE_EXHAUSTED => priority + 8
    | CONFIGURATION_ERROR => priority + 6
    | _ => priority
    end in
  let priority := priority + Z.min retry_count 5 in
  let* value := priority_value job in
  Ok (if String.eqb value "urgent" then priority + 10 else priority).

(** [timedelta(days=d)] in microseconds. *)
Definition days (d : Z) : Z := d * 86400 * 1000000.

Definition with_entries (self : t) (es : gmap string DeadLetterEntry) : t :=
  {| entries := es; max_queue_size := max_queue_size self;
     retention_days := retention_days self; stats := stats self |}.

(** Entries whose last failure is older than the retention period go. *)
Definition _cleanup_old_entries (self : t) (now : Z) : t :=
  let cutoff_time := now - days (retention_days self) in
  with_entries self
    (filter (fun kv => ¬ (last_failed_at (snd kv) < cutoff_time)) (entries self)).

Definition bump (k : string) (m : gmap string Z) : gmap string Z :=
  <[k := default 0 (m !! k) + 1]> m.

Definition _update_statistics_added (self : t) (entry : DeadLetterEntry) : t :=
  {| entries := entries self; max_queue_size := max_queue_size self;
     retention_days := retention_days self;
     stats :=
       {| total_entries := total_entries (stats self) + 1;
          entries_by_reason :=
            bump (reason_value (failure_reason entry)) (entries_by_reason (stats self));
          entries_by_action :=
            bump (action_value (recommended_action entry)) (entries_by_action (stats self));
          processed_entries := processed_entries (stats self);
          failed_processing := failed_processing (stats self) |} |}.

(** [add_job(job, error, retry_count, processing_attempts)] at clock
    reading [now]. An exception is logged and raised again; the one that
    can arise, in [_calculate_priority], does so while the entry is being
    built, before the queue is touched. The datastore write is outside
    the model: its failure is logged and ignored by [_save_entry]. *)
Definition add_job (self : t) (job : Job) (error : Exception) (retry_count : Z)
    (processing_attempts : option (list string)) (now : Z) : pyresult string * t :=
  let failure_reason := _classify_failure_reason error retry_count in
  let recommended_action := _recommend_action failure_reason error retry_count in
  match _calculate_priority job failure_reason retry_count now with
  | Raise e => (Raise e, self)
  | Ok priority =>
      let entry :=
        {| job_id := Models.job_id job;
           file_id := Models.file_id job;
           original_job_data := job;
           failure_reason := failure_reason;
           error_message := exc_message error;
           error_type := exc_type_name error;
           retry_count := retry_count;
           first_failed_at := default (created_at job) (started_at job);
           last_failed_at := now;
           processing_attempts := default [] processing_attempts;
           recommended_action := recommended_action;
           priority := priority |} in
      let self :=
        if max_queue_size self <=? Z.of_nat (size (entries self))
        then _cleanup_old_entries self now else self in
      let self := with_entries self (<[job_id entry := entry]> (entries self)) in
      let self := _update_statistics_added self entry in
      (Ok (job_id entry), self)
  end.

Definition get_entry (self : t) (job_id : string) : option DeadLetterEntry :=
  entries self !! job_id.

(** *** Processing entries *)

(** [remove_entry(job_id)]; the delete in the datastore is outside the
    model, as its failure is logged and ignored by [_delete_entry]. *)
Definition remove_entry (self : t) (job_id : string) : bool * t :=
  (true, with_entries self (delete job_id (entries self))).

(** [v * 60]: the product of a number, sixty copies of a string, and a
    [TypeError] on [None]. *)
Definition times_60 (v : pyval) : pyresult pyval :=
  match v with
  | VNum q => Ok (VNum (q * 60)%Q)
  | VStr s => Ok (VStr (String.concat "" (replicate 60 s)))
  | VNone => Raise TypeError
  end.

(** [retry_job(job_id, delay_minutes)]. The test [delay_minutes > 0]
    raises on a string and on [None], and the handler of the method
    answers [False]. The wait itself takes time only: [asyncio.sleep]
    waits for any number of seconds that fits a float (beyond that range
    it fails or does not end, which the model leaves out). *)
Definition retry_job (self : t) (job_id : string) (delay_minutes : pyval)
    : bool * t :=
  match get_entry self job_id with
  | None => (false, self)
  | Some entry =>
      match delay_minutes with
      | VNum _ => (true, snd (remove_entry self job_id))
      | VStr _ => (false, self)
      | VNone => (false, self)
      end
  end.

(** [_handle_retry_later]; [auto_retry_interval_hours] is the setting
    [DLQ_AUTO_RETRY_HOURS]. The product [delay_hours * 60] is formed
    before [retry_job] is entered: its exception leaves the handler. *)
Definition _handle_retry_later (self : t) (entry : DeadLetterEntry)
    (parameters : gmap string pyval) (auto_retry_interval_hours : pyval)
    : pyresult (bool * t) :=
  let delay_hours :=
    default auto_retry_interval_hours (parameters !! "delay_hours"%string) in
  let* delay_minutes := times_60 delay_hours in
  Ok (retry_job self (job_id entry) delay_minutes).

(** The handlers registered by [_register_default_handlers]. *)
Definition handle (self : t) (action : DeadLetterAction) (entry : DeadLetterEntry)
    (parameters : gmap string pyval) (auto_retry_interval_hours : pyval)
    : pyresult (bool * t) :=
  match action with
  | RETRY_LATER => _handle_retry_later self entry parameters auto_retry_interval_hours
  | MANUAL_REVIEW => Ok (true, self)
  | ARCHIVE => Ok (true, self)
  | DELETE => Ok (true, self)
  | NOTIFY => Ok (true, self)
  end.

Definition with_stats (self : t) (s : Stats) : t :=
  {| entries := entries self; max_queue_size := max_queue_size self;
     retention_days := retention_days self; stats := s |}.

(** [_update_statistics(entry, 'processed')] *)
Definition _update_statistics_processed (self : t) : t :=
  with_stats self
    {| total_entries := total_entries (stats self);
       entries_by_reason := entries_by_reason (stats self);
       entries_by_action := entries_by_action (stats self);
       processed_entries := processed_entries (stats self) + 1;
       failed_processing := failed_processing (stats self) |}.

(** [_update_statistics(entry, 'failed_processing')] *)
Definition _update_statistics_failed (self : t) : t :=
  with_stats self
    {| total_entries := total_entries (stats self);
       entries_by_reason := entries_by_reason (stats self);
       entries_by_action := entries_by_action (stats self);
       processed_entries := processed_entries (stats self);
       failed_processing := failed_processing (stats self) + 1 |}.

(** [process_entry(job_id, action, parameters)]. An exception that
    leaves the handler is logged and the method answers [False], without
    a count. *)
Definition process_entry (self : t) (job_id : string)
    (action : option DeadLetterAction) (parameters : option (gmap string pyval))
    (auto_retry_interval_hours : pyval) : bool * t :=
  match get_entry self job_id with
  | None => (false, self)
  | Some entry =>
      let action := default (recommended_action entry) action in
      let parameters := default ∅ parameters in
      match handle self action entry parameters auto_retry_interval_hours with
      | Raise _ => (false, self)
      | Ok (success, self) =>
          if success then
            let self := snd (remove_entry self job_id) in
            (true, _update_statistics_processed self)
          else (false, _update_statistics_failed self)
      end
  end.

End DeadLetterQueue.

(** * Properties *)

Module WorkerScalerSpec.
Import Py WorkerScaler.

(** C9. With [queue_size = 60], five current workers and a maximum of
    twenty, the decision function answers [scale_up] with a target of
    ten workers (five added) and the high-queue-load reason, whatever
    the load score, the thresholds, the worker table, the current load
    and the capacity are. *)
Theorem scale_up_on_queue_60 :
  forall (self : t) (load_score : Q) (current_load total_capacity : Z),
    current_workers self = 5 ->
    max_workers self = 20 ->
    _determine_scaling_action self load_score 60 current_load total_capacity
    = Ok ("scale_up"%string, 10, "High queue load - adding 5 workers"%string).
Proof.
  intros self load_score cl tc Hcur Hmax.
  unfold _determine_scaling_action, scale_up_condition.
  destruct (Qlt_bool (scale_up_threshold self) load_score); simpl;
    rewrite Hcur, Hmax; reflexivity.
Qed.

Definition five_of_twenty : t :=
  {| current_workers := 5; min_workers := 2; max_workers := 20;
     scale_up_threshold := 8 # 10; scale_down_threshold := 2 # 10;
     worker_metrics := [] |}.

Lemma scale_up_on_queue_60_witness :
  _determine_scaling_action five_of_twenty (1 # 10) 60 0 0
  = Ok ("scale_up"%string, 10, "High queue load - adding 5 workers"%string).
Proof.
  apply (scale_up_on_queue_60 five_of_twenty (1 # 10) 0 0); reflexivity.
Defined.

(** Without the queue, the same scaler with no capacity at all cannot
    decide: the load ratio divides by zero. *)
Example no_capacity_no_queue :
  _determine_scaling_action five_of_twenty (1 # 10) 0 0 0 = Raise ZeroDivisionError.
Proof. reflexivity. Qed.

End WorkerScalerSpec.

Module DeadLetterQueueSpec.
Import Py Models DeadLetterQueue.

Lemma classify_max_retries (error : Exception) (retry_count : Z) :
  3 <= retry_count ->
  _classify_failure_reason error retry_count = MAX_RETRIES_EXCEEDED.
Proof.
  intros Hge. unfold _classify_failure_reason.
  destruct (Z.leb_spec 3 retry_count) as [_ | Hlt]; [reflexivity | lia].
Qed.

(** Where [job.priority] is the member of the enum - a job that was built
    without a priority - [add_job] with [retry_count >= 3] returns the
    entry id and leaves under it an entry whose [failure_reason] is
    [MAX_RETRIES_EXCEEDED], whatever the error and its message are. *)
Lemma add_job_files_default_priority :
  forall (self : t) (job : Job) (error : Exception) (retry_count : Z)
         (attempts : option (list string)) (now : Z),
    priority_is_str job = false ->
    3 <= retry_count ->
    exists (self' : t) (entry : DeadLetterEntry),
      add_job self job error retry_count attempts now
        = (Ok (Models.job_id job), self')
      /\ get_entry self' (Models.job_id job) = Some entry
      /\ failure_reason entry = MAX_RETRIES_EXCEEDED
      /\ error_message entry = exc_message error
      /\ DeadLetterQueue.retry_count entry = retry_count.
Proof.
  intros self job error retry_count attempts now Hmember Hge.
  unfold add_job, _calculate_priority, priority_value.
  rewrite (classify_max_retries error retry_count Hge), Hmember. cbn [bind].
  eexists. eexists. split; [reflexivity |]. split.
  - unfold get_entry. cbn. apply lookup_insert_eq.
  - cbn. auto.
Qed.

Definition timeout_error : Exception :=
  {| exc_message := "Operation timeout: deadline exceeded";
     exc_type_name := "TimeoutError";
     isa_connection_or_os_error := true;
     isa_value_or_type_error := false;
     isa_timeout_error := true |}.

Definition empty_queue : t :=
  {| entries := ∅; max_queue_size := 10000; retention_days := 30;
     stats := {| total_entries := 0; entries_by_reason := ∅;
                 entries_by_action := ∅; processed_entries := 0;
                 failed_processing := 0 |} |}.

(** With fewer than three retries the same error is filed as a timeout. *)
Example timeout_error_below_three_retries :
  _classify_failure_reason timeout_error 2 = TIMEOUT.
Proof. reflexivity. Qed.

(** [Job(job_id="job-1", file_id="")], a job without a given priority,
    after five retries. *)
Example default_priority_job_is_filed :
  exists (self' : t) (entry : DeadLetterEntry),
    add_job empty_queue (RetryHandler.minimal_job "job-1" 0) timeout_error 5 None 3000000
      = (Ok "job-1"%string, self')
    /\ get_entry self' "job-1" = Some entry
    /\ failure_reason entry = MAX_RETRIES_EXCEEDED.
Proof.
  destruct (add_job_files_default_priority empty_queue
              (RetryHandler.minimal_job "job-1" 0) timeout_error 5 None 3000000)
    as (self' & entry & Hadd & Hentry & Hreason & _); [reflexivity | lia |].
  exists self', entry. repeat split; assumption.
Qed.

(** C6: the code fails the claim. [create_job] hands the priority of the
    request to the constructor of [Job], which holds it as the plain
    string of its value. For such a job - and so for every job that the
    job manager has made - [_calculate_priority] raises [AttributeError]
    at [job.priority.value], [add_job] raises it again and files no
    entry, whatever the error and the retry count are; the
    classification itself would have been [MAX_RETRIES_EXCEEDED] from
    three retries on. *)
Theorem add_job_raises_for_created_job :
  forall (manager : JobManager.t) (job_request : JobRequest) (fresh_id : string)
         (created : Z) (db_up : bool) (self : t) (error : Exception)
         (retry_count : Z) (attempts : option (list string)) (now : Z),
    let job := fst (JobManager.create_job manager job_request fresh_id created db_up) in
    add_job self job error retry_count attempts now
    = (Raise (AttributeError "'str' object has no attribute 'value'"), self)
    /\ get_entry (snd (add_job self job error retry_count attempts now))
         (Models.job_id job)
       = get_entry self (Models.job_id job)
    /\ _classify_failure_reason error (Z.max 3 retry_count) = MAX_RETRIES_EXCEEDED.
Proof.
  intros manager job_request fresh_id created db_up self error retry_count attempts now.
  cbv zeta.
  assert (Hadd :
    add_job self (fst (JobManager.create_job manager job_request fresh_id created db_up))
      error retry_count attempts now
    = (Raise (AttributeError "'str' object has no attribute 'value'"), self)).
  { unfold add_job, _calculate_priority, priority_value, JobManager.create_job.
    cbn [fst priority_is_str bind]. reflexivity. }
  split; [exact Hadd |]. split.
  - rewrite Hadd. reflexivity.
  - apply classify_max_retries. lia.
Qed.

(** The job of the scenario, made by [create_job] from a request for the
    resize pipeline, fails with a timeout after five retries. *)
Example created_job_is_not_filed :
  let job :=
    fst (JobManager.create_job JobManager.init
           {| req_file_id := "file-1"; req_pipeline_id := Some "image_resize"%string;
              req_custom_pipeline := None; req_priority := MEDIUM;
              req_callback_url := None; req_metadata := [] |}
           "job-1" 0 true) in
  add_job empty_queue job timeout_error 5 None 3000000
  = (Raise (AttributeError "'str' object has no attribute 'value'"), empty_queue).
Proof. reflexivity. Qed.

End DeadLetterQueueSpec.

Module RetryHandlerSpec.
Import Py Models RetryHandler.

(** *** Classification *)

(** The patterns that the table consults before ["not found"] and that
    carry a type other than [PERMANENT]. *)
Definition consulted_first : list string :=
  ["connection"; "timeout"; "network"; "temporary"; "resource"]%string.

Definition consulted_next : list string :=
  ["invalid"; "not found"; "permission"; "authentication"; "format"; "corrupt";
   "rate limit"; "too many"; "quota"; "deadline"]%string.

Lemma table_order :
  okeys failure_patterns = consulted_first ++ consulted_next.
Proof. reflexivity. Qed.

Definition occurs (p : string) (error : Exception) : bool :=
  contains p (lower (exc_message error)) || contains p (lower (exc_type_name error)).

Lemma pattern_matches_occurs (error : Exception) (p : string) (ft : FailureType) :
  pattern_matches (lower (exc_message error)) (lower (exc_type_name error)) (p, ft)
  = occurs p error.
Proof. reflexivity. Qed.

Lemma not_found_classified_permanent (self : t) (error : Exception) :
  patterns self = failure_patterns ->
  contains "not found" (lower (exc_message error)) = true ->
  Forall (fun p => occurs p error = false) consulted_first ->
  _classify_failure self error = PERMANENT.
Proof.
  intros Hpat Hnf Hfirst.
  unfold consulted_first in Hfirst.
  repeat match goal with
         | H : Forall _ (_ :: _) |- _ => apply Forall_cons_1 in H; destruct H
         end.
  unfold _classify_failure. rewrite Hpat. unfold failure_patterns.
  cbn [List.find]. rewrite !pattern_matches_occurs.
  repeat match goal with H : occurs _ _ = false |- _ => rewrite H; clear H end.
  destruct (occurs "invalid" error); [reflexivity |].
  unfold occurs at 1. rewrite Hnf. reflexivity.
Qed.

(** C7, as the code has it. A job without recorded retry attempts whose
    error message contains "not found" (in any letter case) is classified
    [PERMANENT] and [should_retry] answers [(false, 0)] at once, for every
    [max_attempts >= 1], provided none of the patterns consulted first
    (connection, timeout, network, temporary, resource) occurs in the
    message or in the exception type name. *)
Theorem not_found_never_retried :
  forall (self : t) (job : Job) (error : Exception)
         (config : option RetryConfig) (now : Z) (u : Q),
    patterns self = failure_patterns ->
    _get_attempt_count self (Models.job_id job) = 0 ->
    1 <= max_attempts (default (handler_default_config self) config) ->
    contains "not found" (lower (exc_message error)) = true ->
    Forall (fun p => occurs p error = false) consulted_first ->
    _classify_failure self error = PERMANENT
    /\ should_retry self job error config now u = ((false, 0%Q), self).
Proof.
  intros self job error config now u Hpat Hhist Hmax Hnf Hfirst.
  pose proof (not_found_classified_permanent self error Hpat Hnf Hfirst) as Hperm.
  split; [exact Hperm |].
  unfold should_retry. rewrite Hhist, Hperm.
  destruct (Z.leb_spec (max_attempts (default (handler_default_config self) config)) 0)
    as [Hle | _]; [lia | reflexivity].
Qed.

Definition file_missing : Exception :=
  {| exc_message := "Input file Not Found in bucket";
     exc_type_name := "FileNotFoundError";
     isa_connection_or_os_error := true;
     isa_value_or_type_error := false;
     isa_timeout_error := false |}.

Definition host_missing : Exception :=
  {| exc_message := "connection failed: host not found";
     exc_type_name := "ConnectionError";
     isa_connection_or_os_error := true;
     isa_value_or_type_error := false;
     isa_timeout_error := false |}.

Definition fresh_job : Job :=
  {| Models.job_id := "job-7"; Models.file_id := "file-7";
     pipeline_id := Some "image_resize"; custom_pipeline := None;
     status := RUNNING; priority := MEDIUM;
     priority_is_str := true; result := None;
     error_message := None; created_at := 0; started_at := Some 1000000;
     completed_at := None; callback_url := None; metadata := [] |}.

Lemma not_found_never_retried_witness :
  _classify_failure init file_missing = PERMANENT
  /\ should_retry init fresh_job file_missing (Some default_config) 5000000 (1 # 2)
     = ((false, 0%Q), init).
Proof.
  apply (not_found_never_retried init fresh_job file_missing (Some default_config)
           5000000 (1 # 2)).
  - reflexivity.
  - reflexivity.
  - simpl. lia.
  - reflexivity.
  - unfold consulted_first. repeat constructor.
Defined.

(** C7, as stated, fails: the message below contains "not found", the job
    has no retry history and [max_attempts] is 3, yet "connection" is
    consulted first, the failure is [TRANSIENT] and a retry is granted. *)
Lemma not_found_message_retried :
  contains "not found" (lower (exc_message host_missing)) = true
  /\ _get_attempt_count init (Models.job_id fresh_job) = 0
  /\ 1 <= max_attempts default_config
  /\ _classify_failure init host_missing = TRANSIENT
  /\ fst (fst (should_retry init fresh_job host_missing (Some default_config)
                 5000000 (1 # 2))) = true.
Proof. repeat split; (reflexivity || (simpl; lia)). Qed.

(** *** Delay *)

Lemma Qle_bool_false (x y : Q) : Qle_bool x y = false <-> (y < x)%Q.
Proof.
  split.
  - intros H. apply Qnot_le_lt. intros Hle. apply Qle_bool_iff in Hle. congruence.
  - intros H. destruct (Qle_bool x y) eqn:Hb; [| reflexivity].
    apply Qle_bool_iff in Hb. lra.
Qed.

Lemma float_of_int_inv (n : Z) (x : Q) :
  float_of_int n = Ok x ->
  x = inject_Z n /\ (Qabs (inject_Z n) < float_overflow)%Q.
Proof.
  unfold float_of_int. destruct (Qle_bool _ _) eqn:Hb; [discriminate |].
  intros [= <-]. split; [reflexivity | apply Qle_bool_false, Hb].
Qed.

Lemma float_of_int_defined (n : Z) :
  (Qabs (inject_Z n) < float_overflow)%Q -> float_of_int n = Ok (inject_Z n).
Proof.
  intros H. unfold float_of_int. apply Qle_bool_false in H. rewrite H. reflexivity.
Qed.

(** What a power that has a value says about its arguments. *)
Lemma float_pow_inv (b : Q) (e : Z) (p : Q) :
  float_pow b e = Ok p ->
  p = Qpower b e
  /\ ~ ((b == 0)%Q /\ e < 0)
  /\ (Qabs (inject_Z e) < float_overflow)%Q
  /\ (Qabs (Qpower b e) < float_overflow)%Q.
Proof.
  unfold float_pow.
  destruct (float_of_int e) as [x | err] eqn:Hconv; [| discriminate].
  apply float_of_int_inv in Hconv. destruct Hconv as [_ He]. cbn [bind].
  destruct (Qeq_bool b 0) eqn:Hb; cbn [andb].
  - destruct (Z.ltb_spec e 0) as [Hneg | Hpos]; [discriminate |].
    destruct (Qle_bool _ _) eqn:Hp; [discriminate |]. intros [= <-].
    split; [reflexivity |]. split; [lia |]. split; [exact He |].
    apply Qle_bool_false, Hp.
  - destruct (Qle_bool _ _) eqn:Hp; [discriminate |]. intros [= <-].
    split; [reflexivity |]. split.
    + intros [Hz _]. apply Qeq_bool_iff in Hz. congruence.
    + split; [exact He | apply Qle_bool_false, Hp].
Qed.

Lemma float_pow_defined (b : Q) (e : Z) :
  ~ ((b == 0)%Q /\ e < 0) ->
  (Qabs (inject_Z e) < float_overflow)%Q ->
  (Qabs (Qpower b e) < float_overflow)%Q ->
  float_pow b e = Ok (Qpower b e).
Proof.
  intros Hdef He Hp. unfold float_pow.
  rewrite (float_of_int_defined e He). cbn [bind].
  apply Qle_bool_false in Hp. rewrite Hp.
  destruct (Qeq_bool b 0) eqn:Hb; [| reflexivity].
  destruct (Z.ltb_spec e 0) as [Hneg | Hpos]; [| reflexivity].
  exfalso. apply Hdef. split; [apply Qeq_bool_iff; exact Hb | exact Hneg].
Qed.







(** The floor, too, can lift the delay above the maximum. *)
Example floor_exceeds_small_max_delay :
  let config :=
    {| max_attempts := 3; strategy := EXPONENTIAL_BACKOFF;
       base_delay_seconds := 1; max_delay_seconds := 1 # 20;
       backoff_multiplier := 2; jitter := false;
       retry_on_exceptions := [] |} in
  (_calculate_delay 1 config TRANSIENT 0 == 1 # 10)%Q.
Proof. reflexivity. Qed.

(** A zero multiplier at the first attempt ends in the handler of
    [_calculate_delay], which answers the unclamped base delay. *)
Example zero_multiplier_first_attempt :
  let config :=
    {| max_attempts := 3; strategy := EXPONENTIAL_BACKOFF;
       base_delay_seconds := 1000; max_delay_seconds := 300;
       backoff_multiplier := 0; jitter := false;
       retry_on_exceptions := [] |} in
  _calculate_delay 0 config TRANSIENT 0 = 1000%Q.
Proof. reflexivity. Qed.

(** So does a power beyond the float range: [2.0 ** 1024] raises
    [OverflowError], and the delay is the base delay of 1000s although
    the maximum is 300s. One attempt earlier the power has a value and
    the delay is the maximum. *)
Example overflow_answers_base_delay :
  let config :=
    {| max_attempts := 2000; strategy := EXPONENTIAL_BACKOFF;
       base_delay_seconds := 1000; max_delay_seconds := 300;
       backoff_multiplier := 2; jitter := false;
       retry_on_exceptions := [] |} in
  float_pow 2 1024 = Raise (OverflowError "(34, 'Numerical result out of range')")
  /\ _calculate_delay 1025 config TRANSIENT 0 = 1000%Q
  /\ (_calculate_delay 1024 config TRANSIENT 0 == 300)%Q.
Proof. cbv zeta. split; [| split]; vm_compute; reflexivity. Qed.

End RetryHandlerSpec.

Module JobManagerSpec.
Import Py Models JobManager.

(** *** Request validation *)

Definition two_step_pipeline : ProcessingPipeline :=
  {| pl_pipeline_id := "custom-1"; pl_name := "Dependency Test Pipeline";
     steps := [ {| step_name := "first_step"; processing_type := "image_resize" |};
                {| step_name := "second_step";
                   processing_type := "image_format_convert" |} ] |}.

(** C5, as the code has it. A request with neither [pipeline_id] nor
    [custom_pipeline] is rejected with a validation error; a request with
    a (non-empty) [pipeline_id] is accepted, also when [custom_pipeline]
    is set as well, and [create_job] files it as a pending job under the
    fresh id. *)
Theorem create_job_validation :
  forall (file_id : string) (pipeline_id : option string)
         (custom_pipeline : option ProcessingPipeline) (priority : JobPriority)
         (callback_url : option string) (metadata : odict pyval),
    (str_truthy pipeline_id = false -> custom_pipeline = None ->
     exists msg,
       new_JobRequest file_id pipeline_id custom_pipeline priority callback_url metadata
       = Raise (ValidationError msg))
    /\ (str_truthy pipeline_id = true ->
        exists job_request,
          new_JobRequest file_id pipeline_id custom_pipeline priority callback_url metadata
          = Ok job_request
          /\ req_pipeline_id job_request = pipeline_id
          /\ req_custom_pipeline job_request = custom_pipeline
          /\ forall (self : t) (fresh_id : string) (now : Z) (db_up : bool),
               let (job, self') := create_job self job_request fresh_id now db_up in
               status job = PENDING
               /\ active_jobs self' !! fresh_id = Some job).
Proof.
  intros file_id pipeline_id custom_pipeline priority callback_url metadata.
  unfold new_JobRequest, validate_pipeline.
  rewrite lookup_singleton_ne by discriminate.
  split.
  - intros Hpid _. rewrite Hpid. cbn. eexists. reflexivity.
  - intros Hpid. rewrite Hpid. cbn. eexists.
    do 3 (split; [reflexivity |]).
    intros self fresh_id now db_up. unfold create_job, _save_job, with_active.
    destruct db_up; cbn; (split; [reflexivity | apply lookup_insert_eq]).
Qed.

Lemma create_job_validation_witness :
  (exists msg,
     new_JobRequest "file-1" None None MEDIUM None [] = Raise (ValidationError msg))
  /\ (exists job_request,
        new_JobRequest "file-1" (Some "image_resize"%string) None MEDIUM None []
        = Ok job_request
        /\ req_pipeline_id job_request = Some "image_resize"%string
        /\ req_custom_pipeline job_request = None
        /\ forall (self : t) (fresh_id : string) (now : Z) (db_up : bool),
             let (job, self') := create_job self job_request fresh_id now db_up in
             status job = PENDING
             /\ active_jobs self' !! fresh_id = Some job).
Proof.
  split.
  - apply (proj1 (create_job_validation "file-1" None None MEDIUM None []));
      reflexivity.
  - apply (proj2 (create_job_validation "file-1" (Some "image_resize"%string) None
                    MEDIUM None [])).
    reflexivity.
Defined.

(** C5, as stated, fails: a request that sets both [pipeline_id] and
    [custom_pipeline] passes validation and [create_job] makes a pending
    job of it. *)
Lemma request_with_both_is_accepted :
  exists job_request,
    new_JobRequest "file-1" (Some "image_resize"%string) (Some two_step_pipeline)
      MEDIUM None []
    = Ok job_request
    /\ is_Some (req_pipeline_id job_request)
    /\ is_Some (req_custom_pipeline job_request)
    /\ status (fst (create_job init job_request "job-1" 0 true)) = PENDING.
Proof. eexists. split; [reflexivity |]. cbn. repeat split; eexists; reflexivity. Qed.

(** A request that sets [custom_pipeline] alone does not get past the
    validator of [pipeline_id], which runs before [custom_pipeline] is in
    [values]. *)
Example request_with_custom_pipeline_alone :
  new_JobRequest "dependency-test-file" None (Some two_step_pipeline) MEDIUM None []
  = Raise (ValidationError "Either pipeline_id or custom_pipeline must be provided").
Proof. reflexivity. Qed.

(** *** Lifecycle *)

(** Every job is filed under its own id, in memory and in the store. *)
Definition wf (s : t) : Prop :=
  (forall k j, active_jobs s !! k = Some j -> job_id j = k)
  /\ (forall k j, datastore s !! k = Some j -> job_id j = k).

(** The moves of the path Pending -> Running -> {Completed, Failed,
    Cancelled}, with the creation of the job in front. *)
Definition claimed_move (a b : option JobStatus) : bool :=
  match a, b with
  | None, Some PENDING => true
  | Some PENDING, Some RUNNING => true
  | Some RUNNING, Some (COMPLETED | FAILED | CANCELLED) => true
  | _, _ => false
  end.

(** The moves that the operations make: those of the path, and the
    cancellation of a job that is still pending. *)
Definition actual_move (a b : option JobStatus) : bool :=
  claimed_move a b
  || match a, b with
     | Some PENDING, Some CANCELLED => true
     | _, _ => false
     end.

(** Each status of the list is followed by itself or by a move. *)
Fixpoint follows (move : option JobStatus -> option JobStatus -> bool)
    (l : list (option JobStatus)) : Prop :=
  match l with
  | [] => True
  | a :: tl =>
      match tl with
      | [] => True
      | b :: _ => (a = b \/ move a b = true) /\ follows move tl
      end
  end.

Definition moves (s s' : t) : Prop :=
  wf s'
  /\ forall k, status_of k s = status_of k s'
               \/ actual_move (status_of k s) (status_of k s') = true.

Lemma lookup_job_get_job s k db r s' :
  get_job s k db = (r, s') -> forall k', lookup_job s' k' = lookup_job s k'.
Proof.
  unfold get_job, _load_job. intros Hget k'.
  destruct (active_jobs s !! k) as [j |] eqn:Hact.
  - inversion Hget; subst. reflexivity.
  - destruct db; [| inversion Hget; subst; reflexivity].
    destruct (datastore s !! k) as [j |] eqn:Hds; inversion Hget; subst;
      [| reflexivity].
    unfold lookup_job, with_active. cbn.
    destruct (decide (k' = k)) as [-> | Hne].
    + rewrite lookup_insert_eq, Hact, Hds. reflexivity.
    + rewrite lookup_insert_ne by congruence. reflexivity.
Qed.

Lemma get_job_some s k db j s' :
  wf s -> get_job s k db = (Some j, s') ->
  wf s' /\ active_jobs s' !! k = Some j /\ job_id j = k.
Proof.
  unfold get_job, _load_job. intros [Hwa Hwd] Hget.
  destruct (active_jobs s !! k) as [j0 |] eqn:Hact.
  - inversion Hget; subst. repeat split; eauto.
  - destruct db; [| discriminate].
    destruct (datastore s !! k) as [j0 |] eqn:Hds; [| discriminate].
    pose proof (Hwd _ _ Hds) as Hid.
    injection Hget as Hj Hs. rewrite <- Hs, <- Hj. clear Hs Hj s' j.
    repeat split; cbn.
    + intros k' j' Hk'. destruct (decide (k' = k)) as [-> | Hne].
      * rewrite lookup_insert_eq in Hk'. congruence.
      * rewrite lookup_insert_ne in Hk' by congruence. eauto.
    + exact Hwd.
    + apply lookup_insert_eq.
    + exact Hid.
Qed.

Lemma get_job_none s k db s' :
  get_job s k db = (None, s') -> s' = s.
Proof.
  unfold get_job. destruct (active_jobs s !! k); [discriminate |].
  destruct (_load_job s k db); [discriminate |]. congruence.
Qed.

Lemma wf_get_job s k db r s' : wf s -> get_job s k db = (r, s') -> wf s'.
Proof.
  intros Hwf Hget. destruct r as [j |].
  - apply (get_job_some s k db j s' Hwf Hget).
  - apply get_job_none in Hget. subst. exact Hwf.
Qed.

(** An assignment to the job under [k], followed by [_save_job]. *)
Lemma lookup_job_write s k j db k' :
  job_id j = k ->
  lookup_job (_save_job (mutate s k j) j db) k'
  = if decide (k' = k) then Some j else lookup_job s k'.
Proof.
  intros Hid. unfold lookup_job, _save_job, mutate, with_active.
  destruct db; cbn; destruct (decide (k' = k)) as [-> | Hne];
    rewrite ?lookup_insert_eq, ?lookup_insert_ne by congruence; reflexivity.
Qed.

Lemma wf_write s k j db :
  wf s -> job_id j = k -> wf (_save_job (mutate s k j) j db).
Proof.
  intros [Hwa Hwd] Hid. unfold _save_job, mutate, with_active.
  destruct db; split; cbn; intros k' j' Hk';
    try (destruct (decide (k' = k)) as [-> | Hne];
         [rewrite ?Hid, lookup_insert_eq in Hk'; congruence
         | rewrite ?Hid, lookup_insert_ne in Hk' by congruence; eauto]);
    eauto.
Qed.

Lemma lookup_job_drop s k k' :
  lookup_job (drop_worker_task s k) k' = lookup_job s k'.
Proof. unfold drop_worker_task. case_bool_decide; reflexivity. Qed.

Lemma wf_drop s k : wf s -> wf (drop_worker_task s k).
Proof. unfold drop_worker_task. intros Hwf. case_bool_decide; exact Hwf. Qed.

Lemma moves_refl s s' :
  wf s' -> (forall k, lookup_job s' k = lookup_job s k) -> moves s s'.
Proof.
  intros Hwf Heq. split; [exact Hwf |]. intros k. left.
  unfold status_of. rewrite Heq. reflexivity.
Qed.

Lemma moves_same s s1 s2 :
  moves s s1 -> wf s2 -> (forall k, lookup_job s2 k = lookup_job s1 k) -> moves s s2.
Proof.
  intros [_ Hm] Hwf Heq. split; [exact Hwf |]. intros k.
  unfold status_of at 2 4. rewrite Heq. apply Hm.
Qed.

(** One assignment of a status to the job under [k]. *)
Lemma moves_write s0 s k j db :
  wf s -> (forall k', lookup_job s k' = lookup_job s0 k') ->
  job_id j = k ->
  actual_move (status_of k s0) (Some (status j)) = true ->
  moves s0 (_save_job (mutate s k j) j db).
Proof.
  intros Hwf Heq Hid Hmove. split; [apply wf_write; assumption |].
  intros k'. unfold status_of at 2 4. rewrite lookup_job_write by exact Hid.
  destruct (decide (k' = k)) as [-> | Hne].
  - right. exact Hmove.
  - left. unfold status_of. rewrite Heq. reflexivity.
Qed.

Lemma moves_write_drop s0 s k j db :
  wf s -> (forall k', lookup_job s k' = lookup_job s0 k') ->
  job_id j = k ->
  actual_move (status_of k s0) (Some (status j)) = true ->
  moves s0 (drop_worker_task (_save_job (mutate s k j) j db) k).
Proof.
  intros Hwf Heq Hid Hmove.
  apply (moves_same s0 (_save_job (mutate s k j) j db)).
  - apply moves_write; assumption.
  - apply wf_drop, wf_write; assumption.
  - intros k'. apply lookup_job_drop.
Qed.

Lemma status_of_active s k j :
  active_jobs s !! k = Some j -> status_of k s = Some (status j).
Proof. intros H. unfold status_of, lookup_job. rewrite H. reflexivity. Qed.

Lemma moves_create s req k now db :
  wf s -> lookup_job s k = None -> moves s (snd (create_job s req k now db)).
Proof.
  intros Hwf Hfresh.
  set (job := fst (create_job s req k now db)).
  assert (Hm : moves s (_save_job (mutate s k job) job db)).
  { apply moves_write; auto. unfold status_of. rewrite Hfresh. reflexivity. }
  apply (moves_same s _ _ Hm).
  - destruct Hm as [Hwf' _]. revert Hwf'. unfold wf. destruct db; exact id.
  - intros k'. destruct db; reflexivity.
Qed.

Lemma moves_cancel s k now db :
  wf s -> moves s (snd (cancel_job s k now db)).
Proof.
  intros Hwf. unfold cancel_job.
  destruct (get_job s k db) as [[j |] s1] eqn:Hget.
  - destruct (get_job_some s k db j s1 Hwf Hget) as (Hwf1 & Hact & Hid).
    pose proof (lookup_job_get_job s k db _ s1 Hget) as Heq.
    assert (Hst : status_of k s = Some (status j)).
    { unfold status_of. rewrite <- Heq. apply (status_of_active s1 k j Hact). }
    destruct (is_terminal (status j)) eqn:Hterm; cbn [snd].
    + apply moves_refl; assumption.
    + apply moves_write_drop; [exact Hwf1 | exact Heq | exact Hid |].
      rewrite Hst. cbn [status]. destruct (status j); try discriminate; reflexivity.
  - apply get_job_none in Hget. subst s1. cbn [snd].
    apply moves_refl; [exact Hwf | reflexivity].
Qed.

(** [_fail_job] on a job that is running. *)
Lemma moves_fail_running s k msg now db :
  wf s -> status_of k s = Some RUNNING -> moves s (_fail_job s k msg now db).
Proof.
  intros Hwf Hrun. unfold _fail_job.
  destruct (get_job s k db) as [[j |] s1] eqn:Hget.
  - destruct (get_job_some s k db j s1 Hwf Hget) as (Hwf1 & Hact & Hid).
    pose proof (lookup_job_get_job s k db _ s1 Hget) as Heq.
    apply moves_write; [exact Hwf1 | exact Heq | exact Hid |].
    rewrite Hrun. reflexivity.
  - apply get_job_none in Hget. subst s1. apply moves_refl; [exact Hwf | reflexivity].
Qed.

Lemma start_processing_moves s k env r s' :
  wf s -> start_processing s k env = (r, s') ->
  moves s s'
  /\ match r with
     | Some j => active_jobs s' !! k = Some j /\ job_id j = k /\ status j = RUNNING
     | None => True
     end.
Proof.
  intros Hwf. unfold start_processing.
  destruct (get_job s k (env_db_up env)) as [[j |] s1] eqn:Hget.
  - destruct (get_job_some s k _ j s1 Hwf Hget) as (Hwf1 & Hact & Hid).
    pose proof (lookup_job_get_job s k _ _ s1 Hget) as Heq.
    assert (Hst : status_of k s = Some (status j)).
    { unfold status_of. rewrite <- Heq. apply (status_of_active s1 k j Hact). }
    case_bool_decide as Hpending; cbn [negb]; intros Hstart;
      injection Hstart as <- <-.
    + split.
      * apply moves_write; [exact Hwf1 | exact Heq | exact Hid |].
        rewrite Hst, Hpending. reflexivity.
      * split; [| split; [exact Hid | reflexivity]].
        unfold _save_job, mutate, with_active.
        destruct (env_db_up env); cbn; apply lookup_insert_eq.
    + split; [apply moves_refl; assumption | exact I].
  - apply get_job_none in Hget. subst s1. intros Hstart. injection Hstart as <- <-.
    split; [apply moves_refl; [exact Hwf | reflexivity] | exact I].
Qed.

Lemma finish_processing_moves s k j env :
  wf s -> active_jobs s !! k = Some j -> job_id j = k -> status j = RUNNING ->
  moves s (finish_processing s k j env).
Proof.
  intros Hwf Hact Hid Hrun.
  pose proof (status_of_active s k j Hact) as Hst. rewrite Hrun in Hst.
  unfold finish_processing, _get_file_path.
  destruct (resolve_pipeline j env) as [pipeline |];
    [| apply moves_fail_running; assumption].
  destruct (exec env) as [files | err | msg].
  - apply moves_write; [exact Hwf | reflexivity | exact Hid |].
    rewrite Hst. reflexivity.
  - apply moves_write; [exact Hwf | reflexivity | exact Hid |].
    rewrite Hst. reflexivity.
  - apply moves_fail_running; assumption.
Qed.

Lemma follows_cons move a b l :
  (a = b \/ move a b = true) -> follows move (b :: l) -> follows move (a :: b :: l).
Proof. intros H1 H2. split; assumption. Qed.

Lemma follows_app move l1 x l2 :
  follows move (l1 ++ [x]) -> follows move (x :: l2) ->
  follows move (l1 ++ x :: l2).
Proof.
  induction l1 as [| a l1 IH]; intros H1 H2; [exact H2 |].
  destruct l1 as [| b l1].
  - cbn in *. split; [apply H1 | exact H2].
  - destruct H1 as [Hab H1]. split; [exact Hab |]. apply IH; assumption.
Qed.

Lemma moves_status s s' k :
  moves s s' ->
  status_of k s = status_of k s' \/ actual_move (status_of k s) (status_of k s') = true.
Proof. intros [_ H]. apply H. Qed.

(** *** Overlapping runs *)

(** The jobs that are on file, other than [k], stay on file as they
    are. *)
Definition keeps (k : string) (s s' : t) : Prop :=
  forall k' j, k' <> k -> active_jobs s !! k' = Some j -> active_jobs s' !! k' = Some j.

(** No job changes, on file or in the store as [get_job] sees it. *)
Definition same_jobs (s s' : t) : Prop :=
  (forall k, lookup_job s' k = lookup_job s k)
  /\ (forall k j, active_jobs s !! k = Some j -> active_jobs s' !! k = Some j).

Lemma same_jobs_refl s : same_jobs s s.
Proof. split; auto. Qed.

Lemma same_jobs_trans s1 s2 s3 : same_jobs s1 s2 -> same_jobs s2 s3 -> same_jobs s1 s3.
Proof.
  intros [Hl1 Ha1] [Hl2 Ha2]. split.
  - intros k. rewrite Hl2. apply Hl1.
  - intros k j Hk. apply Ha2, Ha1, Hk.
Qed.

Lemma same_jobs_keeps k s s' : same_jobs s s' -> keeps k s s'.
Proof. intros [_ Ha] k' j _ Hk. apply Ha, Hk. Qed.

Lemma keeps_trans k s1 s2 s3 : keeps k s1 s2 -> keeps k s2 s3 -> keeps k s1 s3.
Proof. intros H1 H2 k' j Hne Hk. apply (H2 k' j Hne), (H1 k' j Hne), Hk. Qed.

Lemma same_jobs_get_job s k db r s' : get_job s k db = (r, s') -> same_jobs s s'.
Proof.
  intros Hget. split; [apply (lookup_job_get_job s k db r s' Hget) |].
  revert Hget. unfold get_job, _load_job.
  destruct (active_jobs s !! k) as [j0 |] eqn:Hact.
  - intros [= <- <-]. auto.
  - destruct db; [| intros [= <- <-]; auto].
    destruct (datastore s !! k) as [j1 |]; intros [= <- <-]; [| auto].
    intros k' j' Hk'. cbn. rewrite lookup_insert_ne; [exact Hk' | congruence].
Qed.

Lemma same_jobs_drop s k : same_jobs s (drop_worker_task s k).
Proof. unfold drop_worker_task. case_bool_decide; split; auto. Qed.

Lemma same_jobs_moves s s' : wf s' -> same_jobs s s' -> moves s s'.
Proof. intros Hwf [Hl _]. apply moves_refl; assumption. Qed.

Lemma keeps_write s k j db : keeps k s (_save_job (mutate s k j) j db).
Proof.
  intros k' j' Hne Hk'. unfold _save_job, mutate, with_active.
  destruct db; cbn; rewrite lookup_insert_ne by congruence; exact Hk'.
Qed.

Lemma keeps_drop s0 s k : keeps k s0 s -> keeps k s0 (drop_worker_task s k).
Proof.
  intros H. apply (keeps_trans k s0 s); [exact H |].
  apply same_jobs_keeps, same_jobs_drop.
Qed.

Lemma moves_drop s0 s k : moves s0 s -> moves s0 (drop_worker_task s k).
Proof.
  intros Hm. apply (moves_same s0 s); [exact Hm | apply wf_drop, Hm |].
  intros k'. apply lookup_job_drop.
Qed.

Lemma cancel_job_keeps s k now db : keeps k s (snd (cancel_job s k now db)).
Proof.
  unfold cancel_job.
  destruct (get_job s k db) as [[j |] s1] eqn:Hget; cbn [snd];
    pose proof (same_jobs_keeps k _ _ (same_jobs_get_job _ _ _ _ _ Hget)) as Hk;
    [| exact Hk].
  destruct (is_terminal (status j)); cbn [snd]; [exact Hk |].
  apply keeps_drop. apply (keeps_trans k s s1); [exact Hk | apply keeps_write].
Qed.

Lemma fail_job_keeps s k msg now db : keeps k s (_fail_job s k msg now db).
Proof.
  unfold _fail_job.
  destruct (get_job s k db) as [[j |] s1] eqn:Hget;
    pose proof (same_jobs_keeps k _ _ (same_jobs_get_job _ _ _ _ _ Hget)) as Hk;
    [| exact Hk].
  apply (keeps_trans k s s1); [exact Hk | apply keeps_write].
Qed.

(** The first part of a run: a job that leaves [PENDING] was pending and
    is on file as running; otherwise nothing changes. *)
Lemma start_processing_spec s k env r s' :
  wf s -> start_processing s k env = (r, s') ->
  moves s s' /\ keeps k s s'
  /\ match r with
     | Some j =>
         active_jobs s' !! k = Some j /\ job_id j = k /\ status j = RUNNING
         /\ status_of k s = Some PENDING
     | None => same_jobs s s'
     end.
Proof.
  intros Hwf Hstart.
  destruct (start_processing_moves s k env r s' Hwf Hstart) as [Hm Hr].
  split; [exact Hm |]. revert Hstart Hr. unfold start_processing.
  destruct (get_job s k (env_db_up env)) as [[j |] s1] eqn:Hget;
    pose proof (same_jobs_get_job _ _ _ _ _ Hget) as Hsame.
  - destruct (get_job_some s k _ j s1 Hwf Hget) as (Hwf1 & Hact & Hid).
    case_bool_decide as Hpending; cbn [negb]; intros [= <- <-] Hr.
    + split.
      * apply (keeps_trans k s s1); [apply same_jobs_keeps, Hsame | apply keeps_write].
      * destruct Hr as (Hact' & Hid' & Hrun). repeat split; try assumption.
        unfold status_of. rewrite <- (proj1 Hsame k). unfold lookup_job.
        rewrite Hact. cbn. congruence.
    + split; [apply same_jobs_keeps, Hsame | exact Hsame].
  - intros [= <- <-] _. split; [apply same_jobs_keeps, Hsame | exact Hsame].
Qed.

Lemma complete_processing_moves s k j start_time env :
  wf s -> active_jobs s !! k = Some j -> job_id j = k -> status j = RUNNING ->
  moves s (complete_processing s k j start_time env)
  /\ keeps k s (complete_processing s k j start_time env).
Proof.
  intros Hwf Hact Hid Hrun.
  pose proof (status_of_active s k j Hact) as Hst. rewrite Hrun in Hst.
  unfold complete_processing. destruct (exec env) as [files | err | msg].
  - split; [| apply keeps_write].
    apply moves_write; [exact Hwf | reflexivity | exact Hid |]. rewrite Hst. reflexivity.
  - split; [| apply keeps_write].
    apply moves_write; [exact Hwf | reflexivity | exact Hid |]. rewrite Hst. reflexivity.
  - split; [apply moves_fail_running; assumption | apply fail_job_keeps].
Qed.

Lemma update_job_progress_same s k db :
  wf s ->
  wf (_update_job_progress s k db) /\ same_jobs s (_update_job_progress s k db).
Proof.
  intros Hwf. unfold _update_job_progress.
  destruct (get_job s k db) as [[j |] s1] eqn:Hget;
    pose proof (same_jobs_get_job _ _ _ _ _ Hget) as Hsame.
  - destruct (get_job_some s k _ j s1 Hwf Hget) as ([Hwa Hwd] & Hact & Hid).
    assert (Hsave : wf (_save_job s1 j db) /\ same_jobs s1 (_save_job s1 j db)).
    { unfold _save_job. destruct db; [| split; [split; assumption | apply same_jobs_refl]].
      split; [split; cbn |].
      - exact Hwa.
      - intros k' j' Hk'. destruct (decide (k' = job_id j)) as [-> | Hne].
        + rewrite lookup_insert_eq in Hk'. congruence.
        + rewrite lookup_insert_ne in Hk' by congruence. eauto.
      - split; [| auto]. intros k'. unfold lookup_job. cbn.
        destruct (active_jobs s1 !! k') as [j' |] eqn:Hk'; [reflexivity |].
        rewrite lookup_insert_ne; [reflexivity |]. rewrite Hid. congruence. }
    split; [apply Hsave |]. apply (same_jobs_trans s s1); [exact Hsame | apply Hsave].
  - apply get_job_none in Hget. subst s1. split; [exact Hwf | exact Hsame].
Qed.

Lemma worker_iteration_same s db :
  wf s ->
  wf (snd (_worker_iteration s db)) /\ same_jobs s (snd (_worker_iteration s db)).
Proof.
  intros Hwf. unfold _worker_iteration.
  destruct (queue_get (job_queue s)) as [[[priority_value job_id] rest] |];
    [| split; [exact Hwf | apply same_jobs_refl]].
  destruct (max_concurrent_jobs <=? current_jobs_count s); cbn [snd];
    [split; [exact Hwf | split; auto] |].
  match goal with
  | |- context [get_job ?s0 job_id db] =>
      assert (Hwf0 : wf s0) by exact Hwf;
      assert (Hsame0 : same_jobs s s0) by (split; auto);
      destruct (get_job s0 job_id db) as [[job |] s1] eqn:Hget
  end;
    pose proof (wf_get_job _ _ _ _ _ Hwf0 Hget) as Hwf1;
    pose proof (same_jobs_trans _ _ _ Hsame0 (same_jobs_get_job _ _ _ _ _ Hget))
      as Hsame1;
    [| split; assumption].
  destruct (negb (bool_decide (status job = PENDING))); cbn [snd];
    [split; assumption |].
  split; [exact Hwf1 |]. destruct Hsame1 as [Hl Ha]. split; [exact Hl | exact Ha].
Qed.

Lemma cancel_job_running s k j now db :
  active_jobs s !! k = Some j -> status j = RUNNING ->
  fst (cancel_job s k now db) = true.
Proof.
  intros Hact Hrun. unfold cancel_job, get_job. rewrite Hact, Hrun. reflexivity.
Qed.

(** A run that waits for [process_file] has its job on file, running:
    nothing but the run leads out of [RUNNING] unless a [cancel_job]
    comes in between. *)
Definition running_inv (s : system) : Prop :=
  wf (manager s)
  /\ forall k start_time run_task,
       suspended s !! k = Some {| phase := AtProcessFile start_time; task := run_task |} ->
       exists j, active_jobs (manager s) !! k = Some j /\ status j = RUNNING.

(** The id drawn by [create_job] is new, and when [cancel_job] is
    called for a job while a run of that job waits for [process_file],
    this run is the task on file in [worker_tasks] under the id of the
    job. *)
Definition event_in_order (e : event) (s : system) : Prop :=
  match e with
  | Create _ fresh_id _ _ => lookup_job (manager s) fresh_id = None
  | Cancel job_id _ _ => awaits_process_file s job_id = true -> on_file s job_id = true
  | _ => True
  end.

Fixpoint in_order (events : list event) (s : system) : Prop :=
  match events with
  | [] => True
  | e :: events' => event_in_order e s /\ in_order events' (react s e)
  end.

Definition status_in (k : string) (s : system) : option JobStatus :=
  status_of k (manager s).

(** The runs that wait for [process_file] in [s'] do so in [s], except
    under [k]. *)
Definition runs_but (k : string) (s s' : system) : Prop :=
  forall k' start_time run_task,
    suspended s' !! k' = Some {| phase := AtProcessFile start_time; task := run_task |} ->
    k' <> k
    /\ suspended s !! k' = Some {| phase := AtProcessFile start_time; task := run_task |}.

Definition runs_of (s s' : system) : Prop :=
  forall k' start_time run_task,
    suspended s' !! k' = Some {| phase := AtProcessFile start_time; task := run_task |} ->
    suspended s !! k' = Some {| phase := AtProcessFile start_time; task := run_task |}.

Lemma running_inv_step (s s' : system) (k : string) :
  running_inv s ->
  wf (manager s') ->
  keeps k (manager s) (manager s') ->
  (forall k' start_time run_task,
     suspended s' !! k' = Some {| phase := AtProcessFile start_time; task := run_task |} ->
     (k' <> k
      /\ suspended s !! k'
         = Some {| phase := AtProcessFile start_time; task := run_task |})
     \/ (exists j, active_jobs (manager s') !! k' = Some j /\ status j = RUNNING)) ->
  running_inv s'.
Proof.
  intros [_ Hrun] Hwf Hkeeps Hsusp. split; [exact Hwf |].
  intros k' start_time run_task Hk'.
  destruct (Hsusp k' start_time run_task Hk') as [[Hne Hold] | Hnew]; [| exact Hnew].
  destruct (Hrun k' start_time run_task Hold) as (j & Hact & Hst).
  exists j. split; [apply (Hkeeps k' j Hne Hact) | exact Hst].
Qed.

Lemma running_inv_same (s s' : system) :
  running_inv s ->
  wf (manager s') ->
  same_jobs (manager s) (manager s') ->
  runs_of s s' ->
  running_inv s'.
Proof.
  intros [_ Hrun] Hwf [_ Hact] Hsusp. split; [exact Hwf |].
  intros k' start_time run_task Hk'.
  destruct (Hrun k' start_time run_task (Hsusp k' start_time run_task Hk'))
    as (j & Hj & Hst).
  exists j. split; [apply Hact, Hj | exact Hst].
Qed.

Lemma follows_one (k : string) (s s' : system) :
  moves (manager s) (manager s') ->
  follows actual_move (map (status_in k) [s; s']).
Proof. intros Hm. cbn. split; [apply moves_status, Hm | exact I]. Qed.

Lemma last_of_trace (pre : list system) (s' s : system) :
  List.last (pre ++ [s']) s = s'.
Proof. apply List.last_last. Qed.

Lemma create_job_keeps s req k now db : keeps k s (snd (create_job s req k now db)).
Proof.
  intros k' j Hne Hk'. unfold create_job, _save_job, with_active.
  destruct db; cbn; rewrite lookup_insert_ne by congruence; exact Hk'.
Qed.

Lemma running_inv_boot (self : t) : wf self -> running_inv (boot self).
Proof.
  intros Hwf. split; [exact Hwf |]. intros k start_time run_task Hk. cbn in Hk.
  rewrite lookup_empty in Hk. discriminate.
Qed.

Lemma running_inv_leave (s : system) (k : string) :
  running_inv s -> running_inv (leave s k).
Proof.
  intros Hinv. apply (running_inv_same s); unfold leave; cbn [manager suspended].
  - exact Hinv.
  - apply wf_drop, Hinv.
  - apply same_jobs_drop.
  - intros k' start_time run_task Hk'. cbn [suspended] in Hk'.
    apply lookup_delete_Some in Hk'. apply Hk'.
Qed.

Lemma moves_leave (s : system) (k : string) :
  wf (manager s) -> moves (manager s) (manager (leave s k)).
Proof.
  intros Hwf. unfold leave. cbn [manager].
  apply same_jobs_moves; [apply wf_drop, Hwf | apply same_jobs_drop].
Qed.

(** The end of a run keeps the jobs as the run has left them. *)
Lemma end_of_run_spec (s : system) (k : string) (run_task : option nat) :
  wf (manager s) ->
  wf (manager (end_of_run s k run_task))
  /\ same_jobs (manager s) (manager (end_of_run s k run_task))
  /\ runs_but k (with_suspended s (delete k (suspended s))) (end_of_run s k run_task).
Proof.
  intros Hwf. unfold end_of_run.
  destruct (active_jobs (manager s) !! k) as [j |];
    [destruct (str_truthy (callback_url j)) |];
    unfold leave; cbn [with_suspended manager suspended].
  - split; [exact Hwf |]. split; [apply same_jobs_refl |].
    intros k' start_time run_task' Hk'. cbn [with_suspended suspended] in Hk' |- *.
    destruct (decide (k' = k)) as [-> | Hne].
    + rewrite lookup_insert_eq in Hk'. discriminate.
    + rewrite lookup_insert_ne in Hk' by congruence.
      split; [exact Hne |]. rewrite lookup_delete_ne by congruence. exact Hk'.
  - split; [apply wf_drop, Hwf |]. split; [apply same_jobs_drop |].
    intros k' start_time run_task' Hk'. cbn [with_suspended suspended] in Hk' |- *.
    pose proof Hk' as Hk''. apply lookup_delete_Some in Hk''. split; [intros ->; apply Hk''; reflexivity | exact Hk'].
  - split; [apply wf_drop, Hwf |]. split; [apply same_jobs_drop |].
    intros k' start_time run_task' Hk'. cbn [with_suspended suspended] in Hk' |- *.
    pose proof Hk' as Hk''. apply lookup_delete_Some in Hk''. split; [intros ->; apply Hk''; reflexivity | exact Hk'].
Qed.

(** A run that has made its last assignment, from [s0] to the manager
    [m] by moves, comes to its end. *)
Lemma end_of_run_moves (s0 s : system) (k : string) (run_task : option nat) :
  running_inv s0 ->
  moves (manager s0) (manager s) ->
  keeps k (manager s0) (manager s) ->
  runs_of s0 (with_suspended s (delete k (suspended s))) ->
  running_inv (end_of_run s k run_task)
  /\ moves (manager s0) (manager (end_of_run s k run_task)).
Proof.
  intros Hinv Hm Hkeeps Hruns.
  destruct (end_of_run_spec s k run_task (proj1 Hm)) as (Hwf' & Hsame & Hbut).
  split.
  - apply (running_inv_step s0 _ k Hinv).
    + exact Hwf'.
    + apply (keeps_trans k _ (manager s)); [exact Hkeeps | apply same_jobs_keeps, Hsame].
    + intros k' start_time run_task' Hk'. left.
      destruct (Hbut k' start_time run_task' Hk') as [Hne Hold].
      split; [exact Hne | apply Hruns, Hold].
  - apply (moves_same _ (manager s)); [exact Hm | exact Hwf' | apply Hsame].
Qed.

(** The first part of a run, as a task or not. *)
Lemma begin_trace_moves (s : system) (job_id : string) (env : ProcessEnv)
    (run_task : option nat) (k : string) :
  running_inv s ->
  exists pre s',
    begin_trace s job_id env run_task = pre ++ [s']
    /\ running_inv s'
    /\ follows actual_move
         (map (status_in k) (s :: begin_trace s job_id env run_task)).
Proof.
  intros Hinv. pose proof Hinv as [Hwf Hrun].
  unfold begin_trace, _get_file_path.
  destruct (start_processing (manager s) job_id env) as [[j |] m1] eqn:Hstart;
    destruct (start_processing_spec _ _ _ _ _ Hwf Hstart) as (Hm1 & Hkeeps1 & Hr).
  - destruct Hr as (Hact1 & Hid & Hrunning & Hpending).
    assert (Hidle : forall start_time run_task',
              suspended s !! job_id
              <> Some {| phase := AtProcessFile start_time; task := run_task' |}).
    { intros start_time run_task' Hk. destruct (Hrun _ _ _ Hk) as (j0 & Hact0 & Hst0).
      rewrite (status_of_active _ _ _ Hact0), Hst0 in Hpending. discriminate. }
    destruct (resolve_pipeline j env) as [pipeline |].
    + eexists [], _. split; [reflexivity |].
      split; [| apply (follows_one k s), Hm1].
      apply (running_inv_step s _ job_id Hinv);
        cbn [with_suspended with_manager manager suspended].
      * apply Hm1.
      * exact Hkeeps1.
      * intros k' start_time run_task' Hk'.
        destruct (decide (k' = job_id)) as [-> | Hne].
        -- right. exists j. split; assumption.
        -- rewrite lookup_insert_ne in Hk' by congruence. left. split; assumption.
    + set (mf := _fail_job m1 job_id "Pipeline not found" (t_end env) (env_db_up env)).
      assert (Hm2 : moves m1 mf).
      { apply moves_fail_running; [apply Hm1 |].
        rewrite (status_of_active _ _ _ Hact1), Hrunning. reflexivity. }
      assert (Hinv1 : running_inv (with_manager s m1)).
      { apply (running_inv_step s _ job_id Hinv); cbn [with_manager manager suspended].
        - apply Hm1.
        - exact Hkeeps1.
        - intros k' start_time run_task' Hk'. left. split; [| exact Hk'].
          intros ->. exact (Hidle _ _ Hk'). }
      destruct (end_of_run_moves (with_manager s m1) (with_manager s mf) job_id run_task
                  Hinv1) as [Hinv2 Hm3]; cbn [with_manager manager suspended].
      * exact Hm2.
      * apply fail_job_keeps.
      * intros k' start_time run_task' Hk'. cbn [with_suspended suspended] in Hk'.
        apply lookup_delete_Some in Hk'. apply Hk'.
      * eexists [_], _. split; [reflexivity |]. split; [exact Hinv2 |].
        cbn [map]. split; [apply moves_status, Hm1 |].
        split; [apply moves_status, Hm3 | exact I].
  - eexists [], _. split; [reflexivity |].
    assert (Hm2 : moves (manager s) (drop_worker_task m1 job_id))
      by apply moves_drop, Hm1.
    split; [| apply (follows_one k s), Hm2].
    apply (running_inv_same s); cbn [manager suspended with_manager].
    + exact Hinv.
    + apply Hm2.
    + apply (same_jobs_trans _ m1); [exact Hr | apply same_jobs_drop].
    + intros k' start_time run_task' Hk'. exact Hk'.
Qed.

(** Every event that is in order lets each job make moves only and
    keeps the running jobs of the waiting runs running. *)
Lemma event_moves (e : event) (s : system) (k : string) :
  running_inv s -> event_in_order e s ->
  exists pre s',
    event_trace s e = pre ++ [s']
    /\ running_inv s'
    /\ follows actual_move (map (status_in k) (s :: event_trace s e)).
Proof.
  intros Hinv Horder. pose proof Hinv as [Hwf Hrun].
  destruct e as [req fresh_id now db | job_id db | job_id now db | job_id env
                | n env | job_id env | job_id | job_id db | db];
    cbn [event_trace].
  - (* create_job *)
    cbn [event_in_order] in Horder.
    pose proof (moves_create (manager s) req fresh_id now db Hwf Horder) as Hm.
    eexists [], _. split; [reflexivity |].
    split; [| apply (follows_one k s), Hm].
    apply (running_inv_step s _ fresh_id Hinv); cbn [manager suspended with_manager].
    + apply Hm.
    + apply create_job_keeps.
    + intros k' start_time run_task Hk'. left. split; [| exact Hk'].
      intros ->. destruct (Hrun _ _ _ Hk') as (j & Hact & _).
      unfold lookup_job in Horder. rewrite Hact in Horder. discriminate.
  - (* get_job *)
    destruct (get_job (manager s) job_id db) as [r m1] eqn:Hget. cbn [snd].
    pose proof (wf_get_job _ _ _ _ _ Hwf Hget) as Hwf1.
    pose proof (same_jobs_get_job _ _ _ _ _ Hget) as Hsame.
    eexists [], _. split; [reflexivity |].
    split; [| apply (follows_one k s), same_jobs_moves; assumption].
    apply (running_inv_same s); cbn [manager suspended with_manager]; auto.
    intros k' start_time run_task Hk'. exact Hk'.
  - (* cancel_job *)
    cbn [event_in_order] in Horder.
    pose proof (moves_cancel (manager s) job_id now db Hwf) as Hm.
    pose proof (cancel_job_keeps (manager s) job_id now db) as Hkeeps.
    unfold cancel.
    destruct (cancel_job (manager s) job_id now db) as [answer m1] eqn:Hcancel.
    cbn [snd] in Hm, Hkeeps.
    eexists [], _. split; [reflexivity |].
    split; [| apply (follows_one k s); cbn [with_manager manager]; exact Hm].
    apply (running_inv_step s _ job_id Hinv); cbn [with_manager manager].
    + apply Hm.
    + exact Hkeeps.
    + intros k' start_time run_task Hk'. left. cbn [with_manager suspended] in Hk'.
      destruct (decide (k' = job_id)) as [-> | Hne].
      * exfalso.
        destruct (suspended s !! job_id) as [[[start_time0 | |] run_task0] |] eqn:Hwaits.
        -- destruct (Hrun _ _ _ Hwaits) as (j & Hact & Hrunning).
           pose proof (cancel_job_running (manager s) job_id j now db Hact Hrunning)
             as Hanswer.
           rewrite Hcancel in Hanswer. cbn [fst] in Hanswer. subst answer.
           assert (Hon : on_file s job_id = true).
           { apply Horder. unfold awaits_process_file. rewrite Hwaits. reflexivity. }
           unfold on_file in Hon. rewrite Hwaits in Hon.
           destruct run_task0 as [n |]; [| discriminate].
           apply andb_prop in Hon. destruct Hon as [Hin Hfiled].
           apply bool_decide_eq_true in Hfiled.
           rewrite Hin in Hk'. cbn [andb] in Hk'.
           unfold cancel_task in Hk'. rewrite Hfiled in Hk'. cbn [suspended] in Hk'.
           rewrite Hwaits in Hk'. cbn [task] in Hk'.
           rewrite bool_decide_eq_true_2 in Hk' by reflexivity.
           rewrite lookup_insert_eq in Hk'. discriminate.
        -- destruct (answer && bool_decide (job_id ∈ worker_tasks (manager s)));
             [| rewrite Hwaits in Hk'; discriminate].
           unfold cancel_task in Hk'.
           destruct (filed s !! job_id) as [n |]; cbn [suspended] in Hk';
             [| rewrite Hwaits in Hk'; discriminate].
           rewrite Hwaits in Hk'. cbn [task] in Hk'.
           destruct (bool_decide (run_task0 = Some n));
             [rewrite lookup_insert_eq in Hk' | rewrite Hwaits in Hk']; discriminate.
        -- destruct (answer && bool_decide (job_id ∈ worker_tasks (manager s)));
             [| rewrite Hwaits in Hk'; discriminate].
           unfold cancel_task in Hk'.
           destruct (filed s !! job_id) as [n |]; cbn [suspended] in Hk';
             [| rewrite Hwaits in Hk'; discriminate].
           rewrite Hwaits in Hk'. cbn [task] in Hk'.
           destruct (bool_decide (run_task0 = Some n));
             [rewrite lookup_insert_eq in Hk' | rewrite Hwaits in Hk']; discriminate.
        -- destruct (answer && bool_decide (job_id ∈ worker_tasks (manager s)));
             [| rewrite Hwaits in Hk'; discriminate].
           unfold cancel_task in Hk'.
           destruct (filed s !! job_id) as [n |]; cbn [suspended] in Hk';
             rewrite Hwaits in Hk'; [rewrite Hwaits in Hk' |]; discriminate.
      * split; [exact Hne |].
        destruct (answer && bool_decide (job_id ∈ worker_tasks (manager s)));
          [| exact Hk'].
        unfold cancel_task in Hk'.
        destruct (filed s !! job_id) as [n |]; cbn [suspended] in Hk'; [| exact Hk'].
        destruct (suspended s !! job_id) as [run |]; [| exact Hk'].
        destruct (bool_decide (task run = Some n)); [| exact Hk'].
        rewrite lookup_insert_ne in Hk' by congruence. exact Hk'.
  - (* the first part of process_job_async, called directly *)
    apply begin_trace_moves, Hinv.
  - (* the first part of process_job_async, as a task *)
    unfold begin_task_trace.
    destruct (unstarted s !! n) as [job_id |].
    + match goal with
      | |- context [begin_trace ?s0 job_id env (Some n)] =>
          assert (Hinv0 : running_inv s0) by exact Hinv;
          destruct (begin_trace_moves s0 job_id env (Some n) k Hinv0)
            as (pre & s' & Htrace & Hinv' & Hfollows)
      end.
      exists pre, s'. split; [exact Htrace |]. split; [exact Hinv' | exact Hfollows].
    + eexists [], _. split; [reflexivity |]. split; [exact Hinv |].
      apply follows_one, same_jobs_moves; [exact Hwf | apply same_jobs_refl].
  - (* a run goes on *)
    unfold resume.
    destruct (suspended s !! job_id) as [[[start_time | |] run_task] |] eqn:Hwaits.
    + destruct (Hrun _ _ _ Hwaits) as (j & Hact & Hrunning). rewrite Hact.
      pose proof (proj1 Hwf _ _ Hact) as Hid.
      destruct (complete_processing_moves (manager s) job_id j start_time env
                  Hwf Hact Hid Hrunning) as [Hm Hkeeps].
      match goal with
      | |- context [end_of_run ?s1 job_id run_task] =>
          destruct (end_of_run_moves s s1 job_id run_task Hinv) as [Hinv' Hm'];
            cbn [manager suspended with_suspended]
      end.
      * exact Hm.
      * exact Hkeeps.
      * intros k' st run_task' Hk'. cbn [with_suspended suspended] in Hk'.
        apply lookup_delete_Some in Hk'. destruct Hk' as [_ Hk'].
        apply lookup_delete_Some in Hk'. apply Hk'.
      * eexists [], _. split; [reflexivity |]. split; [exact Hinv' |].
        apply (follows_one k s), Hm'.
    + eexists [], _. split; [reflexivity |].
      split; [apply running_inv_leave, Hinv |].
      apply (follows_one k s), moves_leave, Hwf.
    + eexists [], _. split; [reflexivity |].
      split; [apply running_inv_leave, Hinv |].
      apply (follows_one k s), moves_leave, Hwf.
    + eexists [], _. split; [reflexivity |]. split; [exact Hinv |].
      apply follows_one, same_jobs_moves; [exact Hwf | apply same_jobs_refl].
  - (* a run is stopped *)
    unfold stop. destruct (suspended s !! job_id) as [run |].
    + eexists [], _. split; [reflexivity |].
      split; [apply running_inv_leave, Hinv |].
      apply (follows_one k s), moves_leave, Hwf.
    + eexists [], _. split; [reflexivity |]. split; [exact Hinv |].
      apply follows_one, same_jobs_moves; [exact Hwf | apply same_jobs_refl].
  - (* progress *)
    destruct (update_job_progress_same (manager s) job_id db Hwf) as [Hwf' Hsame].
    eexists [], _. split; [reflexivity |].
    split; [| apply (follows_one k s), same_jobs_moves; assumption].
    apply (running_inv_same s); cbn [manager suspended with_manager]; auto.
    intros k' start_time run_task Hk'. exact Hk'.
  - (* a worker takes its turn *)
    destruct (worker_iteration_same (manager s) db Hwf) as [Hwf' Hsame].
    unfold worker_turn.
    destruct (_worker_iteration (manager s) db) as [[job_id |] m1]; cbn [snd] in *;
      (eexists [], _; split; [reflexivity |];
       split; [| apply (follows_one k s), same_jobs_moves; assumption];
       apply (running_inv_same s); cbn [manager suspended with_manager]; auto;
       intros k' start_time run_task Hk'; exact Hk').
Qed.

Lemma serve_trace_follows (events : list event) (s : system) (k : string) :
  running_inv s -> in_order events s ->
  follows actual_move (map (status_in k) (s :: serve_trace events s)).
Proof.
  revert s. induction events as [| e events IH]; intros s Hinv Horder; [exact I |].
  destruct Horder as [Hfirst Horder].
  destruct (event_moves e s k Hinv Hfirst) as (pre & s' & Hpre & Hinv' & Hfollows).
  assert (Hreact : react s e = s') by (unfold react; rewrite Hpre; apply last_of_trace).
  rewrite Hreact in Horder. specialize (IH s' Hinv' Horder).
  cbn [serve_trace]. rewrite Hreact. rewrite Hpre in Hfollows |- *.
  rewrite <- app_assoc. cbn [app].
  rewrite app_comm_cons, map_app in Hfollows |- *. cbn [map] in Hfollows |- *.
  apply follows_app; [exact Hfollows | exact IH].
Qed.

(** C1, as the code has it. The calls [create_job] (with new ids),
    [get_job] and [cancel_job], the turns of the workers and the runs of
    [process_job_async] - called directly or started by a worker as a
    task - may overlap in any way, a run giving way to other calls while
    it waits for [process_file] or for its callback; only, when
    [cancel_job] is called for a job while a run of that job waits for
    [process_file], this run is the task on file in [worker_tasks], the
    one that [cancel_job] stops. Then the status of every job changes
    only by the moves Pending -> Running, Running -> Completed, Running
    -> Failed, Running -> Cancelled and Pending -> Cancelled
    ([cancel_job] on a job not yet started), after its creation in
    Pending: Running is entered from Pending only and no move leaves
    Completed, Failed or Cancelled. The status is observed after every
    assignment to it. *)
Theorem job_lifecycle :
  forall (events : list event) (self : t) (k : string),
    wf self ->
    in_order events (boot self) ->
    follows actual_move
      (map (status_in k) (boot self :: serve_trace events (boot self))).
Proof.
  intros events self k Hwf Horder.
  apply serve_trace_follows; [apply running_inv_boot, Hwf | exact Horder].
Qed.

Lemma wf_init : wf init.
Proof. split; intros k j Hk; cbn in Hk; rewrite lookup_empty in Hk; discriminate. Qed.

Definition resize_request : JobRequest :=
  {| req_file_id := "file-1"; req_pipeline_id := Some "image_resize"%string;
     req_custom_pipeline := None; req_priority := MEDIUM;
     req_callback_url := None; req_metadata := [] |}.

Definition resize_env : ProcessEnv :=
  {| registry :=
       {[ "image_resize"%string :=
            {| pl_pipeline_id := "image_resize"; pl_name := "Image Resize";
               steps := [ {| step_name := "resize";
                             processing_type := "image_resize" |} ] |} ]};
     exec := ExecSuccess ["/tmp/out/file-1.jpg"%string];
     env_db_up := true; t_start := 10; t_exec := 20; t_end := 30 |}.

(** Three jobs. The first is processed by a direct call, and is reported
    on and looked at by a worker while [process_file] runs; the second
    is cancelled before a run of it starts; the third is started by a
    worker as a task and cancelled while [process_file] runs. *)
Definition overlapping_calls : list event :=
  [ Create resize_request "job-1" 0 true;
    Create resize_request "job-2" 1 true;
    Create resize_request "job-3" 2 true;
    Begin "job-1" resize_env;
    Cancel "job-2" 15 true;
    Begin "job-2" resize_env;
    WorkerTurn true;
    WorkerTurn true;
    WorkerTurn true;
    BeginTask 0 resize_env;
    UpdateJobProgress "job-1" true;
    Cancel "job-3" 25 true;
    Resume "job-1" resize_env;
    Resume "job-3" resize_env;
    Cancel "job-1" 40 true ].

Example overlapping_calls_job_1 :
  map (status_in "job-1") (boot init :: serve_trace overlapping_calls (boot init))
  = [None; Some PENDING; Some PENDING; Some PENDING; Some RUNNING; Some RUNNING;
     Some RUNNING; Some RUNNING; Some RUNNING; Some RUNNING; Some RUNNING;
     Some RUNNING; Some RUNNING; Some COMPLETED; Some COMPLETED; Some COMPLETED].
Proof. vm_compute. reflexivity. Qed.

Example overlapping_calls_job_2 :
  map (status_in "job-2") (boot init :: serve_trace overlapping_calls (boot init))
  = [None; None; Some PENDING; Some PENDING; Some PENDING; Some CANCELLED;
     Some CANCELLED; Some CANCELLED; Some CANCELLED; Some CANCELLED; Some CANCELLED;
     Some CANCELLED; Some CANCELLED; Some CANCELLED; Some CANCELLED; Some CANCELLED].
Proof. vm_compute. reflexivity. Qed.

Example overlapping_calls_job_3 :
  map (status_in "job-3") (boot init :: serve_trace overlapping_calls (boot init))
  = [None; None; None; Some PENDING; Some PENDING; Some PENDING; Some PENDING;
     Some PENDING; Some PENDING; Some PENDING; Some RUNNING; Some RUNNING;
     Some CANCELLED; Some CANCELLED; Some CANCELLED; Some CANCELLED].
Proof. vm_compute. reflexivity. Qed.

(** When [cancel_job] is called for the third job, the run of the job
    waits for [process_file] and is the task on file. *)
Example cancel_meets_task_on_file :
  let s := serve (take 11 overlapping_calls) (boot init) in
  nth_error overlapping_calls 11 = Some (Cancel "job-3" 25 true)
  /\ awaits_process_file s "job-3" = true
  /\ on_file s "job-3" = true.
Proof. vm_compute. repeat split. Qed.

Lemma job_lifecycle_witness :
  follows actual_move
    (map (status_in "job-3") (boot init :: serve_trace overlapping_calls (boot init))).
Proof.
  apply (job_lifecycle overlapping_calls init "job-3").
  - exact wf_init.
  - vm_compute. repeat split; intros Hwaits; first [reflexivity | exact Hwaits].
Defined.

(** What the theorem leaves out. A [cancel_job] that arrives while the
    run of the job waits for [process_file] marks the job cancelled,
    but stops the run only through the task on file in [worker_tasks]
    (l.125). A run that was called directly is not on file there: it
    goes on and overwrites the status. *)
Example cancelled_run_goes_on :
  let events := [ Create resize_request "job-1" 0 true;
                  Begin "job-1" resize_env;
                  Cancel "job-1" 25 true;
                  Resume "job-1" resize_env ] in
  map (status_in "job-1") (boot init :: serve_trace events (boot init))
  = [None; Some PENDING; Some RUNNING; Some CANCELLED; Some COMPLETED].
Proof. vm_compute. reflexivity. Qed.

(** Nor is the task of a worker on file any more once another run of
    the same job has come to its [finally] clause, which removes the
    entry of the job whoever made it (l.226-228): here the direct call
    finds the job running and returns. *)
Example unfiled_task_goes_on :
  let events := [ Create resize_request "job-1" 0 true;
                  WorkerTurn true;
                  BeginTask 0 resize_env;
                  Begin "job-1" resize_env;
                  Cancel "job-1" 25 true;
                  Resume "job-1" resize_env ] in
  map (status_in "job-1") (boot init :: serve_trace events (boot init))
  = [None; Some PENDING; Some PENDING; Some RUNNING; Some RUNNING; Some CANCELLED;
     Some COMPLETED].
Proof. vm_compute. reflexivity. Qed.

(** The run that a worker has started as a task and that is on file is
    stopped, and the job stays cancelled. *)
Example cancelled_task_is_stopped :
  let events := [ Create resize_request "job-1" 0 true;
                  WorkerTurn true;
                  BeginTask 0 resize_env;
                  Cancel "job-1" 25 true;
                  Resume "job-1" resize_env ] in
  map (status_in "job-1") (boot init :: serve_trace events (boot init))
  = [None; Some PENDING; Some PENDING; Some RUNNING; Some CANCELLED; Some CANCELLED].
Proof. vm_compute. reflexivity. Qed.

(** C1, as stated, fails. A job that is created, cancelled before it
    starts and then handed to [_fail_job] goes from Pending to Cancelled
    without passing through Running, and then leaves Cancelled for
    Failed. *)
Lemma lifecycle_path_broken :
  let ops := [ CreateJob resize_request "job-1" 0 true;
               CancelJob "job-1" 10 true;
               FailJob "job-1" "late failure" 20 true ] in
  map (status_of "job-1") (init :: run_trace ops init)
  = [None; Some PENDING; Some CANCELLED; Some FAILED]
  /\ ~ follows claimed_move (map (status_of "job-1") (init :: run_trace ops init)).
Proof.
  assert (Htrace :
    map (status_of "job-1")
      (init :: run_trace [ CreateJob resize_request "job-1" 0 true;
                           CancelJob "job-1" 10 true;
                           FailJob "job-1" "late failure" 20 true ] init)
    = [None; Some PENDING; Some CANCELLED; Some FAILED]).
  { vm_compute. reflexivity. }
  cbv zeta. split; [exact Htrace |]. rewrite Htrace.
  intros (_ & [Hsame | Hmove] & _); discriminate.
Qed.
End JobManagerSpec.

Module BatchProcessorSpec.
Import Py Models BatchProcessor.

Definition is_completed (r : FileResult) : bool :=
  match r with
  | RJob job => bool_decide (Models.status job = COMPLETED)
  | _ => false
  end.

(** The results of the files of a batch, in the order of [file_ids]. *)
Definition results (env : BatchEnv) (files : list string) : list FileResult :=
  imap (run_file env) files.

Definition completed_count (env : BatchEnv) (files : list string) : Z :=
  Z.of_nat (length (filter (fun r => is_completed r = true) (results env files))).

(** The four counts of a progress value account for all [n] files. *)
Definition accounts_for (n : Z) (p : BatchJobProgress) : Prop :=
  total_files p = n
  /\ completed_files p + failed_files p + running_files p + pending_files p = n.

(** *** Chunking *)

Lemma concat_chunks {A} (fuel size : nat) (l : list A) :
  (0 < size)%nat -> (length l <= fuel)%nat -> concat (chunks fuel size l) = l.
Proof.
  intros Hsize. revert l. induction fuel as [| fuel IH]; intros l Hlen.
  - destruct l; [reflexivity | cbn in Hlen; lia].
  - destruct l as [| x l]; [reflexivity |].
    cbn [chunks concat]. rewrite IH.
    + apply take_drop.
    + rewrite length_drop. cbn [length] in *. lia.
Qed.

Definition items_from (env : BatchEnv) (offset : nat) (l : list string)
    : list (string * FileResult) :=
  zip l (imap (fun i file_id => run_file env (offset + i) file_id) l).

Lemma items_from_app env offset l1 l2 :
  items_from env offset (l1 ++ l2)
  = items_from env offset l1 ++ items_from env (offset + length l1) l2.
Proof.
  unfold items_from. rewrite imap_app.
  rewrite zip_with_app by (rewrite length_imap; reflexivity).
  f_equal. f_equal. apply imap_ext. intros i x _. cbn. f_equal. lia.
Qed.

Lemma process_chunks_flat batch_id env file_chunks offset st :
  process_chunks batch_id env offset st file_chunks
  = fold_left (handle_result batch_id) (items_from env offset (concat file_chunks)) st.
Proof.
  revert offset st. induction file_chunks as [| c cs IH]; intros offset st.
  - reflexivity.
  - cbn [process_chunks concat]. rewrite IH, items_from_app, fold_left_app.
    reflexivity.
Qed.

Lemma items_from_results env l :
  map snd (items_from env 0 l) = results env l.
Proof.
  unfold items_from, results. rewrite snd_zip by (rewrite length_imap; lia).
  apply imap_ext. intros i x _. reflexivity.
Qed.

Lemma items_from_length env offset l : length (items_from env offset l) = length l.
Proof.
  unfold items_from. rewrite length_zip_with_l_eq; [reflexivity |].
  rewrite length_imap. reflexivity.
Qed.

Lemma items_from_no_other env offset l :
  (forall i file_id, run_file env i file_id <> ROther) ->
  Forall (fun item => snd item <> ROther) (items_from env offset l).
Proof.
  intros Hno. unfold items_from. revert offset.
  induction l as [| x l IH]; intros offset; [constructor |].
  cbn. constructor; [apply Hno |].
  specialize (IH (S offset)).
  erewrite imap_ext; [exact IH |]. intros i y _. cbn. f_equal. lia.
Qed.

(** *** The loop *)

(** The batch is on file with its [n] files, and every progress value
    seen so far accounts for them. *)
Definition loop_inv (n : nat) (batch_id : string) (st : Loop) : Prop :=
  (exists batch_job,
     active_batch_jobs (loop_self st) !! batch_id = Some batch_job
     /\ length (file_ids batch_job) = n)
  /\ Forall (accounts_for (Z.of_nat n)) (observed st).

Lemma current_progress_accounts batch_job jobs :
  accounts_for (Z.of_nat (length (file_ids batch_job)))
    (current_progress batch_job jobs).
Proof. unfold accounts_for, current_progress. cbn. split; [reflexivity | lia]. Qed.

Lemma update_progress_inv n batch_id self seen :
  (exists batch_job,
     active_batch_jobs self !! batch_id = Some batch_job
     /\ length (file_ids batch_job) = n) ->
  Forall (accounts_for (Z.of_nat n)) seen ->
  let self' := _update_batch_progress self batch_id in
  (exists batch_job,
     active_batch_jobs self' !! batch_id = Some batch_job
     /\ length (file_ids batch_job) = n)
  /\ Forall (accounts_for (Z.of_nat n)) (observe self' batch_id seen).
Proof.
  intros (batch_job & Hfind & Hlen) Hseen. cbn zeta.
  unfold _update_batch_progress, observe. rewrite Hfind.
  unfold put_batch. cbn [active_batch_jobs]. rewrite lookup_insert_eq.
  cbn [progress set_progress]. split.
  - eexists. split; [reflexivity | exact Hlen].
  - apply Forall_app. split; [exact Hseen |]. constructor; [| constructor].
    rewrite <- Hlen. apply current_progress_accounts.
Qed.

Definition completed_bit (r : FileResult) : nat := if is_completed r then 1 else 0.

Lemma handle_result_inv n batch_id st item :
  loop_inv n batch_id st ->
  snd item <> ROther ->
  let st' := handle_result batch_id st item in
  loop_inv n batch_id st'
  /\ length (loop_successful st')
     = (length (loop_successful st) + completed_bit (snd item))%nat
  /\ (length (loop_successful st') + length (loop_failed st'))%nat
     = S (length (loop_successful st) + length (loop_failed st)).
Proof.
  intros [Hbatch Hseen] Hother. destruct item as [file_id r]. cbn [snd] in Hother.
  cbn zeta. unfold handle_result, loop_inv, completed_bit.
  destruct r as [msg | job |]; [| | congruence].
  - cbn [loop_self loop_successful loop_failed observed is_completed].
    split; [apply update_progress_inv; assumption |].
    rewrite length_app. cbn. lia.
  - cbn [is_completed].
    destruct (decide (Models.status job = COMPLETED)) as [Hc | Hc];
      cbn [loop_self loop_successful loop_failed observed];
      (split; [apply update_progress_inv; [exact Hbatch | exact Hseen] |]);
      rewrite length_app; cbn [length snd is_completed];
      case_bool_decide; try contradiction; lia.
Qed.

Lemma fold_handle_result_inv n batch_id items st :
  loop_inv n batch_id st ->
  Forall (fun item => snd item <> ROther) items ->
  let st' := fold_left (handle_result batch_id) items st in
  loop_inv n batch_id st'
  /\ length (loop_successful st')
     = (length (loop_successful st)
        + length (filter (fun r => is_completed r = true) (map snd items)))%nat
  /\ (length (loop_successful st') + length (loop_failed st'))%nat
     = (length (loop_successful st) + length (loop_failed st) + length items)%nat.
Proof.
  revert st. induction items as [| item items IH]; intros st Hinv Hall; cbn zeta.
  - cbn. split; [exact Hinv | lia].
  - apply Forall_cons_1 in Hall. destruct Hall as [Hitem Hall].
    destruct (handle_result_inv n batch_id st item Hinv Hitem) as (Hinv1 & Hs1 & Ht1).
    destruct (IH _ Hinv1 Hall) as (Hinv2 & Hs2 & Ht2).
    cbn [fold_left]. split; [exact Hinv2 |]. split.
    + rewrite Hs2, Hs1. cbn [map]. rewrite filter_cons. unfold completed_bit.
      destruct (is_completed (snd item)) eqn:Hc.
      * rewrite decide_True by reflexivity. cbn [length]. lia.
      * rewrite decide_False by discriminate. lia.
    + rewrite Ht2, Ht1. cbn [length]. lia.
Qed.

Lemma percentage_is_ratio_iff (done n : Z) :
  0 < n ->
  (100 == 100 * inject_Z done / inject_Z n)%Q <-> done = n.
Proof.
  intros Hn.
  assert (Hnz : ~ (inject_Z n == 0)%Q).
  { intros H. unfold Qeq in H. simpl in H. lia. }
  pose proof (Qmult_div_r (100 * inject_Z done) (inject_Z n) Hnz) as Hr.
  split.
  - intros H. rewrite <- H in Hr.
    assert (Heq : (inject_Z n == inject_Z done)%Q) by lra.
    apply (proj1 (inject_Z_injective n done)) in Heq. lia.
  - intros ->. rewrite Qdiv_mult_l by exact Hnz. reflexivity.
Qed.

(** A batch whose pipeline resolves runs to completion. *)
Lemma batch_run_completes :
  forall (self : t) (batch_id : string) (env : BatchEnv) (batch_job : BatchJob),
    active_batch_jobs self !! batch_id = Some batch_job ->
    is_Some (batch_job_results self !! batch_id) ->
    is_Some (resolve_pipeline batch_job env) ->
    1 <= chunk_size batch_job ->
    (forall i file_id, run_file env i file_id <> ROther) ->
    let n := Z.of_nat (length (file_ids batch_job)) in
    let completed := completed_count env (file_ids batch_job) in
    exists (self' : t) (seen : list BatchJobProgress) (final : BatchJobProgress)
           (batch_job' : BatchJob),
      process_batch_job_async self batch_id env = (self', seen ++ [final])
      /\ Forall (accounts_for n) (seen ++ [final])
      /\ active_batch_jobs self' !! batch_id = Some batch_job'
      /\ status batch_job' = COMPLETED
      /\ progress batch_job' = Some final
      /\ final = {| total_files := n; completed_files := completed;
                    failed_files := n - completed; running_files := 0;
                    pending_files := 0; progress_percentage := 100%Q |}
      /\ (0 < n ->
          (progress_percentage final
             == 100 * inject_Z (completed_files final) / inject_Z n)%Q
          <-> completed_files final = n).
Proof.
  intros self batch_id env batch_job Hfind _ [pipeline Hpipe] Hchunk Hother n completed.
  unfold process_batch_job_async. rewrite Hfind.
  change (resolve_pipeline _ env) with (resolve_pipeline batch_job env).
  rewrite Hpipe. cbn [chunk_size file_ids].
  unfold file_chunks.
  destruct (Z.eqb_spec (chunk_size batch_job) 0) as [? | _]; [lia |].
  destruct (Z.ltb_spec (chunk_size batch_job) 0) as [? | _]; [lia |].
  rewrite process_chunks_flat, concat_chunks by lia.
  match goal with
  | |- context [fold_left _ _ ?st0] => set (st := st0)
  end.
  assert (Hinv : loop_inv (length (file_ids batch_job)) batch_id st).
  { split.
    - eexists. split; [apply lookup_insert_eq | reflexivity].
    - constructor; [| constructor]. split; [reflexivity | cbn; lia]. }
  destruct (fold_handle_result_inv _ batch_id _ st Hinv
              (items_from_no_other env 0 (file_ids batch_job) Hother))
    as ((Hbatch & Hseen) & Hsucc & Htotal).
  rewrite items_from_results in Hsucc. rewrite items_from_length in Htotal.
  cbn [loop_successful loop_failed length st] in Hsucc, Htotal.
  set (st' := fold_left (handle_result batch_id)
                (items_from env 0 (file_ids batch_job)) st) in *.
  destruct Hbatch as (bj & Hbj & Hlen).
  unfold _complete_batch_job, observe. rewrite Hbj.
  unfold put_batch. cbn [active_batch_jobs]. rewrite lookup_insert_eq.
  cbn [progress]. rewrite Hlen.
  assert (Hc : Z.of_nat (length (loop_successful st')) = completed).
  { unfold completed, completed_count. rewrite Hsucc. reflexivity. }
  assert (Hf : Z.of_nat (length (loop_failed st')) = n - completed).
  { unfold n. lia. }
  rewrite Hc, Hf. fold n.
  eexists. eexists. eexists. eexists.
  split; [reflexivity |].
  split.
  { apply Forall_app. split; [exact Hseen |]. constructor; [| constructor].
    split; cbn; lia. }
  split; [cbn [active_batch_jobs]; apply lookup_insert_eq |].
  split; [reflexivity |]. split; [reflexivity |].
  split; [reflexivity |].
  intros Hn. cbn [progress_percentage completed_files].
  apply percentage_is_ratio_iff. exact Hn.
Qed.

(** C8, as the code has it. For a batch of [F] files that was made by
    [create_batch_job], whose chunk size is not negative and whose
    per-file results are jobs or exceptions: every value that the
    progress takes during and after processing, whether the batch
    completes or fails on its pipeline, has [total_files = F] and counts
    that add up to [F]. When the pipeline resolves and the chunk size is
    positive, processing ends with the batch Completed and the progress
    at (F, completed, F - completed, 0, 0, 100.0), where [completed]
    counts the files whose job completed: the final percentage is the
    constant 100, which equals [100 * completed_files / F] exactly when
    every file completed. *)
Theorem batch_progress_accounting :
  forall (self : t) (batch_id : string) (env : BatchEnv) (batch_job : BatchJob),
    active_batch_jobs self !! batch_id = Some batch_job ->
    is_Some (batch_job_results self !! batch_id) ->
    0 <= chunk_size batch_job ->
    (forall i file_id, run_file env i file_id <> ROther) ->
    let n := Z.of_nat (length (file_ids batch_job)) in
    let completed := completed_count env (file_ids batch_job) in
    Forall (accounts_for n) (snd (process_batch_job_async self batch_id env))
    /\ (is_Some (resolve_pipeline batch_job env) ->
        1 <= chunk_size batch_job ->
        exists (self' : t) (seen : list BatchJobProgress) (final : BatchJobProgress)
               (batch_job' : BatchJob),
          process_batch_job_async self batch_id env = (self', seen ++ [final])
          /\ active_batch_jobs self' !! batch_id = Some batch_job'
          /\ status batch_job' = COMPLETED
          /\ progress batch_job' = Some final
          /\ final = {| total_files := n; completed_files := completed;
                        failed_files := n - completed; running_files := 0;
                        pending_files := 0; progress_percentage := 100%Q |}
          /\ (0 < n ->
              (progress_percentage final
                 == 100 * inject_Z (completed_files final) / inject_Z n)%Q
              <-> completed_files final = n)).
Proof.
  intros self batch_id env batch_job Hfind Hresults Hchunk Hother n completed.
  assert (Hinitial : accounts_for n
            {| total_files := n; completed_files := 0; failed_files := 0;
               running_files := 0; pending_files := n;
               progress_percentage := 0%Q |}).
  { split; cbn; lia. }
  split.
  - destruct (resolve_pipeline batch_job env) as [pipeline |] eqn:Hpipe.
    + destruct (Z.eq_dec (chunk_size batch_job) 0) as [Hzero | Hpos].
      * unfold process_batch_job_async. rewrite Hfind.
        change (resolve_pipeline _ env) with (resolve_pipeline batch_job env).
        rewrite Hpipe. cbn [chunk_size file_ids]. unfold file_chunks.
        rewrite Hzero. cbn. constructor; [exact Hinitial | constructor].
      * destruct (batch_run_completes self batch_id env batch_job Hfind Hresults
                    (ex_intro _ pipeline Hpipe) ltac:(lia) Hother)
          as (self' & seen & final & bj & Hrun & Hall & _).
        rewrite Hrun. exact Hall.
    + unfold process_batch_job_async. rewrite Hfind.
      change (resolve_pipeline _ env) with (resolve_pipeline batch_job env).
      rewrite Hpipe. cbn. constructor; [exact Hinitial | constructor].
  - intros Hpipe Hpos.
    destruct (batch_run_completes self batch_id env batch_job Hfind Hresults
                Hpipe Hpos Hother)
      as (self' & seen & final & bj & Hrun & _ & Hrest).
    exists self', seen, final, bj. split; [exact Hrun | exact Hrest].
Qed.

(** *** A batch of three files *)

Definition job_with (file : string) (st : JobStatus) : Job :=
  {| job_id := "job-" +:+ file; file_id := file;
     Models.pipeline_id := Some "content_analysis"%string;
     Models.custom_pipeline := None;
     Models.status := st; Models.priority := MEDIUM;
     priority_is_str := true; Models.result := None;
     Models.error_message :=
       match st with FAILED => Some "Test error"%string | _ => None end;
     created_at := 0; Models.started_at := Some 1; Models.completed_at := Some 2;
     Models.callback_url := None; metadata := [("batch_id"%string, VStr "batch-1")] |}.

Definition analysis_registry : gmap string ProcessingPipeline :=
  {[ "content_analysis"%string :=
       {| pl_pipeline_id := "content_analysis"; pl_name := "Content Analysis";
          steps := [ {| step_name := "analyze";
                        processing_type := "content_analysis" |} ] |} ]}.

(** Every file completes, except ["file3"], whose job fails. *)
Definition mixed_env : BatchEnv :=
  {| registry := analysis_registry;
     run_file := fun _ file =>
       RJob (job_with file (if String.eqb file "file3" then FAILED else COMPLETED));
     t_start := 10; t_end := 20 |}.

Definition three_files : list string := ["file1"; "file2"; "file3"]%string.

Definition three_files_request (chunk : Z) : BatchJobRequest :=
  {| req_name := "Test Batch"; req_file_ids := three_files;
     req_pipeline_id := Some "content_analysis"%string;
     req_custom_pipeline := None; req_priority := MEDIUM;
     req_callback_url := None; req_chunk_size := Some chunk |}.

Definition empty_processor : t :=
  {| active_batch_jobs := ∅; batch_job_results := ∅ |}.

Definition processor_with (chunk : Z) : t :=
  snd (create_batch_job empty_processor (three_files_request chunk) "batch-1").

Definition three_files_batch (chunk : Z) : BatchJob :=
  {| batch_id := "batch-1"; name := "Test Batch"; file_ids := three_files;
     pipeline_id := Some "content_analysis"%string; custom_pipeline := None;
     status := PENDING; priority := MEDIUM; progress := None; result := None;
     error_message := None; started_at := None; completed_at := None;
     callback_url := None; chunk_size := chunk |}.

Lemma batch_progress_accounting_witness :
  Forall (accounts_for 3)
    (snd (process_batch_job_async (processor_with 2) "batch-1" mixed_env))
  /\ exists (self' : t) (seen : list BatchJobProgress) (final : BatchJobProgress)
            (batch_job' : BatchJob),
       process_batch_job_async (processor_with 2) "batch-1" mixed_env
       = (self', seen ++ [final])
       /\ active_batch_jobs self' !! "batch-1" = Some batch_job'
       /\ status batch_job' = COMPLETED
       /\ progress batch_job' = Some final
       /\ final = {| total_files := 3; completed_files := 2;
                     failed_files := 3 - 2; running_files := 0;
                     pending_files := 0; progress_percentage := 100%Q |}
       /\ (0 < 3 ->
           (progress_percentage final
              == 100 * inject_Z (completed_files final) / inject_Z 3)%Q
           <-> completed_files final = 3).
Proof.
  assert (Hfind : active_batch_jobs (processor_with 2) !! "batch-1"
                  = Some (three_files_batch 2)) by (vm_compute; reflexivity).
  assert (Hresults : is_Some (batch_job_results (processor_with 2) !! "batch-1"))
    by (exists []; vm_compute; reflexivity).
  assert (Hchunk : 0 <= chunk_size (three_files_batch 2)) by (simpl; lia).
  assert (Hother : forall i file_id, run_file mixed_env i file_id <> ROther)
    by (intros i file_id; discriminate).
  destruct (batch_progress_accounting (processor_with 2) "batch-1" mixed_env
              (three_files_batch 2) Hfind Hresults Hchunk Hother)
    as [Hall Hfinal].
  split; [exact Hall |].
  apply Hfinal; [eexists; vm_compute; reflexivity | simpl; lia].
Defined.

(** C8, as stated, fails. With three files of which one fails, the
    progress after processing reads 100 percent with two completed files,
    not 100 * 2 / 3; and with a negative chunk size no file is processed
    and the final counts add up to 0, not 3. *)
Lemma final_percentage_is_not_the_ratio :
  (exists final,
     last (snd (process_batch_job_async (processor_with 2) "batch-1" mixed_env))
     = Some final
     /\ total_files final = 3
     /\ completed_files final = 2
     /\ ~ (progress_percentage final
             == 100 * inject_Z (completed_files final) / inject_Z 3)%Q)
  /\ (exists final,
        last (snd (process_batch_job_async (processor_with (-1)) "batch-1" mixed_env))
        = Some final
        /\ completed_files final + failed_files final
           + running_files final + pending_files final <> 3).
Proof.
  split.
  - eexists. split; [vm_compute; reflexivity |].
    split; [reflexivity |]. split; [reflexivity |].
    cbn. unfold Qeq. cbn. lia.
  - eexists. split; [vm_compute; reflexivity |]. cbn. lia.
Qed.

End BatchProcessorSpec.

Module PySpec.
Import Py.

Lemma oget_oset {V} (k k' : string) (v : V) (d : odict V) :
  oget k' (oset k v d) = if decide (k' = k) then Some v else oget k' d.
Proof.
  induction d as [| [k0 v0] d IH]; cbn.
  - destruct (decide (k' = k)); reflexivity.
  - destruct (decide (k = k0)) as [-> | Hne]; cbn.
    + destruct (decide (k' = k0)); reflexivity.
    + destruct (decide (k' = k0)) as [-> | Hne'].
      * rewrite decide_False by congruence. reflexivity.
      * exact IH.
Qed.

Lemma oget_oset_eq {V} (k : string) (v : V) (d : odict V) :
  oget k (oset k v d) = Some v.
Proof. rewrite oget_oset, decide_True by reflexivity. reflexivity. Qed.

Lemma oset_Forall {V} (P : string * V -> Prop) (k : string) (v : V) (d : odict V) :
  Forall P d -> P (k, v) -> Forall P (oset k v d).
Proof.
  intros Hd Hkv. induction Hd as [| [k0 v0] d H0 Hd IH]; cbn.
  - constructor; [exact Hkv | constructor].
  - destruct (decide (k = k0)); constructor; assumption.
Qed.

Lemma oget_Forall {V} (P : string * V -> Prop) (k : string) (v : V) (d : odict V) :
  Forall P d -> oget k d = Some v -> P (k, v).
Proof.
  intros Hd. induction Hd as [| [k0 v0] d H0 Hd IH]; cbn; [discriminate |].
  destruct (decide (k = k0)) as [-> | Hne]; [| exact IH].
  intros [= <-]. exact H0.
Qed.

Lemma okeys_oset_elem {V} (k k' : string) (v : V) (d : odict V) :
  k' ∈ okeys (oset k v d) <-> k' = k \/ k' ∈ okeys d.
Proof.
  unfold okeys. induction d as [| [k0 v0] d IH]; cbn.
  - rewrite list_elem_of_singleton. split; [auto | intros [H | H]; [exact H |]].
    inversion H.
  - destruct (decide (k = k0)) as [-> | Hne]; cbn; rewrite !elem_of_cons.
    + tauto.
    + rewrite IH. tauto.
Qed.

Lemma oset_NoDup {V} (k : string) (v : V) (d : odict V) :
  NoDup (okeys d) -> NoDup (okeys (oset k v d)).
Proof.
  unfold okeys. induction d as [| [k0 v0] d IH]; cbn; intros Hnd.
  - apply NoDup_singleton.
  - apply NoDup_cons in Hnd. destruct Hnd as [Hnot Hnd].
    destruct (decide (k = k0)) as [-> | Hne]; cbn.
    + apply NoDup_cons. split; assumption.
    + apply NoDup_cons. split; [| apply IH, Hnd].
      intros Hin. apply (okeys_oset_elem k k0 v d) in Hin.
      destruct Hin as [Heq | Hin]; [congruence | contradiction].
Qed.

Lemma oget_unique {V} (k : string) (v : V) (d : odict V) :
  NoDup (okeys d) -> (k, v) ∈ d -> oget k d = Some v.
Proof.
  unfold okeys. induction d as [| [k0 v0] d IH]; cbn; intros Hnd Hin.
  - inversion Hin.
  - apply NoDup_cons in Hnd. destruct Hnd as [Hnot Hnd].
    apply elem_of_cons in Hin. destruct Hin as [[= -> ->] | Hin].
    + rewrite decide_True by reflexivity. reflexivity.
    + destruct (decide (k = k0)) as [-> | Hne]; [| apply IH; assumption].
      exfalso. apply Hnot. apply list_elem_of_fmap. exists (k0, v). split; [reflexivity | exact Hin].
Qed.

End PySpec.

Module ResourceAllocatorSpec.
Import Py Models ResourceAllocator PySpec.

(** *** Requirements *)

Definition nonneg (req : ResourceRequirement) : Prop :=
  (0 <= cpu_cores req)%Q /\ (0 <= memory_mb req)%Q
  /\ (0 <= disk_mb req)%Q /\ (0 <= network_mbps req)%Q.

Lemma processing_requirements_nonneg :
  Forall (fun kv => nonneg (snd kv)) processing_requirements.
Proof.
  unfold processing_requirements, nonneg.
  repeat constructor; unfold Qle; cbn; lia.
Qed.

Lemma total_requirements_nonneg (processing_types : list string) :
  nonneg (_calculate_total_requirements processing_types).
Proof.
  unfold _calculate_total_requirements.
  assert (H0 : nonneg (requirement 0 0 0 0 0)).
  { unfold nonneg, requirement. cbn. repeat split; apply Qle_refl. }
  revert H0. generalize (requirement 0 0 0 0 0).
  induction processing_types as [| pt pts IH]; intros total Htotal; [exact Htotal |].
  cbn [fold_left]. apply IH.
  destruct (oget pt processing_requirements) as [req |] eqn:Hreq; [| exact Htotal].
  pose proof (oget_Forall _ _ _ _ processing_requirements_nonneg Hreq) as Hn.
  cbn [snd] in Hn. unfold nonneg in *. cbn. lra.
Qed.

(** *** The choice of a worker *)

Lemma suitable_workers_sound workers requirements suitable :
  suitable_workers workers requirements = Ok suitable ->
  Forall (fun x => snd x ∈ workers /\ sufficient (snd x) requirements = true) suitable.
Proof.
  revert suitable. induction workers as [| w ws IH]; cbn; intros suitable Hs.
  - injection Hs as <-. constructor.
  - destruct (sufficient w requirements) eqn:Hsuf.
    + destruct (fit_score w requirements) as [score |]; [| discriminate]. cbn in Hs.
      destruct (suitable_workers ws requirements) as [others |]; [| discriminate].
      cbn in Hs. injection Hs as <-. constructor.
      * split; [apply list_elem_of_here | exact Hsuf].
      * eapply Forall_impl; [apply IH; reflexivity |].
        intros x [Hin Hx]. split; [apply list_elem_of_further, Hin | exact Hx].
    + eapply Forall_impl; [apply IH; exact Hs |].
      intros x [Hin Hx]. split; [apply list_elem_of_further, Hin | exact Hx].
Qed.

Lemma insert_by_score_Forall (P : Q * WorkerResource -> Prop) x sorted :
  P x -> Forall P sorted -> Forall P (insert_by_score x sorted).
Proof.
  intros Hx Hs. induction Hs as [| y rest Hy Hs IH]; cbn.
  - constructor; [exact Hx | constructor].
  - destruct (Qlt_bool (fst x) (fst y)); repeat constructor; assumption.
Qed.

Lemma sort_by_score_Forall (P : Q * WorkerResource -> Prop) l :
  Forall P l -> Forall P (sort_by_score l).
Proof.
  unfold sort_by_score. intros Hl.
  assert (Hacc : Forall P []) by constructor.
  revert Hacc. generalize (@nil (Q * WorkerResource)).
  induction Hl as [| x l Hx Hl IH]; intros acc Hacc; [exact Hacc |].
  cbn [fold_left]. apply IH. apply insert_by_score_Forall; assumption.
Qed.

Lemma find_best_worker_sound self requirements best :
  _find_best_worker self requirements = Some best ->
  best ∈ ovalues (worker_resources self) /\ sufficient best requirements = true.
Proof.
  unfold _find_best_worker.
  destruct (suitable_workers (ovalues (worker_resources self)) requirements)
    as [suitable |] eqn:Hs; [| discriminate].
  pose proof (sort_by_score_Forall _ _ (suitable_workers_sound _ _ _ Hs)) as Hsorted.
  destruct (sort_by_score suitable) as [| [score w] rest]; [discriminate |].
  intros [= <-]. apply Forall_cons_1 in Hsorted. apply Hsorted.
Qed.

(** *** The ledger invariant *)

(** [a] does not exceed the maximum [m], and is not negative when [m]
    is not. *)
Definition bounded (a m : Q) : Prop := (a <= m)%Q /\ ((0 <= m)%Q -> (0 <= a)%Q).

Definition within (w : WorkerResource) : Prop :=
  bounded (available_cpu w) (max_cpu w)
  /\ bounded (available_memory w) (max_memory w)
  /\ bounded (available_disk w) (max_disk w).

Definition filed (kw : string * WorkerResource) : Prop :=
  worker_id (snd kw) = fst kw /\ within (snd kw).

Definition allocation_nonneg (a : ResourceAllocation) : Prop :=
  (0 <= allocated_cpu a)%Q /\ (0 <= allocated_memory a)%Q
  /\ (0 <= allocated_disk a)%Q.

(** Workers are filed once, under their own id and within their bounds;
    recorded allocations hold amounts that are not negative. *)
Definition ledger_inv (s : t) : Prop :=
  NoDup (okeys (worker_resources s))
  /\ Forall filed (worker_resources s)
  /\ map_Forall (fun _ a => allocation_nonneg a) (job_allocations s).

Lemma ledger_inv_init : ledger_inv init.
Proof.
  split; [apply NoDup_nil_2 |]. split; [constructor |]. apply map_Forall_empty.
Qed.

Lemma bounded_refl (m : Q) : bounded m m.
Proof. split; [apply Qle_refl | exact id]. Qed.

Lemma register_worker_inv s worker_id resources :
  ledger_inv s -> ledger_inv (register_worker s worker_id resources).
Proof.
  intros (Hnd & Hfiled & Halloc). unfold register_worker, ledger_inv.
  cbn [worker_resources job_allocations].
  split; [apply oset_NoDup, Hnd |]. split; [| exact Halloc].
  apply oset_Forall; [exact Hfiled |].
  split; [reflexivity |]. unfold within. cbn.
  repeat split; apply bounded_refl.
Qed.

Lemma queue_job_inv s job processing_types now :
  ledger_inv s -> ledger_inv (snd (queue_job s job processing_types now)).
Proof.
  intros Hinv. unfold queue_job.
  destruct (heappush _ _) as [queue [|]]; exact Hinv.
Qed.

Lemma sufficient_le worker requirements :
  sufficient worker requirements = true ->
  (cpu_cores requirements <= available_cpu worker)%Q
  /\ (memory_mb requirements <= available_memory worker)%Q
  /\ (disk_mb requirements <= available_disk worker)%Q
  /\ (network_mbps requirements <= available_network worker)%Q.
Proof.
  unfold sufficient. rewrite !andb_true_iff, !Qle_bool_iff. tauto.
Qed.

Lemma take_resources_within worker requirements :
  within worker -> nonneg requirements -> sufficient worker requirements = true ->
  within (take_resources worker requirements).
Proof.
  intros (Hc & Hm & Hd) Hreq Hsuf. apply sufficient_le in Hsuf.
  unfold within, bounded, nonneg, take_resources in *. cbn.
  split; [| split]; (split; [lra | intros _; lra]).
Qed.

Lemma give_back_within worker allocation :
  within worker -> allocation_nonneg allocation ->
  within (give_back worker allocation).
Proof.
  intros (Hc & Hm & Hd) Ha.
  unfold within, bounded, allocation_nonneg, give_back in *. cbn.
  split; [| split];
    (split; [apply Q.le_min_r | intros Hmax; apply Q.min_glb; lra]).
Qed.

Lemma allocate_resources_inv s job_id :
  ledger_inv s -> ledger_inv (snd (allocate_resources s job_id)).
Proof.
  intros Hinv. pose proof Hinv as (Hnd & Hfiled & Halloc).
  unfold allocate_resources.
  destruct (find_queue_entry s job_id) as [queue_entry |]; [| exact Hinv].
  set (req := _calculate_total_requirements (processing_types queue_entry)).
  pose proof (total_requirements_nonneg (processing_types queue_entry)) as Hreq.
  fold req in Hreq.
  destruct (_find_best_worker s req) as [best |] eqn:Hbest; [| exact Hinv].
  destruct (find_best_worker_sound s req best Hbest) as [Hin Hsuf].
  unfold ovalues in Hin. apply list_elem_of_fmap in Hin.
  destruct Hin as ([k w] & Hw & Hin). cbn in Hw. subst w.
  assert (Hk : worker_id best = k).
  { apply (proj1 (Forall_forall _ _) Hfiled) in Hin. apply Hin. }
  rewrite Hk, (oget_unique k best _ Hnd Hin).
  assert (Hnew : ledger_inv
            {| job_queue := job_queue s;
               worker_resources := oset k (take_resources best req) (worker_resources s);
               job_allocations :=
                 <[job_id := {| alloc_job_id := job_id; alloc_worker_id := k;
                                allocated_cpu := cpu_cores req;
                                allocated_memory := memory_mb req;
                                allocated_disk := disk_mb req;
                                estimated_duration := estimated_duration_seconds req;
                                priority_score :=
                                  Z.abs (entry_priority_score queue_entry) |}]>
                   (job_allocations s) |}).
  { split; [apply oset_NoDup, Hnd |]. split.
    - apply oset_Forall; [exact Hfiled |]. split; [exact Hk |].
      apply take_resources_within; [| exact Hreq | exact Hsuf].
      apply (proj1 (Forall_forall _ _) Hfiled) in Hin. apply Hin.
    - apply map_Forall_insert_2; [| exact Halloc].
      unfold allocation_nonneg, nonneg in *. cbn. tauto. }
  destruct (heapify _) as [queue [|]]; exact Hnew.
Qed.

Lemma release_resources_inv s job_id :
  ledger_inv s -> ledger_inv (release_resources s job_id).
Proof.
  intros Hinv. pose proof Hinv as (Hnd & Hfiled & Halloc).
  unfold release_resources.
  destruct (job_allocations s !! job_id) as [allocation |] eqn:Ha; [| exact Hinv].
  pose proof (Halloc _ _ Ha) as Hnonneg. cbn in Hnonneg.
  unfold ledger_inv. cbn [worker_resources job_allocations].
  assert (Hdel : map_Forall (fun _ a => allocation_nonneg a)
                   (delete job_id (job_allocations s))).
  { apply map_Forall_delete, Halloc. }
  destruct (oget (alloc_worker_id allocation) (worker_resources s))
    as [worker |] eqn:Hw.
  - split; [apply oset_NoDup, Hnd |]. split; [| exact Hdel].
    apply oset_Forall; [exact Hfiled |].
    pose proof (oget_Forall _ _ _ _ Hfiled Hw) as [Hid Hwithin].
    split; [exact Hid |]. apply give_back_within; assumption.
  - split; [exact Hnd |]. split; [exact Hfiled | exact Hdel].
Qed.

Lemma step_inv s o : ledger_inv s -> ledger_inv (step s o).
Proof.
  intros Hinv. destruct o as [w r | j p n | j | j]; cbn [step].
  - apply register_worker_inv, Hinv.
  - apply queue_job_inv, Hinv.
  - apply allocate_resources_inv, Hinv.
  - apply release_resources_inv, Hinv.
Qed.

Lemma run_inv ops s : ledger_inv s -> ledger_inv (run ops s).
Proof.
  revert s. induction ops as [| o ops IH]; intros s Hinv; [exact Hinv |].
  cbn [run fold_left]. apply IH. apply step_inv, Hinv.
Qed.

(** C2, as the code has it. After every sequence of [register_worker],
    [queue_job], [allocate_resources] and [release_resources] calls on a
    new allocator - double releases and releases of unknown jobs
    included - each worker on file has its available cpu, memory and disk
    at most at the maximum, and not below 0 when the maximum, the
    capacity that the worker was registered with, is itself not below
    0. *)
Theorem available_within_bounds :
  forall (ops : list op) (k : string) (w : WorkerResource),
    oget k (worker_resources (run ops init)) = Some w ->
    ((available_cpu w <= max_cpu w)%Q
     /\ ((0 <= max_cpu w)%Q -> (0 <= available_cpu w)%Q))
    /\ ((available_memory w <= max_memory w)%Q
        /\ ((0 <= max_memory w)%Q -> (0 <= available_memory w)%Q))
    /\ ((available_disk w <= max_disk w)%Q
        /\ ((0 <= max_disk w)%Q -> (0 <= available_disk w)%Q)).
Proof.
  intros ops k w Hw.
  destruct (run_inv ops init ledger_inv_init) as (_ & Hfiled & _).
  apply (oget_Forall _ _ _ _ Hfiled Hw).
Qed.

Definition image_job (id : string) : Job :=
  {| job_id := id; file_id := "file-" +:+ id;
     pipeline_id := Some "image_resize"%string; custom_pipeline := None;
     status := PENDING; priority := MEDIUM;
     priority_is_str := true; result := None; error_message := None;
     created_at := 0; started_at := None; completed_at := None;
     callback_url := None; metadata := [] |}.

Definition small_worker : gmap string Q :=
  <["cpu"%string := 4%Q]> (<["memory"%string := 8192%Q]> ∅).

(** One job is allocated and released twice, then a job that was never
    allocated is released. *)
Definition sample_calls : list op :=
  [ RegisterWorker "w1" small_worker;
    QueueJob (image_job "a") ["image_resize"; "video_thumbnail"]%string 0;
    AllocateResources "a";
    ReleaseResources "a";
    ReleaseResources "a";
    ReleaseResources "ghost" ].

Lemma available_within_bounds_witness :
  exists w,
    oget "w1" (worker_resources (run sample_calls init)) = Some w
    /\ ((available_cpu w <= max_cpu w)%Q
        /\ ((0 <= max_cpu w)%Q -> (0 <= available_cpu w)%Q))
    /\ ((available_memory w <= max_memory w)%Q
        /\ ((0 <= max_memory w)%Q -> (0 <= available_memory w)%Q))
    /\ ((available_disk w <= max_disk w)%Q
        /\ ((0 <= max_disk w)%Q -> (0 <= available_disk w)%Q)).
Proof.
  eexists. split; [vm_compute; reflexivity |].
  apply (available_within_bounds sample_calls "w1").
  vm_compute. reflexivity.
Defined.

(** C2, as stated, fails: [register_worker] files the capacity it is
    given as the available and as the maximal amount, with no test of
    its sign. A worker registered with -1 cpu has -1 cpu available, and
    still has after a release. *)
Lemma negative_capacity_stays_negative :
  let ops := [ RegisterWorker "w1" {[ "cpu"%string := (-1)%Q ]};
               ReleaseResources "ghost" ] in
  exists w,
    oget "w1" (worker_resources (run ops init)) = Some w
    /\ available_cpu w = (-1)%Q
    /\ ~ (0 <= available_cpu w <= max_cpu w)%Q.
Proof.
  cbv zeta. eexists. split; [vm_compute; reflexivity |].
  split; [reflexivity |]. intros [Hlow _]. revert Hlow. unfold Qle. cbn. lia.
Qed.

(** Between the allocation and the first release the worker is charged. *)
Example sample_calls_charged :
  available_cpu <$> oget "w1" (worker_resources (run (take 3 sample_calls) init))
  = Some 1%Q
  /\ available_cpu <$> oget "w1" (worker_resources (run sample_calls init))
     = Some 4%Q.
Proof. vm_compute. split; reflexivity. Qed.

(** *** Release *)

(** C10. [release_resources] gives back to the worker of an active
    allocation the recorded cpu, memory and disk amounts, each clamped to
    its maximum, and adds to [available_network] the recorded disk amount,
    clamped to [max_network]. So after an allocation and its release the
    network headroom is the least of [max_network] and the value before
    the allocation, less the network requirement, plus the disk
    requirement: when that sum stays under the maximum and the two
    requirements differ, it is not the value before the allocation. *)
Theorem release_credits_disk_to_network :
  (forall (s : t) (job_id : string) (a : ResourceAllocation) (w : WorkerResource),
      job_allocations s !! job_id = Some a ->
      oget (alloc_worker_id a) (worker_resources s) = Some w ->
      exists w',
        oget (alloc_worker_id a) (worker_resources (release_resources s job_id))
        = Some w'
        /\ available_cpu w' = Qmin (available_cpu w + allocated_cpu a) (max_cpu w)
        /\ available_memory w'
           = Qmin (available_memory w + allocated_memory a) (max_memory w)
        /\ available_disk w' = Qmin (available_disk w + allocated_disk a) (max_disk w)
        /\ available_network w'
           = Qmin (available_network w + allocated_disk a) (max_network w))
  /\ (forall (s s1 : t) (job_id : string) (a : ResourceAllocation),
        allocate_resources s job_id = (Some a, s1) ->
        exists (queue_entry : QueueEntry) (w0 w2 : WorkerResource),
          find_queue_entry s job_id = Some queue_entry
          /\ oget (alloc_worker_id a) (worker_resources s) = Some w0
          /\ oget (alloc_worker_id a) (worker_resources (release_resources s1 job_id))
             = Some w2
          /\ let req := _calculate_total_requirements (processing_types queue_entry) in
             available_network w2
             = Qmin (available_network w0 - network_mbps req + disk_mb req)
                    (max_network w0)
             /\ ((available_network w0 - network_mbps req + disk_mb req
                    <= max_network w0)%Q ->
                 ~ (disk_mb req == network_mbps req)%Q ->
                 ~ (available_network w2 == available_network w0)%Q)).
Proof.
  split.
  - intros s job_id a w Ha Hw. unfold release_resources. rewrite Ha, Hw.
    cbn [worker_resources]. rewrite oget_oset_eq.
    eexists. split; [reflexivity |]. cbn. repeat split.
  - intros s s1 job_id a. unfold allocate_resources.
    destruct (find_queue_entry s job_id) as [queue_entry |]; [| discriminate].
    set (req := _calculate_total_requirements (processing_types queue_entry)).
    destruct (_find_best_worker s req) as [best |]; [| discriminate].
    destruct (oget (worker_id best) (worker_resources s)) as [w0 |] eqn:Hw0;
      [| discriminate].
    destruct (heapify _) as [queue [|]]; [| discriminate].
    intros [= <- <-]. cbn [alloc_worker_id].
    exists queue_entry, w0. eexists. split; [reflexivity |]. split; [exact Hw0 |].
    unfold release_resources. cbn [job_allocations worker_resources].
    rewrite lookup_insert_eq. cbn [alloc_worker_id worker_resources].
    rewrite !oget_oset_eq. split; [reflexivity |].
    cbn [available_network give_back take_resources max_network allocated_disk].
    split; [reflexivity |].
    intros Hfit Hdiff Hsame. apply Hdiff.
    rewrite Q.min_l in Hsame by exact Hfit. subst req. lra.
Qed.

Definition roomy_worker : gmap string Q :=
  <["cpu"%string := 8%Q]>
    (<["memory"%string := 16384%Q]> (<["network"%string := 1000%Q]> ∅)).

Definition urgent_image_job (id : string) : Job :=
  {| job_id := id; file_id := "file-" +:+ id;
     pipeline_id := Some "image_resize"%string; custom_pipeline := None;
     status := PENDING; priority := HIGH;
     priority_is_str := true; result := None; error_message := None;
     created_at := 0; started_at := None; completed_at := None;
     callback_url := None; metadata := [] |}.

(** A worker that already runs a video compression (network at 900 of
    1000) while an image job is waiting. *)
Definition busy_before : t :=
  run [ RegisterWorker "w1" roomy_worker;
        QueueJob (image_job "a") ["video_compress"]%string 0;
        QueueJob (urgent_image_job "b") ["image_resize"]%string 0;
        AllocateResources "a" ] init.

Definition busy_after : t := snd (allocate_resources busy_before "b").

Definition allocation_b : ResourceAllocation :=
  {| alloc_job_id := "b"; alloc_worker_id := "w1";
     allocated_cpu := 1; allocated_memory := 512; allocated_disk := 100;
     estimated_duration := 30; priority_score := 101 |}.

Definition worker_at (cpu memory disk network : Q) : WorkerResource :=
  {| worker_id := "w1";
     available_cpu := cpu; available_memory := memory;
     available_disk := disk; available_network := network;
     max_cpu := 8; max_memory := 16384; max_disk := 10000; max_network := 1000 |}.

Example busy_worker_before :
  oget "w1" (worker_resources busy_before) = Some (worker_at 4 12288 9000 900).
Proof. vm_compute. reflexivity. Qed.

Example busy_worker_after :
  oget "w1" (worker_resources busy_after) = Some (worker_at 3 11776 8900 890).
Proof. vm_compute. reflexivity. Qed.

(** After the image job is released the network headroom is 990: the 100
    of its disk came back, not the 10 of its network. *)
Example busy_worker_released :
  oget "w1" (worker_resources (release_resources busy_after "b"))
  = Some (worker_at 4 12288 9000 990).
Proof. vm_compute. reflexivity. Qed.

(** On a worker that holds nothing else, the clamp hides the excess. *)
Example lone_job_round_trip :
  let s := run [ RegisterWorker "w1" roomy_worker;
                 QueueJob (image_job "a") ["image_resize"]%string 0 ] init in
  oget "w1" (worker_resources (release_resources (snd (allocate_resources s "a")) "a"))
  = oget "w1" (worker_resources s).
Proof. vm_compute. reflexivity. Qed.

Lemma release_credits_disk_to_network_witness :
  (exists w',
     oget "w1" (worker_resources (release_resources busy_after "b")) = Some w'
     /\ available_cpu w' = Qmin (3 + 1) 8
     /\ available_memory w' = Qmin (11776 + 512) 16384
     /\ available_disk w' = Qmin (8900 + 100) 10000
     /\ available_network w' = Qmin (890 + 100) 1000)
  /\ (exists (queue_entry : QueueEntry) (w0 w2 : WorkerResource),
        find_queue_entry busy_before "b" = Some queue_entry
        /\ oget "w1" (worker_resources busy_before) = Some w0
        /\ oget "w1" (worker_resources (release_resources busy_after "b")) = Some w2
        /\ let req := _calculate_total_requirements (processing_types queue_entry) in
           available_network w2
           = Qmin (available_network w0 - network_mbps req + disk_mb req)
                  (max_network w0)
           /\ ((available_network w0 - network_mbps req + disk_mb req
                  <= max_network w0)%Q ->
               ~ (disk_mb req == network_mbps req)%Q ->
               ~ (available_network w2 == available_network w0)%Q)).
Proof.
  split.
  - apply (proj1 release_credits_disk_to_network busy_after "b" allocation_b
             (worker_at 3 11776 8900 890)); vm_compute; reflexivity.
  - apply (proj2 release_credits_disk_to_network busy_before busy_after "b"
             allocation_b).
    vm_compute. reflexivity.
Defined.

(** *** The queue *)

Definition hour : Z := 3600 * 1000000.

(** A medium-priority job created at [created], with the user priority
    given in its metadata, if any. *)
Definition scored_job (id : string) (created : Z) (user_priority : option Q) : Job :=
  {| job_id := id; file_id := "file-" +:+ id;
     pipeline_id := Some "image_resize"%string; custom_pipeline := None;
     status := PENDING; priority := MEDIUM;
     priority_is_str := true; result := None; error_message := None;
     created_at := created; started_at := None; completed_at := None;
     callback_url := None;
     metadata := match user_priority with
                 | Some q => [("user_priority"%string, VNum q)]
                 | None => []
                 end |}.

Definition noon : Z := 10 * hour.

Definition three_compressions : list string :=
  ["video_compress"; "video_compress"; "video_compress"]%string.

(** Four submissions, scoring 50, 10, 90 and 10 at [noon]. *)
Definition job_50 : Job := scored_job "first" noon (Some 40%Q).
Definition job_10 : Job := scored_job "second" noon None.
Definition job_90 : Job := scored_job "third" 0 (Some 50%Q).
Definition job_10' : Job := scored_job "fourth" noon None.

Definition large_worker : gmap string Q :=
  <["cpu"%string := 64%Q]>
    (<["memory"%string := 65536%Q]>
       (<["disk"%string := 100000%Q]> (<["network"%string := 10000%Q]> ∅))).

Definition queued_three : t :=
  run [ RegisterWorker "w1" large_worker;
        QueueJob job_50 [] noon;
        QueueJob job_10 [] noon;
        QueueJob job_90 three_compressions noon ] init.

(** Taking the head of the queue and removing it, which the allocator
    does by allocating the job. *)
Fixpoint drain (fuel : nat) (s : t) : list string :=
  match fuel with
  | O => []
  | S fuel' =>
      match get_next_job s with
      | None => []
      | Some job_id => job_id :: drain fuel' (snd (allocate_resources s job_id))
      end
  end.

(** C4 on the code. The four jobs score 50, 10, 90 and 10; the first
    three are queued, and queueing the fourth raises [TypeError]: the
    heap compares the two tuples with score 10 and, the scores being
    equal, goes on to compare the entry dicts. The entry that the failed
    push left in the list is still served, but before the earlier job of
    the same score; and removing the job that scores 50 ends in the same
    error, so that its allocation, though made, is not returned. *)
Theorem equal_scores_raise :
  [ _calculate_priority_score job_50 [] noon;
    _calculate_priority_score job_10 [] noon;
    _calculate_priority_score job_90 three_compressions noon;
    _calculate_priority_score job_10' [] noon ] = [50; 10; 90; 10]
  /\ map entry_job_id (map snd (job_queue queued_three))
     = ["third"; "second"; "first"]%string
  /\ fst (queue_job queued_three job_10' [] noon) = Raise TypeError
  /\ drain 4 (snd (queue_job queued_three job_10' [] noon))
     = ["third"; "first"; "fourth"; "second"]%string
  /\ fst (allocate_resources
            (snd (allocate_resources (snd (queue_job queued_three job_10' [] noon))
                    "third"))
            "first") = None.
Proof. vm_compute. repeat split. Qed.

(** With four different scores the queue serves the highest first. *)
Example distinct_scores_in_order :
  drain 4 (run [ QueueJob (scored_job "fourth" noon (Some 10%Q)) [] noon ] queued_three)
  = ["third"; "first"; "fourth"; "second"]%string.
Proof. vm_compute. reflexivity. Qed.

End ResourceAllocatorSpec.

Module ResourceAllocatorLedger.
Import Py Models ResourceAllocator PySpec ResourceAllocatorSpec.

(** A second release of the same job changes nothing, and a release
    touches no other allocation. *)
Theorem release_resources_idempotent :
  forall (s : t) (job_id : string),
    job_allocations (release_resources s job_id) !! job_id = None
    /\ release_resources (release_resources s job_id) job_id
       = release_resources s job_id
    /\ (forall other, other <> job_id ->
          job_allocations (release_resources s job_id) !! other
          = job_allocations s !! other)
    /\ job_queue (release_resources s job_id) = job_queue s.
Proof.
  intros s job_id.
  assert (Hnone : job_allocations (release_resources s job_id) !! job_id = None).
  { unfold release_resources.
    destruct (job_allocations s !! job_id) eqn:Ha; [| exact Ha].
    cbn [job_allocations]. apply lookup_delete_eq. }
  split; [exact Hnone |]. split.
  - unfold release_resources at 1. rewrite Hnone. reflexivity.
  - split.
    + intros other Hne. unfold release_resources.
      destruct (job_allocations s !! job_id); [| reflexivity].
      cbn [job_allocations]. apply lookup_delete_ne. congruence.
    + unfold release_resources. destruct (job_allocations s !! job_id); reflexivity.
Qed.

Lemma oget_oset_ne {V} (k k' : string) (v : V) (d : odict V) :
  k' <> k -> oget k' (oset k v d) = oget k' d.
Proof. intros Hne. rewrite oget_oset, decide_False by exact Hne. reflexivity. Qed.

(** An allocation that is released at once leaves the ledger as it was:
    the worker has its cpu, memory and disk headroom back, the other
    workers were never touched, and the job holds no allocation. *)
Theorem allocate_release_round_trip :
  forall (ops : list op) (job_id : string) (a : ResourceAllocation) (s1 : t),
    allocate_resources (run ops init) job_id = (Some a, s1) ->
    exists w0 w2,
      oget (alloc_worker_id a) (worker_resources (run ops init)) = Some w0
      /\ oget (alloc_worker_id a) (worker_resources (release_resources s1 job_id))
         = Some w2
      /\ (available_cpu w2 == available_cpu w0)%Q
      /\ (available_memory w2 == available_memory w0)%Q
      /\ (available_disk w2 == available_disk w0)%Q
      /\ (forall k, k <> alloc_worker_id a ->
            oget k (worker_resources (release_resources s1 job_id))
            = oget k (worker_resources (run ops init)))
      /\ job_allocations (release_resources s1 job_id) !! job_id = None.
Proof.
  intros ops job_id a s1.
  pose proof (run_inv ops init ledger_inv_init) as Hinv.
  generalize dependent (run ops init). intros s (Hnd & Hfiled & Halloc).
  unfold allocate_resources.
  destruct (find_queue_entry s job_id) as [queue_entry |]; [| discriminate].
  set (req := _calculate_total_requirements (processing_types queue_entry)).
  destruct (_find_best_worker s req) as [best |]; [| discriminate].
  destruct (oget (worker_id best) (worker_resources s)) as [w0 |] eqn:Hw0;
    [| discriminate].
  destruct (heapify _) as [queue [|]]; [| discriminate].
  intros [= <- <-]. cbn [alloc_worker_id].
  pose proof (oget_Forall _ _ _ _ Hfiled Hw0) as [_ (Hc & Hm & Hd)].
  cbn [snd] in Hc, Hm, Hd. destruct Hc as [Hc _], Hm as [Hm _], Hd as [Hd _].
  exists w0. eexists. split; [exact Hw0 |].
  unfold release_resources. cbn [job_allocations worker_resources].
  rewrite lookup_insert_eq. cbn [alloc_worker_id worker_resources].
  rewrite !oget_oset_eq. split; [reflexivity |].
  cbn [available_cpu available_memory available_disk give_back take_resources
       max_cpu max_memory max_disk allocated_cpu allocated_memory allocated_disk].
  split; [rewrite Q.min_l by lra; ring |].
  split; [rewrite Q.min_l by lra; ring |].
  split; [rewrite Q.min_l by lra; ring |].
  split.
  - intros k Hk. rewrite !oget_oset_ne by exact Hk. reflexivity.
  - cbn [job_allocations]. apply lookup_delete_eq.
Qed.

Lemma allocate_release_round_trip_witness :
  exists w0 w2,
    oget "w1" (worker_resources (run (take 2 sample_calls) init)) = Some w0
    /\ oget "w1" (worker_resources
                    (release_resources
                       (snd (allocate_resources (run (take 2 sample_calls) init) "a"))
                       "a")) = Some w2
    /\ (available_cpu w2 == available_cpu w0)%Q
    /\ (available_memory w2 == available_memory w0)%Q
    /\ (available_disk w2 == available_disk w0)%Q
    /\ (forall k, k <> "w1"%string ->
          oget k (worker_resources
                    (release_resources
                       (snd (allocate_resources (run (take 2 sample_calls) init) "a"))
                       "a"))
          = oget k (worker_resources (run (take 2 sample_calls) init)))
    /\ job_allocations
         (release_resources
            (snd (allocate_resources (run (take 2 sample_calls) init) "a")) "a")
       !! "a"%string = None.
Proof.
  apply (allocate_release_round_trip (take 2 sample_calls) "a"
           {| alloc_job_id := "a"; alloc_worker_id := "w1";
              allocated_cpu := 3; allocated_memory := 2560; allocated_disk := 600;
              estimated_duration := 120; priority_score := 15 |}).
  vm_compute. reflexivity.
Defined.

End ResourceAllocatorLedger.

Module ResourceAllocatorChoice.
Import Py Models ResourceAllocator PySpec ResourceAllocatorSpec.

(** *** Best fit *)

Lemma Qlt_bool_true (a b : Q) : Qlt_bool a b = true -> (a < b)%Q.
Proof.
  unfold Qlt_bool. intros H. apply negb_true_iff in H.
  apply Qnot_le_lt. intros Hle. apply Qle_bool_iff in Hle. congruence.
Qed.

Lemma Qlt_bool_false (a b : Q) : Qlt_bool a b = false -> (b <= a)%Q.
Proof.
  unfold Qlt_bool. intros H. apply negb_false_iff in H. apply Qle_bool_iff, H.
Qed.

Fixpoint ascending (l : list (Q * WorkerResource)) : Prop :=
  match l with
  | [] => True
  | x :: rest => Forall (fun y => (fst x <= fst y)%Q) rest /\ ascending rest
  end.

Lemma insert_by_score_elem x y sorted :
  y ∈ insert_by_score x sorted <-> y = x \/ y ∈ sorted.
Proof.
  induction sorted as [| z rest IH]; cbn.
  - rewrite list_elem_of_singleton. split; [auto | intros [H | H]; [exact H |]].
    inversion H.
  - destruct (Qlt_bool (fst x) (fst z)); rewrite !elem_of_cons; [tauto |].
    rewrite IH. tauto.
Qed.

Lemma insert_by_score_ascending x sorted :
  ascending sorted -> ascending (insert_by_score x sorted).
Proof.
  induction sorted as [| z rest IH]; cbn; intros Hs.
  - split; [constructor | exact I].
  - destruct Hs as [Hz Hrest].
    destruct (Qlt_bool (fst x) (fst z)) eqn:Hlt; cbn.
    + apply Qlt_bool_true in Hlt. split; [| split; assumption].
      constructor; [apply Qlt_le_weak, Hlt |].
      eapply Forall_impl; [exact Hz |]. cbn. intros y Hy. lra.
    + apply Qlt_bool_false in Hlt. split; [| apply IH, Hrest].
      apply Forall_forall. intros y Hy. apply insert_by_score_elem in Hy.
      destruct Hy as [-> | Hy]; [exact Hlt |].
      apply (proj1 (Forall_forall _ _) Hz), Hy.
Qed.

Lemma sort_by_score_spec l :
  ascending (sort_by_score l) /\ (forall y, y ∈ sort_by_score l <-> y ∈ l).
Proof.
  unfold sort_by_score.
  assert (Hgen : forall acc, ascending acc ->
            ascending (fold_left (fun sorted x => insert_by_score x sorted) l acc)
            /\ (forall y, y ∈ fold_left (fun sorted x => insert_by_score x sorted) l acc
                          <-> y ∈ l \/ y ∈ acc)).
  { induction l as [| x l IH]; intros acc Hacc; cbn [fold_left].
    - split; [exact Hacc |]. intros y. split; [auto | intros [H | H]; [inversion H | exact H]].
    - destruct (IH (insert_by_score x acc) (insert_by_score_ascending x acc Hacc))
        as [Ha He].
      split; [exact Ha |]. intros y. rewrite He, insert_by_score_elem, elem_of_cons.
      tauto. }
  destruct (Hgen [] I) as [Ha He]. split; [exact Ha |].
  intros y. rewrite He. split; [intros [H | H]; [exact H | inversion H] | auto].
Qed.

Lemma suitable_workers_scores workers requirements suitable :
  suitable_workers workers requirements = Ok suitable ->
  Forall (fun x => fit_score (snd x) requirements = Ok (fst x)) suitable
  /\ (forall w, w ∈ workers -> sufficient w requirements = true ->
        exists score, (score, w) ∈ suitable).
Proof.
  revert suitable. induction workers as [| w ws IH]; cbn; intros suitable Hs.
  - injection Hs as <-. split; [constructor |]. intros w Hw. inversion Hw.
  - destruct (sufficient w requirements) eqn:Hsuf.
    + destruct (fit_score w requirements) as [score |] eqn:Hscore; [| discriminate].
      cbn in Hs.
      destruct (suitable_workers ws requirements) as [others |]; [| discriminate].
      cbn in Hs. injection Hs as <-.
      destruct (IH others eq_refl) as [Hall Hex]. split.
      * constructor; [exact Hscore | exact Hall].
      * intros w' Hin Hsuf'. apply elem_of_cons in Hin. destruct Hin as [-> | Hin].
        -- exists score. apply list_elem_of_here.
        -- destruct (Hex w' Hin Hsuf') as [s Hs']. exists s.
           apply list_elem_of_further, Hs'.
    + destruct (IH suitable Hs) as [Hall Hex]. split; [exact Hall |].
      intros w' Hin Hsuf'. apply elem_of_cons in Hin. destruct Hin as [-> | Hin].
      * congruence.
      * apply Hex; assumption.
Qed.

(** The worker that [_find_best_worker] picks has the least fit score -
    the least cpu and memory headroom left over, as fractions of the
    maxima - among all registered workers that can hold the
    requirements. *)
Theorem find_best_worker_is_tightest :
  forall (self : t) (requirements : ResourceRequirement) (best : WorkerResource),
    _find_best_worker self requirements = Some best ->
    forall w,
      w ∈ ovalues (worker_resources self) ->
      sufficient w requirements = true ->
      exists score_best score_w,
        fit_score best requirements = Ok score_best
        /\ fit_score w requirements = Ok score_w
        /\ (score_best <= score_w)%Q.
Proof.
  intros self requirements best. unfold _find_best_worker.
  destruct (suitable_workers (ovalues (worker_resources self)) requirements)
    as [suitable |] eqn:Hs; [| discriminate].
  destruct (suitable_workers_scores _ _ _ Hs) as [Hall Hex].
  destruct (sort_by_score_spec suitable) as [Hasc Helem].
  destruct (sort_by_score suitable) as [| [score b] rest] eqn:Hsorted; [discriminate |].
  intros [= <-] w Hin Hsuf.
  destruct (Hex w Hin Hsuf) as [score_w Hw].
  exists score, score_w.
  assert (Hb : (score, b) ∈ suitable) by (apply Helem, list_elem_of_here).
  split; [exact (proj1 (Forall_forall _ _) Hall _ Hb) |].
  split; [exact (proj1 (Forall_forall _ _) Hall _ Hw) |].
  apply Helem in Hw. apply elem_of_cons in Hw. destruct Hw as [[= -> ->] | Hw].
  - apply Qle_refl.
  - destruct Hasc as [Hhead _].
    exact (proj1 (Forall_forall _ _) Hhead _ Hw).
Qed.

Definition two_workers : t :=
  run [ RegisterWorker "w1" roomy_worker; RegisterWorker "w2" small_worker ] init.

Definition worker_of (id : string) (cpu memory disk network : Q) : WorkerResource :=
  {| worker_id := id;
     available_cpu := cpu; available_memory := memory;
     available_disk := disk; available_network := network;
     max_cpu := cpu; max_memory := memory; max_disk := disk; max_network := network |}.

(** Of a large and a small idle worker the small one is picked. *)
Lemma find_best_worker_is_tightest_witness :
  exists score_best score_w,
    fit_score (worker_of "w2" 4 8192 10000 100) (requirement 1 512 100 10 30)
    = Ok score_best
    /\ fit_score (worker_of "w1" 8 16384 10000 1000) (requirement 1 512 100 10 30)
       = Ok score_w
    /\ (score_best <= score_w)%Q.
Proof.
  apply (find_best_worker_is_tightest two_workers).
  - vm_compute. reflexivity.
  - apply list_elem_of_here.
  - vm_compute. reflexivity.
Defined.

(** *** Requirements of a pipeline *)

Definition add_requirement (total : ResourceRequirement) (processing_type : string)
    : ResourceRequirement :=
  match oget processing_type processing_requirements with
  | Some req =>
      {| cpu_cores := (cpu_cores total + cpu_cores req)%Q;
         memory_mb := (memory_mb total + memory_mb req)%Q;
         disk_mb := (disk_mb total + disk_mb req)%Q;
         network_mbps := (network_mbps total + network_mbps req)%Q;
         estimated_duration_seconds :=
           Z.max (estimated_duration_seconds total)
                 (estimated_duration_seconds req) |}
  | None => total
  end.

Lemma processing_requirements_duration :
  Forall (fun kv => 0 <= estimated_duration_seconds (snd kv)) processing_requirements.
Proof. unfold processing_requirements. repeat constructor; cbn; lia. Qed.

Lemma total_requirements_from (processing_types : list string)
    (acc : ResourceRequirement) :
  0 <= estimated_duration_seconds acc ->
  let total := fold_left add_requirement processing_types acc in
  let rest := _calculate_total_requirements processing_types in
  (cpu_cores total == cpu_cores acc + cpu_cores rest)%Q
  /\ (memory_mb total == memory_mb acc + memory_mb rest)%Q
  /\ (disk_mb total == disk_mb acc + disk_mb rest)%Q
  /\ (network_mbps total == network_mbps acc + network_mbps rest)%Q
  /\ estimated_duration_seconds total
     = Z.max (estimated_duration_seconds acc) (estimated_duration_seconds rest)
  /\ 0 <= estimated_duration_seconds rest.
Proof.
  unfold _calculate_total_requirements. fold add_requirement.
  revert acc. induction processing_types as [| pt pts IH]; intros acc Hacc.
  - cbn. repeat split; try ring; lia.
  - cbn [fold_left].
    assert (Hstep : forall r, 0 <= estimated_duration_seconds r ->
              0 <= estimated_duration_seconds (add_requirement r pt)).
    { intros r Hr. unfold add_requirement.
      destruct (oget pt processing_requirements); cbn; lia. }
    destruct (IH (add_requirement acc pt) (Hstep acc Hacc))
      as (Hc & Hm & Hd & Hn & Ht & Hr).
    destruct (IH (add_requirement (requirement 0 0 0 0 0) pt))
      as (Hc0 & Hm0 & Hd0 & Hn0 & Ht0 & _).
    { apply Hstep. cbn. lia. }
    cbv zeta in *.
    rewrite Hc, Hm, Hd, Hn, Ht, Hc0, Hm0, Hd0, Hn0, Ht0.
    unfold add_requirement.
    destruct (oget pt processing_requirements) as [req |] eqn:Hreq; cbn.
    + pose proof (oget_Forall _ _ _ _ processing_requirements_duration Hreq) as Hdur.
      cbn in Hdur. repeat split; try ring; lia.
    + repeat split; try ring; lia.
Qed.

(** The requirements of a list of processing types are the sums of the
    cpu, memory, disk and network needs of its two halves, while the
    estimated duration is the longer of the two, not their sum; a type
    that is not in [processing_requirements] adds nothing. *)
Theorem total_requirements_app :
  forall (first second : list string),
    let total := _calculate_total_requirements (first ++ second) in
    let a := _calculate_total_requirements first in
    let b := _calculate_total_requirements second in
    (cpu_cores total == cpu_cores a + cpu_cores b)%Q
    /\ (memory_mb total == memory_mb a + memory_mb b)%Q
    /\ (disk_mb total == disk_mb a + disk_mb b)%Q
    /\ (network_mbps total == network_mbps a + network_mbps b)%Q
    /\ estimated_duration_seconds total
       = Z.max (estimated_duration_seconds a) (estimated_duration_seconds b)
    /\ (forall unknown,
          oget unknown processing_requirements = None ->
          _calculate_total_requirements (first ++ unknown :: second) = total).
Proof.
  intros first second. cbv zeta.
  assert (Hfold : forall l, _calculate_total_requirements l
                            = fold_left add_requirement l (requirement 0 0 0 0 0))
    by reflexivity.
  destruct (total_requirements_from first (requirement 0 0 0 0 0)) as (_ & _ & _ & _ & _ & Ha).
  { cbn. lia. }
  rewrite (Hfold (first ++ second)), fold_left_app, <- Hfold.
  destruct (total_requirements_from second (_calculate_total_requirements first) Ha)
    as (Hc & Hm & Hd & Hn & Ht & _).
  cbv zeta in *. repeat (split; [assumption |]).
  intros unknown Hunknown.
  rewrite (Hfold (first ++ unknown :: second)), fold_left_app. cbn [fold_left].
  unfold add_requirement at 2. rewrite Hunknown. reflexivity.
Qed.

(** *** Priority scores *)

Lemma int_of_float_lower (x : Q) (w : Z) :
  (inject_Z w <= x)%Q -> w <= int_of_float x.
Proof.
  unfold Qle, int_of_float. cbn. intros H.
  apply Z.quot_le_lower_bound; lia.
Qed.

Lemma int_of_float_upper (x : Q) (w : Z) :
  (x <= inject_Z w)%Q -> int_of_float x <= w.
Proof.
  unfold Qle, int_of_float. cbn. intros H.
  apply Z.quot_le_upper_bound; lia.
Qed.

Lemma complexity_of_nonneg (processing_types : list string) :
  (0 <= complexity_of processing_types)%Q.
Proof.
  unfold complexity_of.
  enough (Hgen : forall acc : Q, (0 <= acc)%Q ->
            (0 <= fold_left
                    (fun complexity_factor processing_type =>
                       match oget processing_type processing_requirements with
                       | Some req =>
                           complexity_factor + (cpu_cores req + memory_mb req / 1024)
                       | None => complexity_factor
                       end) processing_types acc)%Q)
    by (apply Hgen, Qle_refl).
  induction processing_types as [| pt pts IH]; intros acc Hacc; [exact Hacc |].
  cbn [fold_left]. apply IH.
  destruct (oget pt processing_requirements) as [req |] eqn:Hreq; [| exact Hacc].
  pose proof (oget_Forall _ _ _ _ processing_requirements_nonneg Hreq) as (Hc & Hm & _).
  cbn [snd] in Hc, Hm.
  assert (0 <= memory_mb req / 1024)%Q by (apply Qle_shift_div_l; lra).
  lra.
Qed.

(** The value of [metadata.get("user_priority", 0)] is a number that is
    not negative. *)
Definition user_priority_ok (job : Job) : Prop :=
  match oget "user_priority" (metadata job) with
  | None => True
  | Some (VNum user_priority) => (0 <= user_priority)%Q
  | Some (VStr _) => False
  | Some VNone => False
  end.

Lemma score_at_most (job : Job) (processing_types : list string) (now : Z) :
  _calculate_priority_score job processing_types now
  <= priority_weights (priority job) + 80.
Proof.
  unfold _calculate_priority_score, calculate_priority_score_try.
  set (age := Qmin (total_seconds now (created_at job) / 3600) 10).
  set (complexity := Qmin (complexity_of processing_types) 20).
  assert (Hage : (age <= 10)%Q) by apply Q.le_min_r.
  assert (Hcomplexity : (complexity <= 20)%Q) by apply Q.le_min_r.
  assert (Hweight : 1 <= priority_weights (priority job))
    by (destruct (priority job); cbn; lia).
  assert (Hboost : forall boost, (boost <= 50)%Q ->
            int_of_float (inject_Z (priority_weights (priority job)) + age
                          + complexity + boost)
            <= priority_weights (priority job) + 80).
  { intros boost Hb. apply int_of_float_upper.
    rewrite inject_Z_plus. change (inject_Z 80) with 80%Q. lra. }
  destruct (metadata job) as [| kv rest]; cbn [bind].
  - apply Hboost. lra.
  - destruct (oget "user_priority" (kv :: rest)) as [[u | s |] |]; cbn [bind].
    + apply Hboost, Q.le_min_r.
    + lia.
    + lia.
    + apply Hboost. lra.
Qed.

Lemma score_at_least (job : Job) (processing_types : list string) (now : Z) :
  created_at job <= now -> user_priority_ok job ->
  priority_weights (priority job)
  <= _calculate_priority_score job processing_types now.
Proof.
  intros Hnow Huser.
  unfold _calculate_priority_score, calculate_priority_score_try.
  set (age := Qmin (total_seconds now (created_at job) / 3600) 10).
  set (complexity := Qmin (complexity_of processing_types) 20).
  assert (Hage : (0 <= age)%Q).
  { apply Q.min_glb; [| lra]. apply Qle_shift_div_l; [lra |].
    unfold total_seconds. apply Qle_shift_div_l; [reflexivity |].
    rewrite !Qmult_0_l. change 0%Q with (inject_Z 0). rewrite <- Zle_Qle. lia. }
  assert (Hcomplexity : (0 <= complexity)%Q).
  { apply Q.min_glb; [apply complexity_of_nonneg | lra]. }
  assert (Hboost : forall boost, (0 <= boost)%Q ->
            priority_weights (priority job)
            <= int_of_float (inject_Z (priority_weights (priority job)) + age
                             + complexity + boost)).
  { intros boost Hb. apply int_of_float_lower. lra. }
  unfold user_priority_ok in Huser.
  destruct (metadata job) as [| kv rest]; cbn [bind].
  - apply Hboost. lra.
  - destruct (oget "user_priority" (kv :: rest)) as [[u | s |] |]; cbn [bind].
    + apply Hboost, Q.min_glb; [exact Huser | lra].
    + contradiction.
    + contradiction.
    + apply Hboost. lra.
Qed.

(** Whatever the age, the pipeline and the metadata of a job, its
    priority score exceeds the weight of its priority class by 80 at
    most: 10 for age, 20 for complexity and 50 for the user boost, the
    fallback score 10 included. A job that was not created in the future
    and whose user priority, if any, is a number that is not negative
    scores at least the weight of its class. It therefore outranks every
    job of a class whose weight is more than 80 below: an urgent job
    every job of another class, a high job every medium or low one. *)
Theorem priority_score_bounds :
  forall (job other : Job) (processing_types other_types : list string)
         (now other_now : Z),
    _calculate_priority_score other other_types other_now
    <= priority_weights (priority other) + 80
    /\ (created_at job <= now -> user_priority_ok job ->
        priority_weights (priority job)
        <= _calculate_priority_score job processing_types now
        /\ (priority_weights (priority other) + 80 < priority_weights (priority job) ->
            _calculate_priority_score other other_types other_now
            < _calculate_priority_score job processing_types now)).
Proof.
  intros job other processing_types other_types now other_now.
  pose proof (score_at_most other other_types other_now) as Hhigh.
  split; [exact Hhigh |]. intros Hnow Huser.
  pose proof (score_at_least job processing_types now Hnow Huser) as Hlow.
  split; [exact Hlow |]. intros Hclass. lia.
Qed.

(** A high job that has just been created, against a medium job that
    waited for ten hours with the largest user boost. *)
Lemma priority_score_bounds_witness :
  _calculate_priority_score job_90 three_compressions noon <= 10 + 80
  /\ 100 <= _calculate_priority_score (urgent_image_job "b") ["image_resize"%string] 0
  /\ _calculate_priority_score job_90 three_compressions noon
     < _calculate_priority_score (urgent_image_job "b") ["image_resize"%string] 0.
Proof.
  destruct (priority_score_bounds (urgent_image_job "b") job_90
              ["image_resize"%string] three_compressions 0 noon) as [Hhigh Hrest].
  split; [exact Hhigh |].
  destruct Hrest as [Hlow Hclass]; [cbn; lia | exact I |].
  split; [exact Hlow |]. apply Hclass. cbn. lia.
Defined.

(** A low job can outrank a medium one: the classes 1 and 10 are closer
    than the 80 points the other factors can add. *)
Example low_can_outrank_medium :
  _calculate_priority_score
    {| job_id := "low"; file_id := "f"; pipeline_id := Some "image_resize"%string;
       custom_pipeline := None; status := PENDING; priority := LOW;
       priority_is_str := true; result := None;
       error_message := None; created_at := 0; started_at := None;
       completed_at := None; callback_url := None;
       metadata := [("user_priority"%string, VNum 50)] |} [] 0
  = 51
  /\ _calculate_priority_score job_10 [] noon = 10.
Proof. vm_compute. split; reflexivity. Qed.

End ResourceAllocatorChoice.

Module ResourceAllocatorQueue.
Import Py Models ResourceAllocator PySpec ResourceAllocatorSpec ResourceAllocatorChoice.

(** *** Exchanging two items of a list *)

Lemma exchange_head {A} (l : list A) (j : nat) (a y : A) :
  l !! j = Some y -> y :: <[j := a]> l ≡ₚ a :: l.
Proof.
  revert j. induction l as [| b l IH]; intros [| j] Hj; try discriminate.
  - cbn in Hj. injection Hj as ->. cbn. apply perm_swap.
  - cbn in Hj. cbn. rewrite perm_swap. rewrite (IH j Hj). apply perm_swap.
Qed.

Lemma exchange_perm {A} (l : list A) (i j : nat) (x y : A) :
  l !! i = Some x -> l !! j = Some y -> <[i := y]> (<[j := x]> l) ≡ₚ l.
Proof.
  revert i j. induction l as [| a l IH]; intros [| i] [| j] Hi Hj;
    try discriminate; cbn in Hi, Hj; cbn.
  - injection Hi as ->. injection Hj as ->. reflexivity.
  - injection Hi as ->. apply exchange_head, Hj.
  - injection Hj as ->. apply exchange_head, Hi.
  - apply perm_skip, IH; assumption.
Qed.

Lemma lookup_exchange {A} (l : list A) (i j k : nat) (a b : A) :
  (i < length l)%nat -> (j < length l)%nat -> i <> j ->
  <[i := a]> (<[j := b]> l) !! k
  = if decide (k = i) then Some a else if decide (k = j) then Some b else l !! k.
Proof.
  intros Hi Hj Hne. destruct (decide (k = i)) as [-> | Hki].
  - apply list_lookup_insert_eq. rewrite length_insert. exact Hi.
  - rewrite list_lookup_insert_ne by congruence.
    destruct (decide (k = j)) as [-> | Hkj].
    + apply list_lookup_insert_eq, Hj.
    + apply list_lookup_insert_ne. congruence.
Qed.

(** *** The heap operations keep the items *)

Lemma siftdown_perm fuel heap startpos pos :
  fst (siftdown fuel heap startpos pos) ≡ₚ heap.
Proof.
  revert heap pos. induction fuel as [| fuel IH]; intros heap pos; cbn [siftdown].
  - reflexivity.
  - destruct (pos <=? startpos)%nat; [reflexivity |].
    destruct (heap !! pos) as [newitem |] eqn:Hpos; [| reflexivity].
    destruct (heap !! ((pos - 1) / 2)%nat) as [parent |] eqn:Hparent; [| reflexivity].
    destruct (item_lt newitem parent) as [[|] |]; try reflexivity.
    rewrite IH. apply exchange_perm; assumption.
Qed.

Lemma bubble_up_perm fuel heap pos : fst (bubble_up fuel heap pos) ≡ₚ heap.
Proof.
  revert heap pos. induction fuel as [| fuel IH]; intros heap pos; cbn [bubble_up].
  - reflexivity.
  - destruct (pos <? length heap / 2)%nat; [| reflexivity].
    match goal with
    | |- fst (match ?chosen with _ => _ end) ≡ₚ _ => destruct chosen as [childpos |]
    end; [| reflexivity].
    destruct (heap !! childpos) as [child |] eqn:Hchild; [| reflexivity].
    destruct (heap !! pos) as [parent |] eqn:Hparent; [| reflexivity].
    rewrite IH. apply exchange_perm; assumption.
Qed.

Lemma siftup_perm heap pos : fst (siftup heap pos) ≡ₚ heap.
Proof.
  unfold siftup. pose proof (bubble_up_perm (length heap) heap pos) as Hb.
  destruct (bubble_up (length heap) heap pos) as [heap' [leaf |]]; cbn [fst] in *.
  - rewrite siftdown_perm. exact Hb.
  - exact Hb.
Qed.

Lemma heapify_from_perm count heap : fst (heapify_from count heap) ≡ₚ heap.
Proof.
  revert heap. induction count as [| i IH]; intros heap; cbn [heapify_from].
  - reflexivity.
  - pose proof (siftup_perm heap i) as Hs.
    destruct (siftup heap i) as [heap' [|]]; cbn [fst] in *.
    + rewrite IH. exact Hs.
    + exact Hs.
Qed.

Lemma heapify_perm heap : fst (heapify heap) ≡ₚ heap.
Proof. apply heapify_from_perm. Qed.

Lemma heappush_perm heap x : fst (heappush heap x) ≡ₚ x :: heap.
Proof.
  unfold heappush. rewrite siftdown_perm. symmetry. apply Permutation_cons_append.
Qed.

(** *** The heap order *)

Definition distinct (heap : list item) : Prop := NoDup (map fst heap).

Definition parent (j : nat) : nat := ((j - 1) / 2)%nat.

Lemma parent_child (j p : nat) :
  (0 < j)%nat -> parent j = p <-> (j = 2 * p + 1 \/ j = 2 * p + 2)%nat.
Proof.
  intros Hj. unfold parent.
  pose proof (Nat.div_mod_eq (j - 1) 2). pose proof (Nat.mod_upper_bound (j - 1) 2).
  lia.
Qed.

Lemma parent_lt (j : nat) : (0 < j)%nat -> (parent j < j)%nat.
Proof.
  intros Hj. pose proof (proj1 (parent_child j (parent j) Hj) eq_refl). lia.
Qed.

Lemma half_leaf (n p : nat) : (p < n / 2)%nat <-> (2 * p + 1 < n)%nat.
Proof.
  pose proof (Nat.div_mod_eq n 2). pose proof (Nat.mod_upper_bound n 2). lia.
Qed.

(** Every pair of a parent at [lo] or later and its child is in order. *)
Definition ordered_from (lo : nat) (heap : list item) : Prop :=
  forall (j : nat) (x y : item),
    (0 < j)%nat -> (lo <= parent j)%nat ->
    heap !! parent j = Some x -> heap !! j = Some y -> fst x <= fst y.

Definition is_heap (heap : list item) : Prop := ordered_from 0 heap.

(** [pos] lies in the subtree of [startpos]. *)
Inductive below (startpos : nat) : nat -> Prop :=
| below_self : below startpos startpos
| below_child pos : (0 < pos)%nat -> below startpos (parent pos) -> below startpos pos.

Lemma below_le startpos pos : below startpos pos -> (startpos <= pos)%nat.
Proof.
  induction 1 as [| pos Hpos _ IH]; [lia |]. pose proof (parent_lt pos Hpos). lia.
Qed.

Lemma below_parent startpos pos :
  below startpos pos -> (startpos < pos)%nat ->
  below startpos (parent pos) /\ (startpos <= parent pos)%nat.
Proof.
  intros Hb Hlt. inversion Hb as [Heq | pos' Hpos Hp]; [lia |].
  split; [exact Hp | apply below_le, Hp].
Qed.

Lemma below_root pos : below 0 pos.
Proof.
  induction (lt_wf pos) as [pos _ IH].
  destruct (decide (pos = 0%nat)) as [-> | Hne]; [constructor |].
  apply below_child; [lia |]. apply IH, parent_lt. lia.
Qed.

Lemma item_lt_distinct (heap : list item) (i j : nat) (x y : item) :
  distinct heap -> heap !! i = Some x -> heap !! j = Some y -> i <> j ->
  item_lt x y = Ok (fst x <? fst y).
Proof.
  intros Hd Hi Hj Hne. unfold item_lt.
  destruct (decide (fst x = fst y)) as [Heq | _]; [| reflexivity].
  unfold item in *.
  exfalso. apply Hne. apply (NoDup_lookup (map fst heap) i j (fst x) Hd).
  - pose proof (list_lookup_fmap fst heap i) as E. rewrite Hi in E. exact E.
  - pose proof (list_lookup_fmap fst heap j) as E. rewrite Hj in E. cbn in E.
    rewrite <- Heq in E. exact E.
Qed.

Lemma distinct_perm heap heap' : heap' ≡ₚ heap -> distinct heap -> distinct heap'.
Proof.
  unfold distinct. intros Hp Hd.
  change (map fst heap') with (fst <$> heap'). rewrite Hp. exact Hd.
Qed.

(** The state of [siftdown] before a comparison: the only pair that may
    be out of order is [pos] with its parent, and the parent of [pos]
    does not exceed the children of [pos]. *)
Definition sift_inv (startpos pos : nat) (heap : list item) : Prop :=
  (forall (j : nat) (x y : item),
      (0 < j)%nat -> (startpos <= parent j)%nat -> j <> pos ->
      heap !! parent j = Some x -> heap !! j = Some y -> fst x <= fst y)
  /\ ((startpos < pos)%nat ->
      forall (c : nat) (x y : item),
        (0 < c)%nat -> parent c = pos ->
        heap !! parent pos = Some x -> heap !! c = Some y -> fst x <= fst y).

Lemma sift_inv_step (heap : list item) (startpos pos : nat) (newitem up : item) :
  below startpos pos -> (startpos < pos)%nat ->
  heap !! pos = Some newitem -> heap !! parent pos = Some up ->
  fst newitem < fst up ->
  sift_inv startpos pos heap ->
  sift_inv startpos (parent pos) (<[pos := up]> (<[parent pos := newitem]> heap)).
Proof.
  intros Hbelow Hlt Hpos Hup Hless [Hpairs Hchildren].
  assert (Hpos0 : (0 < pos)%nat) by lia.
  pose proof (parent_lt pos Hpos0) as Hq.
  destruct (below_parent _ _ Hbelow Hlt) as [Hbq Hsq].
  pose proof (lookup_lt_Some _ _ _ Hpos) as Hlen.
  assert (Hlook : forall k,
            <[pos := up]> (<[parent pos := newitem]> heap) !! k
            = if decide (k = pos) then Some up
              else if decide (k = parent pos) then Some newitem else heap !! k).
  { intros k. apply lookup_exchange; lia. }
  split.
  - intros j x y Hj Hsp Hne. rewrite !Hlook.
    destruct (decide (j = pos)) as [-> | Hjp].
    + rewrite decide_False by lia. rewrite decide_True by reflexivity.
      intros [= <-] [= <-]. lia.
    + rewrite (decide_False (P := j = parent pos)) by exact Hne.
      destruct (decide (parent j = pos)) as [Hpj | Hpj].
      * intros [= <-] Hy. apply (Hchildren Hlt j up y Hj Hpj Hup Hy).
      * destruct (decide (parent j = parent pos)) as [Hpq | Hpq].
        -- intros [= <-] Hy.
           assert (fst up <= fst y); [| lia].
           apply (Hpairs j up y Hj Hsp Hjp); [rewrite Hpq; exact Hup | exact Hy].
        -- intros Hx Hy. apply (Hpairs j x y Hj Hsp Hjp Hx Hy).
  - intros Hsq' c x y Hc Hpc. rewrite !Hlook.
    assert (Hq0 : (0 < parent pos)%nat) by lia.
    pose proof (parent_lt _ Hq0) as Hgp.
    destruct (below_parent _ _ Hbq Hsq') as [_ Hsgp].
    rewrite (decide_False (P := parent (parent pos) = pos)) by lia.
    rewrite (decide_False (P := parent (parent pos) = parent pos)) by lia.
    intros Hx.
    assert (Hgq : fst x <= fst up).
    { apply (Hpairs (parent pos) x up Hq0 Hsgp); [lia | exact Hx | exact Hup]. }
    pose proof (parent_lt c Hc) as Hcq.
    destruct (decide (c = pos)) as [-> | Hcp].
    + intros [= <-]. exact Hgq.
    + rewrite decide_False by lia. intros Hy.
      assert (fst up <= fst y); [| lia].
      apply (Hpairs c up y Hc); [lia | exact Hcp | rewrite Hpc; exact Hup | exact Hy].
Qed.

Lemma siftdown_correct fuel heap startpos pos :
  distinct heap -> below startpos pos ->
  (pos < length heap)%nat -> (pos <= fuel)%nat ->
  sift_inv startpos pos heap ->
  exists heap',
    siftdown fuel heap startpos pos = (heap', true)
    /\ heap' ≡ₚ heap /\ ordered_from startpos heap'.
Proof.
  revert heap pos. induction fuel as [| fuel IH];
    intros heap pos Hd Hbelow Hlen Hfuel Hinv.
  - exists heap. split; [reflexivity |]. split; [reflexivity |].
    destruct Hinv as [Hpairs _]. intros j x y Hj Hsp. apply Hpairs; [exact Hj | exact Hsp | lia].
  - cbn [siftdown]. pose proof (below_le _ _ Hbelow) as Hle.
    destruct (pos <=? startpos)%nat eqn:Hcmp.
    + apply Nat.leb_le in Hcmp. exists heap. split; [reflexivity |].
      split; [reflexivity |]. destruct Hinv as [Hpairs _].
      intros j x y Hj Hsp. apply Hpairs; [exact Hj | exact Hsp |].
      pose proof (parent_lt j Hj). lia.
    + apply Nat.leb_gt in Hcmp. fold (parent pos).
      assert (Hpos0 : (0 < pos)%nat) by lia.
      pose proof (parent_lt pos Hpos0) as Hq.
      destruct (lookup_lt_is_Some_2 heap pos Hlen) as [newitem Hnew].
      destruct (lookup_lt_is_Some_2 heap (parent pos)) as [up Hup]; [lia |].
      rewrite Hnew, Hup.
      rewrite (item_lt_distinct heap pos (parent pos) newitem up Hd Hnew Hup) by lia.
      destruct (fst newitem <? fst up) eqn:Hless.
      * apply Z.ltb_lt in Hless.
        destruct (IH (<[pos := up]> (<[parent pos := newitem]> heap)) (parent pos))
          as (heap' & Hrun & Hperm & Hord).
        -- eapply distinct_perm; [| exact Hd]. apply exchange_perm; assumption.
        -- apply (below_parent _ _ Hbelow Hcmp).
        -- rewrite !length_insert. lia.
        -- lia.
        -- apply sift_inv_step; assumption.
        -- exists heap'. split; [exact Hrun |]. split; [| exact Hord].
           rewrite Hperm. apply exchange_perm; assumption.
      * apply Z.ltb_ge in Hless. exists heap. split; [reflexivity |].
        split; [reflexivity |]. destruct Hinv as [Hpairs _].
        intros j x y Hj Hsp Hx Hy. destruct (decide (j = pos)) as [-> | Hjp].
        -- rewrite Hup in Hx. rewrite Hnew in Hy.
           injection Hx as <-. injection Hy as <-. exact Hless.
        -- apply (Hpairs j x y Hj Hsp Hjp Hx Hy).
Qed.

(** The state of the first loop of [siftup]: the pairs that may be out
    of order are those with [pos] on either side. *)
Definition bubble_inv (startpos pos : nat) (heap : list item) : Prop :=
  (forall (j : nat) (x y : item),
      (0 < j)%nat -> (startpos <= parent j)%nat -> j <> pos -> parent j <> pos ->
      heap !! parent j = Some x -> heap !! j = Some y -> fst x <= fst y)
  /\ ((startpos < pos)%nat ->
      forall (c : nat) (x y : item),
        (0 < c)%nat -> parent c = pos ->
        heap !! parent pos = Some x -> heap !! c = Some y -> fst x <= fst y).

Lemma bubble_inv_step (heap : list item) (startpos pos childpos : nat)
    (x child : item) :
  below startpos pos -> (0 < childpos)%nat -> parent childpos = pos ->
  heap !! pos = Some x -> heap !! childpos = Some child ->
  (forall (c : nat) (y : item),
      (0 < c)%nat -> parent c = pos -> heap !! c = Some y -> fst child <= fst y) ->
  bubble_inv startpos pos heap ->
  bubble_inv startpos childpos (<[pos := child]> (<[childpos := x]> heap)).
Proof.
  intros Hbelow Hc0 Hpc Hitem Hchild Hleast [Hpairs Hchildren].
  pose proof (parent_lt childpos Hc0) as Hlt. rewrite Hpc in Hlt.
  pose proof (below_le _ _ Hbelow) as Hsp.
  pose proof (lookup_lt_Some _ _ _ Hitem) as Hlen.
  pose proof (lookup_lt_Some _ _ _ Hchild) as Hlenc.
  assert (Hlook : forall k,
            <[pos := child]> (<[childpos := x]> heap) !! k
            = if decide (k = pos) then Some child
              else if decide (k = childpos) then Some x else heap !! k).
  { intros k. apply lookup_exchange; lia. }
  split.
  - intros j u y Hj Hspj Hjc Hpjc. rewrite !Hlook.
    pose proof (parent_lt j Hj) as Hpj.
    destruct (decide (j = pos)) as [-> | Hjp].
    + rewrite decide_False by lia. rewrite decide_False by exact Hpjc.
      intros Hu [= <-].
      apply (Hchildren ltac:(lia) childpos u child Hc0 Hpc Hu Hchild).
    + rewrite (decide_False (P := j = childpos)) by exact Hjc.
      destruct (decide (parent j = pos)) as [Hpjp | Hpjp].
      * intros [= <-] Hy. apply (Hleast j y Hj Hpjp Hy).
      * rewrite decide_False by exact Hpjc. intros Hu Hy.
        apply (Hpairs j u y Hj Hspj Hjp Hpjp Hu Hy).
  - intros _ c u y Hc Hpcc. rewrite !Hlook.
    pose proof (parent_lt c Hc) as Hcl.
    rewrite Hpc. rewrite decide_True by reflexivity.
    rewrite decide_False by lia. rewrite decide_False by lia.
    intros [= <-] Hy.
    apply (Hpairs c child y Hc); [lia | lia | lia | rewrite Hpcc; exact Hchild | exact Hy].
Qed.

Lemma bubble_up_correct fuel heap startpos pos :
  distinct heap -> below startpos pos ->
  (pos < length heap)%nat -> (length heap <= fuel + pos)%nat ->
  bubble_inv startpos pos heap ->
  exists heap' leaf,
    bubble_up fuel heap pos = (heap', Some leaf)
    /\ heap' ≡ₚ heap /\ below startpos leaf /\ (leaf < length heap')%nat
    /\ sift_inv startpos leaf heap'.
Proof.
  revert heap pos. induction fuel as [| fuel IH];
    intros heap pos Hd Hbelow Hlen Hfuel Hinv; [lia |].
  cbn [bubble_up].
  destruct (pos <? length heap / 2)%nat eqn:Hhalf.
  - apply Nat.ltb_lt, half_leaf in Hhalf.
    destruct (lookup_lt_is_Some_2 heap pos Hlen) as [cur Hitem].
    destruct (lookup_lt_is_Some_2 heap (2 * pos + 1) Hhalf) as [left_child Hleft].
    assert (Hchosen : exists (childpos : nat) (child : item),
              (if (2 * pos + 1 + 1 <? length heap)%nat
               then match heap !! (2 * pos + 1)%nat, heap !! (2 * pos + 1 + 1)%nat with
                    | Some left_child, Some right_child =>
                        match item_lt left_child right_child with
                        | Raise _ => None
                        | Ok true => Some (2 * pos + 1)%nat
                        | Ok false => Some (2 * pos + 1 + 1)%nat
                        end
                    | _, _ => Some (2 * pos + 1)%nat
                    end
               else Some (2 * pos + 1)%nat) = Some childpos
              /\ (0 < childpos)%nat /\ parent childpos = pos
              /\ heap !! childpos = Some child
              /\ (forall (c : nat) (y : item),
                    (0 < c)%nat -> parent c = pos -> heap !! c = Some y ->
                    fst child <= fst y)).
    { destruct (2 * pos + 1 + 1 <? length heap)%nat eqn:Hright.
      - apply Nat.ltb_lt in Hright.
        destruct (lookup_lt_is_Some_2 heap (2 * pos + 1 + 1) Hright)
          as [right_child Hr].
        rewrite Hleft, Hr.
        rewrite (item_lt_distinct heap _ _ _ _ Hd Hleft Hr) by lia.
        destruct (fst left_child <? fst right_child) eqn:Hless.
        + apply Z.ltb_lt in Hless. exists (2 * pos + 1)%nat, left_child.
          split; [reflexivity |]. split; [lia |].
          split; [apply parent_child; lia |]. split; [exact Hleft |].
          intros c y Hc Hpc Hy. apply parent_child in Hpc; [| exact Hc].
          destruct Hpc as [-> | ->].
          * rewrite Hleft in Hy. injection Hy as <-. lia.
          * replace (2 * pos + 2)%nat with (2 * pos + 1 + 1)%nat in Hy by lia.
            rewrite Hr in Hy. injection Hy as <-. lia.
        + apply Z.ltb_ge in Hless. exists (2 * pos + 1 + 1)%nat, right_child.
          split; [reflexivity |]. split; [lia |].
          split; [apply parent_child; lia |]. split; [exact Hr |].
          intros c y Hc Hpc Hy. apply parent_child in Hpc; [| exact Hc].
          destruct Hpc as [-> | ->].
          * rewrite Hleft in Hy. injection Hy as <-. exact Hless.
          * replace (2 * pos + 2)%nat with (2 * pos + 1 + 1)%nat in Hy by lia.
            rewrite Hr in Hy. injection Hy as <-. lia.
      - apply Nat.ltb_ge in Hright. exists (2 * pos + 1)%nat, left_child.
        split; [reflexivity |]. split; [lia |].
        split; [apply parent_child; lia |]. split; [exact Hleft |].
        intros c y Hc Hpc Hy. apply parent_child in Hpc; [| exact Hc].
        destruct Hpc as [-> | ->].
        + rewrite Hleft in Hy. injection Hy as <-. lia.
        + apply lookup_lt_Some in Hy. lia. }
    destruct Hchosen as (childpos & child & -> & Hc0 & Hpc & Hchild & Hleast).
    cbv beta iota. rewrite Hchild, Hitem.
    pose proof (parent_lt childpos Hc0) as Hlt. rewrite Hpc in Hlt.
    destruct (IH (<[pos := child]> (<[childpos := cur]> heap)) childpos)
      as (heap' & leaf & Hrun & Hperm & Hbl & Hll & Hsift).
    + eapply distinct_perm; [| exact Hd]. apply exchange_perm; assumption.
    + apply below_child; [exact Hc0 | rewrite Hpc; exact Hbelow].
    + rewrite !length_insert. apply (lookup_lt_Some _ _ _ Hchild).
    + rewrite !length_insert. lia.
    + apply bubble_inv_step; assumption.
    + exists heap', leaf. split; [exact Hrun |]. split; [| tauto].
      rewrite Hperm. apply exchange_perm; assumption.
  - apply Nat.ltb_ge in Hhalf.
    assert (Hleaf : (length heap <= 2 * pos + 1)%nat).
    { destruct (decide (2 * pos + 1 < length heap)%nat) as [H | H]; [| lia].
      apply half_leaf in H. lia. }
    exists heap, pos. split; [reflexivity |]. split; [reflexivity |].
    split; [exact Hbelow |]. split; [exact Hlen |].
    destruct Hinv as [Hpairs _]. split.
    + intros j x y Hj Hsp Hjp Hx Hy. apply (Hpairs j x y Hj Hsp Hjp); try assumption.
      intros Hpj. apply parent_child in Hpj; [| exact Hj].
      apply lookup_lt_Some in Hy. lia.
    + intros _ c x y Hc Hpc _ Hy. apply parent_child in Hpc; [| exact Hc].
      apply lookup_lt_Some in Hy. lia.
Qed.

Lemma siftup_correct heap pos :
  distinct heap -> (pos < length heap)%nat -> ordered_from (S pos) heap ->
  exists heap',
    siftup heap pos = (heap', true) /\ heap' ≡ₚ heap /\ ordered_from pos heap'.
Proof.
  intros Hd Hlen Hord. unfold siftup.
  destruct (bubble_up_correct (length heap) heap pos pos Hd (below_self pos) Hlen)
    as (heap1 & leaf & -> & Hperm1 & Hbelow & Hleaf & Hsift).
  { lia. }
  { split; [| lia]. intros j x y Hj Hsp Hjp Hpj. apply (Hord j x y Hj). lia. }
  destruct (siftdown_correct (length heap1) heap1 pos leaf)
    as (heap2 & -> & Hperm2 & Hord2); try assumption.
  { eapply distinct_perm; [exact Hperm1 | exact Hd]. }
  { lia. }
  exists heap2. split; [reflexivity |]. split; [| exact Hord2].
  rewrite Hperm2. exact Hperm1.
Qed.

Lemma heapify_from_correct count heap :
  distinct heap -> (count <= length heap)%nat -> ordered_from count heap ->
  exists heap',
    heapify_from count heap = (heap', true) /\ heap' ≡ₚ heap /\ is_heap heap'.
Proof.
  revert heap. induction count as [| i IH]; intros heap Hd Hlen Hord.
  - exists heap. split; [reflexivity |]. split; [reflexivity | exact Hord].
  - cbn [heapify_from].
    destruct (siftup_correct heap i Hd) as (heap1 & -> & Hperm1 & Hord1);
      [lia | exact Hord |].
    destruct (IH heap1) as (heap2 & Hrun & Hperm2 & Hheap).
    + eapply distinct_perm; [exact Hperm1 | exact Hd].
    + rewrite (Permutation_length Hperm1). lia.
    + exact Hord1.
    + exists heap2. split; [exact Hrun |]. split; [| exact Hheap].
      rewrite Hperm2. exact Hperm1.
Qed.

Lemma heapify_correct heap :
  distinct heap ->
  exists heap', heapify heap = (heap', true) /\ heap' ≡ₚ heap /\ is_heap heap'.
Proof.
  intros Hd. apply heapify_from_correct; [exact Hd | |].
  - pose proof (Nat.div_mod_eq (length heap) 2). lia.
  - intros j x y Hj Hsp _ Hy. apply lookup_lt_Some in Hy.
    pose proof (proj1 (parent_child j (parent j) Hj) eq_refl).
    pose proof (Nat.div_mod_eq (length heap) 2).
    pose proof (Nat.mod_upper_bound (length heap) 2). lia.
Qed.

Lemma heappush_correct heap x :
  distinct (heap ++ [x]) -> is_heap heap ->
  exists heap', heappush heap x = (heap', true) /\ heap' ≡ₚ x :: heap /\ is_heap heap'.
Proof.
  intros Hd Hheap. unfold heappush.
  destruct (siftdown_correct (length (heap ++ [x])) (heap ++ [x]) 0
              (length (heap ++ [x]) - 1))
    as (heap' & Hrun & Hperm & Hord).
  - exact Hd.
  - apply below_root.
  - rewrite length_app. cbn. lia.
  - lia.
  - rewrite length_app. cbn [length].
    replace (length heap + 1 - 1)%nat with (length heap) by lia. split.
    + intros j y z Hj _ Hjn Hy Hz.
      pose proof (lookup_lt_Some _ _ _ Hz) as Hjl. rewrite length_app in Hjl.
      cbn in Hjl. pose proof (parent_lt j Hj).
      rewrite lookup_app_l in Hy by lia. rewrite lookup_app_l in Hz by lia.
      apply (Hheap j y z Hj); [lia | exact Hy | exact Hz].
    + intros _ c y z Hc Hpc _ Hz. apply parent_child in Hpc; [| exact Hc].
      apply lookup_lt_Some in Hz. rewrite length_app in Hz. cbn in Hz. lia.
  - exists heap'. split; [exact Hrun |]. split; [| exact Hord].
    rewrite Hperm. symmetry. apply Permutation_cons_append.
Qed.

Lemma heap_root_least (heap : list item) (root : item) :
  is_heap heap -> heap !! 0%nat = Some root ->
  forall (j : nat) (y : item), heap !! j = Some y -> fst root <= fst y.
Proof.
  intros Hheap Hroot j. induction (lt_wf j) as [j _ IH]. intros y Hy.
  destruct (decide (j = 0%nat)) as [-> | Hne].
  - rewrite Hroot in Hy. injection Hy as <-. lia.
  - assert (Hj : (0 < j)%nat) by lia. pose proof (parent_lt j Hj) as Hlt.
    destruct (lookup_lt_is_Some_2 heap (parent j)) as [z Hz].
    { apply lookup_lt_Some in Hy. lia. }
    pose proof (IH (parent j) Hlt z Hz).
    pose proof (Hheap j z y Hj ltac:(lia) Hz Hy). lia.
Qed.

(** *** The queue of the allocator *)

(** The queue holds pairwise different scores in heap order, each next
    to the entry it was computed for. *)
Definition queue_inv (s : t) : Prop :=
  distinct (job_queue s) /\ is_heap (job_queue s)
  /\ Forall (fun x : item => fst x = - entry_priority_score (snd x)) (job_queue s).

(** Every [queue_job] of the sequence brings a score that is not in the
    queue at that moment. *)
Fixpoint scores_differ (ops : list op) (s : t) : Prop :=
  match ops with
  | [] => True
  | o :: rest =>
      match o with
      | QueueJob job processing_types now =>
          - _calculate_priority_score job processing_types now
          ∉ map fst (job_queue s)
      | _ => True
      end
      /\ scores_differ rest (step s o)
  end.

Lemma scores_differ_app ops ops' s :
  scores_differ (ops ++ ops') s
  <-> scores_differ ops s /\ scores_differ ops' (run ops s).
Proof.
  revert s. induction ops as [| o ops IH]; intros s; cbn [app scores_differ run fold_left].
  - tauto.
  - fold (run ops (step s o)). rewrite IH. tauto.
Qed.

Definition waiting (job_id : string) (x : item) : bool :=
  negb (bool_decide (entry_job_id (snd x) = job_id)).

Lemma filter_keys (f : item -> bool) (l : list item) (k : Z) :
  k ∈ map fst (List.filter f l) -> k ∈ map fst l.
Proof.
  induction l as [| x l IH]; cbn; [exact id |].
  destruct (f x); cbn; rewrite !elem_of_cons; intros H; tauto.
Qed.

Lemma filter_distinct (f : item -> bool) (l : list item) :
  distinct l -> distinct (List.filter f l).
Proof.
  unfold distinct. induction l as [| x l IH]; cbn; [exact id |].
  intros Hnd. apply NoDup_cons in Hnd. destruct Hnd as [Hx Hnd].
  destruct (f x); cbn; [| apply IH, Hnd].
  apply NoDup_cons. split; [| apply IH, Hnd].
  intros Hin. apply Hx, (filter_keys f), Hin.
Qed.

Lemma filter_Forall (P : item -> Prop) (f : item -> bool) (l : list item) :
  Forall P l -> Forall P (List.filter f l).
Proof.
  induction 1 as [| x l Hx Hl IH]; cbn; [constructor |].
  destruct (f x); [constructor; assumption | exact IH].
Qed.

Lemma queue_inv_init : queue_inv init.
Proof.
  split; [apply NoDup_nil_2 |]. split; [| constructor].
  intros j x y _ _ Hx. discriminate.
Qed.

Lemma queue_job_queue_inv s job processing_types now :
  queue_inv s ->
  - _calculate_priority_score job processing_types now ∉ map fst (job_queue s) ->
  fst (queue_job s job processing_types now) = Ok tt
  /\ queue_inv (snd (queue_job s job processing_types now))
  /\ map snd (job_queue (snd (queue_job s job processing_types now)))
     ≡ₚ {| entry_priority_score := _calculate_priority_score job processing_types now;
           entry_job_id := job_id job; entry_job := job;
           processing_types := processing_types; queued_at := now |}
        :: map snd (job_queue s).
Proof.
  intros (Hd & Hheap & Hkeys) Hfresh. unfold queue_job.
  set (score := _calculate_priority_score job processing_types now) in *.
  set (entry := {| entry_priority_score := score; entry_job_id := job_id job;
                   entry_job := job; processing_types := processing_types;
                   queued_at := now |}).
  destruct (heappush_correct (job_queue s) (- score, entry)) as (queue & -> & Hperm & Hq).
  - unfold distinct. rewrite map_app. cbn. apply NoDup_app.
    split; [exact Hd |]. split; [| apply NoDup_singleton].
    intros k Hk Hin. apply list_elem_of_singleton in Hin. subst k. contradiction.
  - exact Hheap.
  - cbn [fst snd with_queue job_queue]. split; [reflexivity |]. split.
    + unfold queue_inv. cbn [with_queue job_queue]. split; [| split; [exact Hq |]].
      * eapply distinct_perm; [exact Hperm |]. unfold distinct. cbn.
        apply NoDup_cons. split; assumption.
      * rewrite Hperm. constructor; [reflexivity | exact Hkeys].
    + change (map snd queue) with (snd <$> queue). rewrite Hperm. reflexivity.
Qed.

Lemma allocate_resources_queue s job_id :
  distinct (job_queue s) ->
  job_queue (snd (allocate_resources s job_id)) = job_queue s
  \/ (job_queue (snd (allocate_resources s job_id))
        ≡ₚ List.filter (waiting job_id) (job_queue s)
      /\ is_heap (job_queue (snd (allocate_resources s job_id)))).
Proof.
  intros Hd. unfold allocate_resources.
  destruct (find_queue_entry s job_id) as [queue_entry |]; [| left; reflexivity].
  destruct (_find_best_worker s _) as [best |]; [| left; reflexivity].
  destruct (oget (worker_id best) (worker_resources s)) as [worker |];
    [| left; reflexivity].
  match goal with
  | |- context [heapify ?remaining] =>
      destruct (heapify_correct remaining) as (queue & Hrun & Hperm & Hheap);
      [apply filter_distinct, Hd | rewrite Hrun]
  end.
  right. split; [exact Hperm | exact Hheap].
Qed.

Lemma allocate_resources_queue_inv s job_id :
  queue_inv s -> queue_inv (snd (allocate_resources s job_id)).
Proof.
  intros (Hd & Hheap & Hkeys). unfold queue_inv.
  destruct (allocate_resources_queue s job_id Hd) as [-> | [Hperm Hheap']].
  - split; [exact Hd |]. split; [exact Hheap | exact Hkeys].
  - split; [| split; [exact Hheap' |]].
    + eapply distinct_perm; [exact Hperm |]. apply filter_distinct, Hd.
    + rewrite Hperm. apply filter_Forall, Hkeys.
Qed.

Lemma release_resources_queue s job_id :
  job_queue (release_resources s job_id) = job_queue s.
Proof.
  unfold release_resources. destruct (job_allocations s !! job_id); reflexivity.
Qed.

Lemma run_queue_inv ops s :
  queue_inv s -> scores_differ ops s -> queue_inv (run ops s).
Proof.
  revert s. induction ops as [| o ops IH]; intros s Hinv Hops; [exact Hinv |].
  cbn [run fold_left]. destruct Hops as [Ho Hops]. apply IH; [| exact Hops].
  destruct o as [w r | j p n | j | j]; cbn [step].
  - exact Hinv.
  - apply queue_job_queue_inv; assumption.
  - apply allocate_resources_queue_inv, Hinv.
  - unfold queue_inv. rewrite release_resources_queue. exact Hinv.
Qed.

Definition new_entry (job : Job) (processing_types : list string) (now : Z)
    : QueueEntry :=
  {| entry_priority_score := _calculate_priority_score job processing_types now;
     entry_job_id := job_id job; entry_job := job;
     processing_types := processing_types; queued_at := now |}.

(** As long as every job that is queued brings a score that no waiting
    job has, [queue_job] never raises: the push compares scores only, and
    the queue afterwards holds the entries it held before and the new
    one. *)
Theorem queue_job_distinct_scores_ok :
  forall (ops : list op) (job : Job) (processing_types : list string) (now : Z),
    scores_differ (ops ++ [QueueJob job processing_types now]) init ->
    fst (queue_job (run ops init) job processing_types now) = Ok tt
    /\ map snd (job_queue (snd (queue_job (run ops init) job processing_types now)))
       ≡ₚ new_entry job processing_types now :: map snd (job_queue (run ops init)).
Proof.
  intros ops job processing_types now Hops.
  apply scores_differ_app in Hops. destruct Hops as [Hops [Hfresh _]].
  pose proof (run_queue_inv ops init queue_inv_init Hops) as Hinv.
  destruct (queue_job_queue_inv _ job processing_types now Hinv Hfresh)
    as (Hok & _ & Hperm).
  split; [exact Hok | exact Hperm].
Qed.

(** Under the same condition the job at the head of the queue - the one
    that [get_next_job] answers - has a priority score above that of
    every other waiting job, after any sequence of registrations,
    submissions, allocations and releases. *)
Theorem highest_score_first :
  forall (ops : list op) (head : item) (rest : list item),
    scores_differ ops init ->
    job_queue (run ops init) = head :: rest ->
    get_next_job (run ops init) = Some (entry_job_id (snd head))
    /\ forall x, x ∈ rest ->
         entry_priority_score (snd x) < entry_priority_score (snd head).
Proof.
  intros ops head rest Hops Hqueue.
  destruct (run_queue_inv ops init queue_inv_init Hops) as (Hd & Hheap & Hkeys).
  unfold get_next_job. rewrite Hqueue in *. split; [destruct head; reflexivity |].
  intros x Hx. apply list_elem_of_lookup in Hx. destruct Hx as [i Hi].
  pose proof (heap_root_least (head :: rest) head Hheap eq_refl (S i) x Hi) as Hle.
  assert (Hne : fst head <> fst x).
  { intros Heq.
    assert (0%nat = S i); [| discriminate].
    apply (NoDup_lookup (map fst (head :: rest)) 0 (S i) (fst head) Hd); [reflexivity |].
    cbn. pose proof (list_lookup_fmap fst rest i) as E. unfold item in *.
    rewrite Hi in E. cbn in E. rewrite Heq. exact E. }
  apply Forall_cons_1 in Hkeys. destruct Hkeys as [Hhead Hrest].
  pose proof (proj1 (Forall_forall _ _) Hrest x
                (proj2 (list_elem_of_lookup rest x) (ex_intro _ i Hi))) as Hxk.
  cbn beta in Hxk. lia.
Qed.

Definition three_submissions : list op :=
  [ RegisterWorker "w1" large_worker;
    QueueJob job_50 [] noon;
    QueueJob job_10 [] noon;
    QueueJob job_90 three_compressions noon ].

Lemma three_submissions_differ :
  scores_differ
    (three_submissions ++ [QueueJob (scored_job "fourth" noon (Some 10%Q)) [] noon])
    init.
Proof.
  cbn [three_submissions app scores_differ].
  repeat split;
    match goal with |- ?P => apply (@bool_decide_unpack P _) end;
    vm_compute; exact I.
Defined.

Lemma queue_job_distinct_scores_ok_witness :
  fst (queue_job (run three_submissions init)
         (scored_job "fourth" noon (Some 10%Q)) [] noon) = Ok tt
  /\ map snd (job_queue (snd (queue_job (run three_submissions init)
                                (scored_job "fourth" noon (Some 10%Q)) [] noon)))
     ≡ₚ new_entry (scored_job "fourth" noon (Some 10%Q)) [] noon
        :: map snd (job_queue (run three_submissions init)).
Proof.
  apply (queue_job_distinct_scores_ok three_submissions).
  exact three_submissions_differ.
Defined.

Lemma highest_score_first_witness :
  exists head rest,
    job_queue (run three_submissions init) = head :: rest
    /\ entry_priority_score (snd head) = 90
    /\ get_next_job (run three_submissions init) = Some (entry_job_id (snd head))
    /\ forall x, x ∈ rest ->
         entry_priority_score (snd x) < entry_priority_score (snd head).
Proof.
  eexists. eexists. split; [vm_compute; reflexivity |]. split; [reflexivity |].
  apply (highest_score_first three_submissions).
  - apply (proj1 (scores_differ_app _ _ _) three_submissions_differ).
  - vm_compute. reflexivity.
Defined.

(** *** Allocation *)

Lemma find_none_elem {A} (f : A -> bool) (l : list A) :
  (forall x, x ∈ l -> f x = false) -> List.find f l = None.
Proof.
  induction l as [| a l IH]; intros Hall; cbn; [reflexivity |].
  rewrite (Hall a) by apply list_elem_of_here.
  apply IH. intros x Hx. apply Hall, list_elem_of_further, Hx.
Qed.

Lemma filter_elem {A} (f : A -> bool) (l : list A) (x : A) :
  x ∈ List.filter f l <-> x ∈ l /\ f x = true.
Proof.
  induction l as [| a l IH]; cbn.
  - split; [intros H; inversion H | intros [H _]; inversion H].
  - destruct (f a) eqn:Ha.
    + rewrite !elem_of_cons, IH.
      split; [intros [-> | [H1 H2]]; auto | intros [[-> | H1] H2]; auto].
    + rewrite IH, elem_of_cons.
      split; [tauto | intros [[-> | H1] H2]; [congruence | tauto]].
Qed.

Lemma ledger_worker s best :
  ledger_inv s -> best ∈ ovalues (worker_resources s) ->
  oget (worker_id best) (worker_resources s) = Some best.
Proof.
  intros (Hnd & Hfiled & _) Hin. unfold ovalues in Hin.
  apply list_elem_of_fmap in Hin. destruct Hin as ([k w] & Hw & Hin).
  cbn in Hw. subst w.
  assert (Hk : worker_id best = k).
  { apply (proj1 (Forall_forall _ _) Hfiled) in Hin. apply Hin. }
  rewrite Hk. apply oget_unique; assumption.
Qed.

(** An allocation that [allocate_resources] returns is backed: the job
    was waiting, the worker that is charged had on each of the four
    dimensions at least the amount the job requires, the allocation is on
    record under the job, and the job has left the queue while every
    other entry is still waiting. *)
Theorem allocation_is_backed :
  forall (ops : list op) (job_id : string) (a : ResourceAllocation) (s1 : t),
    allocate_resources (run ops init) job_id = (Some a, s1) ->
    exists (queue_entry : QueueEntry) (w0 : WorkerResource),
      find_queue_entry (run ops init) job_id = Some queue_entry
      /\ oget (alloc_worker_id a) (worker_resources (run ops init)) = Some w0
      /\ (allocated_cpu a <= available_cpu w0)%Q
      /\ (allocated_memory a <= available_memory w0)%Q
      /\ (allocated_disk a <= available_disk w0)%Q
      /\ (network_mbps (_calculate_total_requirements (processing_types queue_entry))
          <= available_network w0)%Q
      /\ job_allocations s1 !! job_id = Some a
      /\ find_queue_entry s1 job_id = None
      /\ job_queue s1 ≡ₚ List.filter (waiting job_id) (job_queue (run ops init)).
Proof.
  intros ops job_id a s1.
  pose proof (run_inv ops init ledger_inv_init) as Hinv.
  generalize dependent (run ops init). intros s Hinv.
  unfold allocate_resources.
  destruct (find_queue_entry s job_id) as [queue_entry |]; [| discriminate].
  set (req := _calculate_total_requirements (processing_types queue_entry)).
  destruct (_find_best_worker s req) as [best |] eqn:Hbest; [| discriminate].
  destruct (find_best_worker_sound s req best Hbest) as [Hin Hsuf].
  rewrite (ledger_worker s best Hinv Hin).
  match goal with
  | |- context [heapify ?remaining] =>
      pose proof (heapify_perm remaining) as Hperm;
      destruct (heapify remaining) as [queue [|]]
  end; [| discriminate].
  cbn [fst] in Hperm. intros [= <- <-].
  cbn [alloc_worker_id allocated_cpu allocated_memory allocated_disk
       job_allocations job_queue].
  exists queue_entry, best. split; [reflexivity |].
  split; [apply ledger_worker; assumption |].
  destruct (sufficient_le best req Hsuf) as (Hc & Hm & Hd & Hn).
  do 4 (split; [assumption |]).
  split; [apply lookup_insert_eq |]. split; [| exact Hperm].
  unfold find_queue_entry. cbn [job_queue]. rewrite find_none_elem; [reflexivity |].
  intros x Hx. rewrite Hperm in Hx. apply filter_elem in Hx.
  destruct Hx as [_ Hx]. apply negb_true_iff in Hx. exact Hx.
Qed.

Lemma allocation_is_backed_witness :
  exists (queue_entry : QueueEntry) (w0 : WorkerResource),
    find_queue_entry (run three_submissions init) "third" = Some queue_entry
    /\ oget "w1" (worker_resources (run three_submissions init)) = Some w0
    /\ (12 <= available_cpu w0)%Q
    /\ (12288 <= available_memory w0)%Q
    /\ (3000 <= available_disk w0)%Q
    /\ (network_mbps (_calculate_total_requirements (processing_types queue_entry))
        <= available_network w0)%Q
    /\ job_allocations (snd (allocate_resources (run three_submissions init) "third"))
       !! "third"%string
       = Some {| alloc_job_id := "third"; alloc_worker_id := "w1";
                 allocated_cpu := 12; allocated_memory := 12288;
                 allocated_disk := 3000; estimated_duration := 600;
                 priority_score := 90 |}
    /\ find_queue_entry (snd (allocate_resources (run three_submissions init) "third"))
         "third" = None
    /\ job_queue (snd (allocate_resources (run three_submissions init) "third"))
       ≡ₚ List.filter (waiting "third") (job_queue (run three_submissions init)).
Proof.
  apply (allocation_is_backed three_submissions "third"
           {| alloc_job_id := "third"; alloc_worker_id := "w1";
              allocated_cpu := 12; allocated_memory := 12288;
              allocated_disk := 3000; estimated_duration := 600;
              priority_score := 90 |}).
  vm_compute. reflexivity.
Defined.

Lemma suitable_workers_total workers requirements :
  Forall (fun w => ~ (max_cpu w == 0)%Q /\ ~ (max_memory w == 0)%Q) workers ->
  exists suitable, suitable_workers workers requirements = Ok suitable.
Proof.
  induction 1 as [| w ws [Hc Hm] _ [others IH]]; cbn.
  - exists []. reflexivity.
  - destruct (sufficient w requirements); [| exists others; exact IH].
    unfold fit_score.
    destruct (Qeq_bool (max_cpu w) 0) eqn:Ec; [apply Qeq_bool_iff in Ec; contradiction |].
    destruct (Qeq_bool (max_memory w) 0) eqn:Em;
      [apply Qeq_bool_iff in Em; contradiction |].
    cbn [bind]. rewrite IH. cbn [bind]. eexists. reflexivity.
Qed.

(** A waiting job is allocated as soon as one registered worker has the
    headroom for it, provided that the waiting jobs have pairwise
    different scores and that no worker was registered with a cpu or
    memory maximum of zero. *)
Theorem allocate_resources_succeeds :
  forall (ops : list op) (job_id : string) (queue_entry : QueueEntry)
         (w : WorkerResource),
    scores_differ ops init ->
    Forall (fun w => ~ (max_cpu w == 0)%Q /\ ~ (max_memory w == 0)%Q)
           (ovalues (worker_resources (run ops init))) ->
    find_queue_entry (run ops init) job_id = Some queue_entry ->
    w ∈ ovalues (worker_resources (run ops init)) ->
    sufficient w (_calculate_total_requirements (processing_types queue_entry)) = true ->
    exists (a : ResourceAllocation) (s1 : t),
      allocate_resources (run ops init) job_id = (Some a, s1)
      /\ alloc_job_id a = job_id
      /\ (allocated_cpu a
          == cpu_cores (_calculate_total_requirements (processing_types queue_entry)))%Q.
Proof.
  intros ops job_id queue_entry w Hops.
  pose proof (run_inv ops init ledger_inv_init) as Hinv.
  destruct (run_queue_inv ops init queue_inv_init Hops) as (Hd & _ & _).
  generalize dependent (run ops init). intros s Hinv Hd Hmax Hentry Hin Hsuf.
  unfold allocate_resources. rewrite Hentry.
  set (req := _calculate_total_requirements (processing_types queue_entry)) in *.
  destruct (suitable_workers_total _ req Hmax) as [suitable Hsuitable].
  destruct (suitable_workers_scores _ _ _ Hsuitable) as [_ Hex].
  destruct (Hex w Hin Hsuf) as [score Hscore].
  destruct (sort_by_score_spec suitable) as [_ Helem].
  assert (Hbest : exists best, _find_best_worker s req = Some best).
  { unfold _find_best_worker. rewrite Hsuitable.
    destruct (sort_by_score suitable) as [| [score' best] rest] eqn:Hsorted.
    - apply Helem in Hscore. inversion Hscore.
    - exists best. reflexivity. }
  destruct Hbest as [best Hbest]. rewrite Hbest.
  destruct (find_best_worker_sound s req best Hbest) as [Hbin _].
  rewrite (ledger_worker s best Hinv Hbin).
  match goal with
  | |- context [heapify ?remaining] =>
      destruct (heapify_correct remaining) as (queue & Hrun & _ & _);
      [apply filter_distinct, Hd | rewrite Hrun]
  end.
  eexists. eexists. split; [reflexivity |]. split; reflexivity.
Qed.

Lemma allocate_resources_succeeds_witness :
  exists (a : ResourceAllocation) (s1 : t),
    allocate_resources (run three_submissions init) "third" = (Some a, s1)
    /\ alloc_job_id a = "third"%string
    /\ (allocated_cpu a
        == cpu_cores (_calculate_total_requirements three_compressions))%Q.
Proof.
  apply (allocate_resources_succeeds three_submissions "third"
           (new_entry job_90 three_compressions noon)
           (worker_of "w1" 64 65536 100000 10000)).
  - apply (proj1 (scores_differ_app _ _ _) three_submissions_differ).
  - repeat constructor; vm_compute; discriminate.
  - vm_compute. reflexivity.
  - apply list_elem_of_here.
  - vm_compute. reflexivity.
Defined.

End ResourceAllocatorQueue.

Module JobManagerBehaviour.
Import Py Models JobManager JobManagerSpec.

(** *** Cancellation *)

Lemma get_job_active s k db j :
  active_jobs s !! k = Some j -> get_job s k db = (Some j, s).
Proof. unfold get_job. intros ->. reflexivity. Qed.

(** A cancellation that is granted leaves the job cancelled, with its
    completion time set and without a task; every later cancellation of
    the same job is refused and changes nothing. *)
Theorem cancel_job_once :
  forall (s s1 : t) (k : string) (now : Z) (db_up : bool),
    cancel_job s k now db_up = (true, s1) ->
    (exists job,
        active_jobs s1 !! k = Some job
        /\ status job = CANCELLED /\ completed_at job = Some now)
    /\ (k ∉ worker_tasks s1)
    /\ forall now' db_up', cancel_job s1 k now' db_up' = (false, s1).
Proof.
  intros s s1 k now db_up. unfold cancel_job.
  destruct (get_job s k db_up) as [[j |] s0]; [| discriminate].
  destruct (is_terminal (status j)); [discriminate |].
  intros [= <-].
  set (cancelled := {| Models.job_id := Models.job_id j; status := CANCELLED |}).
  assert (Hact : active_jobs
                   (drop_worker_task (_save_job (mutate s0 k cancelled) cancelled db_up) k)
                 !! k = Some cancelled).
  { unfold drop_worker_task, _save_job, mutate, with_active.
    case_bool_decide; destruct db_up; cbn; apply lookup_insert_eq. }
  split; [exists cancelled; split; [exact Hact | split; reflexivity] |].
  split.
  - unfold drop_worker_task. case_bool_decide; [| assumption].
    cbn [worker_tasks]. apply not_elem_of_difference. right.
    apply elem_of_singleton. reflexivity.
  - intros now' db_up'. rewrite (get_job_active _ _ _ _ Hact). reflexivity.
Qed.

Lemma cancel_job_once_witness :
  (exists job,
      active_jobs (snd (cancel_job (snd (create_job init resize_request "job-1" 0 true))
                          "job-1" 10 true)) !! "job-1"%string = Some job
      /\ status job = CANCELLED /\ completed_at job = Some 10)
  /\ ("job-1"%string
      ∉ worker_tasks (snd (cancel_job (snd (create_job init resize_request "job-1" 0 true))
                             "job-1" 10 true)))
  /\ forall now' db_up',
       cancel_job (snd (cancel_job (snd (create_job init resize_request "job-1" 0 true))
                          "job-1" 10 true)) "job-1" now' db_up'
       = (false, snd (cancel_job (snd (create_job init resize_request "job-1" 0 true))
                        "job-1" 10 true)).
Proof.
  apply (cancel_job_once (snd (create_job init resize_request "job-1" 0 true)) _
           "job-1" 10 true).
  reflexivity.
Defined.

(** A cancellation that is refused - the job is unknown or already
    completed, failed or cancelled - changes no job, stops no task and
    leaves the datastore, the queue and the job counter as they were. *)
Theorem cancel_job_refused :
  forall (s s1 : t) (k : string) (now : Z) (db_up : bool),
    cancel_job s k now db_up = (false, s1) ->
    (forall k', lookup_job s1 k' = lookup_job s k')
    /\ datastore s1 = datastore s
    /\ job_queue s1 = job_queue s
    /\ worker_tasks s1 = worker_tasks s
    /\ current_jobs_count s1 = current_jobs_count s
    /\ match fst (get_job s k db_up) with
       | Some job => is_terminal (status job) = true
       | None => True
       end.
Proof.
  intros s s1 k now db_up. unfold cancel_job.
  destruct (get_job s k db_up) as [[j |] s0] eqn:Hget.
  - destruct (is_terminal (status j)) eqn:Hterm; [| discriminate].
    intros [= <-]. split; [exact (lookup_job_get_job _ _ _ _ _ Hget) |].
    cbn [fst]. revert Hget. unfold get_job.
    destruct (active_jobs s !! k); [intros [= <- <-]; repeat split; exact Hterm |].
    destruct (_load_job s k db_up); intros [= <- <-]; repeat split; exact Hterm.
  - intros [= <-]. apply get_job_none in Hget. subst s0. repeat split.
Qed.

Lemma cancel_job_refused_witness :
  (forall k', lookup_job init k' = lookup_job init k')
  /\ datastore init = datastore init
  /\ job_queue init = job_queue init
  /\ worker_tasks init = worker_tasks init
  /\ current_jobs_count init = current_jobs_count init
  /\ match fst (get_job init "ghost" true) with
     | Some job => is_terminal (status job) = true
     | None => True
     end.
Proof. apply (cancel_job_refused init init "ghost" 0 true). reflexivity. Defined.

(** *** Reading jobs *)

(** A job that [get_job] has found once is found again whether or not
    the datastore can be reached, and the second lookup changes nothing. *)
Theorem get_job_cached :
  forall (s s1 : t) (k : string) (db_up : bool) (job : Job),
    get_job s k db_up = (Some job, s1) ->
    forall db_up', get_job s1 k db_up' = (Some job, s1).
Proof.
  intros s s1 k db_up job. unfold get_job at 1.
  destruct (active_jobs s !! k) as [j |] eqn:Hact.
  - intros [= <- <-] db_up'. apply get_job_active, Hact.
  - destruct (_load_job s k db_up) as [j |]; [| discriminate].
    intros [= <- <-] db_up'. apply get_job_active. cbn. apply lookup_insert_eq.
Qed.

Definition stored_only : t :=
  {| active_jobs := ∅;
     datastore := datastore (snd (create_job init resize_request "job-1" 0 true));
     job_queue := []; worker_tasks := ∅; current_jobs_count := 0 |}.

Lemma get_job_cached_witness :
  get_job (snd (get_job stored_only "job-1" true)) "job-1" false
  = (Some (fst (create_job init resize_request "job-1" 0 true)),
     snd (get_job stored_only "job-1" true)).
Proof. apply (get_job_cached stored_only _ "job-1" true). reflexivity. Defined.

(** The job that [create_job] returns can be read back at once, also
    when the datastore could not be reached for the save or cannot be
    reached for the lookup; it is pending, carries the fields of the
    request, and is on the queue with the value of its priority. *)
Theorem create_job_then_get_job :
  forall (s : t) (job_request : JobRequest) (fresh_id : string) (now : Z)
         (db_up db_up' : bool),
    let job := fst (create_job s job_request fresh_id now db_up) in
    let s1 := snd (create_job s job_request fresh_id now db_up) in
    get_job s1 fresh_id db_up' = (Some job, s1)
    /\ status job = PENDING
    /\ file_id job = req_file_id job_request
    /\ job_queue s1
       = job_queue s ++ [(_get_priority_value (req_priority job_request), fresh_id)]
    /\ datastore s1 !! fresh_id
       = (if db_up then Some job else datastore s !! fresh_id).
Proof.
  intros s job_request fresh_id now db_up db_up'. cbv zeta.
  split.
  - apply get_job_active. unfold create_job, _save_job, with_active.
    destruct db_up; cbn; apply lookup_insert_eq.
  - do 2 (split; [reflexivity |]). unfold create_job, _save_job, with_active.
    destruct db_up; cbn; (split; [reflexivity |]);
      [apply lookup_insert_eq | reflexivity].
Qed.

(** *** Processing *)

(** [process_job_async] on a pending job ends with the job either
    completed or failed, with its start and completion times set and its
    task entry gone: completed exactly when the pipeline resolves and the
    executor reports success, with the files it produced; otherwise
    failed, with the message of the cause. *)
Theorem process_job_async_outcome :
  forall (s : t) (k : string) (env : ProcessEnv) (job : Job),
    active_jobs s !! k = Some job -> status job = PENDING ->
    (k ∉ worker_tasks (process_job_async s k env))
    /\ exists job',
         active_jobs (process_job_async s k env) !! k = Some job'
         /\ started_at job' = Some (t_start env)
         /\ completed_at job' = Some (t_end env)
         /\ match resolve_pipeline job env, exec env with
            | Some _, ExecSuccess processed_files =>
                status job' = COMPLETED
                /\ result job'
                   = Some {| success := true; output_files := processed_files;
                             jr_error_message := None;
                             processing_time_seconds :=
                               total_seconds (t_end env) (t_exec env) |}
            | Some _, ExecFailure error =>
                status job' = FAILED
                /\ error_message job' = Some (default "Unknown error"%string error)
            | Some _, ExecRaises message =>
                status job' = FAILED /\ error_message job' = Some message
            | None, _ =>
                status job' = FAILED
                /\ error_message job' = Some "Pipeline not found"%string
            end.
Proof.
  intros s k env job Hact Hpending.
  unfold process_job_async, process_job_async_trace, start_processing.
  rewrite (get_job_active _ _ _ _ Hact), Hpending.
  rewrite bool_decide_eq_true_2 by reflexivity. cbn [negb List.last].
  set (running := {| Models.job_id := Models.job_id job; status := RUNNING |}).
  set (s1 := _save_job (mutate s k running) running (env_db_up env)).
  assert (Hrun : active_jobs s1 !! k = Some running).
  { unfold s1, _save_job, mutate, with_active.
    destruct (env_db_up env); cbn; apply lookup_insert_eq. }
  assert (Hdrop : forall s2, k ∉ worker_tasks (drop_worker_task s2 k)).
  { intros s2. unfold drop_worker_task. case_bool_decide; [| assumption].
    cbn [worker_tasks]. apply not_elem_of_difference. right.
    apply elem_of_singleton. reflexivity. }
  split; [apply Hdrop |].
  assert (Hactive : forall s2, active_jobs (drop_worker_task s2 k) = active_jobs s2).
  { intros s2. unfold drop_worker_task. case_bool_decide; reflexivity. }
  rewrite Hactive.
  assert (Hwrite : forall j, active_jobs (_save_job (mutate s1 k j) j (env_db_up env))
                             !! k = Some j).
  { intros j. unfold _save_job, mutate, with_active.
    destruct (env_db_up env); cbn; apply lookup_insert_eq. }
  unfold finish_processing, _get_file_path.
  change (resolve_pipeline running env) with (resolve_pipeline job env).
  destruct (resolve_pipeline job env) as [pipeline |].
  - destruct (exec env) as [files | err | msg].
    + eexists. split; [apply Hwrite |]. cbn. repeat split.
    + eexists. split; [apply Hwrite |]. cbn. repeat split.
    + unfold _fail_job. rewrite (get_job_active _ _ _ _ Hrun).
      eexists. split; [apply Hwrite |]. cbn. repeat split.
  - unfold _fail_job. rewrite (get_job_active _ _ _ _ Hrun).
    eexists. split; [apply Hwrite |]. cbn. repeat split.
Qed.

Lemma process_job_async_outcome_witness :
  ("job-1"%string
   ∉ worker_tasks (process_job_async (snd (create_job init resize_request "job-1" 0 true))
                     "job-1" resize_env))
  /\ exists job',
       active_jobs (process_job_async
                      (snd (create_job init resize_request "job-1" 0 true))
                      "job-1" resize_env) !! "job-1"%string = Some job'
       /\ started_at job' = Some 10
       /\ completed_at job' = Some 30
       /\ status job' = COMPLETED
       /\ result job'
          = Some {| success := true; output_files := ["/tmp/out/file-1.jpg"%string];
                    jr_error_message := None;
                    processing_time_seconds := total_seconds 30 20 |}.
Proof.
  apply (process_job_async_outcome (snd (create_job init resize_request "job-1" 0 true))
           "job-1" resize_env (fst (create_job init resize_request "job-1" 0 true)));
    reflexivity.
Defined.

(** *** Start-up *)

Definition queued (job : Job) : Z * string :=
  (_get_priority_value (priority job), job_id job).

(** [_load_active_jobs] puts on the queue the pending jobs of the query
    answer, in its order, and nothing else: a job that was running when
    the service stopped is held in memory again but is not queued. A
    job that the answer reports as completed, failed or cancelled is not
    brought into memory, and, the ids of the answer being pairwise
    different, each pending or running job of the answer is. *)
Theorem load_active_jobs_requeues_pending :
  forall (s : t) (jobs : list Job),
    job_queue (_load_active_jobs s jobs)
    = job_queue s ++ map queued (filter (fun job => status job = PENDING) jobs)
    /\ (forall k,
          (forall job, job ∈ jobs -> job_id job = k -> is_terminal (status job) = true) ->
          active_jobs (_load_active_jobs s jobs) !! k = active_jobs s !! k)
    /\ (NoDup (map job_id jobs) ->
        forall job, job ∈ jobs -> is_terminal (status job) = false ->
                    active_jobs (_load_active_jobs s jobs) !! job_id job = Some job)
    /\ datastore (_load_active_jobs s jobs) = datastore s
    /\ worker_tasks (_load_active_jobs s jobs) = worker_tasks s
    /\ current_jobs_count (_load_active_jobs s jobs) = current_jobs_count s.
Proof.
  intros s jobs. revert s. unfold _load_active_jobs.
  induction jobs as [| job jobs IH]; intros s.
  - cbn. rewrite app_nil_r. repeat split; try reflexivity.
    intros _ job Hin. inversion Hin.
  - cbn [fold_left].
    match goal with
    | |- context [fold_left ?f jobs ?s1] =>
        destruct (IH s1) as (Hq & Hterm & Hact & Hds & Hwt & Hcount); set (next := s1) in *
    end.
    rewrite Hq, Hds, Hwt, Hcount. rewrite filter_cons.
    assert (Hsame : datastore next = datastore s /\ worker_tasks next = worker_tasks s
                    /\ current_jobs_count next = current_jobs_count s).
    { unfold next. destruct (status job); repeat split. }
    destruct Hsame as (-> & -> & ->).
    split.
    { unfold next. destruct (status job) eqn:Hst.
      - rewrite decide_True by reflexivity. cbn. rewrite <- app_assoc. reflexivity.
      - rewrite decide_False by discriminate. reflexivity.
      - rewrite decide_False by discriminate. reflexivity.
      - rewrite decide_False by discriminate. reflexivity.
      - rewrite decide_False by discriminate. reflexivity. }
    split.
    { intros k Hall. rewrite Hterm.
      - unfold next. pose proof (Hall job (list_elem_of_here _ _)) as Hjob.
        destruct (decide (job_id job = k)) as [Hk | Hk].
        + specialize (Hjob Hk). destruct (status job); try discriminate; reflexivity.
        + destruct (status job); cbn; rewrite ?lookup_insert_ne by exact Hk; reflexivity.
      - intros j Hj. apply Hall, list_elem_of_further, Hj. }
    split; [| repeat split].
    intros Hnd j Hj Hlive. cbn [map] in Hnd. apply NoDup_cons in Hnd.
    destruct Hnd as [Hfresh Hnd]. apply elem_of_cons in Hj.
    destruct Hj as [-> | Hj]; [| apply Hact; assumption].
    rewrite Hterm.
    + unfold next. destruct (status job); try discriminate; cbn; apply lookup_insert_eq.
    + intros j' Hj' Hid. exfalso. apply Hfresh. rewrite <- Hid.
      apply list_elem_of_fmap. exists j'. split; [reflexivity | exact Hj'].
Qed.

(** *** Workers *)

Lemma entry_lt_fst (x y : Z * string) :
  (entry_lt x y = true -> fst x <= fst y)
  /\ (entry_lt x y = false -> fst y <= fst x).
Proof.
  unfold entry_lt. destruct (fst x <? fst y) eqn:Hlt; cbn.
  - apply Z.ltb_lt in Hlt. split; [lia | discriminate].
  - apply Z.ltb_ge in Hlt. destruct (fst x =? fst y) eqn:Heq; cbn.
    + apply Z.eqb_eq in Heq. split; lia.
    + split; [discriminate | lia].
Qed.

Lemma least_spec (x : Z * string) (queue : list (Z * string)) :
  least x queue ∈ x :: queue
  /\ forall y, y ∈ x :: queue -> fst (least x queue) <= fst y.
Proof.
  revert x. induction queue as [| z queue IH]; intros x; cbn [least].
  - split; [apply list_elem_of_here |]. intros y Hy.
    apply list_elem_of_singleton in Hy. subst. lia.
  - destruct (IH (if entry_lt z x then z else x)) as [Hin Hmin].
    pose proof (entry_lt_fst z x) as [Hlt Hge]. split.
    + apply elem_of_cons in Hin. destruct Hin as [-> | Hin].
      * destruct (entry_lt z x); [apply list_elem_of_further |]; apply list_elem_of_here.
      * do 2 apply list_elem_of_further. exact Hin.
    + intros y Hy.
      assert (Hfirst : fst (least (if entry_lt z x then z else x) queue)
                       <= fst (if entry_lt z x then z else x))
        by (apply Hmin, list_elem_of_here).
      apply elem_of_cons in Hy. destruct Hy as [-> | Hy].
      * destruct (entry_lt z x); [specialize (Hlt eq_refl) | ]; lia.
      * apply elem_of_cons in Hy. destruct Hy as [-> | Hy].
        -- destruct (entry_lt z x); [| specialize (Hge eq_refl)]; lia.
        -- apply Hmin, list_elem_of_further, Hy.
Qed.

Lemma remove_first_perm (x : Z * string) (queue : list (Z * string)) :
  x ∈ queue -> queue ≡ₚ x :: remove_first x queue.
Proof.
  induction queue as [| y queue IH]; intros Hin; [inversion Hin |].
  cbn [remove_first]. destruct (decide (x = y)) as [-> | Hne]; [reflexivity |].
  apply elem_of_cons in Hin. destruct Hin as [-> | Hin]; [contradiction |].
  rewrite (IH Hin) at 1. apply perm_swap.
Qed.

Lemma queue_get_spec queue first rest :
  queue_get queue = Some (first, rest) ->
  queue ≡ₚ first :: rest /\ forall y, y ∈ queue -> fst first <= fst y.
Proof.
  unfold queue_get. destruct queue as [| x queue]; [discriminate |].
  intros [= <- <-]. destruct (least_spec x queue) as [Hin Hmin].
  split; [apply remove_first_perm, Hin | exact Hmin].
Qed.

Lemma get_job_tasks s k db :
  job_queue (snd (get_job s k db)) = job_queue s
  /\ worker_tasks (snd (get_job s k db)) = worker_tasks s
  /\ current_jobs_count (snd (get_job s k db)) = current_jobs_count s.
Proof.
  unfold get_job. destruct (active_jobs s !! k); [repeat split |].
  destruct (_load_job s k db); repeat split.
Qed.

(** A worker hands a job to a task only while fewer than ten job tasks
    are counted; the job is then pending, no queued job has a more urgent
    priority, its entry has left the queue, and it is counted and holds
    a task entry. *)
Theorem worker_takes_most_urgent :
  forall (s s1 : t) (db_up : bool) (picked : string),
    _worker_iteration s db_up = (Some picked, s1) ->
    exists priority_value job,
      (priority_value, picked) ∈ job_queue s
      /\ (forall y, y ∈ job_queue s -> priority_value <= fst y)
      /\ job_queue s ≡ₚ (priority_value, picked) :: job_queue s1
      /\ active_jobs s1 !! picked = Some job
      /\ status job = PENDING
      /\ current_jobs_count s < max_concurrent_jobs
      /\ current_jobs_count s1 = current_jobs_count s + 1
      /\ worker_tasks s1 = worker_tasks s ∪ {[ picked ]}.
Proof.
  intros s s1 db_up picked. unfold _worker_iteration.
  destruct (queue_get (job_queue s)) as [[[priority_value job_id] rest] |] eqn:Hget;
    [| discriminate].
  destruct (queue_get_spec _ _ _ Hget) as [Hperm Hmin].
  destruct (max_concurrent_jobs <=? current_jobs_count s) eqn:Hfull; [discriminate |].
  apply Z.leb_gt in Hfull.
  match goal with
  | |- context [get_job ?s0 job_id db_up] =>
      pose proof (get_job_tasks s0 job_id db_up) as (Hq & Hw & Hc);
      destruct (get_job s0 job_id db_up) as [[job |] s2] eqn:Hjob
  end; [| discriminate].
  case_bool_decide as Hpending; [| discriminate]. cbn [negb].
  intros [= <- <-]. cbn [snd job_queue worker_tasks current_jobs_count] in *.
  exists priority_value, job.
  split; [rewrite Hperm; apply list_elem_of_here |].
  split; [exact Hmin |]. rewrite Hq, Hw, Hc.
  split; [exact Hperm |].
  split; [| repeat split; assumption].
  revert Hjob. unfold get_job. cbn [active_jobs].
  destruct (active_jobs s !! job_id) eqn:Hact; [intros [= <- <-]; exact Hact |].
  destruct (_load_job _ job_id db_up); [| discriminate].
  intros [= <- <-]. cbn. apply lookup_insert_eq.
Qed.

Definition low_request : JobRequest :=
  {| req_file_id := "file-2"; req_pipeline_id := Some "image_resize"%string;
     req_custom_pipeline := None; req_priority := LOW;
     req_callback_url := None; req_metadata := [] |}.

Definition urgent_request : JobRequest :=
  {| req_file_id := "file-3"; req_pipeline_id := Some "image_resize"%string;
     req_custom_pipeline := None; req_priority := URGENT;
     req_callback_url := None; req_metadata := [] |}.

(** A low job, then an urgent one. *)
Definition two_waiting : t :=
  snd (create_job (snd (create_job init low_request "job-a" 0 true))
         urgent_request "job-b" 1 true).

Lemma worker_takes_most_urgent_witness :
  exists priority_value job,
    (priority_value, "job-b"%string) ∈ job_queue two_waiting
    /\ (forall y, y ∈ job_queue two_waiting -> priority_value <= fst y)
    /\ job_queue two_waiting
       ≡ₚ (priority_value, "job-b"%string)
          :: job_queue (snd (_worker_iteration two_waiting true))
    /\ active_jobs (snd (_worker_iteration two_waiting true)) !! "job-b"%string
       = Some job
    /\ status job = PENDING
    /\ current_jobs_count two_waiting < max_concurrent_jobs
    /\ current_jobs_count (snd (_worker_iteration two_waiting true))
       = current_jobs_count two_waiting + 1
    /\ worker_tasks (snd (_worker_iteration two_waiting true))
       = worker_tasks two_waiting ∪ {[ "job-b"%string ]}.
Proof.
  apply (worker_takes_most_urgent two_waiting _ true "job-b"). reflexivity.
Defined.

(** *** The job counter *)

(** The queue, the task table and the counter are as they were. *)
Definition untouched (s s' : t) : Prop :=
  job_queue s' = job_queue s
  /\ worker_tasks s' = worker_tasks s
  /\ current_jobs_count s' = current_jobs_count s.

(** What the [finally] clause and [cancel_job] do to the task table and
    the counter: nothing, or the entry of [k] goes and the counter drops
    by one. *)
Definition drops (k : string) (s s' : t) : Prop :=
  job_queue s' = job_queue s
  /\ ((worker_tasks s' = worker_tasks s /\ current_jobs_count s' = current_jobs_count s)
      \/ (k ∈ worker_tasks s
          /\ worker_tasks s' = worker_tasks s ∖ {[ k ]}
          /\ current_jobs_count s' = current_jobs_count s - 1)).

Lemma untouched_refl s : untouched s s.
Proof. repeat split. Qed.

Lemma untouched_trans s1 s2 s3 : untouched s1 s2 -> untouched s2 s3 -> untouched s1 s3.
Proof. intros (? & ? & ?) (? & ? & ?). repeat split; congruence. Qed.

Lemma untouched_drops k s s' : untouched s s' -> drops k s s'.
Proof. intros (Hq & Hw & Hc). split; [exact Hq |]. left. split; assumption. Qed.

Lemma drops_drop_worker_task s0 s k : untouched s0 s -> drops k s0 (drop_worker_task s k).
Proof.
  intros (Hq & Hw & Hc). unfold drop_worker_task. case_bool_decide as Hin.
  - split; [exact Hq |]. right. cbn. rewrite <- Hw, <- Hc. repeat split. exact Hin.
  - split; [exact Hq |]. left. split; assumption.
Qed.

Lemma untouched_get_job s k db : untouched s (snd (get_job s k db)).
Proof. apply get_job_tasks. Qed.

Lemma untouched_write s k j db : untouched s (_save_job (mutate s k j) j db).
Proof. unfold _save_job, mutate, with_active. destruct db; repeat split. Qed.

Lemma untouched_save s j db : untouched s (_save_job s j db).
Proof. unfold _save_job. destruct db; repeat split. Qed.

Lemma untouched_fail_job s k msg now db : untouched s (_fail_job s k msg now db).
Proof.
  unfold _fail_job. pose proof (untouched_get_job s k db) as Hget.
  destruct (get_job s k db) as [[j |] s1]; cbn [snd] in Hget; [| exact Hget].
  apply (untouched_trans s s1); [exact Hget | apply untouched_write].
Qed.

Lemma drops_cancel_job s k now db : drops k s (snd (cancel_job s k now db)).
Proof.
  unfold cancel_job. pose proof (untouched_get_job s k db) as Hget.
  destruct (get_job s k db) as [[j |] s1]; cbn [snd] in Hget |- *;
    [| apply untouched_drops, Hget].
  destruct (is_terminal (status j)); cbn [snd]; [apply untouched_drops, Hget |].
  apply drops_drop_worker_task.
  apply (untouched_trans s s1); [exact Hget | apply untouched_write].
Qed.

Lemma untouched_start_processing s k env :
  untouched s (snd (start_processing s k env)).
Proof.
  unfold start_processing. pose proof (untouched_get_job s k (env_db_up env)) as Hget.
  destruct (get_job s k (env_db_up env)) as [[j |] s1]; cbn [snd] in Hget |- *;
    [| exact Hget].
  destruct (negb (bool_decide (status j = PENDING))); cbn [snd]; [exact Hget |].
  apply (untouched_trans s s1); [exact Hget | apply untouched_write].
Qed.

Lemma untouched_complete_processing s k j start_time env :
  untouched s (complete_processing s k j start_time env).
Proof.
  unfold complete_processing.
  destruct (exec env); [apply untouched_write | apply untouched_write
                       | apply untouched_fail_job].
Qed.

Lemma untouched_update_job_progress s k db : untouched s (_update_job_progress s k db).
Proof.
  unfold _update_job_progress. pose proof (untouched_get_job s k db) as Hget.
  destruct (get_job s k db) as [[j |] s1]; cbn [snd] in Hget; [| exact Hget].
  apply (untouched_trans s s1); [exact Hget | apply untouched_save].
Qed.

(** The tasks that have not begun in [s'] are among those of [s]. *)
Definition fewer_unstarted (s s' : system) : Prop :=
  forall n j, unstarted s' !! n = Some j -> unstarted s !! n = Some j.

Lemma drops_leave s0 s k :
  untouched s0 (manager s) -> drops k s0 (manager (leave s k)).
Proof. intros H. unfold leave. cbn [manager]. apply drops_drop_worker_task, H. Qed.

Lemma drops_end_of_run s0 s k run_task :
  untouched s0 (manager s) ->
  drops k s0 (manager (end_of_run s k run_task))
  /\ unstarted (end_of_run s k run_task) = unstarted s.
Proof.
  intros H. unfold end_of_run.
  destruct (active_jobs (manager s) !! k) as [j |];
    [destruct (str_truthy (callback_url j)) |];
    (split; [| reflexivity]);
    [apply untouched_drops, H | apply drops_leave, H | apply drops_leave, H].
Qed.

(** The first part of a run, as a task or not. *)
Lemma drops_begin_trace s k env run_task default :
  drops k (manager s) (manager (List.last (begin_trace s k env run_task) default))
  /\ unstarted (List.last (begin_trace s k env run_task) default) = unstarted s.
Proof.
  unfold begin_trace, _get_file_path.
  pose proof (untouched_start_processing (manager s) k env) as Hstart.
  destruct (start_processing (manager s) k env) as [[j |] m1]; cbn [snd] in Hstart.
  - destruct (resolve_pipeline j env); cbn [List.last].
    + split; [| reflexivity]. apply untouched_drops, Hstart.
    + match goal with
      | |- context [end_of_run ?s1 k run_task] =>
          destruct (drops_end_of_run (manager s) s1 k run_task) as [Hd Hu];
            [| split; [exact Hd | exact Hu]]
      end.
      cbn [with_manager manager].
      apply (untouched_trans _ m1); [exact Hstart | apply untouched_fail_job].
  - cbn [List.last with_manager manager unstarted].
    split; [| reflexivity]. apply drops_drop_worker_task, Hstart.
Qed.

Lemma drops_resume s k env :
  drops k (manager s) (manager (resume s k env))
  /\ unstarted (resume s k env) = unstarted s.
Proof.
  unfold resume.
  destruct (suspended s !! k) as [[[start_time | |] run_task] |].
  - destruct (active_jobs (manager s) !! k) as [j |].
    + match goal with
      | |- context [end_of_run ?s1 k run_task] =>
          destruct (drops_end_of_run (manager s) s1 k run_task) as [Hd Hu];
            [| split; [exact Hd | exact Hu]]
      end.
      cbn [manager]. apply untouched_complete_processing.
    + split; [| reflexivity]. apply drops_leave, untouched_refl.
  - split; [| reflexivity]. apply drops_leave, untouched_refl.
  - split; [| reflexivity]. apply drops_leave, untouched_refl.
  - split; [| reflexivity]. apply untouched_drops, untouched_refl.
Qed.

Lemma drops_stop s k :
  drops k (manager s) (manager (stop s k)) /\ unstarted (stop s k) = unstarted s.
Proof.
  unfold stop. destruct (suspended s !! k) as [run |]; (split; [| reflexivity]).
  - apply drops_leave, untouched_refl.
  - apply untouched_drops, untouched_refl.
Qed.

Lemma drops_cancel s k now db :
  drops k (manager s) (manager (cancel s k now db))
  /\ fewer_unstarted s (cancel s k now db).
Proof.
  unfold cancel. pose proof (drops_cancel_job (manager s) k now db) as Hd.
  destruct (cancel_job (manager s) k now db) as [answer m1]. cbn [snd] in Hd.
  split; [exact Hd |].
  destruct (answer && bool_decide (k ∈ worker_tasks (manager s)));
    [| intros n j Hn; exact Hn].
  unfold cancel_task. destruct (filed s !! k) as [n0 |]; intros n j Hn;
    cbn [with_manager unstarted] in Hn; [| exact Hn].
  apply lookup_delete_Some in Hn. apply Hn.
Qed.

(** The names under which [_start_workers] files the worker tasks. *)
Definition worker_names : gset string := worker_tasks (_start_workers init).

(** The worker tasks, filed under the names [workers], are on file; the
    counter is the number of the other entries of the task table, which
    is ten at most; the queue holds each job once, and no job that has a
    task. *)
Definition tasks_inv (workers : gset string) (s : t) : Prop :=
  workers ⊆ worker_tasks s
  /\ current_jobs_count s = Z.of_nat (size (worker_tasks s ∖ workers))
  /\ current_jobs_count s <= max_concurrent_jobs
  /\ NoDup (map snd (job_queue s))
  /\ forall k, k ∈ worker_tasks s -> k ∉ map snd (job_queue s).

(** The tasks of the manager are in order, and no task that has not
    begun is for the name of a worker. *)
Definition counter_inv (workers : gset string) (s : system) : Prop :=
  tasks_inv workers (manager s)
  /\ forall n j, unstarted s !! n = Some j -> j ∉ workers.

(** The id drawn for a new job is not in use, and no call names a worker
    where a job is meant. *)
Definition event_apart (workers : gset string) (e : event) (s : system) : Prop :=
  match e with
  | Create _ fresh_id _ _ =>
      (fresh_id ∉ map snd (job_queue (manager s)))
      /\ (fresh_id ∉ worker_tasks (manager s))
  | Cancel job_id _ _ | Begin job_id _ | Resume job_id _ | Stop job_id =>
      job_id ∉ workers
  | _ => True
  end.

Fixpoint events_apart (workers : gset string) (events : list event) (s : system)
    : Prop :=
  match events with
  | [] => True
  | e :: rest => event_apart workers e s /\ events_apart workers rest (react s e)
  end.

Section Counter.
Variable workers : gset string.

Lemma size_without_entry (tasks : gset string) (k : string) :
  k ∈ tasks -> k ∉ workers ->
  size (tasks ∖ workers) = S (size ((tasks ∖ {[ k ]}) ∖ workers)).
Proof.
  intros Hin Hk.
  assert (Hset : (tasks ∖ {[ k ]}) ∖ workers = (tasks ∖ workers) ∖ {[ k ]}).
  { apply set_eq. intros x. rewrite !elem_of_difference. tauto. }
  assert (Hone : ({[ k ]} : gset string) ⊆ tasks ∖ workers).
  { apply singleton_subseteq_l, elem_of_difference. split; assumption. }
  rewrite Hset, (size_difference _ _ Hone), size_singleton.
  assert (size (tasks ∖ workers) <> 0%nat); [| lia].
  intros H0. apply size_empty_inv in H0.
  apply (proj1 (elem_of_equiv_empty _) H0 k), elem_of_difference.
  split; assumption.
Qed.

Lemma size_with_entry (tasks : gset string) (k : string) :
  k ∉ tasks -> workers ⊆ tasks ->
  size ((tasks ∪ {[ k ]}) ∖ workers) = S (size (tasks ∖ workers)).
Proof.
  intros Hnew Hsub.
  assert (Hset : (tasks ∪ {[ k ]}) ∖ workers = (tasks ∖ workers) ∪ {[ k ]}).
  { apply set_eq. intros x.
    rewrite elem_of_difference, !elem_of_union, elem_of_difference,
      elem_of_singleton.
    split; [tauto |]. intros [[? ?] | ->]; [tauto |].
    split; [tauto |]. intros Hx. apply Hnew, Hsub, Hx. }
  rewrite Hset, size_union.
  - rewrite size_singleton. lia.
  - apply disjoint_singleton_r. intros Hx. apply elem_of_difference in Hx.
    apply Hnew, Hx.
Qed.

Lemma tasks_inv_drops s s' k :
  tasks_inv workers s -> k ∉ workers -> drops k s s' -> tasks_inv workers s'.
Proof.
  intros (Hsub & Hc & Hmax & Hnd & Hdisj) Hk [Hq [[Hw Hc'] | (Hin & Hw & Hc')]];
    unfold tasks_inv; rewrite Hq, Hw, Hc'.
  - repeat split; assumption.
  - pose proof (size_without_entry (worker_tasks s) k Hin Hk) as Hsize.
    split.
    { intros x Hx. apply elem_of_difference. split; [apply Hsub, Hx |].
      intros Hxk. apply elem_of_singleton in Hxk. subst x. contradiction. }
    split; [lia |]. split; [lia |]. split; [exact Hnd |].
    intros k' Hk'. apply Hdisj. apply elem_of_difference in Hk'. apply Hk'.
Qed.

Lemma tasks_inv_worker_iteration s db :
  tasks_inv workers s -> tasks_inv workers (snd (_worker_iteration s db)).
Proof.
  intros (Hsub & Hc & Hmax & Hnd & Hdisj). unfold _worker_iteration.
  destruct (queue_get (job_queue s)) as [[[priority_value job_id] rest] |] eqn:Hget;
    [| repeat split; assumption].
  destruct (queue_get_spec _ _ _ Hget) as [Hperm _].
  assert (Hids : map snd (job_queue s) ≡ₚ job_id :: map snd rest).
  { change (map snd (job_queue s)) with (snd <$> job_queue s). rewrite Hperm.
    reflexivity. }
  assert (Hnd' : NoDup (job_id :: map snd rest)) by (rewrite <- Hids; exact Hnd).
  apply NoDup_cons in Hnd'. destruct Hnd' as [Hout Hrest].
  destruct (max_concurrent_jobs <=? current_jobs_count s) eqn:Hfull.
  - unfold tasks_inv. cbn [snd job_queue worker_tasks current_jobs_count].
    assert (Hback : map snd (rest ++ [(priority_value, job_id)])
                    ≡ₚ map snd (job_queue s)).
    { rewrite map_app. cbn. rewrite Hids. symmetry. apply Permutation_cons_append. }
    split; [exact Hsub |]. split; [exact Hc |]. split; [exact Hmax |].
    split; [rewrite Hback; exact Hnd |].
    intros k Hk. rewrite Hback. apply Hdisj, Hk.
  - apply Z.leb_gt in Hfull.
    match goal with
    | |- context [get_job ?s0 job_id db] =>
        pose proof (get_job_tasks s0 job_id db) as (Hq & Hw & Hcount);
        destruct (get_job s0 job_id db) as [[job |] s2]
    end; cbn [snd job_queue worker_tasks current_jobs_count] in *.
    + assert (Hwaiting : tasks_inv workers s2).
      { unfold tasks_inv. rewrite Hq, Hw, Hcount.
        split; [exact Hsub |]. split; [exact Hc |]. split; [exact Hmax |].
        split; [exact Hrest |].
        intros k Hk Hin. apply (Hdisj k Hk). rewrite Hids.
        apply list_elem_of_further, Hin. }
      destruct (negb (bool_decide (status job = PENDING))); cbn [snd];
        [exact Hwaiting |].
      unfold tasks_inv. cbn [job_queue worker_tasks current_jobs_count].
      rewrite Hq, Hw, Hcount.
      assert (Hnew : job_id ∉ worker_tasks s).
      { intros Hin. apply (Hdisj job_id Hin). rewrite Hids. apply list_elem_of_here. }
      pose proof (size_with_entry (worker_tasks s) job_id Hnew Hsub) as Hsize.
      split.
      { intros x Hx. apply elem_of_union. left. apply Hsub, Hx. }
      split; [rewrite Hsize, Nat2Z.inj_succ, <- Hc; reflexivity |].
      split; [unfold max_concurrent_jobs in *; lia |]. split; [exact Hrest |].
      intros k Hk Hin. apply elem_of_union in Hk. destruct Hk as [Hk | Hk].
      * apply (Hdisj k Hk). rewrite Hids. apply list_elem_of_further, Hin.
      * apply elem_of_singleton in Hk. subst k. contradiction.
    + unfold tasks_inv. rewrite Hq, Hw, Hcount.
      split; [exact Hsub |]. split; [exact Hc |]. split; [exact Hmax |].
      split; [exact Hrest |].
      intros k Hk Hin. apply (Hdisj k Hk). rewrite Hids.
      apply list_elem_of_further, Hin.
Qed.

(** The job that a worker hands to a task came off the queue. *)
Lemma worker_iteration_job s db job_id :
  tasks_inv workers s -> fst (_worker_iteration s db) = Some job_id ->
  job_id ∉ workers.
Proof.
  intros (Hsub & _ & _ & _ & Hdisj). unfold _worker_iteration.
  destruct (queue_get (job_queue s)) as [[[priority_value k] rest] |] eqn:Hget;
    [| discriminate].
  destruct (queue_get_spec _ _ _ Hget) as [Hperm _].
  assert (Hin : k ∈ map snd (job_queue s)).
  { change (map snd (job_queue s)) with (snd <$> job_queue s). rewrite Hperm.
    apply list_elem_of_here. }
  destruct (max_concurrent_jobs <=? current_jobs_count s); [discriminate |].
  match goal with
  | |- context [get_job ?s0 k db] => destruct (get_job s0 k db) as [[job |] s2]
  end; [| discriminate].
  destruct (negb (bool_decide (status job = PENDING))); [discriminate |].
  cbn [fst]. intros [= <-] Hk. exact (Hdisj k (Hsub k Hk) Hin).
Qed.

Lemma counter_inv_drops (s s' : system) (k : string) :
  counter_inv workers s -> k ∉ workers ->
  drops k (manager s) (manager s') -> fewer_unstarted s s' ->
  counter_inv workers s'.
Proof.
  intros [Hinv Hun] Hk Hd Hfewer. split.
  - apply (tasks_inv_drops _ _ k Hinv Hk Hd).
  - intros n j Hn. apply (Hun n j), Hfewer, Hn.
Qed.

Lemma counter_inv_untouched (s : system) (self : t) :
  counter_inv workers s -> untouched (manager s) self ->
  counter_inv workers (with_manager s self).
Proof.
  intros [Hinv Hun] (Hq & Hw & Hc). split; [| exact Hun].
  cbn [with_manager manager]. unfold tasks_inv. rewrite Hq, Hw, Hc. exact Hinv.
Qed.

Lemma react_counter_inv (s : system) (e : event) :
  counter_inv workers s -> event_apart workers e s ->
  counter_inv workers (react s e).
Proof.
  intros Hinv Hapart.
  destruct e as [req fresh_id now db | job_id db | job_id now db | job_id env
                | n env | job_id env | job_id | job_id db | db];
    unfold react; cbn [event_trace event_apart] in *.
  - cbn [List.last]. destruct Hinv as [Hinv Hun]. split; [| exact Hun].
    cbn [with_manager manager].
    destruct Hinv as (Hsub & Hc & Hmax & Hnd & Hdisj). destruct Hapart as [Hq Hw].
    unfold create_job, _save_job, with_active, tasks_inv.
    destruct db; cbn [snd job_queue worker_tasks current_jobs_count Models.job_id];
      rewrite map_app; cbn [map snd];
      (split; [exact Hsub |]; split; [exact Hc |]; split; [exact Hmax |]; split;
       [ apply NoDup_app; split; [exact Hnd |]; split; [| apply NoDup_singleton];
         intros k Hk Hin; apply list_elem_of_singleton in Hin; subst k; contradiction
       | intros k Hk Hin; apply elem_of_app in Hin; destruct Hin as [Hin | Hin];
         [ exact (Hdisj k Hk Hin)
         | apply list_elem_of_singleton in Hin; subst k; contradiction ] ]).
  - cbn [List.last]. apply counter_inv_untouched, untouched_get_job. exact Hinv.
  - cbn [List.last]. destruct (drops_cancel s job_id now db) as [Hd Hfewer].
    apply (counter_inv_drops s _ job_id Hinv Hapart Hd Hfewer).
  - destruct (drops_begin_trace s job_id env None s) as [Hd Hu].
    apply (counter_inv_drops s _ job_id Hinv Hapart Hd).
    intros n j Hn. rewrite Hu in Hn. exact Hn.
  - unfold begin_task_trace.
    destruct (unstarted s !! n) as [job_id |] eqn:Hn; [| exact Hinv].
    match goal with
    | |- context [begin_trace ?s0 job_id env (Some n)] =>
        destruct (drops_begin_trace s0 job_id env (Some n) s) as [Hd Hu]
    end.
    cbn [manager unstarted] in Hd, Hu.
    apply (counter_inv_drops s _ job_id Hinv (proj2 Hinv n job_id Hn) Hd).
    intros n' j Hn'. rewrite Hu in Hn'. apply lookup_delete_Some in Hn'. apply Hn'.
  - cbn [List.last]. destruct (drops_resume s job_id env) as [Hd Hu].
    apply (counter_inv_drops s _ job_id Hinv Hapart Hd).
    intros n j Hn. rewrite Hu in Hn. exact Hn.
  - cbn [List.last]. destruct (drops_stop s job_id) as [Hd Hu].
    apply (counter_inv_drops s _ job_id Hinv Hapart Hd).
    intros n j Hn. rewrite Hu in Hn. exact Hn.
  - cbn [List.last].
    apply counter_inv_untouched, untouched_update_job_progress. exact Hinv.
  - cbn [List.last]. unfold worker_turn. destruct Hinv as [Hinv Hun].
    pose proof (tasks_inv_worker_iteration (manager s) db Hinv) as Hinv'.
    pose proof (worker_iteration_job (manager s) db) as Hjob.
    destruct (_worker_iteration (manager s) db) as [[job_id |] m1];
      cbn [fst snd] in Hinv', Hjob; (split; [exact Hinv' |]).
    + cbn [unstarted]. intros n j Hn.
      destruct (decide (n = tasks_created s)) as [-> | Hne].
      * rewrite lookup_insert_eq in Hn. injection Hn as <-.
        apply (Hjob job_id Hinv eq_refl).
      * rewrite lookup_insert_ne in Hn by congruence. apply (Hun n j Hn).
    + exact Hun.
Qed.

Lemma serve_counter_inv (events : list event) (s : system) :
  counter_inv workers s -> events_apart workers events s ->
  counter_inv workers (serve events s).
Proof.
  revert s. induction events as [| e events IH]; intros s Hinv Hapart; [exact Hinv |].
  destruct Hapart as [He Hapart]. cbn [serve fold_left].
  apply (IH (react s e)); [apply react_counter_inv; assumption | exact Hapart].
Qed.

End Counter.

Lemma initialize_tasks :
  worker_tasks (initialize init []) = worker_names
  /\ current_jobs_count (initialize init []) = 0
  /\ job_queue (initialize init []) = [].
Proof. vm_compute. repeat split. Qed.

Lemma tasks_inv_initialize : tasks_inv worker_names (initialize init []).
Proof.
  destruct initialize_tasks as (Hw & Hc & Hq).
  unfold tasks_inv. rewrite Hw, Hc, Hq.
  split; [reflexivity |]. split; [| split; [| split]].
  - rewrite difference_diag_L. reflexivity.
  - vm_compute. discriminate.
  - apply NoDup_nil_2.
  - intros k _ Hin. cbn in Hin. apply elem_of_nil in Hin. exact Hin.
Qed.

(** After [initialize] on a new manager (over an empty datastore),
    whatever calls arrive, however the runs of [process_job_async]
    overlap with them and however the turns of the workers fall in
    between, the ten worker tasks stay on file in [worker_tasks] and the
    job counter is the number of the other entries, the tasks of the
    jobs: never negative and never above ten - provided that the id
    drawn for a new job is not in use and that no call is made with the
    name of a worker for a job id. *)
Theorem job_counter_within_limit :
  forall (events : list event),
    events_apart worker_names events (boot (initialize init [])) ->
    let self := manager (serve events (boot (initialize init []))) in
    worker_names ⊆ worker_tasks self
    /\ current_jobs_count self = Z.of_nat (size (worker_tasks self ∖ worker_names))
    /\ 0 <= current_jobs_count self <= max_concurrent_jobs.
Proof.
  intros events Hapart. cbv zeta.
  assert (Hboot : counter_inv worker_names (boot (initialize init []))).
  { split; [exact tasks_inv_initialize |]. intros n j Hn. cbn in Hn.
    rewrite lookup_empty in Hn. discriminate. }
  destruct (serve_counter_inv worker_names events (boot (initialize init []))
              Hboot Hapart) as [(Hsub & Hc & Hmax & _) _].
  split; [exact Hsub |]. split; [exact Hc | lia].
Qed.

(** Two jobs are created and handed to tasks by the workers; one is
    cancelled before its task begins, and the task never does; the
    other runs as a task, while a direct call for it returns at once
    and takes the entry of the job with it. *)
Definition busy_day : list event :=
  [ Create low_request "job-a" 0 true;
    Create urgent_request "job-b" 1 true;
    WorkerTurn true;
    WorkerTurn true;
    Cancel "job-a" 5 true;
    BeginTask 0 resize_env;
    Begin "job-b" resize_env;
    Resume "job-b" resize_env;
    BeginTask 1 resize_env;
    WorkerTurn true ].

Example busy_day_counter :
  map (fun s => current_jobs_count (manager s))
      (boot (initialize init []) :: serve_trace busy_day (boot (initialize init [])))
  = [0; 0; 0; 1; 2; 1; 1; 0; 0; 0; 0].
Proof. vm_compute. reflexivity. Qed.

Lemma job_counter_within_limit_witness :
  let self := manager (serve busy_day (boot (initialize init []))) in
  worker_names ⊆ worker_tasks self
  /\ current_jobs_count self = Z.of_nat (size (worker_tasks self ∖ worker_names))
  /\ 0 <= current_jobs_count self <= max_concurrent_jobs.
Proof.
  apply (job_counter_within_limit busy_day).
  cbn [busy_day events_apart event_apart].
  repeat split;
    match goal with |- ?P => apply (@bool_decide_unpack P _) end;
    vm_compute; exact I.
Defined.

(** The worker tasks are filed under job ids' keys: a call of
    [process_job_async] with the name of a worker finds no job, and its
    [finally] clause takes the entry of the worker out and the counter
    below zero. *)
Example worker_name_as_job_id :
  let self := manager (react (boot (initialize init [])) (Begin "worker-0" resize_env)) in
  current_jobs_count self = -1
  /\ "worker-0"%string ∈ worker_names
  /\ "worker-0"%string ∉ worker_tasks self.
Proof.
  cbv zeta. split; [vm_compute; reflexivity |].
  split; match goal with |- ?P => apply (@bool_decide_unpack P _) end;
    vm_compute; exact I.
Qed.
End JobManagerBehaviour.

Module RetryHandlerBehaviour.
Import Py Models RetryHandler RetryHandlerSpec.

(** *** The retry history *)

(** The error is one that [should_retry] lets through: not classified
    permanent, and of a type on the retry list. *)
Definition retryable (self : t) (config : RetryConfig) (error : Exception) : bool :=
  negb (bool_decide (_classify_failure self error = PERMANENT))
  && bool_decide (exc_type_name error ∈ retry_on_exceptions config).

Definition capped (self : t) : Prop :=
  forall job_id history,
    retry_history self !! job_id = Some history -> (length history <= 10)%nat.

Lemma last_10_length {A} (l : list A) : (length (last_10 l) <= 10)%nat.
Proof. unfold last_10. rewrite length_drop. lia. Qed.

Lemma record_capped self job_id attempt_number delay error now :
  capped self ->
  capped (_record_retry_attempt self job_id attempt_number delay error now).
Proof.
  intros Hcap k history. unfold _record_retry_attempt. cbn [retry_history].
  destruct (decide (k = job_id)) as [-> | Hne].
  - rewrite lookup_insert_eq. intros [= <-].
    match goal with
    | |- context [(10 <? length ?l)%nat] =>
        destruct (Nat.ltb_spec 10 (length l)); [apply last_10_length | lia]
    end.
  - rewrite lookup_insert_ne by congruence. apply Hcap.
Qed.

Lemma should_retry_capped self job error config now u :
  capped self -> capped (snd (should_retry self job error config now u)).
Proof.
  intros Hcap. unfold should_retry.
  destruct (_ <=? _); [exact Hcap |].
  destruct (decide _); [exact Hcap |].
  destruct (negb _); [exact Hcap |].
  apply record_capped, Hcap.
Qed.

Lemma step_capped self o : capped self -> capped (step self o).
Proof.
  intros Hcap. destruct o as [job error config now u | job_id | h now]; cbn [step].
  - apply should_retry_capped, Hcap.
  - intros k history. cbn. intros Hk. apply lookup_delete_Some in Hk.
    apply (Hcap k history), Hk.
  - intros k history. cbn. intros Hk. apply map_lookup_filter_Some in Hk.
    apply (Hcap k history), Hk.
Qed.

Lemma run_capped ops self : capped self -> capped (run ops self).
Proof.
  revert self. induction ops as [| o ops IH]; intros self Hcap; [exact Hcap |].
  cbn [run fold_left]. apply IH, step_capped, Hcap.
Qed.

Lemma capped_init : capped init.
Proof. intros k history Hk. cbn in Hk. rewrite lookup_empty in Hk. discriminate. Qed.

(** However many retries are granted and whatever is cleared in between,
    the handler remembers ten attempts per job at most. A configuration
    that allows more than ten attempts is therefore never exhausted:
    [should_retry] then grants the retry of every error that is not
    permanent and whose type is on the retry list. *)
Theorem retry_history_capped :
  forall (ops : list op) (job : Job) (error : Exception) (config : RetryConfig)
         (now : Z) (u : Q),
    0 <= _get_attempt_count (run ops init) (job_id job) <= 10
    /\ (10 < max_attempts config ->
        fst (fst (should_retry (run ops init) job error (Some config) now u))
        = retryable (run ops init) config error).
Proof.
  intros ops job error config now u.
  pose proof (run_capped ops init capped_init) as Hcap.
  generalize dependent (run ops init). intros self Hcap.
  assert (Hcount : 0 <= _get_attempt_count self (job_id job) <= 10).
  { unfold _get_attempt_count.
    destruct (retry_history self !! job_id job) as [history |] eqn:Hh; cbn.
    - specialize (Hcap _ _ Hh). lia.
    - lia. }
  split; [exact Hcount |]. intros Hmany.
  unfold should_retry, retryable.
  change (default (handler_default_config self) (Some config)) with config.
  destruct (Z.leb_spec (max_attempts config) (_get_attempt_count self (job_id job)));
    [lia |].
  destruct (decide (_classify_failure self error = PERMANENT)) as [Hp | Hp].
  - rewrite bool_decide_eq_true_2 by exact Hp. reflexivity.
  - rewrite (bool_decide_eq_false_2 _ Hp). cbn [negb andb].
    destruct (bool_decide (exc_type_name error ∈ retry_on_exceptions config));
      reflexivity.
Qed.


(** *** Delays *)

Lemma adjust_monotone failure_type (d d' : Q) :
  (d <= d')%Q ->
  (adjust_for_failure_type failure_type d <= adjust_for_failure_type failure_type d')%Q.
Proof. intros H. destruct failure_type; cbn; lra. Qed.

Lemma add_jitter_monotone config (u d d' : Q) :
  (0 <= u)%Q -> (d <= d')%Q -> (add_jitter config u d <= add_jitter config u d')%Q.
Proof.
  intros Hu H. unfold add_jitter, uniform. destruct (jitter config); [nra | exact H].
Qed.

Lemma Qmin_monotone (a b c : Q) : (a <= b)%Q -> (Qmin a c <= Qmin b c)%Q.
Proof.
  intros H. apply Q.min_glb; [| apply Q.le_min_r].
  eapply Qle_trans; [apply Q.le_min_l | exact H].
Qed.

Lemma Qmax_monotone (a b c : Q) : (a <= b)%Q -> (Qmax a c <= Qmax b c)%Q.
Proof.
  intros H. apply Q.max_lub; [| apply Q.le_max_r].
  eapply Qle_trans; [exact H | apply Q.le_max_l].
Qed.

Lemma float_overflow_large : (1 < float_overflow)%Q.
Proof. unfold Qlt. vm_compute. reflexivity. Qed.

(** With a base delay that is not negative and a multiplier of at least
    1, the delay never shrinks from one attempt count to the next, under
    every strategy and for every failure type, as long as the jitter
    draw is the same and the delay of the next attempt is computed
    without an exception (no [OverflowError] of the power or of the
    attempt count). *)
Theorem retry_delay_monotone :
  forall (attempt_count : Z) (config : RetryConfig) (failure_type : FailureType)
         (u : Q),
    (0 <= base_delay_seconds config)%Q ->
    (1 <= backoff_multiplier config)%Q ->
    (0 <= u)%Q ->
    0 <= attempt_count ->
    is_ok (base_delay (attempt_count + 1) config) = true ->
    (_calculate_delay attempt_count config failure_type u
     <= _calculate_delay (attempt_count + 1) config failure_type u)%Q.
Proof.
  intros attempt_count config failure_type u Hbase Hmult Hu Hcount Hnext.
  assert (Hchain : forall d d', (d <= d')%Q ->
            (Qmax (add_jitter config u
                     (Qmin (adjust_for_failure_type failure_type d)
                           (max_delay_seconds config))) (1 # 10)
             <= Qmax (add_jitter config u
                        (Qmin (adjust_for_failure_type failure_type d')
                              (max_delay_seconds config))) (1 # 10))%Q).
  { intros d d' H.
    apply Qmax_monotone, add_jitter_monotone, Qmin_monotone, adjust_monotone;
      assumption. }
  pose proof float_overflow_large as Hlarge.
  assert (Hpos : (0 <= inject_Z attempt_count)%Q).
  { change 0%Q with (inject_Z 0). rewrite <- Zle_Qle. exact Hcount. }
  unfold _calculate_delay, calculate_delay_try. unfold base_delay in Hnext |- *.
  destruct (strategy config); cbn [bind].
  - replace (attempt_count + 1 - 1) with attempt_count in Hnext |- * by lia.
    destruct (float_pow (backoff_multiplier config) attempt_count)
      as [power | err] eqn:Hpower; [| discriminate Hnext].
    apply float_pow_inv in Hpower. destruct Hpower as (-> & _ & Hexp & Hfits).
    assert (Hpow : (Qpower (backoff_multiplier config) (attempt_count - 1)
                    <= Qpower (backoff_multiplier config) attempt_count)%Q).
    { apply Qpower_le_compat_l; [lia | exact Hmult]. }
    assert (Hlow : (0 <= Qpower (backoff_multiplier config) (attempt_count - 1))%Q)
      by (apply Qpower_0_le; lra).
    apply Qabs_Qlt_condition in Hexp. apply Qabs_Qlt_condition in Hfits.
    rewrite float_pow_defined.
    + cbn [bind]. apply Hchain. nra.
    + intros [Hzero _]. lra.
    + apply Qabs_Qlt_condition.
      unfold Z.sub. rewrite inject_Z_plus. change (inject_Z (- (1))) with (- (1))%Q.
      lra.
    + apply Qabs_Qlt_condition. lra.
  - destruct (float_of_int (attempt_count + 1)) as [next |] eqn:Hconv;
      [| discriminate Hnext].
    apply float_of_int_inv in Hconv. destruct Hconv as [-> Hfits].
    apply Qabs_Qlt_condition in Hfits.
    rewrite inject_Z_plus in Hfits |- *. change (inject_Z 1) with 1%Q in Hfits |- *.
    rewrite float_of_int_defined by (apply Qabs_Qlt_condition; lra).
    cbn [bind]. apply Hchain. nra.
  - apply Hchain. apply Qle_refl.
  - apply Qle_refl.
Qed.

Lemma retry_delay_monotone_witness :
  (_calculate_delay 3 default_config RATE_LIMIT (1 # 2)
   <= _calculate_delay (3 + 1) default_config RATE_LIMIT (1 # 2))%Q.
Proof.
  apply (retry_delay_monotone 3 default_config RATE_LIMIT (1 # 2)).
  - unfold Qle. simpl. lia.
  - unfold Qle. simpl. lia.
  - unfold Qle. simpl. lia.
  - lia.
  - vm_compute. reflexivity.
Defined.

(** Where the power overflows the delay falls back: with the default
    configuration and the jitter draw 1/2, which leaves the delay as it
    is, 300s at attempt count 1024 are followed by 1s at 1025. *)
Example overflow_shrinks_delay :
  (_calculate_delay 1024 default_config TRANSIENT (1 # 2) == 300)%Q
  /\ _calculate_delay 1025 default_config TRANSIENT (1 # 2) = 1%Q.
Proof. split; vm_compute; reflexivity. Qed.

(** Unless the strategy is [IMMEDIATE], whose delay is 0, a delay that
    is computed without an exception is 0.1s at least, whatever the
    configuration, the failure type and the jitter draw - for a delay
    that is not below the float range before the clamp. When the
    computation raises ([ZeroDivisionError] or [OverflowError] of the
    power, [OverflowError] of the attempt count), the delay is
    [base_delay_seconds] as it is, without the floor. *)
Theorem retry_delay_floor :
  forall (attempt_count : Z) (config : RetryConfig) (failure_type : FailureType)
         (u : Q),
    (strategy config = IMMEDIATE ->
     _calculate_delay attempt_count config failure_type u = 0%Q)
    /\ (strategy config <> IMMEDIATE ->
        match base_delay attempt_count config with
        | Ok delay =>
            (- float_max <= adjust_for_failure_type failure_type delay)%Q ->
            (1 # 10 <= _calculate_delay attempt_count config failure_type u)%Q
        | Raise _ =>
            _calculate_delay attempt_count config failure_type u
            = base_delay_seconds config
        end).
Proof.
  intros attempt_count config failure_type u.
  unfold _calculate_delay, calculate_delay_try. split.
  - intros ->. reflexivity.
  - intros Hs.
    destruct (strategy config) eqn:Hstrategy; [| | | contradiction];
      (destruct (base_delay attempt_count config); cbn [bind];
       [intros _; apply Q.le_max_r | reflexivity]).
Qed.

Definition immediate_config : RetryConfig :=
  {| max_attempts := 3; strategy := IMMEDIATE; base_delay_seconds := 1;
     max_delay_seconds := 300; backoff_multiplier := 2; jitter := true;
     retry_on_exceptions := ["ConnectionError"%string] |}.

Lemma retry_delay_floor_witness :
  _calculate_delay 2 immediate_config TRANSIENT (1 # 2) = 0%Q
  /\ (1 # 10 <= _calculate_delay 0 default_config TRANSIENT 0)%Q.
Proof.
  split.
  - apply (proj1 (retry_delay_floor 2 immediate_config TRANSIENT (1 # 2))).
    reflexivity.
  - refine (proj2 (retry_delay_floor 0 default_config TRANSIENT 0) _ _).
    + discriminate.
    + unfold Qle. vm_compute. discriminate.
Defined.

(** A base delay of 0.01s comes back without the floor when the power
    overflows. *)
Example overflow_answers_unfloored_delay :
  let config :=
    {| max_attempts := 2000; strategy := EXPONENTIAL_BACKOFF;
       base_delay_seconds := 1 # 100; max_delay_seconds := 300;
       backoff_multiplier := 2; jitter := true;
       retry_on_exceptions := [] |} in
  _calculate_delay 1025 config TRANSIENT (1 # 2) = (1 # 100)%Q.
Proof. vm_compute. reflexivity. Qed.

(** *** Running an operation with retries *)

Section Execution.
Context {A : Type}.
Variables (job_id : string) (retry_config : RetryConfig) (env : Environment A).

(** The calls from [first] up to, not including, [n] all failed. *)
Definition failed_between (first n : nat) : Prop :=
  forall i, (first <= i < n)%nat -> exists e, operation env i = Throws e.

Lemma execute_loop_spec (remaining attempt : nat) (self : t) (naps : list Q)
    (last_exception : option Exception) :
  (attempt + S remaining)%nat = Z.to_nat (max_attempts retry_config) ->
  let r := execute_loop self job_id retry_config env (S remaining) attempt naps
             last_exception in
  exists n,
    calls r = S n /\ (attempt <= n <= attempt + remaining)%nat
    /\ failed_between attempt n
    /\ (length (slept r) <= length naps + (n - attempt))%nat
    /\ match outcome r with
       | Returned a =>
           operation env n = Returns a /\ retry_history (handler r) !! job_id = None
       | Raised e => operation env n = Throws e
       | RaisesNone => False
       end.
Proof.
  revert attempt self naps last_exception.
  induction remaining as [| remaining IH]; intros attempt self naps last_exception Hmax;
    cbn [execute_loop]; cbv zeta.
  - destruct (operation env attempt) as [a | e] eqn:Hop.
    + exists attempt. cbn. repeat split; try lia.
      * intros i Hi. lia.
      * exact Hop.
      * apply lookup_delete_eq.
    + destruct (should_retry _ _ _ _ _ _) as [[retry delay] self1].
      assert (Hlast : (Z.of_nat attempt =? max_attempts retry_config - 1) = true)
        by (apply Z.eqb_eq; lia).
      rewrite Hlast, orb_true_r. exists attempt. cbn. repeat split; try lia.
      * intros i Hi. lia.
      * exact Hop.
  - destruct (operation env attempt) as [a | e] eqn:Hop.
    + exists attempt. cbn. repeat split; try lia.
      * intros i Hi. lia.
      * exact Hop.
      * apply lookup_delete_eq.
    + destruct (should_retry _ _ _ _ _ _) as [[retry delay] self1].
      destruct (negb retry || (Z.of_nat attempt =? max_attempts retry_config - 1)).
      * exists attempt. cbn. repeat split; try lia.
        -- intros i Hi. lia.
        -- exact Hop.
      * destruct (IH (S attempt) self1
                    (if Qlt_bool 0 delay then naps ++ [delay] else naps) (Some e))
          as (n & Hcalls & Hn & Hfailed & Hslept & Hout); [lia |].
        exists n. split; [exact Hcalls |]. split; [lia |]. split.
        -- intros i Hi. destruct (decide (i = attempt)) as [-> | Hne].
           ++ exists e. exact Hop.
           ++ apply Hfailed. lia.
        -- split; [| exact Hout].
           destruct (Qlt_bool 0 delay);
             [rewrite length_app in Hslept; cbn [length] in Hslept |];
             (eapply Nat.le_trans; [exact Hslept | lia]).
Qed.

End Execution.

(** [execute_with_retry] calls the operation once at least and
    [max_attempts] times at most, stopping at the first call that
    returns; it sleeps between calls only. When it returns, the value is
    that of the last call and the retry history of the job is gone; when
    it raises, the error is that of the last call. With a [max_attempts]
    below 1 the operation is never called and the method ends in
    [raise None]. *)
Theorem execute_with_retry_calls :
  forall (A : Type) (self : t) (job_id : string) (config : option RetryConfig)
         (env : Environment A),
    let retry_config := default (handler_default_config self) config in
    let r := execute_with_retry self job_id config env in
    (max_attempts retry_config <= 0 ->
     outcome r = RaisesNone /\ calls r = 0%nat /\ handler r = self)
    /\ (1 <= max_attempts retry_config ->
        exists n,
          calls r = S n /\ Z.of_nat (S n) <= max_attempts retry_config
          /\ (forall i, (i < n)%nat -> exists e, operation env i = Throws e)
          /\ (length (slept r) <= n)%nat
          /\ match outcome r with
             | Returned a =>
                 operation env n = Returns a
                 /\ retry_history (handler r) !! job_id = None
             | Raised e => operation env n = Throws e
             | RaisesNone => False
             end).
Proof.
  intros A self job_id config env. cbv zeta. unfold execute_with_retry.
  set (retry_config := default (handler_default_config self) config).
  split.
  - intros Hnone. replace (Z.to_nat (max_attempts retry_config)) with 0%nat by lia.
    repeat split.
  - intros Hsome.
    destruct (Z.to_nat (max_attempts retry_config)) as [| remaining] eqn:Hmax; [lia |].
    destruct (execute_loop_spec job_id retry_config env remaining 0 self [] None)
      as (n & Hcalls & Hn & Hfailed & Hslept & Hout); [lia |].
    exists n. split; [exact Hcalls |]. split; [unfold retry_config in *; lia |]. split.
    + intros i Hi. apply Hfailed. lia.
    + split; [| exact Hout].
      eapply Nat.le_trans; [exact Hslept | cbn [length]; lia].
Qed.

Definition flaky : Environment string :=
  {| operation := fun n =>
       match n with
       | O => Throws host_missing
       | _ => Returns "done"%string
       end;
     clock := fun n => Z.of_nat n * 1000000;
     draws := fun _ => 1 # 2 |}.

Lemma execute_with_retry_calls_witness :
  (3 <= 0 ->
   outcome (execute_with_retry init "job-7" None flaky) = RaisesNone
   /\ calls (execute_with_retry init "job-7" None flaky) = 0%nat
   /\ handler (execute_with_retry init "job-7" None flaky) = init)
  /\ exists n,
       calls (execute_with_retry init "job-7" None flaky) = S n
       /\ Z.of_nat (S n) <= 3
       /\ (forall i, (i < n)%nat -> exists e, operation flaky i = Throws e)
       /\ (length (slept (execute_with_retry init "job-7" None flaky)) <= n)%nat
       /\ match outcome (execute_with_retry init "job-7" None flaky) with
          | Returned a =>
              operation flaky n = Returns a
              /\ retry_history (handler (execute_with_retry init "job-7" None flaky))
                 !! "job-7"%string = None
          | Raised e => operation flaky n = Throws e
          | RaisesNone => False
          end.
Proof.
  destruct (execute_with_retry_calls string init "job-7" None flaky) as [Hnone Hsome].
  split; [exact Hnone |]. apply Hsome. cbn. lia.
Defined.

Lemma classify_patterns (s1 s2 : t) (e : Exception) :
  patterns s1 = patterns s2 -> _classify_failure s1 e = _classify_failure s2 e.
Proof. unfold _classify_failure. intros ->. reflexivity. Qed.

Lemma record_count self job_id attempt_number delay error now :
  (length (default [] (retry_history self !! job_id)) <= 10)%nat ->
  _get_attempt_count
    (_record_retry_attempt self job_id attempt_number delay error now) job_id
  = Z.min (_get_attempt_count self job_id + 1) 10.
Proof.
  intros Hcap. unfold _get_attempt_count, _record_retry_attempt. cbn [retry_history].
  rewrite lookup_insert_eq. cbn [default].
  set (history := default [] (retry_history self !! job_id)) in *.
  match goal with
  | |- context [(10 <? length ?l)%nat] =>
      destruct (Nat.ltb_spec 10 (length l)) as [Hlong | Hshort]
  end.
  - unfold last_10, id. rewrite length_drop. rewrite length_app in *.
    cbn [length] in *. lia.
  - unfold id. rewrite length_app in *. cbn [length] in *. lia.
Qed.

Lemma should_retry_grants self job error config now u :
  _get_attempt_count self (Models.job_id job) < max_attempts config ->
  retryable self config error = true ->
  should_retry self job error (Some config) now u
  = ((true,
      _calculate_delay (_get_attempt_count self (Models.job_id job)) config
        (_classify_failure self error) u),
     _record_retry_attempt self (Models.job_id job)
       (_get_attempt_count self (Models.job_id job) + 1)
       (_calculate_delay (_get_attempt_count self (Models.job_id job)) config
          (_classify_failure self error) u)
       error now).
Proof.
  intros Hroom Hretry. unfold retryable in Hretry. apply andb_prop in Hretry.
  destruct Hretry as [Hp Hlist]. apply negb_true_iff in Hp.
  apply bool_decide_eq_false in Hp.
  unfold should_retry.
  change (default (handler_default_config self) (Some config)) with config.
  destruct (Z.leb_spec (max_attempts config)
              (_get_attempt_count self (Models.job_id job))); [lia |].
  destruct (decide (_classify_failure self error = PERMANENT)); [contradiction |].
  rewrite Hlist. reflexivity.
Qed.

Lemma execute_loop_unfold {A} (self : t) (job_id : string)
    (retry_config : RetryConfig) (env : Environment A) (remaining attempt : nat)
    (naps : list Q) (last_exception : option Exception) :
  execute_loop self job_id retry_config env (S remaining) attempt naps last_exception
  = match operation env attempt with
    | Returns result =>
        {| outcome := Returned result; calls := S attempt; slept := naps;
           handler := clear_retry_history self job_id |}
    | Throws e =>
        let '((retry, delay), self) :=
          should_retry self (minimal_job job_id (clock env attempt)) e
            (Some retry_config) (clock env attempt) (draws env attempt) in
        if negb retry || (Z.of_nat attempt =? max_attempts retry_config - 1) then
          {| outcome := Raised e; calls := S attempt; slept := naps; handler := self |}
        else
          execute_loop self job_id retry_config env remaining (S attempt)
            (if Qlt_bool 0 delay then naps ++ [delay] else naps) (Some e)
    end.
Proof. reflexivity. Qed.

Section Exhaustion.
Context {A : Type}.
Variables (self0 : t) (job_id : string) (retry_config : RetryConfig)
          (env : Environment A).
Hypothesis all_fail :
  forall i, Z.of_nat i < max_attempts retry_config ->
            exists e, operation env i = Throws e
                      /\ retryable self0 retry_config e = true.

Lemma execute_loop_exhausts (remaining attempt : nat) (self : t) (naps : list Q)
    (last_exception : option Exception) :
  (attempt + S remaining)%nat = Z.to_nat (max_attempts retry_config) ->
  patterns self = patterns self0 ->
  _get_attempt_count self job_id = Z.min (Z.of_nat attempt) 10 ->
  let r := execute_loop self job_id retry_config env (S remaining) attempt naps
             last_exception in
  calls r = (attempt + S remaining)%nat
  /\ (exists e, outcome r = Raised e
                /\ operation env (attempt + remaining) = Throws e)
  /\ _get_attempt_count (handler r) job_id
     = Z.min (Z.of_nat (attempt + S remaining)) 10
  /\ patterns (handler r) = patterns self0
  /\ handler_default_config (handler r) = handler_default_config self.
Proof.
  revert attempt self naps last_exception.
  induction remaining as [| remaining IH];
    intros attempt self naps last_exception Hmax Hpat Hcount.
  - rewrite execute_loop_unfold.
    destruct (all_fail attempt) as (e & Hop & Hretry); [lia |]. rewrite Hop.
    assert (Hretry' : retryable self retry_config e = true).
    { unfold retryable in *. rewrite (classify_patterns self self0 e Hpat).
      exact Hretry. }
    rewrite (should_retry_grants self (minimal_job job_id (clock env attempt)) e
               retry_config _ _) by (cbn [Models.job_id minimal_job]; lia || exact Hretry').
    assert (Hlast : (Z.of_nat attempt =? max_attempts retry_config - 1) = true)
      by (apply Z.eqb_eq; lia).
    rewrite Hlast, orb_true_r. cbn [calls outcome handler Models.job_id minimal_job].
    split; [lia |]. split.
    + exists e. split; [reflexivity |]. rewrite Nat.add_0_r. exact Hop.
    + split; [| split; reflexivity || exact Hpat].
      rewrite record_count.
      * rewrite Hcount. lia.
      * unfold _get_attempt_count in Hcount. lia.
  - rewrite execute_loop_unfold.
    destruct (all_fail attempt) as (e & Hop & Hretry); [lia |]. rewrite Hop.
    assert (Hretry' : retryable self retry_config e = true).
    { unfold retryable in *. rewrite (classify_patterns self self0 e Hpat).
      exact Hretry. }
    rewrite (should_retry_grants self (minimal_job job_id (clock env attempt)) e
               retry_config _ _) by (cbn [Models.job_id minimal_job]; lia || exact Hretry').
    assert (Hlast : (Z.of_nat attempt =? max_attempts retry_config - 1) = false)
      by (apply Z.eqb_neq; lia).
    rewrite Hlast. cbn [negb orb Models.job_id minimal_job].
    match goal with
    | |- context [execute_loop ?s1 job_id retry_config env (S remaining) (S attempt)
                    ?naps1 ?last1] =>
        destruct (IH (S attempt) s1 naps1 last1) as (Hcalls & Hout & Hc & Hp & Hd)
    end.
    + lia.
    + exact Hpat.
    + rewrite record_count.
      * rewrite Hcount. lia.
      * unfold _get_attempt_count in Hcount. lia.
    + split; [rewrite Hcalls; lia |]. split.
      * destruct Hout as (e' & Hraised & Hop'). exists e'. split; [exact Hraised |].
        replace (attempt + S remaining)%nat with (S attempt + remaining)%nat by lia.
        exact Hop'.
      * split; [rewrite Hc; f_equal; lia |]. split; [exact Hp | exact Hd].
Qed.

End Exhaustion.

(** When every call of the operation fails with an error that may be
    retried, and the job has no retry history, [execute_with_retry]
    calls the operation exactly [max_attempts] times and raises the last
    error; all the failures - the last one included - are then on the
    job's history (ten at most). With the history so filled, a later
    [execute_with_retry] for the same job under the same configuration
    of ten attempts at most gives up at the first failure: the job gets
    no retry until its history is cleared. *)
Theorem execute_with_retry_exhausts :
  forall (A : Type) (self : t) (job_id : string) (retry_config : RetryConfig)
         (env : Environment A),
    1 <= max_attempts retry_config ->
    retry_history self !! job_id = None ->
    (forall i, Z.of_nat i < max_attempts retry_config ->
               exists e, operation env i = Throws e
                         /\ retryable self retry_config e = true) ->
    let r := execute_with_retry self job_id (Some retry_config) env in
    Z.of_nat (calls r) = max_attempts retry_config
    /\ (exists e, outcome r = Raised e
                  /\ operation env (calls r - 1) = Throws e)
    /\ _get_attempt_count (handler r) job_id = Z.min (max_attempts retry_config) 10
    /\ (max_attempts retry_config <= 10 ->
        forall (env' : Environment A) (e' : Exception),
          operation env' 0%nat = Throws e' ->
          let r' := execute_with_retry (handler r) job_id (Some retry_config) env' in
          calls r' = 1%nat /\ outcome r' = Raised e' /\ handler r' = handler r).
Proof.
  intros A self job_id retry_config env Hmax Hnew Hfail. cbv zeta.
  destruct (Z.to_nat (max_attempts retry_config)) as [| remaining] eqn:Hn; [lia |].
  assert (Hrun : execute_with_retry self job_id (Some retry_config) env
                 = execute_loop self job_id retry_config env (S remaining) 0 [] None).
  { unfold execute_with_retry. cbn [default]. unfold id. rewrite Hn. reflexivity. }
  rewrite !Hrun.
  destruct (execute_loop_exhausts self job_id retry_config env Hfail remaining 0 self
              [] None) as (Hcalls & Hout & Hcount & Hpat & Hdef).
  { lia. }
  { reflexivity. }
  { unfold _get_attempt_count. rewrite Hnew. reflexivity. }
  set (r := execute_loop self job_id retry_config env (S remaining) 0 [] None) in *.
  split; [rewrite Hcalls; lia |]. split.
  - destruct Hout as (e & Hraised & Hop). exists e. split; [exact Hraised |].
    rewrite Hcalls. replace (0 + S remaining - 1)%nat with (0 + remaining)%nat by lia.
    exact Hop.
  - split; [rewrite Hcount; f_equal; lia |].
    intros Hten env' e' Hop'. unfold execute_with_retry. cbn [default]. unfold id.
    rewrite Hn, execute_loop_unfold, Hop'.
    unfold should_retry. cbn [default Models.job_id minimal_job]. unfold id.
    destruct (Z.leb_spec (max_attempts retry_config)
                (_get_attempt_count (handler r) job_id)) as [_ | Hlt]; [| lia].
    cbn. repeat split.
Qed.

Definition always_down : Environment string :=
  {| operation := fun _ => Throws host_missing;
     clock := fun n => Z.of_nat n * 1000000;
     draws := fun _ => 1 # 2 |}.

Lemma execute_with_retry_exhausts_witness :
  Z.of_nat (calls (execute_with_retry init "job-7" (Some default_config) always_down))
  = 3
  /\ (exists e,
         outcome (execute_with_retry init "job-7" (Some default_config) always_down)
         = Raised e
         /\ operation always_down
              (calls (execute_with_retry init "job-7" (Some default_config)
                        always_down) - 1) = Throws e)
  /\ _get_attempt_count
       (handler (execute_with_retry init "job-7" (Some default_config) always_down))
       "job-7" = Z.min 3 10
  /\ (3 <= 10 ->
      forall (env' : Environment string) (e' : Exception),
        operation env' 0%nat = Throws e' ->
        calls (execute_with_retry
                 (handler (execute_with_retry init "job-7" (Some default_config)
                             always_down))
                 "job-7" (Some default_config) env') = 1%nat
        /\ outcome (execute_with_retry
                      (handler (execute_with_retry init "job-7" (Some default_config)
                                  always_down))
                      "job-7" (Some default_config) env') = Raised e'
        /\ handler (execute_with_retry
                      (handler (execute_with_retry init "job-7" (Some default_config)
                                  always_down))
                      "job-7" (Some default_config) env')
           = handler (execute_with_retry init "job-7" (Some default_config)
                        always_down)).
Proof.
  apply (execute_with_retry_exhausts string init "job-7" default_config always_down).
  - cbn. lia.
  - reflexivity.
  - intros i _. exists host_missing. split; reflexivity.
Defined.

End RetryHandlerBehaviour.

Module DeadLetterQueueBehaviour.
Import Py Models DeadLetterQueue.

(** *** Recommendations *)

Definition mentions (words : list string) (error : Exception) : bool :=
  existsb (fun word => contains word (lower (exc_message error))) words.

(** The action recommended for a failed job is manual review, a later
    retry or archiving - never deletion or notification. After three
    retries or more it is manual review whatever the error; a later
    retry is recommended only for a job with fewer retries whose error
    message mentions a timeout or a resource, and archiving only for one
    whose message says permanent or fatal. *)
Theorem recommended_action_range :
  forall (error : Exception) (retry_count : Z),
    let action :=
      _recommend_action (_classify_failure_reason error retry_count) error
        retry_count in
    action <> DELETE /\ action <> NOTIFY
    /\ (3 <= retry_count -> action = MANUAL_REVIEW)
    /\ (action = RETRY_LATER ->
        retry_count < 3
        /\ mentions ["timeout"; "deadline"; "resource"; "memory"; "disk"]%string error
           = true)
    /\ (action = ARCHIVE ->
        retry_count < 3
        /\ mentions ["permanent"; "fatal"]%string error = true).
Proof.
  intros error retry_count. cbv zeta.
  unfold _classify_failure_reason, mentions. cbn [existsb].
  destruct (Z.leb_spec 3 retry_count) as [Hmany | Hfew].
  - cbn. repeat split; try discriminate; lia.
  - set (m := lower (exc_message error)).
    destruct (contains "invalid" m || contains "not found" m);
      [cbn; repeat split; try discriminate; lia |].
    destruct (contains "timeout" m) eqn:Ht; cbn [orb].
    { cbn. repeat split; try discriminate; lia. }
    destruct (contains "deadline" m) eqn:Hd; cbn [orb].
    { cbn. repeat split; try discriminate; lia. }
    destruct (contains "resource" m) eqn:Hr; cbn [orb].
    { cbn. repeat split; try discriminate; lia. }
    destruct (contains "memory" m) eqn:Hm; cbn [orb].
    { cbn. repeat split; try discriminate; lia. }
    destruct (contains "disk" m) eqn:Hk; cbn [orb].
    { cbn. repeat split; try discriminate; lia. }
    destruct (contains "config" m || contains "setting" m);
      [cbn; repeat split; try discriminate; lia |].
    destruct (contains "permanent" m) eqn:Hp; cbn [orb].
    { cbn. repeat split; try discriminate; lia. }
    destruct (contains "fatal" m) eqn:Hf; cbn [orb].
    { cbn. repeat split; try discriminate; lia. }
    cbn. repeat split; try discriminate; lia.
Qed.

(** *** Processing *)

(** [parameters.get('delay_hours', self.auto_retry_interval_hours)] *)
Definition delay_hours (parameters : option (gmap string pyval))
    (auto_retry_interval_hours : pyval) : pyval :=
  default auto_retry_interval_hours (default ∅ parameters !! "delay_hours"%string).

(** The entry is gone and counted as processed. *)
Definition removed (self : t) (job_id : string) (answer : bool * t) : Prop :=
  fst answer = true
  /\ entries (snd answer) = delete job_id (entries self)
  /\ processed_entries (stats (snd answer)) = processed_entries (stats self) + 1
  /\ failed_processing (stats (snd answer)) = failed_processing (stats self).

(** [process_entry] answers [False] and changes nothing for a job that
    is not in the queue. For an entry on file (under its own job id) it
    answers [True], counts it as processed and takes it out of the queue,
    whatever the action: manual review, archiving and notification remove
    the entry just as deletion and retry do. The exceptions are with the
    retry: when its delay is a string the entry stays and the failure is
    counted, and when it is [None] the entry stays and nothing is
    counted. A delay that is a number is waited for; the wait, in
    seconds, must fit a float. *)
Theorem process_entry_removes :
  forall (self : t) (job_id : string) (action : option DeadLetterAction)
         (parameters : option (gmap string pyval)) (auto_retry_interval_hours : pyval),
    let answer := process_entry self job_id action parameters auto_retry_interval_hours in
    (entries self !! job_id = None -> answer = (false, self))
    /\ (forall entry,
          entries self !! job_id = Some entry ->
          DeadLetterQueue.job_id entry = job_id ->
          if bool_decide (default (recommended_action entry) action = RETRY_LATER)
          then
            match delay_hours parameters auto_retry_interval_hours with
            | VNum hours => (hours * 3600 <= float_max)%Q -> removed self job_id answer
            | VStr _ =>
                fst answer = false
                /\ entries (snd answer) = entries self
                /\ failed_processing (stats (snd answer))
                   = failed_processing (stats self) + 1
                /\ processed_entries (stats (snd answer))
                   = processed_entries (stats self)
            | VNone => answer = (false, self)
            end
          else removed self job_id answer).
Proof.
  intros self job_id action parameters auto. cbv zeta.
  unfold process_entry, get_entry, removed. split; [intros ->; reflexivity |].
  intros entry Hentry Hid. rewrite Hentry. unfold delay_hours.
  destruct (default (recommended_action entry) action) eqn:Haction;
    cbn [handle];
    try (rewrite bool_decide_eq_false_2 by discriminate; cbn;
         repeat split; reflexivity).
  rewrite bool_decide_eq_true_2 by reflexivity.
  unfold _handle_retry_later, retry_job, get_entry. rewrite Hid, Hentry.
  destruct (default auto (default ∅ parameters !! "delay_hours"%string))
    as [hours | w |]; cbn.
  - intros _. rewrite delete_delete_eq. repeat split; reflexivity.
  - repeat split; reflexivity.
  - reflexivity.
Qed.

Definition stuck_entry : DeadLetterEntry :=
  {| job_id := "job-7"; file_id := "file-7";
     original_job_data := RetryHandlerSpec.fresh_job;
     failure_reason := INVALID_INPUT; error_message := "invalid header";
     error_type := "ValueError"; retry_count := 1; first_failed_at := 0;
     last_failed_at := 10; processing_attempts := [];
     recommended_action := MANUAL_REVIEW; priority := 11 |}.

Definition one_entry : t :=
  {| entries := {[ "job-7"%string := stuck_entry ]};
     max_queue_size := 10000; retention_days := 30;
     stats := {| total_entries := 1; entries_by_reason := ∅; entries_by_action := ∅;
                 processed_entries := 0; failed_processing := 0 |} |}.

Definition waiting_entry : DeadLetterEntry :=
  {| job_id := "job-8"; file_id := "file-8";
     original_job_data := RetryHandlerSpec.fresh_job;
     failure_reason := TIMEOUT; error_message := "deadline exceeded";
     error_type := "TimeoutError"; retry_count := 1; first_failed_at := 0;
     last_failed_at := 10; processing_attempts := [];
     recommended_action := RETRY_LATER; priority := 11 |}.

Definition two_entries : t :=
  {| entries := <["job-8"%string := waiting_entry]> (entries one_entry);
     max_queue_size := 10000; retention_days := 30;
     stats := {| total_entries := 2; entries_by_reason := ∅; entries_by_action := ∅;
                 processed_entries := 0; failed_processing := 0 |} |}.

(** An entry flagged for manual review is gone after [process_entry],
    and so is one that is retried after the 24 hours of the setting; a
    retry with the delay [None] leaves everything as it was. *)
Lemma process_entry_removes_witness :
  process_entry two_entries "ghost" None None (VNum 24) = (false, two_entries)
  /\ removed two_entries "job-7" (process_entry two_entries "job-7" None None (VNum 24))
  /\ removed two_entries "job-8" (process_entry two_entries "job-8" None None (VNum 24))
  /\ process_entry two_entries "job-8" None
       (Some {[ "delay_hours"%string := VNone ]}) (VNum 24)
     = (false, two_entries).
Proof.
  split.
  { apply (proj1 (process_entry_removes two_entries "ghost" None None (VNum 24))).
    reflexivity. }
  split.
  { apply (proj2 (process_entry_removes two_entries "job-7" None None (VNum 24))
             stuck_entry); reflexivity. }
  split.
  { refine (proj2 (process_entry_removes two_entries "job-8" None None (VNum 24))
              waiting_entry _ _ _); [reflexivity | reflexivity |].
    unfold Qle. vm_compute. discriminate. }
  refine (proj2 (process_entry_removes two_entries "job-8" None
                   (Some {[ "delay_hours"%string := VNone ]}) (VNum 24))
            waiting_entry _ _); reflexivity.
Defined.

End DeadLetterQueueBehaviour.

Module WorkerScalerBehaviour.
Import Py WorkerScaler.

(** Whenever [_determine_scaling_action] answers, the target respects
    the limits: a [scale_up] goes above the current count, by five at
    most, and not above [max_workers]; a [scale_down] removes exactly
    one worker and does not go below [min_workers]; and [no_action]
    names the current count. There is no other action. *)
Theorem scaling_target_within_limits :
  forall (self : t) (load_score : Q) (queue_size current_load total_capacity : Z)
         (action : string) (target : Z) (reason : string),
    _determine_scaling_action self load_score queue_size current_load total_capacity
    = Ok (action, target, reason) ->
    (action = "scale_up"%string
     /\ current_workers self < target <= max_workers self
     /\ target <= current_workers self + 5)
    \/ (action = "scale_down"%string
        /\ target = current_workers self - 1
        /\ min_workers self <= target
        /\ 2 < idle_workers self)
    \/ (action = "no_action"%string /\ target = current_workers self).
Proof.
  intros self load_score queue_size current_load total_capacity action target reason.
  unfold _determine_scaling_action, no_action.
  destruct (scale_up_condition self load_score queue_size current_load total_capacity)
    as [[|] | e]; cbn [bind]; [| | discriminate].
  - destruct (Z.ltb_spec (current_workers self) (max_workers self)) as [Hroom | Hfull].
    + destruct (50 <? queue_size); [| destruct (20 <? queue_size)];
        intros [= <- <- <-]; left; (split; [reflexivity | lia]).
    + intros [= <- <- <-]. right. right. split; reflexivity.
  - destruct (Qlt_bool load_score (scale_down_threshold self)); cbn [andb];
      [| intros [= <- <- <-]; right; right; split; reflexivity].
    destruct (queue_size =? 0); cbn [andb];
      [| intros [= <- <- <-]; right; right; split; reflexivity].
    destruct (Z.ltb_spec (min_workers self) (current_workers self)) as [Hmore | Hmin];
      [| intros [= <- <- <-]; right; right; split; reflexivity].
    destruct (Z.ltb_spec 2 (idle_workers self)) as [Hidle | Hbusy];
      intros [= <- <- <-].
    + right. left. split; [reflexivity |]. split; [lia |]. split; [lia | exact Hidle].
    + right. right. split; reflexivity.
Qed.

Definition idle (id : string) : WorkerMetrics :=
  {| worker_id := id; status := "idle"; current_jobs := 0; max_concurrent_jobs := 5 |}.

Definition quiet_pool : t :=
  {| current_workers := 4; min_workers := 2; max_workers := 10;
     scale_up_threshold := 8 # 10; scale_down_threshold := 3 # 10;
     worker_metrics := [ ("w1", idle "w1"); ("w2", idle "w2"); ("w3", idle "w3");
                         ("w4", idle "w4") ]%string |}.

Lemma scaling_target_within_limits_witness :
  ("scale_down" = "scale_up"
   /\ current_workers quiet_pool < 3 <= max_workers quiet_pool
   /\ 3 <= current_workers quiet_pool + 5)%string
  \/ ("scale_down"%string = "scale_down"%string
      /\ 3 = current_workers quiet_pool - 1
      /\ min_workers quiet_pool <= 3
      /\ 2 < idle_workers quiet_pool)
  \/ ("scale_down" = "no_action" /\ 3 = current_workers quiet_pool)%string.
Proof.
  apply (scaling_target_within_limits quiet_pool (1 # 10) 0 0 20
           "scale_down" 3 "Low load - removing 1 idle worker").
  reflexivity.
Defined.

Lemma sum_over_nil (f : WorkerMetrics -> Z) (self : t) :
  worker_metrics self = [] -> sum_over f self = 0.
Proof. unfold sum_over. intros ->. reflexivity. Qed.

(** Through [get_scaling_decision] the pool changes by one worker at
    most: the queue size it hands on is always 0, so the steps of three
    and five workers are never taken. With no worker registered the
    load cannot be divided by the capacity: unless the cpu or memory
    factor alone exceeds the scale-up threshold, the decision is
    [no_action], with the division error as its reason. *)
Theorem get_scaling_decision_one_step :
  forall (self : t) (cpu_usage memory_usage : Q),
    let decision := get_scaling_decision self cpu_usage memory_usage in
    decision_current_workers decision = current_workers self
    /\ ((action decision = "scale_up"%string
         /\ target_workers decision = current_workers self + 1
         /\ target_workers decision <= max_workers self)
        \/ (action decision = "scale_down"%string
            /\ target_workers decision = current_workers self - 1
            /\ min_workers self <= target_workers decision)
        \/ (action decision = "no_action"%string
            /\ target_workers decision = current_workers self))
    /\ (worker_metrics self = [] ->
        (cpu_usage / 100 <= scale_up_threshold self)%Q ->
        (memory_usage / 100 <= scale_up_threshold self)%Q ->
        (0 <= scale_up_threshold self)%Q ->
        action decision = "no_action"%string
        /\ reason decision = "Error in scaling decision: division by zero"%string).
Proof.
  intros self cpu_usage memory_usage. cbv zeta. unfold get_scaling_decision.
  set (total_capacity := sum_over max_concurrent_jobs self).
  set (current_load := sum_over current_jobs self).
  set (load_score := max3 _ _ _).
  split; [destruct (_determine_scaling_action _ _ _ _ _) as [[[? ?] ?] |]; reflexivity |].
  split.
  - unfold _determine_scaling_action, no_action, _get_queue_size.
    destruct (scale_up_condition self load_score 0 current_load total_capacity)
      as [[|] | e]; cbn [bind].
    + destruct (Z.ltb_spec (current_workers self) (max_workers self)) as [Hroom | Hfull];
        cbn.
      * left. split; [reflexivity |]. split; lia.
      * right. right. split; reflexivity.
    + destruct (Qlt_bool load_score (scale_down_threshold self)); cbn [andb];
        [| right; right; split; reflexivity].
      destruct (Z.ltb_spec (min_workers self) (current_workers self)) as [Hmore | Hmin];
        cbn [Z.eqb andb]; [| right; right; split; reflexivity].
      destruct (2 <? idle_workers self); cbn.
      * right. left. split; [reflexivity |]. split; lia.
      * right. right. split; reflexivity.
    + right. right. split; reflexivity.
  - intros Hnone Hcpu Hmem Hthreshold.
    assert (Hcap : total_capacity = 0) by (apply sum_over_nil, Hnone).
    assert (Hscore : Qlt_bool (scale_up_threshold self) load_score = false).
    { unfold Qlt_bool. apply negb_false_iff, Qle_bool_iff.
      unfold load_score, max3. rewrite Hcap.
      change (0 <? 0) with false. cbv iota.
      destruct (Qlt_bool (cpu_usage / 100) (memory_usage / 100));
        match goal with
        | |- context [Qlt_bool ?m 0%Q] => destruct (Qlt_bool m 0%Q)
        end; assumption. }
    unfold _determine_scaling_action, scale_up_condition, _get_queue_size.
    rewrite Hscore, Hcap. cbn. split; reflexivity.
Qed.

Definition empty_pool : t :=
  {| current_workers := 2; min_workers := 2; max_workers := 10;
     scale_up_threshold := 8 # 10; scale_down_threshold := 3 # 10;
     worker_metrics := [] |}.

Lemma get_scaling_decision_one_step_witness :
  action (get_scaling_decision empty_pool 35 50) = "no_action"%string
  /\ reason (get_scaling_decision empty_pool 35 50)
     = "Error in scaling decision: division by zero"%string.
Proof.
  apply (proj2 (proj2 (get_scaling_decision_one_step empty_pool 35 50)));
    [reflexivity | | | ]; unfold Qle; simpl; lia.
Defined.

End WorkerScalerBehaviour.

Module BatchProcessorBehaviour.
Import Py Models BatchProcessor BatchProcessorSpec.

(** *** Chunks *)

Lemma chunks_shape {A} (fuel size : nat) (l : list A) :
  (0 < size)%nat -> (length l <= fuel)%nat ->
  Forall (fun c => (0 < length c <= size)%nat) (chunks fuel size l)
  /\ (forall i c, chunks fuel size l !! i = Some c ->
                  (S i < length (chunks fuel size l))%nat -> length c = size)
  /\ Z.of_nat (length (chunks fuel size l))
     = (Z.of_nat (length l) + Z.of_nat size - 1) / Z.of_nat size.
Proof.
  intros Hsize. revert l. induction fuel as [| fuel IH]; intros l Hlen.
  - destruct l; [| cbn in Hlen; lia]. cbn. split; [constructor |].
    split; [intros i c Hc; discriminate |].
    symmetry. apply Z.div_small. lia.
  - destruct l as [| x l].
    + cbn. split; [constructor |]. split; [intros i c Hc; discriminate |].
      symmetry. apply Z.div_small. lia.
    + cbn [chunks].
      destruct (IH (drop size (x :: l))) as (Hall & Hfull & Hcount).
      { rewrite length_drop. cbn [length] in *. lia. }
      split; [| split].
      * constructor; [| exact Hall]. rewrite length_take. cbn [length]. lia.
      * intros [| i] c Hc Hmore; cbn in Hc.
        -- injection Hc as <-. rewrite length_take.
           cbn [length] in Hmore.
           destruct (chunks fuel size (drop size (x :: l))) as [| c' cs] eqn:Hrest;
             [cbn in Hmore; lia |].
           assert (Hnonempty : drop size (x :: l) <> []).
           { intros Hnil. rewrite Hnil in Hrest. destruct fuel; discriminate. }
           assert (size < length (x :: l))%nat; [| lia].
           destruct (Nat.lt_ge_cases size (length (x :: l))) as [H | H]; [exact H |].
           exfalso. apply Hnonempty. apply drop_ge. lia.
        -- apply (Hfull i c Hc). cbn [length] in Hmore. lia.
      * cbn [length]. rewrite Nat2Z.inj_succ, Hcount, length_drop. cbn [length].
        set (n := S (length l)) in *.
        destruct (Nat.le_gt_cases n size) as [Hshort | Hlong].
        -- replace (n - size)%nat with 0%nat by lia.
           rewrite (Z.div_small (Z.of_nat 0 + Z.of_nat size - 1)) by lia.
           apply Z.div_unique with (r := Z.of_nat n - 1); lia.
        -- rewrite Nat2Z.inj_sub by lia.
           replace (Z.of_nat n + Z.of_nat size - 1)
             with (Z.of_nat n - Z.of_nat size + Z.of_nat size - 1 + 1 * Z.of_nat size)
             by lia.
           rewrite Z.div_add by lia. lia.
Qed.

(** The files of a batch are cut into consecutive chunks of
    [chunk_size] files, the last one possibly shorter and none empty:
    joined in order they give back the list of files, and their number
    is the number of files divided by the chunk size, rounded up. A
    negative chunk size gives no chunk at all, so that no file is
    processed, and a zero chunk size raises. *)
Theorem file_chunks_shape :
  forall (chunk_size : Z) (files : list string),
    (chunk_size = 0 -> exists e, file_chunks chunk_size files = Raise e)
    /\ (chunk_size < 0 -> file_chunks chunk_size files = Ok [])
    /\ (0 < chunk_size ->
        exists file_chunks',
          file_chunks chunk_size files = Ok file_chunks'
          /\ concat file_chunks' = files
          /\ Forall (fun c => 0 < Z.of_nat (length c) <= chunk_size) file_chunks'
          /\ (forall i c, file_chunks' !! i = Some c ->
                          (S i < length file_chunks')%nat ->
                          Z.of_nat (length c) = chunk_size)
          /\ Z.of_nat (length file_chunks')
             = (Z.of_nat (length files) + chunk_size - 1) / chunk_size).
Proof.
  intros chunk_size files. unfold file_chunks. split; [| split].
  - intros ->. eexists. reflexivity.
  - intros Hneg. destruct (Z.eqb_spec chunk_size 0); [lia |].
    destruct (Z.ltb_spec chunk_size 0); [reflexivity | lia].
  - intros Hpos. destruct (Z.eqb_spec chunk_size 0); [lia |].
    destruct (Z.ltb_spec chunk_size 0); [lia |].
    eexists. split; [reflexivity |].
    destruct (chunks_shape (length files) (Z.to_nat chunk_size) files)
      as (Hall & Hfull & Hcount); [lia | lia |].
    split; [apply concat_chunks; lia |]. split; [| split].
    + eapply Forall_impl; [exact Hall |]. cbn. intros c Hc. lia.
    + intros i c Hc Hmore. rewrite (Hfull i c Hc Hmore). lia.
    + rewrite Hcount. rewrite Z2Nat.id by lia. reflexivity.
Qed.

Lemma file_chunks_shape_witness :
  exists file_chunks',
    file_chunks 2 three_files = Ok file_chunks'
    /\ concat file_chunks' = three_files
    /\ Forall (fun c => 0 < Z.of_nat (length c) <= 2) file_chunks'
    /\ (forall i c, file_chunks' !! i = Some c ->
                    (S i < length file_chunks')%nat ->
                    Z.of_nat (length c) = 2)
    /\ Z.of_nat (length file_chunks') = (Z.of_nat (length three_files) + 2 - 1) / 2.
Proof. apply (proj2 (proj2 (file_chunks_shape 2 three_files))). lia. Defined.

(** Three files in chunks of two: a chunk of two and a chunk of one. *)
Example three_files_in_two_chunks :
  file_chunks 2 three_files = Ok [["file1"; "file2"]; ["file3"]]%string.
Proof. reflexivity. Qed.

(** *** The result of a batch *)

Definition successes (items : list (string * FileResult)) : list string :=
  map fst (filter (fun item => is_completed (snd item) = true) items).

Definition failures (items : list (string * FileResult)) : list string :=
  map fst (filter (fun item => is_completed (snd item) = false) items).

Definition returned_jobs (items : list (string * FileResult)) : list Job :=
  omap (fun item => match snd item with RJob job => Some job | _ => None end) items.

Definition on_file (batch_id : string) (self : t) : Prop :=
  is_Some (active_batch_jobs self !! batch_id).

Lemma update_batch_progress_results self batch_id :
  batch_job_results (_update_batch_progress self batch_id) = batch_job_results self
  /\ (on_file batch_id self -> on_file batch_id (_update_batch_progress self batch_id)).
Proof.
  unfold _update_batch_progress, on_file.
  destruct (active_batch_jobs self !! batch_id) eqn:Hb.
  - split; [reflexivity |]. intros _. cbn. rewrite lookup_insert_eq. eexists. reflexivity.
  - split; [reflexivity |]. rewrite Hb. exact id.
Qed.

Lemma handle_result_lists batch_id st item :
  snd item <> ROther ->
  on_file batch_id (loop_self st) ->
  let st' := handle_result batch_id st item in
  on_file batch_id (loop_self st')
  /\ loop_successful st' = loop_successful st ++ successes [item]
  /\ loop_failed st' = loop_failed st ++ failures [item]
  /\ default [] (batch_job_results (loop_self st') !! batch_id)
     = default [] (batch_job_results (loop_self st) !! batch_id)
       ++ returned_jobs [item].
Proof.
  intros Hother Hfile. destruct item as [file_id r]. cbn [snd] in Hother.
  cbv zeta. unfold handle_result, successes, failures, returned_jobs.
  rewrite !filter_cons, !filter_nil. cbn [snd omap list_omap].
  destruct r as [msg | job |]; [| | congruence].
  - cbn [loop_self loop_successful loop_failed is_completed].
    destruct (update_batch_progress_results (loop_self st) batch_id) as [-> Hon].
    rewrite decide_False by discriminate. rewrite decide_True by reflexivity.
    cbn. rewrite !app_nil_r.
    split; [apply Hon; exact Hfile | repeat split; reflexivity].
  - cbn [is_completed].
    destruct (decide (Models.status job = COMPLETED)) as [Hc | Hc];
      cbn [loop_self loop_successful loop_failed];
      match goal with
      | |- context [_update_batch_progress ?s batch_id] =>
          destruct (update_batch_progress_results s batch_id) as [-> Hon]
      end; cbn [batch_job_results]; rewrite lookup_insert_eq; cbn [default].
    + rewrite (bool_decide_eq_true_2 _ Hc).
      rewrite decide_True by reflexivity. rewrite decide_False by discriminate.
      cbn. rewrite ?app_nil_r.
      split; [apply Hon; exact Hfile | repeat split; reflexivity].
    + rewrite (bool_decide_eq_false_2 _ Hc).
      rewrite decide_False by discriminate. rewrite decide_True by reflexivity.
      cbn. rewrite ?app_nil_r.
      split; [apply Hon; exact Hfile | repeat split; reflexivity].
Qed.

Lemma successes_app a b : successes (a ++ b) = successes a ++ successes b.
Proof. unfold successes. rewrite filter_app, map_app. reflexivity. Qed.

Lemma failures_app a b : failures (a ++ b) = failures a ++ failures b.
Proof. unfold failures. rewrite filter_app, map_app. reflexivity. Qed.

Lemma returned_jobs_app a b : returned_jobs (a ++ b) = returned_jobs a ++ returned_jobs b.
Proof. unfold returned_jobs. apply omap_app. Qed.

Lemma fold_handle_result_lists batch_id items st :
  Forall (fun item => snd item <> ROther) items ->
  on_file batch_id (loop_self st) ->
  let st' := fold_left (handle_result batch_id) items st in
  on_file batch_id (loop_self st')
  /\ loop_successful st' = loop_successful st ++ successes items
  /\ loop_failed st' = loop_failed st ++ failures items
  /\ default [] (batch_job_results (loop_self st') !! batch_id)
     = default [] (batch_job_results (loop_self st) !! batch_id)
       ++ returned_jobs items.
Proof.
  intros Hall. revert st. induction Hall as [| item items Hitem Hall IH];
    intros st Hfile; cbv zeta.
  - cbn. rewrite !app_nil_r. repeat split. exact Hfile.
  - cbn [fold_left].
    destruct (handle_result_lists batch_id st item Hitem Hfile) as (H1 & H2 & H3 & H4).
    destruct (IH _ H1) as (H1' & H2' & H3' & H4').
    change (item :: items) with ([item] ++ items).
    rewrite successes_app, failures_app, returned_jobs_app, !app_assoc.
    rewrite <- H2, <- H3, <- H4. repeat split; assumption.
Qed.

Lemma items_from_fst env offset l : map fst (items_from env offset l) = l.
Proof.
  unfold items_from. apply fst_zip. rewrite length_imap. lia.
Qed.

Lemma successes_failures_perm items :
  successes items ++ failures items ≡ₚ map fst items.
Proof.
  unfold successes, failures. induction items as [| item items IH]; [reflexivity |].
  rewrite !filter_cons. destruct (is_completed (snd item)).
  - rewrite decide_True by reflexivity. rewrite decide_False by discriminate.
    cbn. apply perm_skip, IH.
  - rewrite decide_False by discriminate. rewrite decide_True by reflexivity.
    cbn. rewrite <- Permutation_middle. apply perm_skip, IH.
Qed.

(** When a batch whose pipeline resolves has run, with a positive chunk
    size and every file ending in a job or an exception, its result
    lists the files whose job completed as successful and all the others
    as failed, each list in the order of the batch: every file is in
    exactly one of the two. The batch counts as a success exactly when
    no file failed, and the jobs that were returned are on record in the
    order of the files. *)
Theorem batch_result_lists :
  forall (self : t) (batch_id : string) (env : BatchEnv) (batch_job : BatchJob),
    active_batch_jobs self !! batch_id = Some batch_job ->
    is_Some (resolve_pipeline batch_job env) ->
    1 <= chunk_size batch_job ->
    (forall i file_id, run_file env i file_id <> ROther) ->
    let items := items_from env 0 (file_ids batch_job) in
    exists (batch_job' : BatchJob) (r : BatchJobResult),
      active_batch_jobs (fst (process_batch_job_async self batch_id env)) !! batch_id
      = Some batch_job'
      /\ status batch_job' = COMPLETED
      /\ result batch_job' = Some r
      /\ successful_jobs r = successes items
      /\ failed_jobs r = failures items
      /\ successful_jobs r ++ failed_jobs r ≡ₚ file_ids batch_job
      /\ res_success r = forallb is_completed (results env (file_ids batch_job))
      /\ res_completed_files r + res_failed_files r = res_total_files r
      /\ default [] (batch_job_results (fst (process_batch_job_async self batch_id env))
                     !! batch_id)
         = default [] (batch_job_results self !! batch_id) ++ returned_jobs items.
Proof.
  intros self batch_id env batch_job Hfind [pipeline Hpipe] Hchunk Hother. cbv zeta.
  unfold process_batch_job_async. rewrite Hfind.
  change (resolve_pipeline _ env) with (resolve_pipeline batch_job env).
  rewrite Hpipe. cbn [chunk_size file_ids]. unfold file_chunks.
  destruct (Z.eqb_spec (chunk_size batch_job) 0) as [? | _]; [lia |].
  destruct (Z.ltb_spec (chunk_size batch_job) 0) as [? | _]; [lia |].
  rewrite process_chunks_flat, concat_chunks by lia.
  set (items := items_from env 0 (file_ids batch_job)).
  match goal with
  | |- context [fold_left _ _ ?st0] => set (st := st0)
  end.
  destruct (fold_handle_result_lists batch_id items st
              (items_from_no_other env 0 (file_ids batch_job) Hother))
    as (_ & Hsucc & Hfail & Hjobs).
  { unfold on_file, st. cbn. rewrite lookup_insert_eq. eexists. reflexivity. }
  assert (Hinv : loop_inv (length (file_ids batch_job)) batch_id st).
  { split.
    - eexists. split; [apply lookup_insert_eq | reflexivity].
    - constructor; [| constructor]. split; [reflexivity | cbn; lia]. }
  destruct (fold_handle_result_inv _ batch_id items st Hinv
              (items_from_no_other env 0 (file_ids batch_job) Hother))
    as (((bj & Hbj & Hlen) & _) & _ & _).
  set (st' := fold_left (handle_result batch_id) items st) in *.
  cbn [loop_successful loop_failed loop_self st app] in Hsucc, Hfail, Hjobs.
  cbn [fst]. unfold _complete_batch_job.
  rewrite Hbj. unfold put_batch.
  cbn [active_batch_jobs batch_job_results]. rewrite lookup_insert_eq.
  eexists. eexists. split; [reflexivity |].
  cbn [status result successful_jobs failed_jobs res_success res_completed_files
       res_failed_files res_total_files].
  split; [reflexivity |]. split; [reflexivity |].
  split; [exact Hsucc |]. split; [exact Hfail |].
  assert (Hperm : loop_successful st' ++ loop_failed st' ≡ₚ file_ids batch_job).
  { rewrite Hsucc, Hfail, successes_failures_perm. unfold items.
    rewrite items_from_fst. reflexivity. }
  split; [exact Hperm |]. split; [| split].
  - rewrite Hfail. unfold failures. rewrite length_map.
    rewrite <- (items_from_results env (file_ids batch_job)). fold items.
    clear. induction items as [| item items IH]; [reflexivity |].
    rewrite filter_cons. cbn [map forallb].
    destruct (is_completed (snd item)).
    + rewrite decide_False by discriminate. exact IH.
    + rewrite decide_True by reflexivity. reflexivity.
  - apply Permutation_length in Hperm. rewrite length_app in Hperm.
    cbn [res_completed_files res_failed_files res_total_files]. lia.
  - exact Hjobs.
Qed.

Lemma batch_result_lists_witness :
  exists (batch_job' : BatchJob) (r : BatchJobResult),
    active_batch_jobs (fst (process_batch_job_async (processor_with 2) "batch-1"
                              mixed_env)) !! "batch-1"%string = Some batch_job'
    /\ status batch_job' = COMPLETED
    /\ result batch_job' = Some r
    /\ successful_jobs r = successes (items_from mixed_env 0 three_files)
    /\ failed_jobs r = failures (items_from mixed_env 0 three_files)
    /\ successful_jobs r ++ failed_jobs r ≡ₚ three_files
    /\ res_success r = forallb is_completed (results mixed_env three_files)
    /\ res_completed_files r + res_failed_files r = res_total_files r
    /\ default [] (batch_job_results
                     (fst (process_batch_job_async (processor_with 2) "batch-1"
                             mixed_env)) !! "batch-1"%string)
       = default [] (batch_job_results (processor_with 2) !! "batch-1"%string)
         ++ returned_jobs (items_from mixed_env 0 three_files).
Proof.
  apply (batch_result_lists (processor_with 2) "batch-1" mixed_env (three_files_batch 2)).
  - vm_compute. reflexivity.
  - eexists. vm_compute. reflexivity.
  - simpl. lia.
  - intros i file_id. discriminate.
Defined.

(** In the batch of three files, the third of which fails. *)
Example three_files_result :
  successes (items_from mixed_env 0 three_files) = ["file1"; "file2"]%string
  /\ failures (items_from mixed_env 0 three_files) = ["file3"]%string.
Proof. vm_compute. split; reflexivity. Qed.

(** *** Cancelling a batch *)

Lemma handle_result_on_file batch_id st item :
  on_file batch_id (loop_self st) ->
  on_file batch_id (loop_self (handle_result batch_id st item)).
Proof.
  intros Hfile. destruct item as [file_id r]. unfold handle_result.
  destruct r as [msg | job |]; [| destruct (decide _) |];
    cbn [loop_self];
    match goal with
    | |- context [_update_batch_progress ?s batch_id] =>
        apply (proj2 (update_batch_progress_results s batch_id))
    end; exact Hfile.
Qed.

Lemma process_chunks_on_file batch_id env file_chunks offset st :
  on_file batch_id (loop_self st) ->
  on_file batch_id (loop_self (process_chunks batch_id env offset st file_chunks)).
Proof.
  rewrite process_chunks_flat.
  generalize (items_from env offset (concat file_chunks)). intros items. revert st.
  induction items as [| item items IH]; intros st Hfile; [exact Hfile |].
  cbn [fold_left]. apply IH, handle_result_on_file, Hfile.
Qed.

Definition batch_status (self : t) (batch_id : string) : option JobStatus :=
  status <$> active_batch_jobs self !! batch_id.

(** [cancel_batch_job] is granted for a batch that is pending or
    running: the batch is then cancelled, with its completion time set,
    and a second cancellation is refused; a refused cancellation changes
    nothing. But the run of the batch does not look at the status: when
    the cancellation arrives while chunks are still to be processed, the
    remaining chunks are processed all the same and the completion that
    follows marks the batch completed. *)
Theorem cancel_batch_job_is_overwritten :
  forall (self : t) (batch_id : string) (cancel_job : Job -> Job) (now : Z),
    let answer := cancel_batch_job self batch_id cancel_job now in
    (fst answer = false -> snd answer = self)
    /\ (fst answer = true ->
        batch_status (snd answer) batch_id = Some CANCELLED
        /\ (forall cancel_job' now',
              cancel_batch_job (snd answer) batch_id cancel_job' now'
              = (false, snd answer))
        /\ forall (env : BatchEnv) (offset : nat) (file_chunks : list (list string))
                  (successful failed : list string)
                  (seen : list BatchJobProgress) (later : Z),
             let st := process_chunks batch_id env offset
                         {| loop_self := snd answer; loop_successful := successful;
                            loop_failed := failed; observed := seen |}
                         file_chunks in
             batch_status
               (_complete_batch_job (loop_self st) batch_id (loop_successful st)
                  (loop_failed st) later) batch_id
             = Some COMPLETED).
Proof.
  intros self batch_id cancel_job now. cbv zeta. unfold cancel_batch_job.
  destruct (active_batch_jobs self !! batch_id) as [batch_job |] eqn:Hfind;
    [| split; [reflexivity | discriminate]].
  destruct (is_terminal (status batch_job)) eqn:Hterm;
    [split; [reflexivity | discriminate] |].
  split; [discriminate |]. intros _. cbn [fst snd].
  set (cancelled := put_batch _ batch_id _).
  assert (Hcancelled : exists bj, active_batch_jobs cancelled !! batch_id = Some bj
                                  /\ status bj = CANCELLED).
  { eexists. split; [apply lookup_insert_eq | reflexivity]. }
  destruct Hcancelled as (bj & Hbj & Hst).
  split; [unfold batch_status; rewrite Hbj; cbn; rewrite Hst; reflexivity |].
  split.
  - intros cancel_job' now'. rewrite Hbj, Hst. reflexivity.
  - intros env offset file_chunks successful failed seen later.
    match goal with
    | |- context [process_chunks batch_id env offset ?st0 file_chunks] =>
        destruct (process_chunks_on_file batch_id env file_chunks offset st0)
          as [bj' Hbj']
    end.
    { exists bj. exact Hbj. }
    unfold _complete_batch_job, batch_status. rewrite Hbj'.
    cbn. rewrite lookup_insert_eq. reflexivity.
Qed.

Definition refuse (job : Job) : Job := job.

Lemma cancel_batch_job_is_overwritten_witness :
  batch_status (snd (cancel_batch_job (processor_with 2) "batch-1" refuse 5)) "batch-1"
  = Some CANCELLED
  /\ (forall cancel_job' now',
        cancel_batch_job (snd (cancel_batch_job (processor_with 2) "batch-1" refuse 5))
          "batch-1" cancel_job' now'
        = (false, snd (cancel_batch_job (processor_with 2) "batch-1" refuse 5)))
  /\ forall (env : BatchEnv) (offset : nat) (file_chunks : list (list string))
            (successful failed : list string) (seen : list BatchJobProgress)
            (later : Z),
       batch_status
         (_complete_batch_job
            (loop_self
               (process_chunks "batch-1" env offset
                  {| loop_self :=
                       snd (cancel_batch_job (processor_with 2) "batch-1" refuse 5);
                     loop_successful := successful; loop_failed := failed;
                     observed := seen |} file_chunks))
            "batch-1"
            (loop_successful
               (process_chunks "batch-1" env offset
                  {| loop_self :=
                       snd (cancel_batch_job (processor_with 2) "batch-1" refuse 5);
                     loop_successful := successful; loop_failed := failed;
                     observed := seen |} file_chunks))
            (loop_failed
               (process_chunks "batch-1" env offset
                  {| loop_self :=
                       snd (cancel_batch_job (processor_with 2) "batch-1" refuse 5);
                     loop_successful := successful; loop_failed := failed;
                     observed := seen |} file_chunks))
            later) "batch-1"
       = Some COMPLETED.
Proof.
  apply (proj2 (cancel_batch_job_is_overwritten (processor_with 2) "batch-1" refuse 5)).
  reflexivity.
Defined.

End BatchProcessorBehaviour.
